(* ===== verification/_CoqProject ===== *)
-Q . S2P
Prelude.v
Text.v
DecimalSpec.v
RefDecimal.v
Json.v
Platform.v
Domain.v
Venue.v
Fixtures.v
Risk.v
Schema.v
StoreIntents.v
StoreRisk.v
StoreOrders.v
StoreControl.v
StorePaper.v
StoreQueries.v
PaperVenue.v
Config.v
StoreFixtures.v
StoreLogic.v
Auth.v
Paging.v
PaperFills.v
Lifecycle.v
History.v
Events.v
Outbox.v
PaperLedger.v
Submission.v
Control.v
OrderHistory.v
Coordinator.v
ApiCore.v
Api.v
CoordinatorSteps.v
CoordinatorHistory.v
Moves.v
CoordinatorFixtures.v
Freshness.v
PaperInterface.v
Streams.v
Handlers.v
Repeats.v
Listings.v
Progress.v
Polymarket.v
LiveVenue.v
OpenApi.v
Router.v
Contract.v
Main.v
Backups.v
Service.v
PaperAccount.v
