(* ===== verification/Prelude.v ===== *)
(** * Verification library for oddsfox-execution: header and prelude

    ** The program

    [oddsfox-execution] takes order intents over HTTP, checks them against a risk
    policy, submits them to a venue - the Polymarket exchange or a simulation - and
    keeps a durable journal of what it did.  Its parts, each a file under [src/src/]:

    - [domain.rs]: requests, records and their validation;
    - [config.rs], [auth.rs], [risk.rs]: the configuration, the bearer tokens with
      their scopes, the risk policy;
    - [store.rs] and [migrations/]: the SQLite database behind one lock for the
      writers, with the event journal and its broadcast channel;
    - [venue/mod.rs], [venue/paper.rs], [venue/polymarket.rs]: the trait of a venue
      and its two implementations;
    - [execution.rs]: the coordinator - the worker of the queue, submissions,
      cancellations, reconciliations, heartbeats, halt, resume, start and stop;
    - [api.rs], [main.rs]: the routes and handlers, the command line.

    A request passes [Router.handle], a handler of [Api], the operations of the store
    and, through the queue, the turns of the coordinator, which call the store and
    the venue.  The model keeps this shape: the handlers are programs over an
    [ApiWorld], which holds the coordinator's [World], which holds the database
    [Sys] and the state of the venue.

    ** How the code is modelled

    A function that may fail, panic and change state is a [Prog S E A] below: it
    returns [Done], [Failed] or [Panicked] and a state, which survives a failure.
    A transaction of the store ([Schema.transaction]) restores the tables.  An
    [await] of the coordinator ([Coordinator.await]) is a point at which the process
    may stop or other tasks may run; a [Schedule] says which.  A call of the venue
    has a deadline, at which it may be cut after part of its effect.  What other tasks do at an
    [await] is done to the database and the venue; the queue in memory, whose places
    the permits keep, is that of the task at hand.  A machine
    integer is a [Z] with the checks and the saturation of the source; a [Decimal]
    is abstract ([DecimalSpec]: the arithmetic of the crate, rounding and overflow
    included; [RefDecimal] is an instance for the witnesses).  Strings are their
    UTF-8 bytes, time is nanoseconds, a table is the list of its rows.

    Clocks, identifiers, hashes, text formats ([Platform], [Codec], [CursorCodec],
    [Sha256], [Environment], [Extractors], [BackupFormats]), the exchange's SDK
    ([PolymarketSdk], [KeyFile]) and the schedule are classes: arguments of the
    definitions that use them.  Where a theorem needs a law of one of them, the law
    is a class or a hypothesis of its own ([DecimalLaws], [BackupLaws], ...), and a
    witness instantiates it.

    ** The files

    - Prelude, [Text], [Json], [DecimalSpec], [RefDecimal], [Platform]: what the
      language, its standard library and the crates provide.
    - [Domain] (domain.rs), [Risk] (risk.rs), [Config] (config.rs), [Auth] (auth.rs),
      [Venue] (venue/mod.rs).
    - store.rs: [Schema] has the tables, keys, statements and the journal;
      [StoreIntents], [StoreRisk], [StoreOrders], [StoreControl], [StorePaper] and
      [StoreQueries] have the operations, and [Backups] the files of a backup.
    - Properties of the store: [StoreLogic] is the calculus ([frames], [keeps],
      [run_inv]); [Lifecycle] has the invariant of intents, orders and reservations
      and the rules [store_op] of the histories; [History] and [OrderHistory] state
      once what an invariant over the journal, the control row, the keys, the
      backups or the orders needs to last; [Events], [Outbox], [Control],
      [Submission], [PaperLedger] apply them.
    - [PaperVenue] (venue/paper.rs), with [PaperFills], [PaperInterface] and
      [PaperAccount]; [Polymarket] (venue/polymarket.rs), with [LiveVenue].
    - [Coordinator] (execution.rs); [CoordinatorSteps] is the calculus of what a
      stretch of its work may do to the world ([advance], [runs]), and
      [CoordinatorHistory] has the histories [world_step] of its tasks; [Moves],
      [Freshness] and [Progress] have the rest of its theorems.
    - [ApiCore], [Api], [Router], [OpenApi] (api.rs), with [Streams], [Handlers],
      [Repeats], [Paging], [Listings] and [Contract]; [Main] (main.rs).
    - [Service] puts the parts together: [Store::open] with its lock and identity
      (store.rs), [ExecutionCoordinator::start] with its loops (execution.rs), the
      choice of the venue, and [serve] from its files to its end (main.rs); its
      [run] is the life of one process, over a venue given by [VenueFactory], of
      which [ServeVenues] is the one of the program.
    - [Fixtures], [StoreFixtures], [CoordinatorFixtures]: concrete inputs.

    ** What the theorems show

    - Nothing is submitted twice: an order is submitted at most once over all the runs
      of [serve] on a database - stops at any [await], restarts, deadlines, other
      configurations and concurrent tasks included; the live venue posts the
      persisted order once and takes no doubtful answer for a refusal.
    - The service: nothing trades before the files, the database and its account are
      checked; a database keeps its mode and account for good; a service that has
      ended in order stays HALTED until somebody resumes it.
    - Stopping is safe: a halt is latched over restarts, a shutdown that wrote its
      first state needs a resume, whatever became of it, a service that is not READY
      submits nothing, doubt halts it, and a gap in a live stream stops the
      heartbeat until it is reconciled.
    - State machines: intents move along their edges, every order fits its intent,
      and an intent's turn leaves nothing half way.
    - Requests: a submission is admitted, answered from its record or refused
      exactly as its key, the queue, the rate and the service say; a control request
      is carried out once; nothing is changed without the scope for it; a command of
      the client gets to its handler with its actor, key and body; the published
      contract has exactly the operations of the router, and says what they need.
    - The journal: events are broadcast once; a client of the stream receives every
      retained event once, in order, and then the later ones once, as they are
      broadcast, which is not always in the order of their numbers; a client of a
      listing visits each row once and, unless rows keep coming, gets to the end;
      failed operations change nothing, a COMPLETE backup verifies, and what is
      pruned in live mode is in one.
    - Money: an approved order keeps every limit of the policy and, in live mode, is
      allowed by name; a rejection has its reason; fills and evidence are exact; the
      paper account never goes below zero; books that the live venue serves are in
      order.
    - Configuration, tokens and requests are accepted exactly when well formed.

    ** Fuel and bounds

    Only the loops that the source bounds have fuel, and it is the source's bound:
    100 polls of a WebSocket channel ([wait_for_ws]), 100 pages of orders and of
    trades and 21 of positions in a live reconciliation, 10000 events of a replay.
    Every other recursion is on a list.  The worker takes one intent per turn, so a
    history has as many turns as it has steps.

    ** Not modelled

    - The SQLite engine, its file format and locks, and the migrations as SQL: the
      tables, keys and defaults they define are [Schema]; the lock of the writers
      makes an operation of the store one step.
    - The HTTP library with its layers (the limit of the body, the request deadline,
      request ids, graceful shutdown), the derived [Serialize] and [Deserialize],
      TOML: arguments or left out.
    - The tasks of the WebSocket connections: the messages they deliver are a
      sequence that the model is given.
    - [print_json], [init_tracing], [shutdown_signal], [metrics_router] and the
      metrics: calls of libraries.
    - The permissions of the database and backup files are outcomes of calls; that two
      processes cannot both hold the lock of a database is the lock's own contract.

    ** This file

    The outcome and program types, their notations and rules, and the lemmas and
    tactics on lists, options and integers that the other files share. *)

From stdpp Require Export base tactics list strings numbers gmap sets.
From Stdlib Require Export QArith Lqa.

(** QArith opens [Q_scope] and redefines nothing else; the development works
    with stdpp's conventions and opens [Q_scope] only locally. *)
Close Scope Q_scope.
Open Scope string_scope.
Open Scope Z_scope.
Open Scope stdpp_scope.
Open Scope list_scope.

(** Names of the string library, whose module stdpp does not export. *)
Abbreviation list_ascii_of_string := Stdlib.Strings.String.list_ascii_of_string.
Abbreviation string_of_list_ascii := Stdlib.Strings.String.string_of_list_ascii.
Abbreviation string_length := Stdlib.Strings.String.length.

Declare Scope exec_scope.
Delimit Scope exec_scope with exec.
Infix "==" := Qeq (at level 70, no associativity) : exec_scope.
Open Scope exec_scope.

(** ** Outcomes *)

(** What a call of the program can produce: a value, an error value of the
    [Result] type the Rust function returns, or a panic (an [expect] that
    fails, an arithmetic overflow of the decimal library). *)
Inductive outcome (E A : Type) : Type :=
| Done (a : A)
| Failed (e : E)
| Panicked.
Arguments Done {E A} a.
Arguments Failed {E A} e.
Arguments Panicked {E A}.

#[export] Instance outcome_ret {E} : MRet (outcome E) := λ A a, Done a.
#[export] Instance outcome_bind {E} : MBind (outcome E) := λ A B k o,
  match o with
  | Done a => k a
  | Failed e => Failed e
  | Panicked => Panicked
  end.

(** [Result::map_err]. *)
Definition map_err {E E' A} (f : E → E') (o : outcome E A) : outcome E' A :=
  match o with
  | Done a => Done a
  | Failed e => Failed (f e)
  | Panicked => Panicked
  end.

(** [Option::ok_or]. *)
Definition ok_or {E A} (e : E) (o : option A) : outcome E A :=
  match o with Some a => Done a | None => Failed e end.

(** A partial operation whose failure is a panic. *)
Definition or_panic {E A} (o : option A) : outcome E A :=
  match o with Some a => Done a | None => Panicked end.

(** [if cond { return Err(e) }]. *)
Definition reject_if {E} (b : bool) (e : E) : outcome E unit :=
  if b then Failed e else Done tt.

(** ** Programs: state, errors and panics *)

(** The state survives an error: a function that fails half way leaves what
    it has done.  Transactions (file Sql) restore the tables explicitly. *)
Definition Prog (S E A : Type) : Type := S → outcome E A * S.

#[export] Instance prog_ret {S E} : MRet (Prog S E) := λ A a s, (Done a, s).
#[export] Instance prog_bind {S E} : MBind (Prog S E) := λ A B k m s,
  match m s with
  | (Done a, s') => k a s'
  | (Failed e, s') => (Failed e, s')
  | (Panicked, s') => (Panicked, s')
  end.

Section ops.
Context {S E : Type}.

Definition lift {A} (o : outcome E A) : Prog S E A := λ s, (o, s).
Definition fail {A} (e : E) : Prog S E A := λ s, (Failed e, s).
Definition gets {A} (f : S → A) : Prog S E A := λ s, (Done (f s), s).
Definition modify (f : S → S) : Prog S E unit := λ s, (Done tt, f s).

(** [if !cond { return Err(e) }]. *)
Definition ensure (b : bool) (e : E) : Prog S E unit :=
  if b then mret tt else fail e.

(** A [for] loop over a list, in order. *)
Fixpoint for_each {A} (l : list A) (body : A → Prog S E unit) : Prog S E unit :=
  match l with
  | [] => mret tt
  | a :: l' => body a ;; for_each l' body
  end.

(** A [for] loop that pushes one result per element. *)
Fixpoint for_collect {A B} (l : list A) (body : A → Prog S E B) : Prog S E (list B) :=
  match l with
  | [] => mret []
  | a :: l' => b ← body a; bs ← for_collect l' body; mret (b :: bs)
  end.
End ops.

(** A match on the [Result] of a call that the caller handles itself. *)
Definition try {S E E' A} (m : Prog S E A) : Prog S E' (E + A) := λ s,
  match m s with
  | (Done a, s') => (Done (inr a), s')
  | (Failed e, s') => (Done (inl e), s')
  | (Panicked, s') => (Panicked, s')
  end.

(** The [?] operator with its [From] conversion. *)
Definition with_err {S E E' A} (f : E → E') (m : Prog S E A) : Prog S E' A := λ s,
  let '(o, s') := m s in (map_err f o, s').

(** ** Postconditions *)

(** [post m s Q]: when [m] started in [s] returns normally, [Q] holds of its
    result and final state. *)
Definition post {S E A} (m : Prog S E A) (s : S) (Q : A → S → Prop) : Prop :=
  match m s with (Done a, s') => Q a s' | _ => True end.

(** [returns m s a s']: [m] started in [s] returns [a] and ends in [s']. *)
Definition returns {S E A} (m : Prog S E A) (s : S) (a : A) (s' : S) : Prop :=
  m s = (Done a, s').

Section rules.
Context {S E : Type}.

Lemma bind_bind {A B C} (m : Prog S E A) (k : A → Prog S E B) (k' : B → Prog S E C) s :
  ((m ≫= k) ≫= k') s = (m ≫= λ a, k a ≫= k') s.
Proof. unfold mbind, prog_bind. by destruct (m s) as [[]]. Qed.
Lemma bind_done {A B} (m : Prog S E A) (k : A → Prog S E B) s b s' :
  (m ≫= k) s = (Done b, s') ↔
  ∃ a s1, m s = (Done a, s1) ∧ k a s1 = (Done b, s').
Proof.
  unfold mbind, prog_bind. split.
  - destruct (m s) as [[a|e|] s1] eqn:Hm; [|done..]. eauto.
  - intros (a & s1 & -> & Hk). done.
Qed.

Lemma bind_failed {A B} (m : Prog S E A) (k : A → Prog S E B) s e s' :
  (m ≫= k) s = (Failed e, s') ↔
  m s = (Failed e, s') ∨ ∃ a s1, m s = (Done a, s1) ∧ k a s1 = (Failed e, s').
Proof.
  unfold mbind, prog_bind. split.
  - destruct (m s) as [[a|e'|] s1] eqn:Hm; intros H.
    + right. eauto.
    + left. injection H as -> ->. done.
    + discriminate H.
  - intros [-> | (a & s1 & -> & Hk)]; done.
Qed.

Lemma ret_done {A} (a b : A) (s s' : S) :
  (mret a : Prog S E A) s = (Done b, s') ↔ b = a ∧ s' = s.
Proof. unfold mret, prog_ret. split; [intros [= <- <-]; done | intros [-> ->]; done]. Qed.

Lemma lift_done {A} (o : outcome E A) (s s' : S) b :
  lift o s = (Done b, s') ↔ o = Done b ∧ s' = s.
Proof. unfold lift. split; [intros [= <- <-]; done | intros [-> ->]; done]. Qed.

Lemma fail_done {A} (e : E) (s s' : S) (b : A) :
  fail e s = (Done b, s') ↔ False.
Proof. split; [discriminate | done]. Qed.

Lemma gets_done {A} (f : S → A) (s s' : S) b :
  (gets f : Prog S E A) s = (Done b, s') ↔ b = f s ∧ s' = s.
Proof. unfold gets. split; [intros [= <- <-]; done | intros [-> ->]; done]. Qed.

Lemma modify_done (f : S → S) (s s' : S) b :
  (modify f : Prog S E unit) s = (Done b, s') ↔ s' = f s.
Proof. destruct b. unfold modify. split; [intros [= <-]; done | intros ->; done]. Qed.

Lemma ensure_done (c : bool) (e : E) (s s' : S) b :
  ensure c e s = (Done b, s') ↔ c = true ∧ s' = s.
Proof.
  destruct b, c; unfold ensure.
  - rewrite ret_done. split; [intros [_ ->] | intros [_ ->]]; done.
  - rewrite fail_done. split; [done | intros [? _]; discriminate].
Qed.

(** A loop keeps an invariant that every iteration keeps. *)
Lemma for_each_inv {A} (I : S → Prop) (l : list A) (body : A → Prog S E unit) s s' :
  (∀ a s1 s2, a ∈ l → I s1 → body a s1 = (Done tt, s2) → I s2) →
  I s → for_each l body s = (Done tt, s') → I s'.
Proof.
  revert s. induction l as [|a l IH]; intros s Hbody HI; cbn.
  - intros [_ ->]%ret_done. done.
  - intros ([] & s1 & Ha & Hl)%bind_done.
    eapply IH; [|eapply Hbody; [..|exact Ha]|exact Hl]; [|by left|done].
    intros b s2 s3 Hb. apply Hbody. by right.
Qed.

Lemma for_collect_inv {A B} (I : S → Prop) (l : list A) (body : A → Prog S E B) s bs s' :
  (∀ a b s1 s2, a ∈ l → I s1 → body a s1 = (Done b, s2) → I s2) →
  I s → for_collect l body s = (Done bs, s') → I s'.
Proof.
  revert s bs. induction l as [|a l IH]; intros s bs Hbody HI; cbn.
  - intros [_ ->]%ret_done. done.
  - intros (b & s1 & Ha & (bs' & s2 & Hl & [_ ->]%ret_done)%bind_done)%bind_done.
    eapply IH; [|eapply Hbody; [..|exact Ha]|exact Hl]; [|by left|done].
    intros a' b' s3 s4 Hb. apply Hbody. by right.
Qed.
End rules.

Lemma outcome_bind_done {E A B} (o : outcome E A) (k : A → outcome E B) b :
  (o ≫= k) = Done b ↔ ∃ a, o = Done a ∧ k a = Done b.
Proof.
  split.
  - destruct o; [eauto | discriminate..].
  - intros (a & -> & Hk). done.
Qed.

Lemma reject_if_done {E} (c : bool) (e : E) u :
  reject_if c e = Done u ↔ c = false.
Proof. destruct c, u; cbn; naive_solver. Qed.

Lemma ok_or_done {E A} (e : E) (o : option A) a :
  ok_or e o = Done a ↔ o = Some a.
Proof. destruct o; cbn; naive_solver. Qed.

Lemma or_panic_done {E A} (o : option A) a :
  (or_panic o : outcome E A) = Done a ↔ o = Some a.
Proof. destruct o; cbn; naive_solver. Qed.

Lemma map_err_done {E E' A} (f : E → E') (o : outcome E A) a :
  map_err f o = Done a ↔ o = Done a.
Proof. destruct o; cbn; naive_solver. Qed.

(** [run_inv]: take apart every hypothesis that says a program or a fallible
    computation returned normally, one step of its code at a time. *)
Ltac run_inv_step :=
  match goal with
  | H : (_ ≫= _) _ = (Done _, _) |- _ =>
      apply bind_done in H; destruct H as (? & ? & ? & ?)
  | H : (_ ≫= _) = Done _ |- _ =>
      apply outcome_bind_done in H; destruct H as (? & ? & ?)
  | H : mret _ _ = (Done _, _) |- _ =>
      apply ret_done in H; destruct H as [? ?]; subst
  | H : lift _ _ = (Done _, _) |- _ =>
      apply lift_done in H; destruct H as [? ?]; subst
  | H : fail _ _ = (Done _, _) |- _ => apply fail_done in H; destruct H
  | H : gets _ _ = (Done _, _) |- _ =>
      apply gets_done in H; destruct H as [? ?]; subst
  | H : modify _ _ = (Done _, _) |- _ => apply modify_done in H; subst
  | H : ensure _ _ _ = (Done _, _) |- _ =>
      apply ensure_done in H; destruct H as [? ?]; subst
  | H : reject_if _ _ = Done _ |- _ => apply reject_if_done in H
  | H : ok_or _ _ = Done _ |- _ => apply ok_or_done in H
  | H : or_panic _ = Done _ |- _ => apply or_panic_done in H
  | H : map_err _ _ = Done _ |- _ => apply map_err_done in H
  | H : Done _ = Done _ |- _ => injection H as H; subst
  | H : (Done _, _) = (Done _, _) |- _ => injection H as H; subst
  | H : Failed _ = Done _ |- _ => discriminate H
  | H : Panicked = Done _ |- _ => discriminate H
  | H : (Failed _, _) = (Done _, _) |- _ => discriminate H
  | H : (Panicked, _) = (Done _, _) |- _ => discriminate H
  | x : unit |- _ => destruct x
  end.
Ltac run_inv := repeat run_inv_step.

(** ** Record update *)

(** [Eta R] gives the constructor of [R] applied to its projections; the
    instances let [r <| f := v |>] replace one field. *)
Class Eta (R : Type) : Type := eta : R → R.
Class Setter {R T : Type} (proj : R → T) : Type := set_field : (T → T) → R → R.
Arguments set_field {R T} proj {_} _ _ /.

Ltac derive_setter :=
  match goal with
  | |- Setter (R:=?R) ?proj =>
      let e := constr:(_ : Eta R) in
      let h := eval hnf in e in
      let u := fresh "u" in
      let x := fresh "x" in
      intros u x;
      let body := eval cbv beta in (h x) in
      let abs := eval pattern (proj x) in body in
      match abs with
      | ?g _ => let res := eval cbv beta in (g (u (proj x))) in exact res
      end
  end.
#[export] Hint Extern 1 (Setter _) => derive_setter : typeclass_instances.

#[warnings="-postfix-notation-not-level-1"]
Notation "r '<|' f := v '|>'" := (set_field f (λ _, v) r)
  (at level 12, left associativity, f at level 9,
   format "r  '<|' f  :=  v '|>'") : stdpp_scope.
