(* ===== verification/Text.v ===== *)
(** * Text: the string functions of the Rust standard library the code uses

    A Rust [&str] is its UTF-8 byte sequence, kept as a Rocq [string] of
    bytes; [str::len] is [String.length]. *)
From Stdlib Require Import Ascii.
From S2P Require Import Prelude.

Definition bytes (s : string) : list N := N_of_ascii <$> list_ascii_of_string s.

Definition byte_in (lo hi b : N) : bool := (lo <=? b)%N && (b <=? hi)%N.

(** [u8::is_ascii_digit], [u8::is_ascii_hexdigit], [u8::is_ascii_graphic]. *)
Definition is_ascii_digit (b : N) : bool := byte_in 48 57 b.
Definition is_ascii_hexdigit (b : N) : bool :=
  byte_in 48 57 b || byte_in 65 70 b || byte_in 97 102 b.
Definition is_ascii_graphic (b : N) : bool := byte_in 33 126 b.

(** [s.bytes().all(p)]. *)
Definition all_bytes (p : N → bool) (s : string) : bool := forallb p (bytes s).

(** [str::is_empty]. *)
Definition is_empty (s : string) : bool := bool_decide (s = "").

(** The Unicode White_Space characters, by the length of their UTF-8 form. *)
Definition whitespace1 (b : N) : bool := byte_in 9 13 b || (b =? 32)%N.
Definition whitespace2 (b1 b2 : N) : bool :=
  (b1 =? 194)%N && ((b2 =? 133)%N || (b2 =? 160)%N).
Definition whitespace3 (b1 b2 b3 : N) : bool :=
  ((b1 =? 225)%N && (b2 =? 154)%N && (b3 =? 128)%N) ||
  ((b1 =? 226)%N && (b2 =? 128)%N &&
     (byte_in 128 138 b3 || (b3 =? 168)%N || (b3 =? 169)%N || (b3 =? 175)%N)) ||
  ((b1 =? 226)%N && (b2 =? 129)%N && (b3 =? 159)%N) ||
  ((b1 =? 227)%N && (b2 =? 128)%N && (b3 =? 128)%N).

(** The byte sequence holds nothing but white space. *)
Fixpoint blank_bytes (l : list N) : bool :=
  match l with
  | [] => true
  | b1 :: l1 =>
      if whitespace1 b1 then blank_bytes l1
      else match l1 with
           | [] => false
           | b2 :: l2 =>
               if whitespace2 b1 b2 then blank_bytes l2
               else match l2 with
                    | [] => false
                    | b3 :: l3 => whitespace3 b1 b2 b3 && blank_bytes l3
                    end
           end
  end.

(** [s.trim().is_empty()]. *)
Definition trim_is_empty (s : string) : bool := blank_bytes (bytes s).

(** [str::to_ascii_lowercase]. *)
Definition lower_ascii (c : ascii) : ascii :=
  let b := N_of_ascii c in
  if byte_in 65 90 b then ascii_of_N (b + 32) else c.
Fixpoint to_ascii_lowercase (s : string) : string :=
  match s with
  | EmptyString => EmptyString
  | String c s' => String (lower_ascii c) (to_ascii_lowercase s')
  end.

(** [str::strip_prefix] with a string pattern. *)
Fixpoint strip_prefix (p s : string) : option string :=
  match p, s with
  | EmptyString, _ => Some s
  | String a p', String b s' => if Ascii.eqb a b then strip_prefix p' s' else None
  | String _ _, EmptyString => None
  end.

Definition starts_with (p s : string) : bool := bool_decide (is_Some (strip_prefix p s)).

(** [str::split] at a character: one piece more than there are separators. *)
Fixpoint split_at (sep : ascii) (s : string) : list string :=
  match s with
  | EmptyString => [""]
  | String c s' =>
      if Ascii.eqb c sep then "" :: split_at sep s'
      else match split_at sep s' with
           | piece :: rest => String c piece :: rest
           | [] => [String c ""]
           end
  end.

(** [[String]::join]. *)
Fixpoint join (sep : string) (l : list string) : string :=
  match l with
  | [] => ""
  | [s] => s
  | s :: l' => s +:+ sep +:+ join sep l'
  end.

(** [str::trim_matches] and [str::trim_end_matches] with a character. *)
Fixpoint drop_while (c : ascii) (l : list ascii) : list ascii :=
  match l with
  | [] => []
  | a :: l' => if Ascii.eqb a c then drop_while c l' else l
  end.
Definition trim_end_matches (c : ascii) (s : string) : string :=
  string_of_list_ascii (reverse (drop_while c (reverse (list_ascii_of_string s)))).
Definition trim_matches (c : ascii) (s : string) : string :=
  trim_end_matches c (string_of_list_ascii (drop_while c (list_ascii_of_string s))).

(** [str::contains] with a string pattern. *)
Fixpoint str_contains (p s : string) : bool :=
  starts_with p s || match s with EmptyString => false | String _ s' => str_contains p s' end.

(** [str::trim]: the white space at both ends, character by character; the
    second function reads the bytes from the end. *)
Fixpoint trim_start (l : list N) : list N :=
  match l with
  | [] => []
  | b1 :: l1 =>
      if whitespace1 b1 then trim_start l1
      else match l1 with
           | [] => l
           | b2 :: l2 =>
               if whitespace2 b1 b2 then trim_start l2
               else match l2 with
                    | [] => l
                    | b3 :: l3 => if whitespace3 b1 b2 b3 then trim_start l3 else l
                    end
           end
  end.
Fixpoint trim_back (l : list N) : list N :=
  match l with
  | [] => []
  | b1 :: l1 =>
      if whitespace1 b1 then trim_back l1
      else match l1 with
           | [] => l
           | b2 :: l2 =>
               if whitespace2 b2 b1 then trim_back l2
               else match l2 with
                    | [] => l
                    | b3 :: l3 => if whitespace3 b3 b2 b1 then trim_back l3 else l
                    end
           end
  end.
Definition of_bytes (l : list N) : string := string_of_list_ascii (ascii_of_N <$> l).
Definition trim (s : string) : string :=
  of_bytes (reverse (trim_back (reverse (trim_start (bytes s))))).

(** [s.chars().count()]: the bytes that do not continue a character. *)
Definition char_count (s : string) : nat :=
  length (List.filter (λ b, negb (byte_in 128 191 b)) (bytes s)).

(** [str::strip_suffix] with a string pattern. *)
Definition strip_suffix (p s : string) : option string :=
  let reversed s := string_of_list_ascii (reverse (list_ascii_of_string s)) in
  reversed <$> strip_prefix (reversed p) (reversed s).

(** ** Lemmas *)

Lemma string_app_assoc (a b c : string) : (a +:+ b) +:+ c = a +:+ b +:+ c.
Proof. induction a as [|x a IH]; [done|]. exact (f_equal (String x) IH). Qed.

Lemma strip_prefix_spec p s rest : strip_prefix p s = Some rest ↔ s = p +:+ rest.
Proof.
  revert s. induction p as [|a p IH]; intros s; cbn.
  - split; [by intros [= ->] | by intros ->].
  - destruct s as [|b s]; [split; discriminate|].
    destruct (Ascii.eqb_spec a b) as [->|Hne].
    + rewrite IH. split; [by intros -> | by intros [= ->]].
    + split; [discriminate | by intros [= ->]].
Qed.

Lemma starts_with_spec p s : starts_with p s = true ↔ ∃ rest, s = p +:+ rest.
Proof.
  unfold starts_with. rewrite bool_decide_eq_true. split.
  - intros [r Hr%strip_prefix_spec]. eauto.
  - intros [r Hr]. exists r. by apply strip_prefix_spec.
Qed.

Lemma split_at_nonempty sep s : split_at sep s ≠ [].
Proof.
  destruct s as [|c s]; cbn; [done|].
  destruct (Ascii.eqb c sep); [done|].
  by destruct (split_at sep s).
Qed.

(** A string without the separator is one piece. *)
Lemma split_at_none sep s :
  sep ∉ list_ascii_of_string s → split_at sep s = [s].
Proof.
  induction s as [|c s IH]; cbn; [done|]. intros Hs.
  apply not_elem_of_cons in Hs as [Hc Hs].
  destruct (Ascii.eqb_spec c sep) as [->|_]; [done|].
  by rewrite IH.
Qed.

Lemma split_at_app_sep sep s t :
  sep ∉ list_ascii_of_string s →
  split_at sep (s +:+ String sep t) = s :: split_at sep t.
Proof.
  induction s as [|c s IH]; intros Hs.
  - change ("" +:+ String sep t) with (String sep t).
    cbn. by rewrite Ascii.eqb_refl.
  - cbn in Hs. apply not_elem_of_cons in Hs as [Hc Hs].
    change ((String c s +:+ String sep t)) with (String c (s +:+ String sep t)).
    cbn. destruct (Ascii.eqb_spec c sep) as [->|_]; [done|].
    by rewrite IH.
Qed.

(** Splitting what [join] put together gives the pieces back. *)
Lemma split_join sep l :
  l ≠ [] → Forall (λ s, sep ∉ list_ascii_of_string s) l →
  split_at sep (join (String sep "") l) = l.
Proof.
  intros Hne Hl. induction Hl as [|s l Hs Hl IH]; [done|].
  destruct l as [|s' l].
  - cbn. by apply split_at_none.
  - change (join (String sep "") (s :: s' :: l))
      with (s +:+ String sep (join (String sep "") (s' :: l))).
    rewrite split_at_app_sep by done. by rewrite IH.
Qed.

(** A string and its characters. *)
Lemma list_ascii_app a b :
  list_ascii_of_string (a +:+ b) = list_ascii_of_string a ++ list_ascii_of_string b.
Proof.
  induction a as [|c a IH]; [done|].
  change (c :: list_ascii_of_string (a +:+ b) = c :: (list_ascii_of_string a ++ list_ascii_of_string b)).
  by rewrite IH.
Qed.
Lemma list_ascii_inj a b : list_ascii_of_string a = list_ascii_of_string b → a = b.
Proof.
  intros E. by rewrite <-(Stdlib.Strings.String.string_of_list_ascii_of_string a), E, Stdlib.Strings.String.string_of_list_ascii_of_string.
Qed.
Lemma string_app_nil_r a : a +:+ "" = a.
Proof. apply list_ascii_inj. by rewrite list_ascii_app, app_nil_r. Qed.
Lemma strip_suffix_spec p s rest : strip_suffix p s = Some rest ↔ s = rest +:+ p.
Proof.
  unfold strip_suffix. rewrite fmap_Some. setoid_rewrite strip_prefix_spec.
  set (rev := λ s, string_of_list_ascii (reverse (list_ascii_of_string s))).
  assert (∀ a, list_ascii_of_string (rev a) = reverse (list_ascii_of_string a)) as Hl
    by (intros a; apply Stdlib.Strings.String.list_ascii_of_string_of_list_ascii).
  assert (∀ a, rev (rev a) = a) as Hrr.
  { intros a. apply list_ascii_inj. by rewrite !Hl, reverse_involutive. }
  assert (∀ a b, rev (a +:+ b) = rev b +:+ rev a) as Hra.
  { intros a b. apply list_ascii_inj. by rewrite list_ascii_app, !Hl, list_ascii_app, reverse_app. }
  split.
  - intros (x & Hx & ->). fold (rev x). apply list_ascii_inj. change (rev s = rev p +:+ x) in Hx.
    by rewrite <-(Hrr s), Hx, Hra, Hrr.
  - intros ->. exists (rev rest). split; [apply Hra|]. symmetry. apply Hrr.
Qed.
Lemma string_length_list s : string_length s = length (list_ascii_of_string s).
Proof. induction s as [|c s IH]; [done|]. by apply (f_equal S). Qed.
Lemma char_count_le s : (char_count s <= string_length s)%nat.
Proof.
  unfold char_count, bytes. etrans; [apply filter_length_le|].
  by rewrite length_fmap, string_length_list.
Qed.
