(* ===== verification/DecimalSpec.v ===== *)
(** * DecimalSpec: the interface of the decimal type

    [rust_decimal::Decimal] is a crate the sources only call.  The model takes
    it as an argument: [DecimalOps] lists the operations the code uses, and
    [DecimalLaws] states what the crate documents about them.  A decimal is a
    96-bit integer mantissa with a scale of at most 28; an operation whose
    exact result has that form returns it, an operation whose result is too
    large panics, and so does a division by zero. *)
From Stdlib Require Import Qabs.
From S2P Require Import Prelude.

Class DecimalOps : Type := {
  Decimal : Type;
  dec_value : Decimal → Q;
  dec_cmp : Decimal → Decimal → comparison;
  dec_ZERO : Decimal;
  dec_ONE : Decimal;
  dec_new : Z → N → Decimal;
  dec_add : Decimal → Decimal → option Decimal;
  dec_sub : Decimal → Decimal → option Decimal;
  dec_mul : Decimal → Decimal → option Decimal;
  dec_div : Decimal → Decimal → option Decimal;
  dec_rem : Decimal → Decimal → option Decimal;
  dec_abs : Decimal → Decimal;
  dec_normalize : Decimal → Decimal;
  dec_scale : Decimal → N;
  dec_from_str : string → option Decimal;
  dec_from_str_exact : string → option Decimal;
  dec_to_string : Decimal → string;
}.

Definition pow10 (s : N) : positive := Z.to_pos (10 ^ Z.of_N s).

(** The numbers a decimal can hold. *)
Definition representable (q : Q) : Prop :=
  ∃ (m : Z) (s : N), Z.abs m < 2 ^ 96 ∧ (s ≤ 28)%N ∧ q == m # pow10 s.

(** A decision procedure for closed rationals: look for a scale that makes the
    number an integer. *)
Definition representable_at (q : Q) (s : nat) : bool :=
  let m := Qnum q * 10 ^ Z.of_nat s in
  (m mod Zpos (Qden q) =? 0) && (Z.abs (m / Zpos (Qden q)) <? 2 ^ 96).
Definition representable_b (q : Q) : bool := existsb (representable_at q) (seq 0 29).

Definition too_large (q : Q) : Prop := Qle (inject_Z (2 ^ 96)) (Qabs q).

(** The quotient rounded towards zero. *)
Definition Qtrunc (q : Q) : Z := Z.quot (Qnum q) (Zpos (Qden q)).

Class DecimalLaws `{DecimalOps} : Prop := {
  dec_cmp_spec a b : dec_cmp a b = (dec_value a ?= dec_value b)%Q;
  dec_ZERO_value : dec_value dec_ZERO == 0;
  dec_ONE_value : dec_value dec_ONE == 1;
  dec_new_value m s :
    Z.abs m < 2 ^ 63 → (s ≤ 28)%N → dec_value (dec_new m s) == m # pow10 s;
  dec_add_exact a b :
    representable (dec_value a + dec_value b) →
    ∃ c, dec_add a b = Some c ∧ dec_value c == dec_value a + dec_value b;
  dec_sub_exact a b :
    representable (dec_value a - dec_value b) →
    ∃ c, dec_sub a b = Some c ∧ dec_value c == dec_value a - dec_value b;
  dec_mul_exact a b :
    representable (dec_value a * dec_value b) →
    ∃ c, dec_mul a b = Some c ∧ dec_value c == dec_value a * dec_value b;
  dec_div_exact a b :
    ¬ dec_value b == 0 → representable (dec_value a / dec_value b) →
    ∃ c, dec_div a b = Some c ∧ dec_value c == dec_value a / dec_value b;
  dec_div_zero a b : dec_value b == 0 → dec_div a b = None;
  dec_div_overflow a b :
    ¬ dec_value b == 0 → too_large (dec_value a / dec_value b) → dec_div a b = None;
  dec_rem_zero a b : dec_value b == 0 → dec_rem a b = None;
  dec_rem_exact a b :
    ¬ dec_value b == 0 →
    ∃ c, dec_rem a b = Some c ∧
      dec_value c ==
        dec_value a - dec_value b * inject_Z (Qtrunc (dec_value a / dec_value b));
  dec_abs_value a : dec_value (dec_abs a) == Qabs (dec_value a);
  dec_normalize_value a : dec_value (dec_normalize a) == dec_value a;
  dec_scale_value a : ∃ m, dec_value a == m # pow10 (dec_scale a);
  dec_from_str_exact_lax s d :
    dec_from_str_exact s = Some d →
    ∃ d', dec_from_str s = Some d' ∧ dec_value d' == dec_value d;
  dec_to_string_from_str a :
    ∃ a', dec_from_str (dec_to_string a) = Some a' ∧ dec_value a' == dec_value a;
}.

(** ** Comparisons

    [PartialOrd], [PartialEq], [Ord::max] and [Ord::min] of the crate compare
    numerically: they are what [dec_cmp] says. *)
Section comparisons.
Context `{DecimalOps}.

Definition dec_lt (a b : Decimal) : bool :=
  match dec_cmp a b with Lt => true | _ => false end.
Definition dec_le (a b : Decimal) : bool :=
  match dec_cmp a b with Gt => false | _ => true end.
Definition dec_eq (a b : Decimal) : bool :=
  match dec_cmp a b with Eq => true | _ => false end.
Definition dec_gt (a b : Decimal) : bool := dec_lt b a.
Definition dec_ge (a b : Decimal) : bool := dec_le b a.
Definition dec_ne (a b : Decimal) : bool := negb (dec_eq a b).
Definition dec_max (a b : Decimal) : Decimal := if dec_lt a b then b else a.
Definition dec_min (a b : Decimal) : Decimal := if dec_gt a b then b else a.

(** [Iterator::max] (the last of the greatest) and [Iterator::min] (the first
    of the least). *)
Fixpoint dec_iter_max (l : list Decimal) : option Decimal :=
  match l with
  | [] => None
  | d :: l' => match dec_iter_max l' with
               | None => Some d
               | Some m => Some (if dec_gt d m then d else m)
               end
  end.
Fixpoint dec_iter_min (l : list Decimal) : option Decimal :=
  match l with
  | [] => None
  | d :: l' => match dec_iter_min l' with
               | None => Some d
               | Some m => Some (if dec_gt d m then m else d)
               end
  end.

(** [Iterator::sum]: repeated addition from zero, which may overflow. *)
Fixpoint dec_sum_from (acc : Decimal) (l : list Decimal) : option Decimal :=
  match l with
  | [] => Some acc
  | d :: l' => acc' ← dec_add acc d; dec_sum_from acc' l'
  end.
Definition dec_sum (l : list Decimal) : option Decimal := dec_sum_from dec_ZERO l.
End comparisons.

Notation "⟦ d ⟧" := (dec_value d) (at level 0, format "⟦ d ⟧") : exec_scope.
Open Scope exec_scope.

(** ** Lemmas *)

Lemma pow10_Z s : Zpos (pow10 s) = 10 ^ Z.of_N s.
Proof. unfold pow10. rewrite Z2Pos.id; [done|]. apply Z.pow_pos_nonneg; lia. Qed.

#[export] Instance representable_proper : Proper (Qeq ==> iff) representable.
Proof.
  intros p q Hpq. unfold representable.
  split; intros (m & s & Hm & Hs & Hq); exists m, s; by rewrite ?Hpq, ?Hq in *.
Qed.

Lemma representable_b_sound q : representable_b q = true → representable q.
Proof.
  unfold representable_b. rewrite existsb_exists. intros (s & Hs & Hat).
  apply in_seq in Hs. apply andb_true_iff in Hat as [Hmod Hlt].
  apply Z.eqb_eq in Hmod. apply Z.ltb_lt in Hlt.
  exists (Qnum q * 10 ^ Z.of_nat s / Zpos (Qden q)), (N.of_nat s).
  split_and!; [done|lia|]. unfold Qeq. cbn [Qnum Qden]. rewrite pow10_Z, nat_N_Z.
  apply Z.div_exact in Hmod; [|done]. rewrite Hmod at 1. ring.
Qed.

Section laws.
Context `{DL : DecimalLaws}.
Implicit Types a b c d : Decimal.

Lemma dec_lt_spec a b : dec_lt a b = true ↔ (⟦a⟧ < ⟦b⟧)%Q.
Proof.
  unfold dec_lt. rewrite dec_cmp_spec, Qlt_alt.
  by destruct (⟦a⟧ ?= ⟦b⟧)%Q.
Qed.

Lemma dec_le_spec a b : dec_le a b = true ↔ (⟦a⟧ <= ⟦b⟧)%Q.
Proof.
  unfold dec_le. rewrite dec_cmp_spec, Qle_alt.
  by destruct (⟦a⟧ ?= ⟦b⟧)%Q.
Qed.

Lemma dec_eq_spec a b : dec_eq a b = true ↔ ⟦a⟧ == ⟦b⟧.
Proof.
  unfold dec_eq. rewrite dec_cmp_spec, Qeq_alt.
  by destruct (⟦a⟧ ?= ⟦b⟧)%Q.
Qed.

Lemma dec_gt_spec a b : dec_gt a b = true ↔ (⟦b⟧ < ⟦a⟧)%Q.
Proof. apply dec_lt_spec. Qed.
Lemma dec_ge_spec a b : dec_ge a b = true ↔ (⟦b⟧ <= ⟦a⟧)%Q.
Proof. apply dec_le_spec. Qed.

Lemma dec_lt_false a b : dec_lt a b = false ↔ (⟦b⟧ <= ⟦a⟧)%Q.
Proof.
  rewrite <-not_true_iff_false, dec_lt_spec. split; [apply Qnot_lt_le | apply Qle_not_lt].
Qed.
Lemma dec_le_false a b : dec_le a b = false ↔ (⟦b⟧ < ⟦a⟧)%Q.
Proof.
  rewrite <-not_true_iff_false, dec_le_spec. split; [apply Qnot_le_lt | apply Qlt_not_le].
Qed.
Lemma dec_gt_false a b : dec_gt a b = false ↔ (⟦a⟧ <= ⟦b⟧)%Q.
Proof. apply dec_lt_false. Qed.
Lemma dec_ge_false a b : dec_ge a b = false ↔ (⟦a⟧ < ⟦b⟧)%Q.
Proof. apply dec_le_false. Qed.
Lemma dec_eq_false a b : dec_eq a b = false ↔ ¬ ⟦a⟧ == ⟦b⟧.
Proof. by rewrite <-not_true_iff_false, dec_eq_spec. Qed.
Lemma dec_ne_spec a b : dec_ne a b = true ↔ ¬ ⟦a⟧ == ⟦b⟧.
Proof. unfold dec_ne. rewrite negb_true_iff. apply dec_eq_false. Qed.
Lemma dec_ne_false a b : dec_ne a b = false ↔ ⟦a⟧ == ⟦b⟧.
Proof. unfold dec_ne. rewrite negb_false_iff. apply dec_eq_spec. Qed.

Lemma dec_max_ge_l a b : (⟦a⟧ <= ⟦dec_max a b⟧)%Q.
Proof.
  unfold dec_max. destruct (dec_lt a b) eqn:Hab.
  - apply dec_lt_spec in Hab. lra.
  - lra.
Qed.
Lemma dec_max_ge_r a b : (⟦b⟧ <= ⟦dec_max a b⟧)%Q.
Proof.
  unfold dec_max. destruct (dec_lt a b) eqn:Hab; [lra|].
  by apply dec_lt_false in Hab.
Qed.
Lemma dec_max_case a b : dec_max a b = a ∨ dec_max a b = b.
Proof. unfold dec_max. destruct (dec_lt a b); auto. Qed.
Lemma dec_min_le_l a b : (⟦dec_min a b⟧ <= ⟦a⟧)%Q.
Proof.
  unfold dec_min. destruct (dec_gt a b) eqn:Hab; [|lra].
  apply dec_gt_spec in Hab. lra.
Qed.
Lemma dec_min_le_r a b : (⟦dec_min a b⟧ <= ⟦b⟧)%Q.
Proof.
  unfold dec_min. destruct (dec_gt a b) eqn:Hab; [lra|].
  by apply dec_gt_false in Hab.
Qed.
Lemma dec_min_case a b : dec_min a b = a ∨ dec_min a b = b.
Proof. unfold dec_min. destruct (dec_gt a b); auto. Qed.

Lemma dec_iter_max_spec l m :
  dec_iter_max l = Some m → m ∈ l ∧ ∀ d, d ∈ l → (⟦d⟧ <= ⟦m⟧)%Q.
Proof.
  revert m. induction l as [|d l IH]; intros m; cbn; [done|].
  destruct (dec_iter_max l) as [m'|] eqn:Hm.
  - destruct (IH m' eq_refl) as [Hin Hle].
    destruct (dec_gt d m') eqn:Hd; intros [= <-]; (split; [set_solver|]).
    + apply dec_gt_spec in Hd. intros e [->|He]%elem_of_cons; [lra|].
      specialize (Hle _ He). lra.
    + apply dec_gt_false in Hd. intros e [->|He]%elem_of_cons; [done|]. by apply Hle.
  - intros [= <-]. destruct l as [|x l]; [|cbn in Hm; by destruct (dec_iter_max l)].
    split; [set_solver|]. intros e He%list_elem_of_singleton. subst. lra.
Qed.

Lemma dec_iter_min_spec l m :
  dec_iter_min l = Some m → m ∈ l ∧ ∀ d, d ∈ l → (⟦m⟧ <= ⟦d⟧)%Q.
Proof.
  revert m. induction l as [|d l IH]; intros m; cbn; [done|].
  destruct (dec_iter_min l) as [m'|] eqn:Hm.
  - destruct (IH m' eq_refl) as [Hin Hle].
    destruct (dec_gt d m') eqn:Hd; intros [= <-]; (split; [set_solver|]).
    + apply dec_gt_spec in Hd. intros e [->|He]%elem_of_cons; [lra|].
      by apply Hle.
    + apply dec_gt_false in Hd. intros e [->|He]%elem_of_cons; [lra|].
      specialize (Hle _ He). lra.
  - intros [= <-]. destruct l as [|x l]; [|cbn in Hm; by destruct (dec_iter_min l)].
    split; [set_solver|]. intros e He%list_elem_of_singleton. subst. lra.
Qed.

Lemma dec_iter_max_None l : dec_iter_max l = None ↔ l = [].
Proof. destruct l as [|d l]; cbn; [done|]. by destruct (dec_iter_max l). Qed.
Lemma dec_iter_min_None l : dec_iter_min l = None ↔ l = [].
Proof. destruct l as [|d l]; cbn; [done|]. by destruct (dec_iter_min l). Qed.
End laws.

(** [dec_prop]: turn every hypothesis that is a boolean comparison of decimals
    into the inequality of rationals it means. *)
Ltac dec_prop :=
  repeat match goal with
  | H : dec_lt _ _ = true |- _ => apply dec_lt_spec in H
  | H : dec_lt _ _ = false |- _ => apply dec_lt_false in H
  | H : dec_le _ _ = true |- _ => apply dec_le_spec in H
  | H : dec_le _ _ = false |- _ => apply dec_le_false in H
  | H : dec_gt _ _ = true |- _ => apply dec_gt_spec in H
  | H : dec_gt _ _ = false |- _ => apply dec_gt_false in H
  | H : dec_ge _ _ = true |- _ => apply dec_ge_spec in H
  | H : dec_ge _ _ = false |- _ => apply dec_ge_false in H
  | H : dec_eq _ _ = true |- _ => apply dec_eq_spec in H
  | H : dec_eq _ _ = false |- _ => apply dec_eq_false in H
  | H : dec_ne _ _ = true |- _ => apply dec_ne_spec in H
  | H : dec_ne _ _ = false |- _ => apply dec_ne_false in H
  end.
