(* ===== verification/RefDecimal.v ===== *)
(** * RefDecimal: an instance of the decimal interface

    A concrete mantissa-and-scale decimal that meets [DecimalLaws].  It shows
    that the laws the theorems assume can hold together, and the witnesses
    evaluate on it.  It is not a model of [rust_decimal]: it keeps results the
    crate would round. *)
From Stdlib Require Import Ascii Qabs DecimalString DecimalN.
From S2P Require Import Prelude DecimalSpec.

Record refdec : Type := RefDec { rmant : Z; rscale : N }.

Definition rvalue (d : refdec) : Q := rmant d # pow10 (rscale d).

(** The mantissa of [d] at the scale [s], which is at least [rscale d]. *)
Definition rmant_at (s : N) (d : refdec) : Z := rmant d * 10 ^ Z.of_N (s - rscale d).

Definition rcheck (d : refdec) : option refdec :=
  if (2 ^ 96) * 10 ^ Z.of_N (rscale d) <=? Z.abs (rmant d) then None else Some d.

Definition radd (a b : refdec) : option refdec :=
  let s := N.max (rscale a) (rscale b) in
  rcheck (RefDec (rmant_at s a + rmant_at s b) s).
Definition rsub (a b : refdec) : option refdec :=
  let s := N.max (rscale a) (rscale b) in
  rcheck (RefDec (rmant_at s a - rmant_at s b) s).
Definition rmul (a b : refdec) : option refdec :=
  rcheck (RefDec (rmant a * rmant b) (rscale a + rscale b)).
Definition rdiv (a b : refdec) : option refdec :=
  if rmant b =? 0 then None
  else rcheck (RefDec (Z.quot (rmant a * 10 ^ (28 + Z.of_N (rscale b)))
                              (rmant b * 10 ^ Z.of_N (rscale a))) 28).
Definition rrem (a b : refdec) : option refdec :=
  if rmant b =? 0 then None
  else let s := N.max (rscale a) (rscale b) in
       Some (RefDec (Z.rem (rmant_at s a) (rmant_at s b)) s).

(** Parsing and printing, on lists of characters. *)
Definition digits_of (n : N) : list ascii :=
  list_ascii_of_string (NilEmpty.string_of_uint (N.to_uint n)).
Definition digits_value (l : list ascii) : option N :=
  N.of_uint <$> NilEmpty.uint_of_string (string_of_list_ascii l).
Definition zero : ascii := "0"%char.
Definition dot : ascii := "."%char.
Definition dash : ascii := "-"%char.

Definition print_unsigned (n s : N) : list ascii :=
  let ds := digits_of n in
  let padded := replicate (S (N.to_nat s) - length ds) zero ++ ds in
  let k := (length padded - N.to_nat s)%nat in
  take k padded ++ (if (s =? 0)%N then [] else dot :: drop k padded).
Definition print_ref (d : refdec) : list ascii :=
  (if rmant d <? 0 then [dash] else []) ++ print_unsigned (Z.abs_N (rmant d)) (rscale d).

Fixpoint split_dot (l : list ascii) : list ascii * option (list ascii) :=
  match l with
  | [] => ([], None)
  | c :: l' => if Ascii.eqb c dot then ([], Some l')
               else let '(i, f) := split_dot l' in (c :: i, f)
  end.
Definition parse_unsigned (l : list ascii) : option (N * N) :=
  let '(i, f) := split_dot l in
  let frac := default [] f in
  match i with
  | [] => None
  | _ => n ← digits_value (i ++ frac); Some (n, N.of_nat (length frac))
  end.
Definition parse_ref (l : list ascii) : option refdec :=
  match l with
  | c :: l' =>
      if Ascii.eqb c dash
      then '(n, s) ← parse_unsigned l'; Some (RefDec (- Z.of_N n) s)
      else '(n, s) ← parse_unsigned l; Some (RefDec (Z.of_N n) s)
  | [] => None
  end.

Definition rto_string (d : refdec) : string := string_of_list_ascii (print_ref d).
Definition rfrom_str (s : string) : option refdec := parse_ref (list_ascii_of_string s).

Definition RefOps : DecimalOps := {|
  Decimal := refdec;
  dec_value := rvalue;
  dec_cmp a b := (rvalue a ?= rvalue b)%Q;
  dec_ZERO := RefDec 0 0;
  dec_ONE := RefDec 1 0;
  dec_new m s := RefDec m s;
  dec_add := radd; dec_sub := rsub; dec_mul := rmul; dec_div := rdiv; dec_rem := rrem;
  dec_abs a := RefDec (Z.abs (rmant a)) (rscale a);
  dec_normalize a := a;
  dec_scale := rscale;
  dec_from_str := rfrom_str;
  dec_from_str_exact := rfrom_str;
  dec_to_string := rto_string;
|}.

(** ** Arithmetic *)

Lemma pow10_pos s : 0 < 10 ^ Z.of_N s.
Proof. apply Z.pow_pos_nonneg; lia. Qed.

Lemma rmant_at_value s d :
  (rscale d ≤ s)%N → rmant_at s d * 10 ^ Z.of_N (rscale d) = rmant d * 10 ^ Z.of_N s.
Proof.
  intros Hs. unfold rmant_at. rewrite <-Z.mul_assoc, <-Z.pow_add_r by lia.
  do 2 f_equal. lia.
Qed.

Lemma rcheck_Some d q :
  rvalue d == q → representable q → rcheck d = Some d.
Proof.
  intros Hd (m & s & Hm & Hs & Hq). unfold rcheck.
  rewrite Hq in Hd. unfold rvalue, Qeq in Hd. cbn in Hd. rewrite !pow10_Z in Hd.
  pose proof (pow10_pos s). pose proof (pow10_pos (rscale d)).
  destruct (Z.leb_spec (2 ^ 96 * 10 ^ Z.of_N (rscale d)) (Z.abs (rmant d))); [|done].
  exfalso.
  assert (Z.abs (rmant d) * 10 ^ Z.of_N s = Z.abs m * 10 ^ Z.of_N (rscale d)) as Habs.
  { rewrite <-(Z.abs_eq (10 ^ Z.of_N s)), <-(Z.abs_eq (10 ^ Z.of_N (rscale d))) by lia.
    rewrite <-!Z.abs_mul. by rewrite Hd. }
  nia.
Qed.

Lemma rcheck_None d : too_large (rvalue d) → rcheck d = None.
Proof.
  unfold too_large, rcheck, rvalue, Qle. cbn [Qnum Qden Qabs]. rewrite pow10_Z.
  change (Zpos (Qden (inject_Z (2 ^ 96)))) with 1.
  change (Qnum (inject_Z (2 ^ 96))) with (2 ^ 96). intros H.
  destruct (Z.leb_spec (2 ^ 96 * 10 ^ Z.of_N (rscale d)) (Z.abs (rmant d))); [done|]. lia.
Qed.

Lemma radd_value a b :
  rvalue (RefDec (rmant_at (N.max (rscale a) (rscale b)) a +
                  rmant_at (N.max (rscale a) (rscale b)) b) (N.max (rscale a) (rscale b)))
  == rvalue a + rvalue b.
Proof.
  unfold rvalue, Qeq, Qplus. cbn [Qnum Qden rmant rscale].
  rewrite Pos2Z.inj_mul, !pow10_Z.
  pose proof (rmant_at_value (N.max (rscale a) (rscale b)) a ltac:(lia)) as Ha.
  pose proof (rmant_at_value (N.max (rscale a) (rscale b)) b ltac:(lia)) as Hb.
  set (A := 10 ^ Z.of_N (rscale a)) in *. set (B := 10 ^ Z.of_N (rscale b)) in *.
  set (M := 10 ^ Z.of_N (N.max (rscale a) (rscale b))) in *.
  transitivity (rmant_at (N.max (rscale a) (rscale b)) a * A * B +
                rmant_at (N.max (rscale a) (rscale b)) b * B * A); [ring|].
  rewrite Ha, Hb. ring.
Qed.

Lemma rsub_value a b :
  rvalue (RefDec (rmant_at (N.max (rscale a) (rscale b)) a -
                  rmant_at (N.max (rscale a) (rscale b)) b) (N.max (rscale a) (rscale b)))
  == rvalue a - rvalue b.
Proof.
  pose proof (radd_value a (RefDec (- rmant b) (rscale b))) as H.
  cbn [rscale] in H. unfold rmant_at in *. cbn [rmant rscale] in *.
  rewrite Z.mul_opp_l, Z.add_opp_r in H. rewrite H.
  unfold rvalue. cbn [rmant rscale]. unfold Qminus, Qopp. cbn. reflexivity.
Qed.

Lemma rmul_value a b :
  rvalue (RefDec (rmant a * rmant b) (rscale a + rscale b)) == rvalue a * rvalue b.
Proof.
  unfold rvalue, Qeq, Qmult. cbn [Qnum Qden rmant rscale].
  rewrite Pos2Z.inj_mul, !pow10_Z, N2Z.inj_add, Z.pow_add_r by lia. ring.
Qed.

(** The quotient of the two values, without its sign conventions. *)
Lemma rvalue_zero b : rvalue b == 0 ↔ rmant b = 0.
Proof. unfold rvalue, Qeq. cbn. lia. Qed.

Lemma rquot_eq a b q :
  ¬ rvalue b == 0 → rvalue a / rvalue b == q ↔
  rmant a * 10 ^ Z.of_N (rscale b) * Zpos (Qden q) =
  Qnum q * (rmant b * 10 ^ Z.of_N (rscale a)).
Proof.
  intros Hb. trans (rvalue a == q * rvalue b).
  { split; intros H.
    - rewrite <-H. field. done.
    - rewrite H. field. done. }
  unfold rvalue, Qeq, Qmult. cbn [Qnum Qden]. rewrite Pos2Z.inj_mul, !pow10_Z. nia.
Qed.

Lemma rdiv_exact a b :
  ¬ rvalue b == 0 → representable (rvalue a / rvalue b) →
  ∃ c, rdiv a b = Some c ∧ rvalue c == rvalue a / rvalue b.
Proof.
  intros Hb Hrep. pose proof Hrep as (m & s & Hm & Hs & Hq).
  pose proof Hb as Hb'. rewrite rvalue_zero in Hb'.
  apply (rquot_eq _ _ _ Hb) in Hq as Hnum. cbn [Qnum Qden] in Hnum. rewrite pow10_Z in Hnum.
  unfold rdiv. destruct (Z.eqb_spec (rmant b) 0) as [|_]; [done|].
  assert (Z.quot (rmant a * 10 ^ (28 + Z.of_N (rscale b)))
    (rmant b * 10 ^ Z.of_N (rscale a)) = m * 10 ^ Z.of_N (28 - s)) as ->.
  { pose proof (pow10_pos (rscale a)). pose proof (pow10_pos s).
    symmetry. apply Z.quot_unique_exact; [nia|].
    apply (Z.mul_reg_r _ _ (10 ^ Z.of_N s)); [lia|].
    rewrite Z.pow_add_r by lia.
    transitivity (10 ^ 28 * (rmant a * 10 ^ Z.of_N (rscale b) * 10 ^ Z.of_N s)); [ring|].
    rewrite Hnum. replace 28 with (Z.of_N (28 - s) + Z.of_N s) by lia.
    rewrite Z.pow_add_r by lia. ring. }
  set (c := RefDec (m * 10 ^ Z.of_N (28 - s)) 28).
  assert (rvalue c == rvalue a / rvalue b) as Hc.
  { rewrite Hq. unfold rvalue, Qeq, c. cbn [Qnum Qden rmant rscale]. rewrite !pow10_Z.
    rewrite <-Z.mul_assoc, <-Z.pow_add_r by lia. do 2 f_equal. lia. }
  exists c. split; [|done]. by eapply rcheck_Some.
Qed.

Lemma Z_abs_sgn_nonzero d : d ≠ 0 → Z.abs (Z.sgn d) = 1.
Proof. destruct d; done. Qed.

Lemma rdiv_overflow a b :
  ¬ rvalue b == 0 → too_large (rvalue a / rvalue b) → rdiv a b = None.
Proof.
  intros Hb Hbig. pose proof Hb as Hb'. rewrite rvalue_zero in Hb'.
  unfold rdiv. destruct (Z.eqb_spec (rmant b) 0) as [|_]; [done|].
  unfold rcheck. cbn [rmant rscale]. change (10 ^ Z.of_N 28) with (10 ^ 28).
  set (n := rmant a * 10 ^ Z.of_N (rscale b)).
  set (d := rmant b * 10 ^ Z.of_N (rscale a)).
  pose proof (pow10_pos (rscale a)). pose proof (pow10_pos (rscale b)).
  assert (d ≠ 0) as Hd by (unfold d; nia).
  assert (2 ^ 96 * Z.abs d <= Z.abs n) as Hnd.
  { unfold too_large in Hbig.
    assert (rvalue a / rvalue b == (Z.sgn d * n) # Z.to_pos (Z.abs d)) as Hq.
    { apply rquot_eq; [done|]. cbn [Qnum Qden]. rewrite Z2Pos.id by lia.
      fold n d. destruct d; cbn [Z.abs Z.sgn]; lia. }
    rewrite Hq in Hbig. unfold Qle in Hbig. cbn [Qnum Qden Qabs] in Hbig.
    change (Zpos (Qden (inject_Z (2 ^ 96)))) with 1 in Hbig.
    change (Qnum (inject_Z (2 ^ 96))) with (2 ^ 96) in Hbig.
    rewrite Z2Pos.id, Z.abs_mul in Hbig by lia.
    rewrite Z.mul_1_r, Z_abs_sgn_nonzero in Hbig by done. lia. }
  replace (rmant a * 10 ^ (28 + Z.of_N (rscale b))) with (n * 10 ^ 28)
    by (unfold n; rewrite Z.pow_add_r by lia; ring).
  destruct (Z.leb_spec (2 ^ 96 * 10 ^ 28) (Z.abs (n * 10 ^ 28 ÷ d))) as [|Hlt]; [done|].
  exfalso. rewrite <-Z.quot_abs in Hlt by done.
  assert (2 ^ 96 * 10 ^ 28 <= Z.abs (n * 10 ^ 28) ÷ Z.abs d); [|lia].
  apply Z.quot_le_lower_bound; [lia|]. rewrite Z.abs_mul. nia.
Qed.

Lemma rrem_exact a b :
  ¬ rvalue b == 0 →
  ∃ c, rrem a b = Some c ∧
    rvalue c == rvalue a - rvalue b * inject_Z (Qtrunc (rvalue a / rvalue b)).
Proof.
  intros Hb. pose proof Hb as Hb'. rewrite rvalue_zero in Hb'.
  unfold rrem. destruct (Z.eqb_spec (rmant b) 0) as [|_]; [done|].
  eexists; split; [done|].
  set (s := N.max (rscale a) (rscale b)).
  pose proof (rmant_at_value s a ltac:(lia)) as Ha.
  pose proof (rmant_at_value s b ltac:(lia)) as Hbs.
  pose proof (pow10_pos (rscale a)). pose proof (pow10_pos (rscale b)).
  pose proof (pow10_pos s).
  set (x := rmant_at s a) in *. set (y := rmant_at s b) in *.
  assert (y ≠ 0) as Hy by nia.
  assert (rvalue a == x # pow10 s) as Hax.
  { unfold rvalue, Qeq. cbn. rewrite !pow10_Z. lia. }
  assert (rvalue b == y # pow10 s) as Hby.
  { unfold rvalue, Qeq. cbn. rewrite !pow10_Z. lia. }
  assert (Qtrunc (rvalue a / rvalue b) = Z.quot x y) as ->.
  { set (q := (rvalue a / rvalue b)%Q).
    assert (rmant a * 10 ^ Z.of_N (rscale b) * Zpos (Qden q) =
            Qnum q * (rmant b * 10 ^ Z.of_N (rscale a))) as Hq by by apply rquot_eq.
    assert (x * Zpos (Qden q) = Qnum q * y) as Hxy.
    { apply (Z.mul_reg_r _ _ (10 ^ Z.of_N (rscale a) * 10 ^ Z.of_N (rscale b))); [nia|].
      transitivity (x * 10 ^ Z.of_N (rscale a) * 10 ^ Z.of_N (rscale b) * Zpos (Qden q)); [ring|].
      rewrite Ha.
      transitivity (rmant a * 10 ^ Z.of_N (rscale b) * Zpos (Qden q) * 10 ^ Z.of_N s); [ring|].
      rewrite Hq.
      transitivity (Qnum q * (rmant b * 10 ^ Z.of_N s) * 10 ^ Z.of_N (rscale a)); [ring|].
      rewrite <-Hbs. ring. }
    unfold Qtrunc.
    rewrite <-(Z.quot_mul_cancel_r (Qnum q) (Zpos (Qden q)) y) by lia.
    rewrite <-Hxy, (Z.mul_comm (Zpos (Qden q)) y).
    by rewrite Z.quot_mul_cancel_r by lia. }
  rewrite Hax, Hby. unfold rvalue, Qeq, Qminus, Qplus, Qopp, Qmult, inject_Z.
  cbn [Qnum Qden rmant rscale].
  rewrite !Pos2Z.inj_mul, !pow10_Z, Z.rem_eq by done. ring.
Qed.

(** ** Parsing what was printed *)

Lemma uint_chars (u : Decimal.uint) c :
  c ∈ list_ascii_of_string (NilEmpty.string_of_uint u) → c ≠ dot ∧ c ≠ dash.
Proof.
  induction u as [|u IH|u IH|u IH|u IH|u IH|u IH|u IH|u IH|u IH|u IH];
    cbn; [by intros ?%not_elem_of_nil| ..];
    (intros [->|Hc]%elem_of_cons; [done | by apply IH]).
Qed.

Lemma padded_chars k n c : c ∈ replicate k zero ++ digits_of n → c ≠ dot ∧ c ≠ dash.
Proof.
  intros [Hc|Hc]%elem_of_app.
  - apply elem_of_replicate in Hc as [-> _]. done.
  - by eapply uint_chars.
Qed.

Lemma digits_value_padded k n : digits_value (replicate k zero ++ digits_of n) = Some n.
Proof.
  unfold digits_value. induction k as [|k IH]; cbn.
  - unfold digits_of. rewrite Stdlib.Strings.String.string_of_list_ascii_of_string, NilEmpty.usu. cbn.
    by rewrite DecimalN.Unsigned.of_to.
  - destruct (NilEmpty.uint_of_string _) as [u|]; cbn in *; [|done]. exact IH.
Qed.

Lemma split_dot_none l : dot ∉ l → split_dot l = (l, None).
Proof.
  induction l as [|c l IH]; cbn; [done|]. intros [Hc Hl]%not_elem_of_cons.
  destruct (Ascii.eqb_spec c dot); [done|]. by rewrite IH.
Qed.

Lemma split_dot_some l r : dot ∉ l → split_dot (l ++ dot :: r) = (l, Some r).
Proof.
  induction l as [|c l IH]; cbn; [done|]. intros [Hc Hl]%not_elem_of_cons.
  destruct (Ascii.eqb_spec c dot); [done|]. by rewrite IH.
Qed.

Lemma parse_print_unsigned n s : parse_unsigned (print_unsigned n s) = Some (n, s).
Proof.
  unfold parse_unsigned, print_unsigned.
  set (l := replicate _ zero ++ digits_of n).
  set (k := (length l - N.to_nat s)%nat).
  assert (length l ≥ S (N.to_nat s))%nat as Hlen.
  { unfold l. rewrite length_app, length_replicate. lia. }
  assert (dot ∉ l) as Hdot.
  { intros Hd. by apply padded_chars in Hd as [? _]. }
  assert (dot ∉ take k l) as Hdot1.
  { intros Hd. apply Hdot. by eapply subseteq_take. }
  assert (digits_value l = Some n) as Hval by apply digits_value_padded.
  assert (length (take k l) = k) as Hk by (rewrite length_take; lia).
  destruct (N.eqb_spec s 0) as [->|Hs].
  - rewrite app_nil_r, split_dot_none by done. cbn [from_option].
    rewrite app_nil_r. replace k with (length l) in * by (unfold k; cbn; lia).
    rewrite firstn_all in *. destruct l; [cbn in Hlen; lia|]. by rewrite Hval.
  - rewrite split_dot_some by done. cbn [from_option].
    destruct (take k l) as [|c l'] eqn:Ht; [cbn in Hk; lia|]. rewrite <-Ht. unfold id. rewrite take_drop, Hval.
    cbn. rewrite length_drop. do 2 f_equal. lia.
Qed.

Lemma print_unsigned_head n s c l : print_unsigned n s = c :: l → c ≠ dash.
Proof.
  unfold print_unsigned. set (p := replicate _ zero ++ digits_of n).
  assert (length p ≥ S (N.to_nat s))%nat as Hlen.
  { unfold p. rewrite length_app, length_replicate. lia. }
  destruct p as [|c' p'] eqn:Hp; [cbn in Hlen; lia|].
  replace (length (c' :: p') - N.to_nat s)%nat
    with (S (length (c' :: p') - N.to_nat s - 1))%nat by lia.
  cbn [take app]. intros [= <- _].
  apply (padded_chars (S (N.to_nat s) - length (digits_of n)) n).
  fold p. rewrite Hp. left.
Qed.

Lemma parse_print d : parse_ref (print_ref d) = Some d.
Proof.
  destruct d as [m s]. unfold print_ref. cbn [rmant rscale].
  destruct (Z.ltb_spec m 0) as [Hm|Hm]; cbn [app].
  - cbn. rewrite parse_print_unsigned. cbn. do 2 f_equal. lia.
  - pose proof (parse_print_unsigned (Z.abs_N m) s) as Hp.
    destruct (print_unsigned (Z.abs_N m) s) as [|c l] eqn:Hl; [done|].
    unfold parse_ref. apply print_unsigned_head in Hl as Hc.
    destruct (Ascii.eqb_spec c dash); [done|]. rewrite Hp. cbn. do 2 f_equal. lia.
Qed.

Lemma rfrom_to_string d : rfrom_str (rto_string d) = Some d.
Proof.
  unfold rfrom_str, rto_string. rewrite Stdlib.Strings.String.list_ascii_of_string_of_list_ascii.
  apply parse_print.
Qed.

Lemma rcheck_exact d q :
  rvalue d == q → representable q → ∃ c, rcheck d = Some c ∧ rvalue c == q.
Proof. intros Hd Hq. exists d. split; [by eapply rcheck_Some | done]. Qed.

Lemma RefLaws : @DecimalLaws RefOps.
Proof.
  split; try done.
  - intros a b. apply rcheck_exact, radd_value.
  - intros a b. apply rcheck_exact, rsub_value.
  - intros a b. apply rcheck_exact, rmul_value.
  - apply rdiv_exact.
  - intros a b Hb%rvalue_zero. change (rdiv a b = None). unfold rdiv. by rewrite Hb.
  - apply rdiv_overflow.
  - intros a b Hb%rvalue_zero. change (rrem a b = None). unfold rrem. by rewrite Hb.
  - apply rrem_exact.
  - intros a. by exists (rmant a).
  - intros s d Hd. by exists d.
  - intros a. exists a. split; [apply rfrom_to_string | done].
Qed.
