(* ===== verification/Json.v ===== *)
(** * Json: the values [serde_json] passes around

    [serde_json::Value] with the constructors the sources build with [json!].
    Object members are kept in the order they are written. *)
From S2P Require Import Prelude DecimalSpec.

Inductive Value : Type :=
| JNull
| JBool (b : bool)
| JInt (z : Z)
| JFloat (text : string)
| JString (s : string)
| JArray (l : list Value)
| JObject (members : list (string * Value)).

(** What [json!] makes of the types the sources put into it. *)
Class ToValue (A : Type) : Type := to_value : A → Value.
#[export] Instance Value_value : ToValue Value := id.
#[export] Instance bool_value : ToValue bool := JBool.
#[export] Instance Z_value : ToValue Z := JInt.
#[export] Instance string_value : ToValue string := JString.
#[export] Instance list_value `{ToValue A} : ToValue (list A) := λ l, JArray (to_value <$> l).
#[export] Instance option_value `{ToValue A} : ToValue (option A) :=
  λ o, match o with Some a => to_value a | None => JNull end.
(** A decimal is serialised as its decimal string. *)
#[export] Instance Decimal_value `{DecimalOps} : ToValue Decimal :=
  λ d, JString (dec_to_string d).

Definition json_obj (members : list (string * Value)) : Value := JObject members.
Notation "k ::= v" := (k, to_value v) (at level 60, no associativity) : exec_scope.

(** [value.get(key)] on an object: the last member of that name, as the parser
    keeps it. *)
Fixpoint assoc_last (k : string) (l : list (string * Value)) : option Value :=
  match l with
  | [] => None
  | (k', v) :: l' =>
      match assoc_last k l' with
      | Some w => Some w
      | None => if decide (k = k') then Some v else None
      end
  end.
Definition get_member (k : string) (v : Value) : option Value :=
  match v with JObject l => assoc_last k l | _ => None end.
Definition as_str (v : Value) : option string :=
  match v with JString s => Some s | _ => None end.
Definition as_array (v : Value) : option (list Value) :=
  match v with JArray l => Some l | _ => None end.
Definition as_bool (v : Value) : option bool :=
  match v with JBool b => Some b | _ => None end.
Definition as_u64 (v : Value) : option N :=
  match v with
  | JInt z => if (0 <=? z) && (z <? 2 ^ 64) then Some (Z.to_N z) else None
  | _ => None
  end.
Definition is_number (v : Value) : bool :=
  match v with JInt _ | JFloat _ => true | _ => false end.
