(* ===== verification/Platform.v ===== *)
(** * Platform: the runtime and the crates the sources call

    The clock, the identifier generator, the hash function and the text
    formats of third-party crates are arguments of the model.  Time is the
    number of nanoseconds since the Unix epoch, a [Uuid] its 128-bit number. *)
From S2P Require Import Prelude Json.

Definition DateTime : Type := Z.
Definition Uuid : Type := N.

(** [chrono::Duration] constructors, in nanoseconds. *)
Definition seconds (n : Z) : Z := n * 1000000000.
Definition minutes (n : Z) : Z := seconds (60 * n).
Definition milliseconds (n : Z) : Z := n * 1000000.

Class Platform : Type := {
  (** the [n]-th reading of [Utc::now] *)
  utc_clock : nat → DateTime;
  (** the [n]-th [Uuid::now_v7] *)
  uuid_v7 : nat → Uuid;
  uuid_to_string : Uuid → string;
  uuid_parse_str : string → option Uuid;
  to_rfc3339 : DateTime → string;
  (** [hex::encode(Sha256::digest(..))] *)
  sha256_hex : string → string;
  (** [serde_json::to_string] and [serde_json::from_str] on [Value] *)
  json_to_string : Value → string;
  json_from_str : string → option Value;
  (** [serde_jcs::to_string], the canonical form *)
  jcs_to_string : Value → string;
  (** [{}] of an unsigned integer *)
  nat_to_string : N → string;
}.
