(* ===== verification/Domain.v ===== *)
(** * Domain: order intents, records and their validation (domain.rs) *)
From S2P Require Import Prelude Text DecimalSpec RefDecimal Json Platform.

(** ** Enumerations *)

Inductive Mode : Type := Paper | Live.
#[export] Instance Mode_eq_dec : EqDecision Mode.
Proof. solve_decision. Defined.

Inductive ServiceState : Type :=
| Starting | Reconciling | Ready | Degraded | Halted | ShuttingDown.
#[export] Instance ServiceState_eq_dec : EqDecision ServiceState.
Proof. solve_decision. Defined.

Module IntentState.
Inductive t : Type :=
| Received | Validating | Rejected | Approved | Preparing | Prepared
| Submitting | Submitted | Unknown.
#[global] Instance eq_dec : EqDecision t.
Proof. solve_decision. Defined.
End IntentState.
Abbreviation IntentState := IntentState.t.

Module OrderState.
Inductive t : Type :=
| Prepared | Submitting | Live | PartiallyFilled | Filled | CancelPending
| Cancelled | Expired | Rejected | Unknown.
#[global] Instance eq_dec : EqDecision t.
Proof. solve_decision. Defined.
End OrderState.
Abbreviation OrderState := OrderState.t.

Module TradeState.
Inductive t : Type := Matched | Mined | Confirmed | Retrying | Failed.
#[global] Instance eq_dec : EqDecision t.
Proof. solve_decision. Defined.
End TradeState.
Abbreviation TradeState := TradeState.t.

Inductive Side : Type := Buy | Sell.
#[export] Instance Side_eq_dec : EqDecision Side.
Proof. solve_decision. Defined.

Inductive TimeInForce : Type := Gtc | Gtd | Fok | Fak.
#[export] Instance TimeInForce_eq_dec : EqDecision TimeInForce.
Proof. solve_decision. Defined.

Inductive QuantityUnit : Type := Shares | Quote.
#[export] Instance QuantityUnit_eq_dec : EqDecision QuantityUnit.
Proof. solve_decision. Defined.

(** [Display for Mode] and [FromStr for Mode]. *)
Definition Mode_to_string (m : Mode) : string :=
  match m with Paper => "paper" | Live => "live" end.

Inductive DomainError : Type :=
| InvalidField (field message : string)
| InvalidCombination (message : string).

Definition DomainError_to_string (e : DomainError) : string :=
  match e with
  | InvalidField field message => "invalid " +:+ field +:+ ": " +:+ message
  | InvalidCombination message => "invalid order combination: " +:+ message
  end.

Definition Mode_from_str (value : string) : outcome DomainError Mode :=
  if decide (value = "paper") then Done Paper
  else if decide (value = "live") then Done Live
  else Failed (InvalidField "mode" "must be paper or live").

(** [Display for ServiceState] prints the [Debug] name. *)
Definition ServiceState_debug (s : ServiceState) : string :=
  match s with
  | Starting => "Starting" | Reconciling => "Reconciling" | Ready => "Ready"
  | Degraded => "Degraded" | Halted => "Halted" | ShuttingDown => "ShuttingDown"
  end.
(** The serde and sqlx name, [SCREAMING_SNAKE_CASE]. *)
Definition ServiceState_name (s : ServiceState) : string :=
  match s with
  | Starting => "STARTING" | Reconciling => "RECONCILING" | Ready => "READY"
  | Degraded => "DEGRADED" | Halted => "HALTED" | ShuttingDown => "SHUTTING_DOWN"
  end.

Definition IntentState_debug (s : IntentState) : string :=
  match s with
  | IntentState.Received => "Received" | IntentState.Validating => "Validating"
  | IntentState.Rejected => "Rejected" | IntentState.Approved => "Approved"
  | IntentState.Preparing => "Preparing" | IntentState.Prepared => "Prepared"
  | IntentState.Submitting => "Submitting" | IntentState.Submitted => "Submitted"
  | IntentState.Unknown => "Unknown"
  end.
#[export] Instance IntentState_value : ToValue IntentState := λ s,
  JString match s with
  | IntentState.Received => "RECEIVED" | IntentState.Validating => "VALIDATING"
  | IntentState.Rejected => "REJECTED" | IntentState.Approved => "APPROVED"
  | IntentState.Preparing => "PREPARING" | IntentState.Prepared => "PREPARED"
  | IntentState.Submitting => "SUBMITTING" | IntentState.Submitted => "SUBMITTED"
  | IntentState.Unknown => "UNKNOWN"
  end.

Definition OrderState_debug (s : OrderState) : string :=
  match s with
  | OrderState.Prepared => "Prepared" | OrderState.Submitting => "Submitting"
  | OrderState.Live => "Live" | OrderState.PartiallyFilled => "PartiallyFilled"
  | OrderState.Filled => "Filled" | OrderState.CancelPending => "CancelPending"
  | OrderState.Cancelled => "Cancelled" | OrderState.Expired => "Expired"
  | OrderState.Rejected => "Rejected" | OrderState.Unknown => "Unknown"
  end.
#[export] Instance OrderState_value : ToValue OrderState := λ s,
  JString match s with
  | OrderState.Prepared => "PREPARED" | OrderState.Submitting => "SUBMITTING"
  | OrderState.Live => "LIVE" | OrderState.PartiallyFilled => "PARTIALLY_FILLED"
  | OrderState.Filled => "FILLED" | OrderState.CancelPending => "CANCEL_PENDING"
  | OrderState.Cancelled => "CANCELLED" | OrderState.Expired => "EXPIRED"
  | OrderState.Rejected => "REJECTED" | OrderState.Unknown => "UNKNOWN"
  end.

Definition TradeState_debug (s : TradeState) : string :=
  match s with
  | TradeState.Matched => "Matched" | TradeState.Mined => "Mined"
  | TradeState.Confirmed => "Confirmed" | TradeState.Retrying => "Retrying"
  | TradeState.Failed => "Failed"
  end.
#[export] Instance TradeState_value : ToValue TradeState := λ s,
  JString match s with
  | TradeState.Matched => "MATCHED" | TradeState.Mined => "MINED"
  | TradeState.Confirmed => "CONFIRMED" | TradeState.Retrying => "RETRYING"
  | TradeState.Failed => "FAILED"
  end.

#[export] Instance Side_value : ToValue Side := λ s,
  JString match s with Buy => "BUY" | Sell => "SELL" end.
#[export] Instance TimeInForce_value : ToValue TimeInForce := λ t,
  JString match t with Gtc => "GTC" | Gtd => "GTD" | Fok => "FOK" | Fak => "FAK" end.

(** [matches!(time_in_force, Fok | Fak)] and [Gtc | Gtd]. *)
Definition is_immediate (t : TimeInForce) : bool :=
  match t with Fok | Fak => true | Gtc | Gtd => false end.
Definition is_resting (t : TimeInForce) : bool :=
  match t with Gtc | Gtd => true | Fok | Fak => false end.

(** ** Requests *)

Record Quantity : Type := mkQuantity { qty_unit : QuantityUnit; qty_value : string }.
#[export] Instance Quantity_eq_dec : EqDecision Quantity.
Proof. solve_decision. Defined.
Record ClientContext : Type := mkClientContext {
  strategy : option string;
  strategy_order_id : option string;
  correlation_id : option string;
}.
#[export] Instance ClientContext_eq_dec : EqDecision ClientContext.
Proof. solve_decision. Defined.
Record OrderIntentRequest : Type := mkOrderIntentRequest {
  req_condition_id : string;
  req_token_id : string;
  req_side : Side;
  req_time_in_force : TimeInForce;
  quantity : Quantity;
  limit_price : option string;
  worst_price : option string;
  expires_at : option DateTime;
  post_only : bool;
  client_context : ClientContext;
}.
#[export] Instance OrderIntentRequest_eq_dec : EqDecision OrderIntentRequest.
Proof. solve_decision. Defined.

Record CancellationRequest : Type := mkCancellationRequest {
  can_order_id : option Uuid;
  can_intent_id : option Uuid;
  can_condition_id : option string;
  all_open_orders : bool;
  can_reason : string;
}.

Section validation.
Context `{DecimalOps}.

Definition parse_positive_decimal (field raw : string) : outcome DomainError Decimal :=
  value ← ok_or (InvalidField field "must be an exact decimal string")
            (dec_from_str_exact raw);
  reject_if (dec_le value dec_ZERO) (InvalidField field "must be greater than zero");;
  reject_if (6 <? dec_scale value)%N
    (InvalidField field "supports at most six decimal places");;
  mret value.

Definition quantity_decimal (self : OrderIntentRequest) : outcome DomainError Decimal :=
  parse_positive_decimal "quantity.value" (qty_value (quantity self)).

Definition protection_price (self : OrderIntentRequest) : outcome DomainError Decimal :=
  raw ← ok_or (InvalidField "price" "required for the selected time_in_force")
    match req_time_in_force self with
    | Gtc | Gtd => limit_price self
    | Fok | Fak => worst_price self
    end;
  price ← parse_positive_decimal "price" raw;
  reject_if (dec_ge price dec_ONE) (InvalidField "price" "must be less than 1");;
  mret price.

Definition validate_time_in_force (self : OrderIntentRequest) (now : DateTime)
    : outcome DomainError () :=
  match req_time_in_force self with
  | Gtc =>
      reject_if (bool_decide (is_Some (worst_price self)) ||
                 bool_decide (is_Some (expires_at self)))
        (InvalidCombination "GTC accepts limit_price and no expiration")
  | Gtd =>
      reject_if (bool_decide (is_Some (worst_price self)))
        (InvalidCombination "GTD does not accept worst_price");;
      expires_at ← ok_or (InvalidField "expires_at" "required for GTD") (expires_at self);
      reject_if (expires_at <? now + minutes 3)
        (InvalidField "expires_at" "must be at least three minutes in the future")
  | Fok | Fak =>
      reject_if (bool_decide (is_Some (limit_price self)) ||
                 bool_decide (is_Some (expires_at self)) || post_only self)
        (InvalidCombination "FOK/FAK accept worst_price and cannot be post_only or expiring");;
      let expected_unit := match req_side self with Buy => Quote | Sell => Shares end in
      reject_if (bool_decide (qty_unit (quantity self) ≠ expected_unit))
        (InvalidCombination "immediate buys use quote; immediate sells use shares")
  end.

Definition validate (self : OrderIntentRequest) (now : DateTime) : outcome DomainError () :=
  reject_if (is_empty (req_condition_id self) ||
             (128 <? string_length (req_condition_id self))%nat)
    (InvalidField "condition_id" "must contain 1 to 128 characters");;
  reject_if (is_empty (req_token_id self) ||
             (128 <? string_length (req_token_id self))%nat ||
             negb (all_bytes is_ascii_digit (req_token_id self)))
    (InvalidField "token_id" "must be a decimal token identifier");;
  quantity_decimal self;;
  protection_price self;;
  validate_time_in_force self now;;
  reject_if (is_resting (req_time_in_force self) &&
             bool_decide (qty_unit (quantity self) ≠ Shares))
    (InvalidCombination "resting orders use share quantity").
End validation.

Definition bool_to_nat (b : bool) : nat := if b then 1 else 0.

Definition CancellationRequest_validate (self : CancellationRequest)
    : outcome DomainError () :=
  let selectors := (bool_to_nat (bool_decide (is_Some (can_order_id self))) +
                    bool_to_nat (bool_decide (is_Some (can_intent_id self))) +
                    bool_to_nat (bool_decide (is_Some (can_condition_id self))) +
                    bool_to_nat (all_open_orders self))%nat in
  reject_if (bool_decide (selectors ≠ 1%nat))
    (InvalidCombination "exactly one cancellation selector is required");;
  reject_if (trim_is_empty (can_reason self) || (512 <? string_length (can_reason self))%nat)
    (InvalidField "reason" "must contain 1 to 512 characters").

(** ** Records *)

Section request_values.
Context `{Platform}.
#[export] Instance Quantity_value : ToValue Quantity := λ q,
  json_obj ["unit" ::= match qty_unit q with Shares => "shares" | Quote => "quote" end;
            "value" ::= qty_value q].
#[export] Instance ClientContext_value : ToValue ClientContext := λ c,
  json_obj ["strategy" ::= strategy c; "strategy_order_id" ::= strategy_order_id c;
            "correlation_id" ::= correlation_id c].
#[export] Instance OrderIntentRequest_value : ToValue OrderIntentRequest := λ r,
  json_obj ["condition_id" ::= req_condition_id r; "token_id" ::= req_token_id r;
    "side" ::= req_side r; "time_in_force" ::= req_time_in_force r;
    "quantity" ::= quantity r; "limit_price" ::= limit_price r;
    "worst_price" ::= worst_price r; "expires_at" ::= (to_rfc3339 <$> expires_at r);
    "post_only" ::= post_only r; "client_context" ::= client_context r].
#[export] Instance CancellationRequest_value : ToValue CancellationRequest := λ r,
  json_obj ["order_id" ::= (uuid_to_string <$> can_order_id r);
    "intent_id" ::= (uuid_to_string <$> can_intent_id r);
    "condition_id" ::= can_condition_id r; "all_open_orders" ::= all_open_orders r;
    "reason" ::= can_reason r].
End request_values.

Record IntentRecord : Type := mkIntentRecord {
  int_id : Uuid;
  int_mode : Mode;
  int_actor_id : string;
  int_idempotency_key : string;
  int_request_hash : string;
  int_request_json : string;
  int_state : IntentState;
  rejection_code : option string;
  rejection_message : option string;
  int_created_at : DateTime;
  int_updated_at : DateTime;
}.
#[export] Instance IntentRecord_eta : Eta IntentRecord := λ r,
  mkIntentRecord (int_id r) (int_mode r) (int_actor_id r) (int_idempotency_key r)
    (int_request_hash r) (int_request_json r) (int_state r) (rejection_code r)
    (rejection_message r) (int_created_at r) (int_updated_at r).

(** The record as [serde_json] writes it. *)
Section record_values.
Context `{Platform}.
Definition uuid_value (id : Uuid) : Value := JString (uuid_to_string id).
Definition time_value (t : DateTime) : Value := JString (to_rfc3339 t).
#[export] Instance IntentRecord_value : ToValue IntentRecord := λ r,
  json_obj ["id" ::= uuid_value (int_id r); "mode" ::= Mode_to_string (int_mode r);
    "actor_id" ::= int_actor_id r; "idempotency_key" ::= int_idempotency_key r;
    "request_hash" ::= int_request_hash r; "request_json" ::= int_request_json r;
    "state" ::= int_state r; "rejection_code" ::= rejection_code r;
    "rejection_message" ::= rejection_message r;
    "created_at" ::= time_value (int_created_at r);
    "updated_at" ::= time_value (int_updated_at r)].
End record_values.

Record OrderRecord : Type := mkOrderRecord {
  ord_id : Uuid;
  ord_intent_id : Uuid;
  ord_mode : Mode;
  venue_order_id : option string;
  ord_condition_id : string;
  ord_token_id : string;
  ord_side : Side;
  ord_time_in_force : TimeInForce;
  ord_price : string;
  original_quantity : string;
  remaining_quantity : string;
  ord_state : OrderState;
  ord_created_at : DateTime;
  ord_updated_at : DateTime;
}.
#[export] Instance OrderRecord_eta : Eta OrderRecord := λ r,
  mkOrderRecord (ord_id r) (ord_intent_id r) (ord_mode r) (venue_order_id r)
    (ord_condition_id r) (ord_token_id r) (ord_side r) (ord_time_in_force r) (ord_price r)
    (original_quantity r) (remaining_quantity r) (ord_state r) (ord_created_at r)
    (ord_updated_at r).

#[export] Instance OrderRecord_value `{Platform} : ToValue OrderRecord := λ r,
  json_obj ["id" ::= uuid_value (ord_id r); "intent_id" ::= uuid_value (ord_intent_id r);
    "mode" ::= Mode_to_string (ord_mode r); "venue_order_id" ::= venue_order_id r;
    "condition_id" ::= ord_condition_id r; "token_id" ::= ord_token_id r;
    "side" ::= ord_side r; "time_in_force" ::= ord_time_in_force r;
    "price" ::= ord_price r; "original_quantity" ::= original_quantity r;
    "remaining_quantity" ::= remaining_quantity r; "state" ::= ord_state r;
    "created_at" ::= time_value (ord_created_at r);
    "updated_at" ::= time_value (ord_updated_at r)].

Record TradeRecord : Type := mkTradeRecord {
  trd_id : Uuid;
  trd_order_id : Uuid;
  trd_mode : Mode;
  venue_trade_id : string;
  trd_price : string;
  trd_size : string;
  trd_status : TradeState;
  trd_created_at : DateTime;
  trd_updated_at : DateTime;
}.
#[export] Instance TradeRecord_eta : Eta TradeRecord := λ r,
  mkTradeRecord (trd_id r) (trd_order_id r) (trd_mode r) (venue_trade_id r) (trd_price r)
    (trd_size r) (trd_status r) (trd_created_at r) (trd_updated_at r).

#[export] Instance TradeRecord_value `{Platform} : ToValue TradeRecord := λ r,
  json_obj ["id" ::= uuid_value (trd_id r); "order_id" ::= uuid_value (trd_order_id r);
    "mode" ::= Mode_to_string (trd_mode r); "venue_trade_id" ::= venue_trade_id r;
    "price" ::= trd_price r; "size" ::= trd_size r; "status" ::= trd_status r;
    "created_at" ::= time_value (trd_created_at r);
    "updated_at" ::= time_value (trd_updated_at r)].

Record PositionRecord : Type := mkPositionRecord {
  pos_token_id : string;
  pos_condition_id : string;
  pos_mode : Mode;
  pos_shares : string;
  pos_updated_at : DateTime;
}.
#[export] Instance PositionRecord_eta : Eta PositionRecord := λ r,
  mkPositionRecord (pos_token_id r) (pos_condition_id r) (pos_mode r) (pos_shares r)
    (pos_updated_at r).

Record ExecutionEvent : Type := mkExecutionEvent {
  sequence : Z;
  event_type : string;
  resource_type : string;
  resource_id : string;
  ev_mode : Mode;
  payload_json : string;
  ev_created_at : DateTime;
}.

(** ** Validation: what a valid request looks like *)

Section specification.
Context `{DecimalOps}.

(** The string is a positive decimal with at most six digits after the point. *)
Definition positive_decimal (raw : string) (d : Decimal) : Prop :=
  dec_from_str_exact raw = Some d ∧ (0 < ⟦d⟧)%Q ∧ (dec_scale d ≤ 6)%N.

(** The price field the order type uses; the other one must be absent. *)
Definition protection_field (r : OrderIntentRequest) : option string :=
  match req_time_in_force r with Gtc | Gtd => limit_price r | Fok | Fak => worst_price r end.

Definition expiry_ok (r : OrderIntentRequest) (now : DateTime) : Prop :=
  match req_time_in_force r with
  | Gtd => ∃ e, expires_at r = Some e ∧ now + minutes 3 <= e
  | _ => expires_at r = None
  end.

Definition unit_expected (r : OrderIntentRequest) : QuantityUnit :=
  match req_time_in_force r, req_side r with
  | (Fok | Fak), Buy => Quote
  | _, _ => Shares
  end.

Record well_formed (r : OrderIntentRequest) (now : DateTime) : Prop := {
  wf_condition : (1 ≤ string_length (req_condition_id r) ≤ 128)%nat;
  wf_token : (1 ≤ string_length (req_token_id r) ≤ 128)%nat ∧
             Forall (λ b, 48 ≤ b ≤ 57)%N (bytes (req_token_id r));
  wf_quantity : ∃ q, positive_decimal (qty_value (quantity r)) q;
  wf_price : ∃ raw p, protection_field r = Some raw ∧ positive_decimal raw p ∧ (⟦p⟧ < 1)%Q;
  wf_other_price :
    match req_time_in_force r with
    | Gtc | Gtd => worst_price r = None
    | Fok | Fak => limit_price r = None ∧ post_only r = false
    end;
  wf_expiry : expiry_ok r now;
  wf_unit : qty_unit (quantity r) = unit_expected r;
}.
End specification.

Section lemmas.
Context `{DL : DecimalLaws}.

Lemma parse_positive_decimal_done field raw d :
  parse_positive_decimal field raw = Done d ↔ positive_decimal raw d.
Proof.
  unfold parse_positive_decimal, positive_decimal. split.
  - intros (v & Hv%ok_or_done & ([] & Hpos%reject_if_done & ([] & Hs%reject_if_done & Hr)
      %outcome_bind_done)%outcome_bind_done)%outcome_bind_done.
    injection Hr as <-. dec_prop. rewrite dec_ZERO_value in Hpos.
    apply N.ltb_ge in Hs. done.
  - intros (Hd & Hpos & Hs). rewrite Hd. cbn.
    destruct (dec_le d dec_ZERO) eqn:Hle.
    { dec_prop. rewrite dec_ZERO_value in Hle. lra. }
    cbn. by destruct (N.ltb_spec 6 (dec_scale d)); [lia|].
Qed.

Lemma quantity_decimal_done r q :
  quantity_decimal r = Done q ↔ positive_decimal (qty_value (quantity r)) q.
Proof. apply parse_positive_decimal_done. Qed.

Lemma protection_price_done r p :
  protection_price r = Done p ↔
  ∃ raw, protection_field r = Some raw ∧ positive_decimal raw p ∧ (⟦p⟧ < 1)%Q.
Proof.
  unfold protection_price, protection_field. split.
  - intros (raw & Hraw%ok_or_done & (d & Hd%parse_positive_decimal_done &
      ([] & Hge%reject_if_done & Hp)%outcome_bind_done)%outcome_bind_done)%outcome_bind_done.
    injection Hp as <-. dec_prop. rewrite dec_ONE_value in Hge. eauto.
  - intros (raw & -> & Hp & Hlt). cbn.
    apply (parse_positive_decimal_done "price") in Hp. rewrite Hp. cbn.
    destruct (dec_ge p dec_ONE) eqn:Hge; [|done].
    dec_prop. rewrite dec_ONE_value in Hge. lra.
Qed.

Lemma is_empty_false s : is_empty s = false ↔ (1 ≤ string_length s)%nat.
Proof.
  unfold is_empty. rewrite bool_decide_eq_false. destruct s; cbn; [|split; [lia|done]].
  split; [done|lia].
Qed.

Lemma length_ok_false s :
  is_empty s || (128 <? string_length s)%nat = false ↔ (1 ≤ string_length s ≤ 128)%nat.
Proof. rewrite orb_false_iff, is_empty_false, Nat.ltb_ge. lia. Qed.

Lemma all_digits_true s :
  all_bytes is_ascii_digit s = true ↔ Forall (λ b, 48 ≤ b ≤ 57)%N (bytes s).
Proof.
  unfold all_bytes, is_ascii_digit, byte_in. rewrite forallb_forall, Forall_forall.
  setoid_rewrite andb_true_iff. setoid_rewrite N.leb_le.
  split; intros Hs b Hb; apply Hs; by apply list_elem_of_In.
Qed.

Lemma bool_is_Some_false {A} (o : option A) :
  bool_decide (is_Some o) = false ↔ o = None.
Proof. rewrite bool_decide_eq_false. symmetry. apply eq_None_not_Some. Qed.

(** The checks that depend on the order type, with the unit check that follows
    them. *)
Lemma validate_time_in_force_done r now :
  (validate_time_in_force r now;;
   reject_if (is_resting (req_time_in_force r) &&
              bool_decide (qty_unit (quantity r) ≠ Shares))
     (InvalidCombination "resting orders use share quantity")) = Done tt ↔
  match req_time_in_force r with
  | Gtc | Gtd => worst_price r = None
  | Fok | Fak => limit_price r = None ∧ post_only r = false
  end ∧ expiry_ok r now ∧ qty_unit (quantity r) = unit_expected r.
Proof.
  unfold validate_time_in_force, expiry_ok, unit_expected.
  destruct r as [? ? side tif [u ?] [lp|] [wp|] [e|] [] ?], tif, side, u;
    cbn; try (split; [discriminate | naive_solver]); try (split; naive_solver).
  all: destruct (Z.ltb_spec e (now + minutes 3)); cbn;
    (split; [try discriminate|]); naive_solver lia.
Qed.
End lemmas.

(** C40. [OrderIntentRequest::validate] accepts exactly the well-formed
    requests: identifiers of 1 to 128 bytes with a token of digits, a positive
    quantity and a price strictly between 0 and 1 with at most six decimal
    places, the price field and the unit that go with the order type and side,
    an expiry at least three minutes away for GTD and none otherwise. *)
Theorem validate_iff_well_formed `{DL : DecimalLaws} (r : OrderIntentRequest) (now : DateTime) :
  validate r now = Done tt ↔ well_formed r now.
Proof.
  unfold validate. split.
  - intros ([] & Hc%reject_if_done%length_ok_false & ([] & Ht%reject_if_done &
      (q & Hq%quantity_decimal_done & (p & Hp%protection_price_done & Hrest)
      %outcome_bind_done)%outcome_bind_done)%outcome_bind_done)%outcome_bind_done.
    apply validate_time_in_force_done in Hrest as (Ho & He & Hu).
    apply orb_false_iff in Ht as [Ht%length_ok_false Hd%negb_false_iff%all_digits_true].
    destruct Hp as (raw & Hp). split; [done|done| |naive_solver|done..]. by exists q.
  - intros [Hc [Ht Hd] [q Hq] (raw & p & Hp) Ho He Hu].
    apply length_ok_false in Hc, Ht. apply all_digits_true in Hd.
    apply quantity_decimal_done in Hq.
    assert (protection_price r = Done p) as Hprice by (apply protection_price_done; eauto).
    rewrite Hc, Ht, Hd, Hq, Hprice. cbn [negb orb reject_if mbind outcome_bind].
    by apply validate_time_in_force_done.
Qed.

(** What a cancellation request asks to cancel. *)
Inductive Selector : Type :=
| ByOrder (id : Uuid) | ByIntent (id : Uuid) | ByCondition (id : string) | AllOpen.
Definition selects (r : CancellationRequest) (s : Selector) : Prop :=
  match s with
  | ByOrder id => can_order_id r = Some id
  | ByIntent id => can_intent_id r = Some id
  | ByCondition id => can_condition_id r = Some id
  | AllOpen => all_open_orders r = true
  end.

(** [CancellationRequest::validate] accepts a request exactly when it
    selects orders in one way only (an order, an intent, a condition or all
    open orders) and gives a reason of at most 512 bytes that is not blank. *)
Theorem cancellation_validate_iff (r : CancellationRequest) :
  CancellationRequest_validate r = Done tt ↔
  (∃ s, unique (selects r) s) ∧
  trim_is_empty (can_reason r) = false ∧ (string_length (can_reason r) ≤ 512)%nat.
Proof.
  unfold CancellationRequest_validate.
  rewrite <-Nat.ltb_ge, <-orb_false_iff, outcome_bind_done.
  split.
  - intros ([] & Hsel%reject_if_done & Hreason%reject_if_done).
    split; [|done]. clear Hreason.
    destruct r as [[o|] [i|] [c|] [] reason]; cbn in *; try discriminate Hsel;
      [exists (ByOrder o) | exists (ByIntent i) | exists (ByCondition c) | exists AllOpen];
      (split; [done|]); intros []; cbn; naive_solver.
  - intros [(s & Hs & Huniq) Hreason]. exists tt.
    rewrite !reject_if_done. split; [|done]. clear Hreason.
    assert (∀ s1 s2, selects r s1 → selects r s2 → s1 = s2) as U.
    { intros s1 s2 H1%Huniq H2%Huniq. congruence. }
    destruct r as [[o|] [i|] [c|] [] reason]; cbn in *;
      try done; try (by destruct s); exfalso;
      first [ discriminate (U (ByOrder o) (ByIntent i) eq_refl eq_refl)
            | discriminate (U (ByOrder o) (ByCondition c) eq_refl eq_refl)
            | discriminate (U (ByOrder o) AllOpen eq_refl eq_refl)
            | discriminate (U (ByIntent i) (ByCondition c) eq_refl eq_refl)
            | discriminate (U (ByIntent i) AllOpen eq_refl eq_refl)
            | discriminate (U (ByCondition c) AllOpen eq_refl eq_refl) ].
Qed.

(** ** Witness *)
Section witnesses.
#[local] Existing Instance RefOps.
#[local] Existing Instance RefLaws.

Lemma validate_iff_well_formed_witness :
  well_formed (mkOrderIntentRequest "condition" "123" Buy Gtc (mkQuantity Shares "10")
    (Some "0.50") None None false (mkClientContext None None None)) 0.
Proof. apply validate_iff_well_formed. vm_compute. reflexivity. Defined.
End witnesses.
