(* ===== verification/Venue.v ===== *)
(** * Venue: what the service sees of a venue (venue/mod.rs) *)
From S2P Require Import Prelude DecimalSpec Json Platform Domain.

Section data.
Context `{DecimalOps}.

Record MarketRules : Type := mkMarketRules {
  mr_condition_id : string;
  mr_token_id : string;
  active : bool;
  closed : bool;
  accepting_orders : bool;
  tick_size : Decimal;
  minimum_order_size : Decimal;
  negative_risk : bool;
  maker_fee_rate : Decimal;
  taker_fee_rate : Decimal;
  mr_observed_at : DateTime;
}.

Record PriceLevel : Type := mkPriceLevel { price : Decimal; size : Decimal }.

Record OrderBook : Type := mkOrderBook {
  bids : list PriceLevel;
  asks : list PriceLevel;
  ob_observed_at : DateTime;
  ob_hash : option string;
}.

Definition best_bid (self : OrderBook) : option Decimal := dec_iter_max (price <$> bids self).
Definition best_ask (self : OrderBook) : option Decimal := dec_iter_min (price <$> asks self).

(** The sums panic when they overflow. *)
Definition ask_depth_through (self : OrderBook) (p : Decimal) : option Decimal :=
  dec_sum (size <$> List.filter (λ level, dec_le (price level) p) (asks self)).
Definition bid_depth_through (self : OrderBook) (p : Decimal) : option Decimal :=
  dec_sum (size <$> List.filter (λ level, dec_ge (price level) p) (bids self)).

Record PreparedVenueOrder : Type := mkPreparedVenueOrder {
  deterministic_order_id : string;
  normalized_json : string;
  signed_payload_json : option string;
  signer_address : option string;
  funder_address : option string;
  protocol_version : Z;
  sdk_version : string;
}.

Record VenueSubmission : Type := mkVenueSubmission {
  sub_venue_order_id : string;
  sub_state : OrderState;
  sub_filled_quantity : Decimal;
  sub_filled_price : option Decimal;
  sub_venue_trade_ids : list string;
  sub_evidence : Value;
}.

Record VenueCancellation : Type := mkVenueCancellation {
  vc_state : OrderState;
  vc_evidence : Value;
}.

Record ObservedVenueOrder : Type := mkObservedVenueOrder {
  obs_venue_order_id : string;
  obs_state : OrderState;
  obs_remaining_quantity : Decimal;
  obs_filled_quantity : Decimal;
  obs_filled_price : option Decimal;
  obs_venue_trade_ids : list string;
  obs_evidence : Value;
}.

Record ObservedVenueTrade : Type := mkObservedVenueTrade {
  obt_venue_trade_id : string;
  obt_venue_order_ids : list string;
  obt_status : TradeState;
  obt_evidence : Value;
}.

Record ObservedVenuePosition : Type := mkObservedVenuePosition {
  obp_condition_id : string;
  obp_token_id : string;
  obp_shares : Decimal;
  obp_evidence : Value;
}.

Record ReconciliationResult : Type := mkReconciliationResult {
  orders_observed : Z;
  trades_observed : Z;
  observed_orders : list ObservedVenueOrder;
  observed_trades : list ObservedVenueTrade;
  observed_positions : list ObservedVenuePosition;
  critical_findings : list string;
}.

#[export] Instance ObservedVenueOrder_value : ToValue ObservedVenueOrder := λ o,
  json_obj ["venue_order_id" ::= obs_venue_order_id o; "state" ::= obs_state o;
    "remaining_quantity" ::= obs_remaining_quantity o;
    "filled_quantity" ::= obs_filled_quantity o; "filled_price" ::= obs_filled_price o;
    "venue_trade_ids" ::= obs_venue_trade_ids o; "evidence" ::= obs_evidence o].
#[export] Instance ObservedVenueTrade_value : ToValue ObservedVenueTrade := λ t,
  json_obj ["venue_trade_id" ::= obt_venue_trade_id t;
    "venue_order_ids" ::= obt_venue_order_ids t; "status" ::= obt_status t;
    "evidence" ::= obt_evidence t].
#[export] Instance ObservedVenuePosition_value : ToValue ObservedVenuePosition := λ p,
  json_obj ["condition_id" ::= obp_condition_id p; "token_id" ::= obp_token_id p;
    "shares" ::= obp_shares p; "evidence" ::= obp_evidence p].
#[export] Instance ReconciliationResult_value : ToValue ReconciliationResult := λ r,
  json_obj ["orders_observed" ::= orders_observed r; "trades_observed" ::= trades_observed r;
    "observed_orders" ::= observed_orders r; "observed_trades" ::= observed_trades r;
    "observed_positions" ::= observed_positions r;
    "critical_findings" ::= critical_findings r].
End data.

Module VenueError.
Inductive t : Type :=
| Market (m : string)
| Stale (m : string)
| Rejected (m : string)
| Ambiguous (m : string)
| Unavailable (m : string)
| MatchingEngineRestart (m : string)
| ProtocolMismatch (m : string)
| GeographicRestricted (m : string)
| LiveNotCompiled
| LiveNotConfigured (m : string).

Definition to_string (e : t) : string :=
  match e with
  | Market m => "market validation failed: " +:+ m
  | Stale m => "venue is stale: " +:+ m
  | Rejected m => "venue rejected request: " +:+ m
  | Ambiguous m => "venue response is ambiguous: " +:+ m
  | Unavailable m => "venue temporarily unavailable: " +:+ m
  | MatchingEngineRestart m => "matching engine is restarting: " +:+ m
  | ProtocolMismatch m => "venue protocol mismatch: " +:+ m
  | GeographicRestricted m => "geographic policy prohibits new orders: " +:+ m
  | LiveNotCompiled => "live support is not compiled into this binary"
  | LiveNotConfigured m => "live trading is not configured: " +:+ m
  end.

Definition is_ambiguous (e : t) : bool :=
  match e with Ambiguous _ => true | _ => false end.

Definition requires_halt (e : t) : bool :=
  match e with
  | Ambiguous _ | MatchingEngineRestart _ | ProtocolMismatch _
  | GeographicRestricted _ => true
  | _ => false
  end.
End VenueError.
Abbreviation VenueError := VenueError.t.

(** The [ExecutionVenue] trait: each call of a venue may answer differently, so
    a venue is a record of functions of its own state. *)
Class ExecutionVenue `{DecimalOps} (V : Type) : Type := {
  market_rules : string → string → Prog V VenueError MarketRules;
  order_book : string → Prog V VenueError OrderBook;
  prepare : Uuid → OrderIntentRequest → Prog V VenueError PreparedVenueOrder;
  submit : PreparedVenueOrder → OrderIntentRequest → Prog V VenueError VenueSubmission;
  cancel : string → Prog V VenueError VenueCancellation;
  find_order : string → Prog V VenueError (option ObservedVenueOrder);
  venue_reconcile : Prog V VenueError ReconciliationResult;
  heartbeat : Prog V VenueError ();
  requires_heartbeat : bool;
  reconciliation_required : V → bool;
}.

(** ** The best prices and the depth *)
Section lemmas.
Context `{DecimalLaws}.

Lemma best_bid_spec book b :
  best_bid book = Some b →
  (∃ level, level ∈ bids book ∧ price level = b) ∧
  ∀ level, level ∈ bids book → (⟦price level⟧ <= ⟦b⟧)%Q.
Proof.
  intros [Hin Hmax]%dec_iter_max_spec. split.
  - apply list_elem_of_fmap in Hin as (level & -> & Hin). eauto.
  - intros level Hl. apply Hmax, list_elem_of_fmap. eauto.
Qed.

Lemma best_ask_spec book a :
  best_ask book = Some a →
  (∃ level, level ∈ asks book ∧ price level = a) ∧
  ∀ level, level ∈ asks book → (⟦a⟧ <= ⟦price level⟧)%Q.
Proof.
  intros [Hin Hmin]%dec_iter_min_spec. split.
  - apply list_elem_of_fmap in Hin as (level & -> & Hin). eauto.
  - intros level Hl. apply Hmin, list_elem_of_fmap. eauto.
Qed.
End lemmas.
