(* ===== verification/Fixtures.v ===== *)
(** * Fixtures: concrete inputs for the witnesses

    A platform with a constant clock and simple text formats, and the market,
    book and request of the tests of the sources. *)
From S2P Require Import Prelude Text DecimalSpec RefDecimal Json Platform Domain Venue.

(** Identifiers are written as their unsigned decimal digits. *)
Definition ref_nat_to_string (n : N) : string := string_of_list_ascii (digits_of n).

(** Values as text: strings stand for themselves, without quotes. *)
Fixpoint ref_json (v : Value) : string :=
  match v with
  | JNull => "null"
  | JBool b => if b then "true" else "false"
  | JInt z => (if z <? 0 then "-" else "") +:+ ref_nat_to_string (Z.to_N (Z.abs z))
  | JFloat text => text
  | JString s => s
  | JArray l => "[" +:+ List.fold_right (λ w s, ref_json w +:+ "," +:+ s) "]" l
  | JObject l => "{" +:+ List.fold_right (λ m s, m.1 +:+ ":" +:+ ref_json m.2 +:+ "," +:+ s) "}" l
  end.

Definition RefPlatform : Platform := {|
  utc_clock _ := 1000 * 1000000000;
  uuid_v7 n := N.of_nat n;
  uuid_to_string := ref_nat_to_string;
  uuid_parse_str s := digits_value (list_ascii_of_string s);
  to_rfc3339 _ := "time";
  sha256_hex s := s;
  json_to_string := ref_json;
  json_from_str s := if decide (s = "") then None else Some (JString s);
  jcs_to_string := ref_json;
  nat_to_string := ref_nat_to_string;
|}.

Section fixtures.
#[local] Existing Instance RefOps.

Definition fix_now : DateTime := 1000 * 1000000000.

Definition fix_request : OrderIntentRequest :=
  mkOrderIntentRequest "condition" "123" Buy Gtc (mkQuantity Shares "10") (Some "0.50")
    None None false (mkClientContext None None None).

(** An immediate buy of 5 units of quote at no more than 0.60. *)
Definition fix_immediate : OrderIntentRequest :=
  mkOrderIntentRequest "condition" "123" Buy Fok (mkQuantity Quote "5") None
    (Some "0.60") None false (mkClientContext None None None).

Definition fix_market : MarketRules :=
  mkMarketRules "condition" "123" true false true (RefDec 1 2) (RefDec 1 0) false
    (RefDec 0 0) (RefDec 0 0) fix_now.

Definition fix_book : OrderBook :=
  mkOrderBook [mkPriceLevel (RefDec 49 2) (RefDec 100 0)]
    [mkPriceLevel (RefDec 55 2) (RefDec 100 0)] fix_now None.
End fixtures.
