(* ===== verification/Risk.v ===== *)
(** * Risk: the risk policy and its evaluation (risk.rs)

    [evaluate] is written with early returns: a [Failed] outcome of the inner
    computation is a rejection the Rust function returns, [Panicked] is the
    panic of an [expect] or of the decimal arithmetic. *)
From S2P Require Import Prelude Text DecimalSpec RefDecimal Json Platform Domain Venue Fixtures.

#[export] Instance Side_countable : Countable Side.
Proof.
  refine (inj_countable' (λ s, match s with Buy => true | Sell => false end)
    (λ b : bool, if b then Buy else Sell) _). by intros [].
Defined.
#[export] Instance TimeInForce_countable : Countable TimeInForce.
Proof.
  refine (inj_countable'
    (λ t, match t with Gtc => (true, true) | Gtd => (true, false)
                     | Fok => (false, true) | Fak => (false, false) end)
    (λ b : bool * bool, match b with (true, true) => Gtc | (true, false) => Gtd
                     | (false, true) => Fok | (false, false) => Fak end) _). by intros [].
Defined.

Record RiskPolicy : Type := mkRiskPolicy {
  version : string;
  allowed_condition_ids : gset string;
  allowed_token_ids : gset string;
  allowed_sides : gset Side;
  allowed_time_in_force : gset TimeInForce;
  max_quote_per_order : string;
  max_shares_per_order : string;
  max_open_orders : Z;
  max_open_notional_per_market : string;
  max_net_position_per_token : string;
  max_gross_exposure : string;
  max_daily_matched_notional : string;
  max_worst_price_distance : string;
  min_visible_depth : string;
  max_market_metadata_age_seconds : Z;
  max_order_book_age_seconds : Z;
  max_user_stream_age_seconds : Z;
  max_reconciliation_age_seconds : Z;
  cancel_on_halt : bool;
}.

Record RiskDecision : Type := mkRiskDecision {
  approved : bool;
  reason_code : string;
  rd_message : string;
  observed : Value;
  policy_version : string;
}.

Definition default_sides : gset Side := {[Buy; Sell]}.
Definition default_time_in_force : gset TimeInForce := {[Gtc; Gtd; Fok; Fak]}.
Definition default_cancel_on_halt : bool := true.

Section risk.
Context `{DecimalOps}.

(** What [Store::risk_snapshot] reports (store.rs). *)
Record RiskSnapshot : Type := mkRiskSnapshot {
  open_order_count : Z;
  market_open_notional : Decimal;
  token_position : Decimal;
  token_pending_buys : Decimal;
  token_pending_sells : Decimal;
  gross_exposure : Decimal;
  daily_matched_notional : Decimal;
}.

(** The decimal limits of a policy with their names, in the order checked. *)
Definition policy_decimals (self : RiskPolicy) : list (string * string) :=
  [ ("max_quote_per_order", max_quote_per_order self);
    ("max_shares_per_order", max_shares_per_order self);
    ("max_open_notional_per_market", max_open_notional_per_market self);
    ("max_net_position_per_token", max_net_position_per_token self);
    ("max_gross_exposure", max_gross_exposure self);
    ("max_daily_matched_notional", max_daily_matched_notional self);
    ("max_worst_price_distance", max_worst_price_distance self);
    ("min_visible_depth", min_visible_depth self) ].

Fixpoint validate_decimals (l : list (string * string)) : outcome string () :=
  match l with
  | [] => Done tt
  | (name, raw) :: l' =>
      v ← ok_or (name +:+ " must be an exact decimal string") (dec_from_str_exact raw);
      reject_if (negb (dec_ge v dec_ZERO)) (name +:+ " may not be negative");;
      validate_decimals l'
  end.

Definition RiskPolicy_validate (self : RiskPolicy) : outcome string () :=
  reject_if (trim_is_empty (version self)) "risk policy version is required";;
  reject_if (negb (0 <? max_open_orders self)) "max_open_orders must be positive";;
  reject_if (negb ((0 <? max_market_metadata_age_seconds self) &&
                   (0 <? max_order_book_age_seconds self) &&
                   (0 <? max_user_stream_age_seconds self) &&
                   (0 <? max_reconciliation_age_seconds self)))
    "risk freshness limits must be positive";;
  validate_decimals (policy_decimals self).

(** [Decimal::from_str(raw).expect("validated risk decimal")]. *)
Definition decimal {E} (raw : string) : outcome E Decimal := or_panic (dec_from_str raw).

(** The outer [option] is a panic of the division, the inner one the
    [Option] the function returns. *)
Definition conservative_exposure (request : OrderIntentRequest) (market : MarketRules)
    (quantity price : Decimal) : option (option (Decimal * Decimal)) :=
  if bool_decide (req_side request = Buy) && is_immediate (req_time_in_force request)
  then if dec_gt (tick_size market) dec_ZERO
       then shares ← dec_div quantity (tick_size market); Some (Some (shares, quantity))
       else Some None
  else quote ← dec_mul price quantity; Some (Some (quantity, quote)).

Section evaluate.
Context (self : RiskPolicy) (request : OrderIntentRequest) (market : MarketRules)
        (book : OrderBook) (snapshot : RiskSnapshot).

Definition reject {A} (code message : string) (observed : Value) : outcome RiskDecision A :=
  Failed (mkRiskDecision false code message observed (version self)).
Definition reject_when (b : bool) (code message : string) (observed : Value)
    : outcome RiskDecision () :=
  if b then reject code message observed else Done tt.

Definition check_allowed : outcome RiskDecision () :=
  reject_when (bool_decide (allowed_condition_ids self ≠ ∅) &&
               bool_decide (req_condition_id request ∉ allowed_condition_ids self))
    "RISK_CONDITION_NOT_ALLOWED" "condition is not allowlisted"
    (json_obj ["condition_id" ::= req_condition_id request]);;
  reject_when (bool_decide (allowed_token_ids self ≠ ∅) &&
               bool_decide (req_token_id request ∉ allowed_token_ids self))
    "RISK_TOKEN_NOT_ALLOWED" "token is not allowlisted"
    (json_obj ["token_id" ::= req_token_id request]);;
  reject_when (bool_decide (req_side request ∉ allowed_sides self))
    "RISK_SIDE_NOT_ALLOWED" "side is not allowed"
    (json_obj ["side" ::= req_side request]);;
  reject_when (bool_decide (req_time_in_force request ∉ allowed_time_in_force self))
    "RISK_TIF_NOT_ALLOWED" "time in force is not allowed"
    (json_obj ["time_in_force" ::= req_time_in_force request]);;
  reject_when (negb (active market) || closed market || negb (accepting_orders market))
    "MARKET_NOT_ACCEPTING_ORDERS" "market is not active and accepting orders"
    (json_obj ["active" ::= active market; "closed" ::= closed market;
               "accepting_orders" ::= accepting_orders market]).

(** A [match] on a [Result] whose error is returned as a rejection. *)
Definition or_reject {A} (code : string) (o : outcome DomainError A)
    : outcome RiskDecision A :=
  map_err (λ e, mkRiskDecision false code (DomainError_to_string e) (json_obj [])
                  (version self)) o.

Definition check_exposure (quantity price : Decimal)
    : outcome RiskDecision (Decimal * Decimal) :=
  exposure ← or_panic (conservative_exposure request market quantity price);
  match exposure with
  | Some exposure => Done exposure
  | None => reject "MARKET_RULES_INVALID" "market tick size must be positive"
              (json_obj ["tick_size" ::= tick_size market])
  end.

Definition limited (code message : string) (obs limit : Decimal) : outcome RiskDecision () :=
  reject_when (dec_gt obs limit) code message
    (json_obj ["observed" ::= obs; "limit" ::= limit]).

Definition check_order_limits (shares quote : Decimal) : outcome RiskDecision () :=
  max_shares ← decimal (max_shares_per_order self);
  max_quote ← decimal (max_quote_per_order self);
  limited "RISK_MAX_SHARES_PER_ORDER" "share quantity exceeds policy" shares max_shares;;
  limited "RISK_MAX_QUOTE_PER_ORDER" "quote notional exceeds policy" quote max_quote;;
  reject_when (max_open_orders self <=? open_order_count snapshot)
    "RISK_MAX_OPEN_ORDERS" "open order count exceeds policy"
    (json_obj ["observed" ::= open_order_count snapshot; "limit" ::= max_open_orders self]).

Definition check_market (quote : Decimal) : outcome RiskDecision Decimal :=
  market_after ← or_panic (dec_add (market_open_notional snapshot) quote);
  market_limit ← decimal (max_open_notional_per_market self);
  limited "RISK_MAX_MARKET_EXPOSURE" "worst-case market exposure would exceed policy"
    market_after market_limit;;
  mret market_after.

Definition side_amount (s : Side) (amount : Decimal) : Decimal :=
  if bool_decide (req_side request = s) then amount else dec_ZERO.

Definition check_position (shares : Decimal) : outcome RiskDecision (Decimal * Decimal) :=
  long_pending ← or_panic (dec_add (token_position snapshot) (token_pending_buys snapshot));
  long_after ← or_panic (dec_add long_pending (side_amount Buy shares));
  short_pending ← or_panic (dec_sub (token_position snapshot) (token_pending_sells snapshot));
  short_after ← or_panic (dec_sub short_pending (side_amount Sell shares));
  let worst_position_after := dec_max (dec_abs long_after) (dec_abs short_after) in
  position_limit ← decimal (max_net_position_per_token self);
  reject_when (dec_gt worst_position_after position_limit)
    "RISK_MAX_TOKEN_POSITION" "worst-case token position would exceed policy"
    (json_obj ["observed" ::= worst_position_after; "long_case" ::= long_after;
               "short_case" ::= short_after; "limit" ::= position_limit]);;
  mret (long_after, short_after).

Definition gross_added (quote : Decimal) : option Decimal :=
  if bool_decide (req_side request = Buy)
  then fee ← dec_mul quote (taker_fee_rate market); dec_add quote fee
  else Some dec_ZERO.

Definition check_gross (quote : Decimal) : outcome RiskDecision Decimal :=
  added ← or_panic (gross_added quote);
  gross_after ← or_panic (dec_add (gross_exposure snapshot) added);
  gross_limit ← decimal (max_gross_exposure self);
  limited "RISK_MAX_GROSS_EXPOSURE" "worst-case gross exposure would exceed policy"
    gross_after gross_limit;;
  mret gross_after.

Definition check_daily (quote : Decimal) : outcome RiskDecision () :=
  daily_after ← or_panic (dec_add (daily_matched_notional snapshot) quote);
  daily_limit ← decimal (max_daily_matched_notional self);
  limited "RISK_MAX_DAILY_MATCHED_NOTIONAL" "daily matched notional would exceed policy"
    daily_after daily_limit.

Definition reference_and_depth (p : Decimal) : option Decimal * option Decimal :=
  match req_side request with
  | Buy => (best_ask book, ask_depth_through book p)
  | Sell => (best_bid book, bid_depth_through book p)
  end.

Definition check_book (p : Decimal) : outcome RiskDecision () :=
  if is_immediate (req_time_in_force request) then
    visible_depth ← or_panic (reference_and_depth p).2;
    match (reference_and_depth p).1 with
    | None => reject "RISK_EMPTY_BOOK" "book has no executable liquidity" (json_obj [])
    | Some reference =>
        diff ← or_panic (dec_sub p reference);
        let distance := dec_abs diff in
        distance_limit ← decimal (max_worst_price_distance self);
        limited "RISK_WORST_PRICE_DISTANCE" "worst price is too far from the current book"
          distance distance_limit;;
        depth_limit ← decimal (min_visible_depth self);
        reject_when (dec_lt visible_depth depth_limit)
          "RISK_MIN_VISIBLE_DEPTH" "visible executable depth is below policy"
          (json_obj ["observed" ::= visible_depth; "limit" ::= depth_limit])
    end
  else Done tt.

Definition evaluate_inner : outcome RiskDecision RiskDecision :=
  check_allowed;;
  quantity ← or_reject "ORDER_INVALID_QUANTITY" (quantity_decimal request);
  price ← or_reject "ORDER_INVALID_PRICE" (protection_price request);
  '(shares, quote) ← check_exposure quantity price;
  check_order_limits shares quote;;
  market_after ← check_market quote;
  '(long_after, short_after) ← check_position shares;
  gross_after ← check_gross quote;
  check_daily quote;;
  check_book price;;
  mret (mkRiskDecision true "RISK_APPROVED" "intent satisfies policy"
    (json_obj ["quote" ::= quote; "shares" ::= shares; "gross_after" ::= gross_after;
               "market_after" ::= market_after; "long_position_after" ::= long_after;
               "short_position_after" ::= short_after])
    (version self)).

(** [None] is a panic. *)
Definition evaluate : option RiskDecision :=
  match evaluate_inner with
  | Done decision | Failed decision => Some decision
  | Panicked => None
  end.
End evaluate.
End risk.

(** ** What an approval guarantees and what a rejection means *)

(** The limit [raw] of the policy bounds the rational [q]. *)
Definition limit_holds `{DecimalOps} (q : Q) (raw : string) : Prop :=
  ∃ limit, dec_from_str raw = Some limit ∧ (q <= ⟦limit⟧)%Q.

Section specification.
Context `{DecimalOps}.
Context (self : RiskPolicy) (request : OrderIntentRequest) (market : MarketRules)
        (book : OrderBook) (snapshot : RiskSnapshot).

(** The amount of an order that counts on one side, over the rationals. *)
Definition Qside (s : Side) (q : Q) : Q :=
  if bool_decide (req_side request = s) then q else 0%Q.

(** The worst case of an order of [shares] and [quote] stays within every
    limit.  The sums are those of exact arithmetic, wherever they fit the
    decimal type. *)
Record order_within_limits (p shares quote : Decimal) : Prop := {
  wl_shares : limit_holds ⟦shares⟧ (max_shares_per_order self);
  wl_quote : limit_holds ⟦quote⟧ (max_quote_per_order self);
  wl_open : open_order_count snapshot < max_open_orders self;
  wl_market :
    let after := (⟦market_open_notional snapshot⟧ + ⟦quote⟧)%Q in
    representable after → limit_holds after (max_open_notional_per_market self);
  wl_long :
    let pending := (⟦token_position snapshot⟧ + ⟦token_pending_buys snapshot⟧)%Q in
    let after := (pending + Qside Buy ⟦shares⟧)%Q in
    representable pending → representable after →
    limit_holds (Qabs.Qabs after) (max_net_position_per_token self);
  wl_short :
    let pending := (⟦token_position snapshot⟧ - ⟦token_pending_sells snapshot⟧)%Q in
    let after := (pending - Qside Sell ⟦shares⟧)%Q in
    representable pending → representable after →
    limit_holds (Qabs.Qabs after) (max_net_position_per_token self);
  wl_gross :
    let fee := (⟦quote⟧ * ⟦taker_fee_rate market⟧)%Q in
    let added := Qside Buy (⟦quote⟧ + fee) in
    let after := (⟦gross_exposure snapshot⟧ + added)%Q in
    representable fee → representable (⟦quote⟧ + fee) → representable after →
    limit_holds after (max_gross_exposure self);
  wl_daily :
    let after := (⟦daily_matched_notional snapshot⟧ + ⟦quote⟧)%Q in
    representable after → limit_holds after (max_daily_matched_notional self);
  wl_book :
    is_immediate (req_time_in_force request) = true →
    ∃ reference depth limit,
      reference_and_depth request book p = (Some reference, Some depth) ∧
      (representable (⟦p⟧ - ⟦reference⟧) →
       limit_holds (Qabs.Qabs (⟦p⟧ - ⟦reference⟧)) (max_worst_price_distance self)) ∧
      dec_from_str (min_visible_depth self) = Some limit ∧ (⟦limit⟧ <= ⟦depth⟧)%Q;
}.

Record request_allowed : Prop := {
  ra_condition : allowed_condition_ids self = ∅ ∨
                 req_condition_id request ∈ allowed_condition_ids self;
  ra_token : allowed_token_ids self = ∅ ∨
             req_token_id request ∈ allowed_token_ids self;
  ra_side : req_side request ∈ allowed_sides self;
  ra_tif : req_time_in_force request ∈ allowed_time_in_force self;
  ra_market : active market = true ∧ closed market = false ∧ accepting_orders market = true;
}.
End specification.

Section lemmas.
Context `{DL : DecimalLaws}.

Lemma reject_when_done policy b code message obs u :
  reject_when policy b code message obs = Done u ↔ b = false.
Proof. destruct b, u; cbn; naive_solver. Qed.

Lemma limited_done policy code message obs limit u :
  limited policy code message obs limit = Done u ↔ (⟦obs⟧ <= ⟦limit⟧)%Q.
Proof. unfold limited. by rewrite reject_when_done, dec_gt_false. Qed.

Lemma limit_holds_intro q obs raw limit :
  dec_from_str raw = Some limit → (⟦obs⟧ <= ⟦limit⟧)%Q → ⟦obs⟧ == q → limit_holds q raw.
Proof. intros Hraw Hle Hq. exists limit. split; [done|]. by rewrite <-Hq. Qed.

#[export] Instance limit_holds_proper : Proper (Qeq ==> eq ==> iff) limit_holds.
Proof.
  intros p q Hpq raw _ <-. unfold limit_holds.
  split; intros (l & ? & Hl); exists l; (split; [done|]);
    [by rewrite <-Hpq | by rewrite Hpq].
Qed.

(** A sum the code computes equals the exact sum when that fits. *)
Lemma dec_add_eq a b c : dec_add a b = Some c → representable (⟦a⟧ + ⟦b⟧) → ⟦c⟧ == ⟦a⟧ + ⟦b⟧.
Proof. intros Hc (d & Hd & Heq)%dec_add_exact. by simplify_eq. Qed.
Lemma dec_sub_eq a b c : dec_sub a b = Some c → representable (⟦a⟧ - ⟦b⟧) → ⟦c⟧ == ⟦a⟧ - ⟦b⟧.
Proof. intros Hc (d & Hd & Heq)%dec_sub_exact. by simplify_eq. Qed.
Lemma dec_mul_eq a b c : dec_mul a b = Some c → representable (⟦a⟧ * ⟦b⟧) → ⟦c⟧ == ⟦a⟧ * ⟦b⟧.
Proof. intros Hc (d & Hd & Heq)%dec_mul_exact. by simplify_eq. Qed.

#[export] Instance Qside_proper request s : Proper (Qeq ==> Qeq) (Qside request s).
Proof. intros p q Hpq. unfold Qside. by case_bool_decide. Qed.

Lemma side_amount_value request s amount :
  ⟦side_amount request s amount⟧ == Qside request s ⟦amount⟧.
Proof.
  unfold side_amount, Qside. case_bool_decide; [done|]. apply dec_ZERO_value.
Qed.

Context (self : RiskPolicy) (request : OrderIntentRequest) (market : MarketRules)
        (book : OrderBook) (snapshot : RiskSnapshot).

Lemma not_allowed_false {A} `{Countable A} (x : A) (allowed : gset A) :
  bool_decide (allowed ≠ ∅) && bool_decide (x ∉ allowed) = false ↔
  allowed = ∅ ∨ x ∈ allowed.
Proof.
  rewrite andb_false_iff, !bool_decide_eq_false.
  split; intros [Hx|Hx]; (try apply dec_stable in Hx); tauto.
Qed.

Lemma not_member_false {A} `{Countable A} (x : A) (allowed : gset A) :
  bool_decide (x ∉ allowed) = false ↔ x ∈ allowed.
Proof. rewrite bool_decide_eq_false. split; [apply dec_stable | tauto]. Qed.

Lemma check_allowed_done u :
  check_allowed self request market = Done u ↔ request_allowed self request market.
Proof.
  destruct u. unfold check_allowed. split.
  - intros ([] & Hc & ([] & Ht & ([] & Hs & ([] & Htif & Hm)
      %outcome_bind_done)%outcome_bind_done)%outcome_bind_done)%outcome_bind_done.
    rewrite reject_when_done in *.
    apply not_allowed_false in Hc, Ht. apply not_member_false in Hs, Htif.
    apply orb_false_iff in Hm as [[Ha Hcl]%orb_false_iff Hacc].
    apply negb_false_iff in Ha, Hacc. by split.
  - intros [Hc Ht Hs Htif (Ha & Hcl & Hacc)].
    apply not_allowed_false in Hc, Ht. apply not_member_false in Hs, Htif.
    by rewrite Hc, Ht, Hs, Htif, Ha, Hcl, Hacc.
Qed.

Lemma or_reject_done {A} code (o : outcome DomainError A) a :
  or_reject self code o = Done a ↔ o = Done a.
Proof. apply map_err_done. Qed.

Lemma check_exposure_done quantity price shares quote :
  check_exposure self request market quantity price = Done (shares, quote) ↔
  conservative_exposure request market quantity price = Some (Some (shares, quote)).
Proof.
  unfold check_exposure.
  destruct (conservative_exposure _ _ _ _) as [[x|]|]; cbn; naive_solver.
Qed.

Lemma check_order_limits_done shares quote u :
  check_order_limits self snapshot shares quote = Done u →
  limit_holds ⟦shares⟧ (max_shares_per_order self) ∧
  limit_holds ⟦quote⟧ (max_quote_per_order self) ∧
  open_order_count snapshot < max_open_orders self.
Proof.
  unfold check_order_limits, decimal. intros. run_inv.
  repeat match goal with H : limited _ _ _ _ _ = Done _ |- _ => apply limited_done in H end.
  match goal with H : reject_when _ _ _ _ _ = Done _ |- _ => apply reject_when_done in H end.
  unfold limit_holds. split_and!; [naive_solver..|]. lia.
Qed.

Lemma check_market_done quote after :
  check_market self snapshot quote = Done after →
  representable (⟦market_open_notional snapshot⟧ + ⟦quote⟧) →
  limit_holds (⟦market_open_notional snapshot⟧ + ⟦quote⟧) (max_open_notional_per_market self).
Proof.
  unfold check_market, decimal. intros Hc Hrep. run_inv.
  match goal with H : limited _ _ _ _ _ = Done _ |- _ => apply limited_done in H end.
  eapply limit_holds_intro; [done..|]. by apply dec_add_eq.
Qed.

(** A position the code computes in two steps stays within a limit that bounds
    the larger of the two cases. *)
Lemma position_bound q after worst limit raw :
  ⟦after⟧ == q → (⟦dec_abs after⟧ <= ⟦worst⟧)%Q → (⟦worst⟧ <= ⟦limit⟧)%Q →
  dec_from_str raw = Some limit → limit_holds (Qabs.Qabs q) raw.
Proof.
  intros Hq Habs Hw Hraw. exists limit. split; [done|].
  rewrite dec_abs_value, Hq in Habs. lra.
Qed.

Lemma check_position_done shares after :
  check_position self request snapshot shares = Done after →
  (let pending := (⟦token_position snapshot⟧ + ⟦token_pending_buys snapshot⟧)%Q in
   let after := (pending + Qside request Buy ⟦shares⟧)%Q in
   representable pending → representable after →
   limit_holds (Qabs.Qabs after) (max_net_position_per_token self)) ∧
  (let pending := (⟦token_position snapshot⟧ - ⟦token_pending_sells snapshot⟧)%Q in
   let after := (pending - Qside request Sell ⟦shares⟧)%Q in
   representable pending → representable after →
   limit_holds (Qabs.Qabs after) (max_net_position_per_token self)).
Proof.
  unfold check_position, decimal.
  intros (lp & Hlp%or_panic_done & (la & Hla%or_panic_done & (sp & Hsp%or_panic_done &
    (sa & Hsa%or_panic_done & (limit & Hlimit%or_panic_done & ([] & Hw%reject_when_done & _)
    %outcome_bind_done)%outcome_bind_done)%outcome_bind_done)%outcome_bind_done)
    %outcome_bind_done)%outcome_bind_done.
  dec_prop. split; intros Hp Ha.
  - apply dec_add_eq in Hlp; [|done].
    eapply position_bound; [|apply dec_max_ge_l|exact Hw|done].
    rewrite (dec_add_eq _ _ _ Hla); rewrite Hlp, side_amount_value; [reflexivity|done].
  - apply dec_sub_eq in Hsp; [|done].
    eapply position_bound; [|apply dec_max_ge_r|exact Hw|done].
    rewrite (dec_sub_eq _ _ _ Hsa); rewrite Hsp, side_amount_value; [reflexivity|done].
Qed.

Lemma gross_added_eq quote added :
  gross_added request market quote = Some added →
  representable (⟦quote⟧ * ⟦taker_fee_rate market⟧) →
  representable (⟦quote⟧ + ⟦quote⟧ * ⟦taker_fee_rate market⟧) →
  ⟦added⟧ == Qside request Buy (⟦quote⟧ + ⟦quote⟧ * ⟦taker_fee_rate market⟧).
Proof.
  unfold gross_added, Qside. case_bool_decide as Hs.
  - intros (fee & Hfee & Hadd)%bind_Some Hr1 Hr2.
    apply dec_mul_eq in Hfee; [|done].
    rewrite (dec_add_eq _ _ _ Hadd); rewrite Hfee; [reflexivity|done].
  - intros [= <-] _ _. apply dec_ZERO_value.
Qed.

Lemma check_gross_done quote after :
  check_gross self request market snapshot quote = Done after →
  let fee := (⟦quote⟧ * ⟦taker_fee_rate market⟧)%Q in
  let added := Qside request Buy (⟦quote⟧ + fee) in
  let after := (⟦gross_exposure snapshot⟧ + added)%Q in
  representable fee → representable (⟦quote⟧ + fee) → representable after →
  limit_holds after (max_gross_exposure self).
Proof.
  unfold check_gross, decimal. cbv zeta.
  intros (added & Hadded%or_panic_done & (ga & Hga%or_panic_done & (limit & Hlimit%or_panic_done
    & ([] & Hle%limited_done & _)%outcome_bind_done)%outcome_bind_done)%outcome_bind_done)
    %outcome_bind_done Hr1 Hr2 Hr3.
  apply gross_added_eq in Hadded; [|done..].
  eapply limit_holds_intro; [done..|].
  rewrite (dec_add_eq _ _ _ Hga); rewrite Hadded; [reflexivity|done].
Qed.

Lemma check_daily_done quote u :
  check_daily self snapshot quote = Done u →
  representable (⟦daily_matched_notional snapshot⟧ + ⟦quote⟧) →
  limit_holds (⟦daily_matched_notional snapshot⟧ + ⟦quote⟧) (max_daily_matched_notional self).
Proof.
  unfold check_daily, decimal.
  intros (da & Hda%or_panic_done & (limit & Hlimit%or_panic_done & Hle%limited_done)
    %outcome_bind_done)%outcome_bind_done Hr.
  eapply limit_holds_intro; [done..|]. by apply dec_add_eq.
Qed.

Lemma check_book_done p u :
  check_book self request book p = Done u →
  is_immediate (req_time_in_force request) = true →
  ∃ reference depth limit,
    reference_and_depth request book p = (Some reference, Some depth) ∧
    (representable (⟦p⟧ - ⟦reference⟧) →
     limit_holds (Qabs.Qabs (⟦p⟧ - ⟦reference⟧)) (max_worst_price_distance self)) ∧
    dec_from_str (min_visible_depth self) = Some limit ∧ (⟦limit⟧ <= ⟦depth⟧)%Q.
Proof.
  unfold check_book, decimal. intros Hc Htif. rewrite Htif in Hc.
  destruct (reference_and_depth request book p) as [[ref|] [depth|]]; try discriminate Hc.
  cbn in Hc. apply outcome_bind_done in Hc as (diff & Hdiff%or_panic_done & Hc).
  apply outcome_bind_done in Hc as (dl & Hdl%or_panic_done & Hc).
  apply outcome_bind_done in Hc as ([] & Hle%limited_done & Hc).
  apply outcome_bind_done in Hc as (limit & Hlimit%or_panic_done & Hd%reject_when_done).
  dec_prop. exists ref, depth, limit. split_and!; try done. intros Hr.
  eapply limit_holds_intro; [done..|].
  by rewrite dec_abs_value, (dec_sub_eq _ _ _ Hdiff).
Qed.

(** The steps of an evaluation that returns normally. *)
Lemma evaluate_inner_done d :
  evaluate_inner self request market book snapshot = Done d →
  request_allowed self request market ∧ approved d = true ∧
  reason_code d = "RISK_APPROVED" ∧ policy_version d = version self ∧
  ∃ q p shares quote,
    quantity_decimal request = Done q ∧ protection_price request = Done p ∧
    conservative_exposure request market q p = Some (Some (shares, quote)) ∧
    order_within_limits self request market book snapshot p shares quote.
Proof.
  unfold evaluate_inner.
  intros ([] & Hall%check_allowed_done & (q & Hq%or_reject_done & (p & Hp%or_reject_done &
    ([shares quote] & Hexp%check_exposure_done & ([] & Hlim%check_order_limits_done &
    (ma & Hma & ([la sa] & Hpos%check_position_done & (ga & Hga & ([] & Hd & ([] & Hb & Hr)
    %outcome_bind_done)%outcome_bind_done)%outcome_bind_done)%outcome_bind_done)
    %outcome_bind_done)%outcome_bind_done)%outcome_bind_done)%outcome_bind_done)
    %outcome_bind_done)%outcome_bind_done.
  injection Hr as <-. split_and!; try done.
  exists q, p, shares, quote. split_and!; try done.
  destruct Hlim as (? & ? & ?), Hpos as [? ?].
  split; try done.
  - by eapply check_market_done.
  - by eapply check_gross_done.
  - by eapply check_daily_done.
  - by eapply check_book_done.
Qed.

(** What a rejection says, code by code. *)
Inductive violation : string → Prop :=
| V_condition :
    allowed_condition_ids self ≠ ∅ → req_condition_id request ∉ allowed_condition_ids self →
    violation "RISK_CONDITION_NOT_ALLOWED"
| V_token :
    allowed_token_ids self ≠ ∅ → req_token_id request ∉ allowed_token_ids self →
    violation "RISK_TOKEN_NOT_ALLOWED"
| V_side : req_side request ∉ allowed_sides self → violation "RISK_SIDE_NOT_ALLOWED"
| V_tif :
    req_time_in_force request ∉ allowed_time_in_force self → violation "RISK_TIF_NOT_ALLOWED"
| V_market :
    active market = false ∨ closed market = true ∨ accepting_orders market = false →
    violation "MARKET_NOT_ACCEPTING_ORDERS"
| V_quantity e : quantity_decimal request = Failed e → violation "ORDER_INVALID_QUANTITY"
| V_price e : protection_price request = Failed e → violation "ORDER_INVALID_PRICE"
| V_tick :
    (⟦tick_size market⟧ <= 0)%Q → violation "MARKET_RULES_INVALID"
| V_limit code obs raw limit :
    limit_observed code obs raw → dec_from_str raw = Some limit → (⟦limit⟧ < ⟦obs⟧)%Q →
    violation code
| V_open :
    max_open_orders self <= open_order_count snapshot → violation "RISK_MAX_OPEN_ORDERS"
| V_empty p depth :
    protection_price request = Done p →
    reference_and_depth request book p = (None, Some depth) → violation "RISK_EMPTY_BOOK"
| V_depth p reference depth limit :
    protection_price request = Done p →
    reference_and_depth request book p = (Some reference, Some depth) →
    dec_from_str (min_visible_depth self) = Some limit → (⟦depth⟧ < ⟦limit⟧)%Q →
    violation "RISK_MIN_VISIBLE_DEPTH"
(** the amount a limit code compares, and the limit of the policy it is compared with *)
with limit_observed : string → Decimal → string → Prop :=
| L_shares q p shares quote :
    quantity_decimal request = Done q → protection_price request = Done p →
    conservative_exposure request market q p = Some (Some (shares, quote)) →
    limit_observed "RISK_MAX_SHARES_PER_ORDER" shares (max_shares_per_order self)
| L_quote quote :
    order_quote quote →
    limit_observed "RISK_MAX_QUOTE_PER_ORDER" quote (max_quote_per_order self)
| L_market quote after :
    order_quote quote → dec_add (market_open_notional snapshot) quote = Some after →
    limit_observed "RISK_MAX_MARKET_EXPOSURE" after (max_open_notional_per_market self)
| L_position worst :
    worst_position worst →
    limit_observed "RISK_MAX_TOKEN_POSITION" worst (max_net_position_per_token self)
| L_gross quote added after :
    order_quote quote → gross_added request market quote = Some added →
    dec_add (gross_exposure snapshot) added = Some after →
    limit_observed "RISK_MAX_GROSS_EXPOSURE" after (max_gross_exposure self)
| L_daily quote after :
    order_quote quote → dec_add (daily_matched_notional snapshot) quote = Some after →
    limit_observed "RISK_MAX_DAILY_MATCHED_NOTIONAL" after (max_daily_matched_notional self)
| L_distance p reference depth diff :
    protection_price request = Done p →
    reference_and_depth request book p = (Some reference, depth) →
    dec_sub p reference = Some diff →
    limit_observed "RISK_WORST_PRICE_DISTANCE" (dec_abs diff) (max_worst_price_distance self)
with order_quote : Decimal → Prop :=
| Order_quote q p shares quote :
    quantity_decimal request = Done q → protection_price request = Done p →
    conservative_exposure request market q p = Some (Some (shares, quote)) →
    order_quote quote
with worst_position : Decimal → Prop :=
| Worst_position q p shares quote lp long sp short :
    quantity_decimal request = Done q → protection_price request = Done p →
    conservative_exposure request market q p = Some (Some (shares, quote)) →
    dec_add (token_position snapshot) (token_pending_buys snapshot) = Some lp →
    dec_add lp (side_amount request Buy shares) = Some long →
    dec_sub (token_position snapshot) (token_pending_sells snapshot) = Some sp →
    dec_sub sp (side_amount request Sell shares) = Some short →
    worst_position (dec_max (dec_abs long) (dec_abs short)).

(** [rejects m]: when [m] returns a decision early, it is a justified rejection. *)
Definition rejects {A} (m : outcome RiskDecision A) : Prop :=
  ∀ d, m = Failed d →
    approved d = false ∧ policy_version d = version self ∧ violation (reason_code d).

Lemma rejects_bind {A B} (m : outcome RiskDecision A) (k : A → outcome RiskDecision B) :
  rejects m → (∀ a, m = Done a → rejects (k a)) → rejects (m ≫= k).
Proof. intros Hm Hk. 
  destruct m as [a|e|]; [by apply Hk | | done]. intros d [= <-]. by apply Hm.
Qed.
Lemma rejects_done {A} (a : A) : rejects (Done a).
Proof. done. Qed.
Lemma rejects_panic {A} (o : option A) : rejects (or_panic o).
Proof. by destruct o. Qed.
Lemma rejects_reject {A} code message obs :
  violation code → rejects (reject self code message obs : outcome _ A).
Proof. intros Hv d [= <-]. done. Qed.
Lemma rejects_when b code message obs :
  (b = true → violation code) → rejects (reject_when self b code message obs).
Proof. destruct b; intros Hv; [by apply rejects_reject, Hv | apply rejects_done]. Qed.
Lemma rejects_limited code message obs raw limit :
  limit_observed code obs raw → dec_from_str raw = Some limit →
  rejects (limited self code message obs limit).
Proof. intros Ho Hr. apply rejects_when. intros Hgt. dec_prop. by eapply V_limit. Qed.
Lemma rejects_or_reject {A} code (o : outcome DomainError A) :
  (∀ e, o = Failed e → violation code) → rejects (or_reject self code o).
Proof. intros Hv d. destruct o; [done| |done]. intros [= <-]. eauto. Qed.

Lemma rejects_allowed : rejects (check_allowed self request market).
Proof.
  unfold check_allowed.
  apply rejects_bind; [apply rejects_when; intros [Hx Hy]%andb_true_iff|intros _ _].
  { apply bool_decide_eq_true in Hx, Hy. by apply V_condition. }
  apply rejects_bind; [apply rejects_when; intros [Hx Hy]%andb_true_iff|intros _ _].
  { apply bool_decide_eq_true in Hx, Hy. by apply V_token. }
  apply rejects_bind; [apply rejects_when; intros Hb|intros _ _].
  { apply bool_decide_eq_true in Hb. by apply V_side. }
  apply rejects_bind; [apply rejects_when; intros Hb|intros _ _].
  { apply bool_decide_eq_true in Hb. by apply V_tif. }
  apply rejects_when. rewrite !orb_true_iff, !negb_true_iff. intros Hb.
  apply V_market. tauto.
Qed.

Section priced.
Context (q p shares quote : Decimal).
Hypothesis Hq : quantity_decimal request = Done q.
Hypothesis Hp : protection_price request = Done p.

Lemma rejects_exposure : rejects (check_exposure self request market q p).
Proof.
  unfold check_exposure. apply rejects_bind; [apply rejects_panic|].
  intros [x|] Hx%or_panic_done; [apply rejects_done|]. apply rejects_reject, V_tick.
  unfold conservative_exposure in Hx. destruct (_ && _).
  - destruct (dec_gt _ _) eqn:Ht; [by destruct (dec_div _ _)|]. dec_prop.
    by rewrite dec_ZERO_value in Ht.
  - by destruct (dec_mul _ _).
Qed.

Hypothesis Hexp : conservative_exposure request market q p = Some (Some (shares, quote)).

Lemma this_quote : order_quote quote.
Proof. by eapply Order_quote. Qed.

Lemma rejects_order_limits : rejects (check_order_limits self snapshot shares quote).
Proof.
  unfold check_order_limits, decimal.
  apply rejects_bind; [apply rejects_panic|]. intros ms Hms%or_panic_done.
  apply rejects_bind; [apply rejects_panic|]. intros mq Hmq%or_panic_done.
  apply rejects_bind; [by eapply rejects_limited, Hms; eapply L_shares|]. intros _ _.
  apply rejects_bind; [by eapply rejects_limited, Hmq; apply L_quote, this_quote|]. intros _ _.
  apply rejects_when. intros Hb. apply V_open. lia.
Qed.

Lemma rejects_market : rejects (check_market self snapshot quote).
Proof.
  unfold check_market, decimal.
  apply rejects_bind; [apply rejects_panic|]. intros after Ha%or_panic_done.
  apply rejects_bind; [apply rejects_panic|]. intros limit Hl%or_panic_done.
  apply rejects_bind; [|intros; apply rejects_done].
  eapply rejects_limited, Hl. eapply L_market; [apply this_quote|done].
Qed.

Lemma rejects_position : rejects (check_position self request snapshot shares).
Proof.
  unfold check_position, decimal.
  apply rejects_bind; [apply rejects_panic|]. intros lp Hlp%or_panic_done.
  apply rejects_bind; [apply rejects_panic|]. intros la Hla%or_panic_done.
  apply rejects_bind; [apply rejects_panic|]. intros sp Hsp%or_panic_done.
  apply rejects_bind; [apply rejects_panic|]. intros sa Hsa%or_panic_done.
  apply rejects_bind; [apply rejects_panic|]. intros limit Hl%or_panic_done.
  apply rejects_bind; [|intros; apply rejects_done].
  apply rejects_when. intros Hgt. dec_prop.
  eapply V_limit; [|exact Hl|exact Hgt]. by eapply L_position, Worst_position.
Qed.

Lemma rejects_gross : rejects (check_gross self request market snapshot quote).
Proof.
  unfold check_gross, decimal.
  apply rejects_bind; [apply rejects_panic|]. intros added Hadd%or_panic_done.
  apply rejects_bind; [apply rejects_panic|]. intros after Ha%or_panic_done.
  apply rejects_bind; [apply rejects_panic|]. intros limit Hl%or_panic_done.
  apply rejects_bind; [|intros; apply rejects_done].
  eapply rejects_limited, Hl. by eapply L_gross; [apply this_quote|..].
Qed.

Lemma rejects_daily : rejects (check_daily self snapshot quote).
Proof.
  unfold check_daily, decimal.
  apply rejects_bind; [apply rejects_panic|]. intros after Ha%or_panic_done.
  apply rejects_bind; [apply rejects_panic|]. intros limit Hl%or_panic_done.
  eapply rejects_limited, Hl. by eapply L_daily; [apply this_quote|..].
Qed.

Lemma rejects_book : rejects (check_book self request book p).
Proof.
  unfold check_book, decimal. destruct (is_immediate _); [|apply rejects_done].
  apply rejects_bind; [apply rejects_panic|]. intros depth Hd%or_panic_done.
  destruct (reference_and_depth request book p) as [[ref|] ?] eqn:Hrd; cbn in Hd |- *; subst.
  2: by apply rejects_reject; eapply V_empty.
  apply rejects_bind; [apply rejects_panic|]. intros diff Hdiff%or_panic_done.
  apply rejects_bind; [apply rejects_panic|]. intros dl Hdl%or_panic_done.
  apply rejects_bind; [by eapply rejects_limited, Hdl; eapply L_distance|]. intros _ _.
  apply rejects_bind; [apply rejects_panic|]. intros limit Hl%or_panic_done.
  apply rejects_when. intros Hlt. dec_prop. by eapply V_depth.
Qed.
End priced.

Lemma evaluate_inner_rejects : rejects (evaluate_inner self request market book snapshot).
Proof.
  unfold evaluate_inner.
  apply rejects_bind; [apply rejects_allowed|]. intros _ _.
  apply rejects_bind; [apply rejects_or_reject; intros e He; by eapply V_quantity|].
  intros q Hq%or_reject_done.
  apply rejects_bind; [apply rejects_or_reject; intros e He; by eapply V_price|].
  intros p Hp%or_reject_done.
  apply rejects_bind; [by apply rejects_exposure|].
  intros [shares quote] Hexp%check_exposure_done.
  apply rejects_bind; [by eapply rejects_order_limits|]. intros _ _.
  apply rejects_bind; [by eapply rejects_market|]. intros ma _.
  apply rejects_bind; [by eapply rejects_position|]. intros [la sa] _.
  apply rejects_bind; [by eapply rejects_gross|]. intros ga _.
  apply rejects_bind; [by eapply rejects_daily|]. intros _ _.
  apply rejects_bind; [by eapply rejects_book|]. intros _ _. apply rejects_done.
Qed.

(** ** Totality: when the arithmetic fits, an evaluation does not panic *)

Definition Qshares (q : Q) : Q :=
  if bool_decide (req_side request = Buy) && is_immediate (req_time_in_force request)
  then (q / ⟦tick_size market⟧)%Q else q.
Definition Qquote (q p : Q) : Q :=
  if bool_decide (req_side request = Buy) && is_immediate (req_time_in_force request)
  then q else (p * q)%Q.

(** The exact results of the arithmetic an evaluation does. *)
Definition exact_results (q p : Q) : list Q :=
  let shares := Qshares q in
  let quote := Qquote q p in
  let fee := (quote * ⟦taker_fee_rate market⟧)%Q in
  let long := (⟦token_position snapshot⟧ + ⟦token_pending_buys snapshot⟧)%Q in
  let short := (⟦token_position snapshot⟧ - ⟦token_pending_sells snapshot⟧)%Q in
  [ shares; quote; ⟦market_open_notional snapshot⟧ + quote;
    long; long + Qside request Buy shares; short; short - Qside request Sell shares;
    fee; quote + fee; ⟦gross_exposure snapshot⟧ + Qside request Buy (quote + fee);
    ⟦daily_matched_notional snapshot⟧ + quote ]%Q.

Definition total {E A} (m : outcome E A) : Prop := m ≠ Panicked.

Lemma total_bind {E A B} (m : outcome E A) (k : A → outcome E B) :
  total m → (∀ a, m = Done a → total (k a)) → total (m ≫= k).
Proof. destruct m; [intros _ Hk; by apply Hk | done..]. Qed.
Lemma total_limited code message obs limit : total (limited self code message obs limit).
Proof. unfold limited, reject_when. by destruct (dec_gt _ _). Qed.
Lemma total_reject_when b code message obs : total (reject_when self b code message obs).
Proof. by destruct b. Qed.

(** An exact operation is defined and has the exact value. *)
Lemma total_exact {E B} (o : option Decimal) (q : Q) (k : Decimal → outcome E B) :
  (∃ c, o = Some c ∧ ⟦c⟧ == q) → (∀ c, o = Some c → ⟦c⟧ == q → total (k c)) →
  total (or_panic o ≫= k).
Proof. intros (c & -> & Hc) Hk. by apply Hk. Qed.

(** The decimal limits of a policy, all of which parse. *)
Definition limits_parse : Prop :=
  Forall (λ limit, is_Some (dec_from_str limit.2)) (policy_decimals self).

Lemma validate_decimals_parse l :
  validate_decimals l = Done tt → Forall (λ limit, is_Some (dec_from_str limit.2)) l.
Proof.
  induction l as [|[name raw] l IH]; [constructor|].
  intros (v & Hv%ok_or_done & ([] & _ & Hl)%outcome_bind_done)%outcome_bind_done.
  constructor; [|by apply IH].
  apply dec_from_str_exact_lax in Hv as (v' & Hv' & _). cbn. eauto.
Qed.

Lemma total_decimal {E B} name raw (k : Decimal → outcome E B) :
  limits_parse → (name, raw) ∈ policy_decimals self → (∀ d, total (k d)) →
  total (decimal raw ≫= k).
Proof.
  intros Hl Hin Hk. unfold limits_parse in Hl. rewrite Forall_forall in Hl.
  destruct (Hl _ Hin) as [d Hd]. unfold decimal. cbn in Hd. rewrite Hd. apply Hk.
Qed.

Lemma dec_sum_from_total acc l :
  (∀ k, (k ≤ length l)%nat →
    representable (⟦acc⟧ + foldr (λ d q, ⟦d⟧ + q) 0 (take k l)))%Q →
  is_Some (dec_sum_from acc l).
Proof.
  revert acc. induction l as [|d l IH]; intros acc Hr; cbn [dec_sum_from]; [done|].
  destruct (dec_add_exact acc d) as (c & Hc & Hcv).
  { specialize (Hr 1%nat ltac:(cbn; lia)). cbn in Hr. by rewrite Qplus_0_r in Hr. }
  rewrite Hc. cbn. apply IH. intros k Hk. specialize (Hr (S k) ltac:(cbn; lia)).
  cbn in Hr. by rewrite Hcv, <-Qplus_assoc.
Qed.

(** Every partial sum of the sizes a depth adds up fits. *)
Definition depth_fits (l : list PriceLevel) : Prop :=
  ∀ k, representable (0 + foldr (λ d q, ⟦d⟧ + q) 0 (take k (size <$> l)))%Q.

Record arithmetic_fits (p : Decimal) (q : Decimal) : Prop := {
  af_results : Forall representable (exact_results ⟦q⟧ ⟦p⟧);
  af_distance level : level ∈ bids book ++ asks book →
    representable (⟦p⟧ - ⟦price level⟧)%Q;
  af_bids : depth_fits (List.filter (λ level, dec_ge (price level) p) (bids book));
  af_asks : depth_fits (List.filter (λ level, dec_le (price level) p) (asks book));
}.

Lemma depth_total l : depth_fits l → is_Some (dec_sum (size <$> l)).
Proof.
  intros Hf. apply dec_sum_from_total. intros k _. rewrite dec_ZERO_value. apply Hf.
Qed.

Lemma exposure_total q p :
  representable (Qshares ⟦q⟧) → representable (Qquote ⟦q⟧ ⟦p⟧) →
  conservative_exposure request market q p = Some None ∨
  ∃ shares quote, conservative_exposure request market q p = Some (Some (shares, quote)) ∧
    ⟦shares⟧ == Qshares ⟦q⟧ ∧ ⟦quote⟧ == Qquote ⟦q⟧ ⟦p⟧.
Proof.
  unfold conservative_exposure, Qshares, Qquote. destruct (_ && _).
  - intros Hs _. destruct (dec_gt _ _) eqn:Ht; [|by left]. dec_prop.
    rewrite dec_ZERO_value in Ht. destruct (dec_div_exact q (tick_size market)) as (c & -> & Hc).
    { intros Hz. rewrite Hz in Ht. lra. }
    { done. }
    right. by exists c, q.
  - intros _ Hq. destruct (dec_mul_exact p q Hq) as (c & -> & Hc). right. by exists q, c.
Qed.

Section fitting.
Context (shares quote : Decimal).
Hypothesis Hlimits : limits_parse.

Ltac limit_step := eapply total_decimal;
  [done | unfold policy_decimals; repeat (apply list_elem_of_here || apply list_elem_of_further)
  | intros ?].

Lemma total_order_limits : total (check_order_limits self snapshot shares quote).
Proof.
  unfold check_order_limits. limit_step. limit_step.
  apply total_bind; [apply total_limited|]. intros _ _.
  apply total_bind; [apply total_limited|]. intros _ _. apply total_reject_when.
Qed.

Lemma total_market :
  representable (⟦market_open_notional snapshot⟧ + ⟦quote⟧) →
  total (check_market self snapshot quote).
Proof.
  intros Hr. unfold check_market. eapply total_exact; [by apply dec_add_exact|].
  intros after _ _. limit_step. by apply total_bind; [apply total_limited|].
Qed.

Lemma total_daily :
  representable (⟦daily_matched_notional snapshot⟧ + ⟦quote⟧) →
  total (check_daily self snapshot quote).
Proof.
  intros Hr. unfold check_daily. eapply total_exact; [by apply dec_add_exact|].
  intros after _ _. limit_step. apply total_limited.
Qed.

Lemma total_gross :
  representable (⟦quote⟧ * ⟦taker_fee_rate market⟧) →
  representable (⟦quote⟧ + ⟦quote⟧ * ⟦taker_fee_rate market⟧) →
  representable (⟦gross_exposure snapshot⟧ +
    Qside request Buy (⟦quote⟧ + ⟦quote⟧ * ⟦taker_fee_rate market⟧)) →
  total (check_gross self request market snapshot quote).
Proof.
  intros Hr1 Hr2 Hr3. unfold check_gross.
  eapply (total_exact _ (Qside request Buy (⟦quote⟧ + ⟦quote⟧ * ⟦taker_fee_rate market⟧))).
  { unfold gross_added, Qside. case_bool_decide; [|eexists; split; [done|apply dec_ZERO_value]].
    destruct (dec_mul_exact _ _ Hr1) as (fee & -> & Hfee). cbn.
    destruct (dec_add_exact quote fee) as (c & -> & Hc); [by rewrite Hfee|].
    exists c. split; [done|]. by rewrite Hc, Hfee. }
  intros added _ Hadd. eapply total_exact; [apply dec_add_exact; by rewrite Hadd|].
  intros after _ _. limit_step. by apply total_bind; [apply total_limited|].
Qed.

Lemma total_position :
  let long := (⟦token_position snapshot⟧ + ⟦token_pending_buys snapshot⟧)%Q in
  let short := (⟦token_position snapshot⟧ - ⟦token_pending_sells snapshot⟧)%Q in
  representable long → representable (long + Qside request Buy ⟦shares⟧) →
  representable short → representable (short - Qside request Sell ⟦shares⟧) →
  total (check_position self request snapshot shares).
Proof.
  cbv zeta. intros Hl Hl' Hs Hs'. unfold check_position.
  eapply total_exact; [by apply dec_add_exact|]. intros lp _ Hlp.
  eapply total_exact; [apply dec_add_exact; by rewrite Hlp, side_amount_value|]. intros la _ _.
  eapply total_exact; [by apply dec_sub_exact|]. intros sp _ Hsp.
  eapply total_exact; [apply dec_sub_exact; by rewrite Hsp, side_amount_value|]. intros sa _ _.
  limit_step. by apply total_bind; [apply total_reject_when|].
Qed.

Lemma total_book p q :
  arithmetic_fits p q → total (check_book self request book p).
Proof.
  intros [_ Hdist Hbids Hasks]. unfold check_book.
  destruct (is_immediate _); [|done].
  apply total_bind.
  { unfold reference_and_depth, ask_depth_through, bid_depth_through.
    apply depth_total in Hbids as [d1 Hd1], Hasks as [d2 Hd2].
    destruct (req_side request); cbn; by rewrite ?Hd1, ?Hd2. }
  intros depth _. destruct (reference_and_depth request book p).1 as [ref|] eqn:Href; [|done].
  eapply total_exact; [apply dec_sub_exact|].
  { unfold reference_and_depth in Href. destruct (req_side request); cbn in Href.
    - apply best_ask_spec in Href as [(level & Hin & <-) _]. apply Hdist. set_solver.
    - apply best_bid_spec in Href as [(level & Hin & <-) _]. apply Hdist. set_solver. }
  intros diff _ _. limit_step.
  apply total_bind; [apply total_limited|]. intros _ _. limit_step. apply total_reject_when.
Qed.
End fitting.

Lemma total_outcome {A} (o : outcome DomainError A) code :
  total o → total (or_reject self code o).
Proof. by destruct o. Qed.

Lemma total_ok_or {E A} (e : E) (o : option A) : total (ok_or e o).
Proof. by destruct o. Qed.

Lemma parse_positive_total field raw : total (parse_positive_decimal field raw).
Proof.
  unfold parse_positive_decimal. destruct (dec_from_str_exact raw); [|done]. cbn.
  destruct (dec_le _ _); [done|]. cbn. by destruct (6 <? _)%N.
Qed.
Lemma protection_price_total : total (protection_price request).
Proof.
  unfold protection_price. apply total_bind; [apply total_ok_or|].
  intros raw _. apply total_bind; [apply parse_positive_total|].
  intros d _. by destruct (dec_ge _ _).
Qed.
Lemma total_check_allowed : total (check_allowed self request market).
Proof.
  unfold check_allowed. repeat (apply total_bind; [apply total_reject_when|intros _ _]).
  apply total_reject_when.
Qed.

Lemma evaluate_inner_total :
  limits_parse →
  (∀ q p, quantity_decimal request = Done q → protection_price request = Done p →
     arithmetic_fits p q) →
  total (evaluate_inner self request market book snapshot).
Proof.
  intros Hlim Hfit. unfold evaluate_inner.
  apply total_bind; [apply total_check_allowed|]. intros _ _.
  apply total_bind; [apply total_outcome, parse_positive_total|]. intros q Hq%or_reject_done.
  apply total_bind; [apply total_outcome, protection_price_total|]. intros p Hp%or_reject_done.
  specialize (Hfit q p Hq Hp). pose proof (af_results _ _ Hfit) as Hr.
  unfold exact_results in Hr. cbv zeta in Hr. rewrite !Forall_cons in Hr.
  destruct Hr as (R1 & R2 & R3 & R4 & R5 & R6 & R7 & R8 & R9 & R10 & R11 & _).
  unfold check_exposure.
  destruct (exposure_total q p R1 R2) as [-> | (shares & quote & -> & Hs & Hqt)]; [done|].
  cbn [or_panic mbind outcome_bind].
  apply total_bind; [by apply total_order_limits|]. intros _ _.
  apply total_bind; [apply total_market; [done|by rewrite Hqt]|]. intros ma _.
  apply total_bind; [apply total_position; [done|..]; by rewrite ?Hs|].
  intros [la sa] _.
  apply total_bind; [apply total_gross; [done|..]; by rewrite ?Hqt|].
  intros ga _.
  apply total_bind; [apply total_daily; [done|by rewrite Hqt]|]. intros _ _.
  by apply total_bind; [eapply total_book|].
Qed.
End lemmas.

(** ** Properties *)

(** C36. An order the risk policy approves is allowed by every allow list, its
    market accepts orders, and its worst case stays within every limit of the
    policy: shares and quote of the order, number of open orders, exposure of
    the market, long and short position of the token, gross exposure with fees,
    matched notional of the day and, for an immediate order, distance from the
    book and visible depth. *)
Theorem risk_approval_sound `{DL : DecimalLaws} self request market book snapshot d :
  evaluate self request market book snapshot = Some d → approved d = true →
  request_allowed self request market ∧
  ∃ q p shares quote,
    quantity_decimal request = Done q ∧ protection_price request = Done p ∧
    conservative_exposure request market q p = Some (Some (shares, quote)) ∧
    order_within_limits self request market book snapshot p shares quote.
Proof.
  unfold evaluate. intros He Happ.
  destruct (evaluate_inner self request market book snapshot) as [d'|d'|] eqn:Hi;
    [|exfalso|done].
  - apply evaluate_inner_done in Hi as (Hall & _ & _ & _ & Hlim). done.
  - apply evaluate_inner_rejects in Hi as (Hrej & _). injection He as ->. congruence.
Qed.

(** C37. A rejection names a check that really fails: the decision's code is one
    of the policy's codes, the condition it stands for holds of the request,
    market, book and snapshot, and the decision carries the policy's version. *)
Theorem risk_rejection_justified `{DL : DecimalLaws} self request market book snapshot d :
  evaluate self request market book snapshot = Some d → approved d = false →
  policy_version d = version self ∧
  violation self request market book snapshot (reason_code d).
Proof.
  unfold evaluate. intros He Happ.
  destruct (evaluate_inner self request market book snapshot) as [d'|d'|] eqn:Hi;
    [exfalso| |done].
  - apply evaluate_inner_done in Hi as (_ & Hok & _). injection He as ->. congruence.
  - apply evaluate_inner_rejects in Hi as (_ & Hv). by injection He as ->.
Qed.

(** C38. With a policy that [RiskPolicy::validate] accepts, an evaluation whose
    exact intermediate results fit the decimal type returns a decision: the
    [expect] on the limits never panics, whatever the request. *)
Theorem risk_evaluation_total `{DL : DecimalLaws} self request market book snapshot :
  RiskPolicy_validate self = Done tt →
  (∀ q p, quantity_decimal request = Done q → protection_price request = Done p →
     arithmetic_fits request market book snapshot p q) →
  ∃ d, evaluate self request market book snapshot = Some d.
Proof.
  intros Hval Hfit. unfold evaluate.
  assert (limits_parse self) as Hlim.
  { unfold RiskPolicy_validate in Hval.
    repeat (apply outcome_bind_done in Hval as ([] & _ & Hval)).
    by apply validate_decimals_parse. }
  pose proof (evaluate_inner_total self request market book snapshot Hlim Hfit) as Ht.
  destruct (evaluate_inner _ _ _ _ _); [eauto..|done].
Qed.

(** The quantity of a valid request has no upper bound, and the number of
    shares of an immediate buy is the quotient by the tick size: when an
    allowed request's quotient exceeds what a decimal holds, the evaluation
    panics instead of rejecting the order. *)
Theorem risk_evaluation_overflow_panics `{DL : DecimalLaws} self request market book snapshot q p :
  request_allowed self request market →
  req_side request = Buy → is_immediate (req_time_in_force request) = true →
  quantity_decimal request = Done q → protection_price request = Done p →
  (0 < ⟦tick_size market⟧)%Q → too_large (⟦q⟧ / ⟦tick_size market⟧) →
  evaluate self request market book snapshot = None.
Proof.
  intros Hall Hside Htif Hq Hp Htick Hbig. unfold evaluate, evaluate_inner.
  apply (check_allowed_done self request market tt) in Hall.
  rewrite Hall, Hq, Hp. cbn [or_reject map_err mbind outcome_bind].
  unfold check_exposure, conservative_exposure.
  rewrite bool_decide_true, Htif by done. cbn [andb].
  destruct (dec_gt (tick_size market) dec_ZERO) eqn:Hgt.
  - rewrite dec_div_overflow; [done| |done]. lra.
  - dec_prop. rewrite dec_ZERO_value in Hgt. lra.
Qed.

(** ** Witnesses *)
Section witnesses.
#[local] Existing Instance RefOps.
#[local] Existing Instance RefLaws.

Definition fix_policy : RiskPolicy :=
  mkRiskPolicy "v1" ∅ ∅ default_sides default_time_in_force
    "100" "100" 10 "500" "500" "500" "500" "0.10" "1" 60 60 60 60 true.
Definition fix_snapshot : RiskSnapshot :=
  mkRiskSnapshot 0 (RefDec 0 0) (RefDec 0 0) (RefDec 0 0) (RefDec 0 0) (RefDec 0 0) (RefDec 0 0).
Definition fix_decision : RiskDecision :=
  default (mkRiskDecision false "" "" JNull "")
    (evaluate fix_policy fix_request fix_market fix_book fix_snapshot).
(** Ten shares with a limit of one share. *)
Definition fix_strict_policy : RiskPolicy :=
  mkRiskPolicy "v1" ∅ ∅ default_sides default_time_in_force
    "100" "1" 10 "500" "500" "500" "500" "0.10" "1" 60 60 60 60 true.
Definition fix_rejection : RiskDecision :=
  default (mkRiskDecision true "" "" JNull "")
    (evaluate fix_strict_policy fix_request fix_market fix_book fix_snapshot).
(** An immediate buy of 2^96 - 1 units of quote. *)
Definition fix_huge_request : OrderIntentRequest :=
  mkOrderIntentRequest "condition" "123" Buy Fok
    (mkQuantity Quote "79228162514264337593543950335") None (Some "0.60") None false
    (mkClientContext None None None).

Lemma risk_approval_sound_witness :
  request_allowed fix_policy fix_request fix_market ∧
  ∃ q p shares quote,
    quantity_decimal fix_request = Done q ∧ protection_price fix_request = Done p ∧
    conservative_exposure fix_request fix_market q p = Some (Some (shares, quote)) ∧
    order_within_limits fix_policy fix_request fix_market fix_book fix_snapshot p shares quote.
Proof.
  apply (risk_approval_sound fix_policy fix_request fix_market fix_book fix_snapshot
    fix_decision); vm_compute; reflexivity.
Defined.

Lemma risk_rejection_justified_witness :
  reason_code fix_rejection = "RISK_MAX_SHARES_PER_ORDER" ∧
  policy_version fix_rejection = "v1" ∧
  violation fix_strict_policy fix_request fix_market fix_book fix_snapshot
    (reason_code fix_rejection).
Proof.
  split; [vm_compute; reflexivity|].
  apply (risk_rejection_justified fix_strict_policy fix_request fix_market fix_book
    fix_snapshot fix_rejection); vm_compute; reflexivity.
Defined.

Lemma risk_evaluation_overflow_panics_witness :
  validate fix_huge_request fix_now = Done tt ∧
  evaluate fix_policy fix_huge_request fix_market fix_book fix_snapshot = None.
Proof.
  split; [vm_compute; reflexivity|].
  apply (risk_evaluation_overflow_panics fix_policy fix_huge_request fix_market fix_book
    fix_snapshot (RefDec 79228162514264337593543950335 0) (RefDec 60 2));
    try (vm_compute; reflexivity).
  - apply (check_allowed_done fix_policy fix_huge_request fix_market tt).
    vm_compute. reflexivity.
  - vm_compute. discriminate.
Defined.

Lemma risk_evaluation_total_witness :
  ∃ d, evaluate fix_policy fix_request fix_market fix_book fix_snapshot = Some d.
Proof.
  apply (risk_evaluation_total fix_policy fix_request fix_market fix_book fix_snapshot).
  - vm_compute. reflexivity.
  - intros q p Hq Hp. vm_compute in Hq, Hp. injection Hq as <-. injection Hp as <-.
    split.
    + repeat (constructor; [apply representable_b_sound; vm_compute; reflexivity|]).
      constructor.
    + intros level Hl. apply representable_b_sound.
      apply elem_of_cons in Hl as [->|[->|[]%not_elem_of_nil]%elem_of_cons];
        vm_compute; reflexivity.
    + intros [|k]; apply representable_b_sound; vm_compute; reflexivity.
    + intros [|k]; apply representable_b_sound; vm_compute; reflexivity.
Defined.
End witnesses.
