(* ===== verification/Schema.v ===== *)
(** * Schema: the SQLite database of the store

    The tables of migrations/0001 to 0003, each a list of rows in the order
    they were inserted, and the statements the store runs on them.  An
    [UPDATE] reports how many rows it matched; an [INSERT] fails when a unique
    key clashes or a foreign key is missing.  A transaction restores the tables
    when its body fails or panics, and publishes its events after the commit. *)
From S2P Require Import Prelude Text DecimalSpec Json Platform Domain Venue.

Notation "a ≟ b" := (bool_decide (a = b)) (at level 70, no associativity) : exec_scope.

(** ** Errors *)

Inductive DbError : Type :=
| UniqueViolation | ForeignKeyViolation | RowNotFound | Decode (message : string).

Module StoreError.
Inductive t : Type :=
| Database (e : DbError)
| Migration
| Io (message : string)
| Serialization
| AlreadyLocked (path : string)
| IdentityMismatch (message : string)
| IdempotencyConflict
| NewRiskDisabled (state : string)
| NotFound
| InvalidDecimal (raw : string).
End StoreError.
Abbreviation StoreError := StoreError.t.
Export StoreError (Database, IdentityMismatch, IdempotencyConflict, NewRiskDisabled, NotFound,
  InvalidDecimal, Serialization).

(** ** Rows *)

Record IntentRow : Type := mkIntentRow {
  intent :> IntentRecord;
  ir_policy_version : option string;
}.
#[export] Instance IntentRow_eta : Eta IntentRow := λ r,
  mkIntentRow (intent r) (ir_policy_version r).

Record IdempotencyRow : Type := mkIdempotencyRow {
  ik_actor_id : string;
  ik_key : string;
  ik_request_hash : string;
  ik_resource_type : string;
  ik_resource_id : string;
  ik_response_status : Z;
  ik_response_json : string;
  ik_created_at : DateTime;
}.

Record RiskDecisionRow : Type := mkRiskDecisionRow {
  rk_id : Uuid;
  rk_intent_id : Uuid;
  rk_approved : bool;
  rk_reason_code : string;
  rk_observed_json : string;
  rk_policy_version : string;
  rk_created_at : DateTime;
}.

Record ReservationRow : Type := mkReservationRow {
  rs_intent_id : Uuid;
  rs_condition_id : string;
  rs_token_id : string;
  rs_side : Side;
  rs_price : string;
  rs_quantity : string;
  rs_quote_exposure : string;
  rs_fee_rate : string;
  rs_state : string;
  rs_created_at : DateTime;
  rs_updated_at : DateTime;
}.
#[export] Instance ReservationRow_eta : Eta ReservationRow := λ r,
  mkReservationRow (rs_intent_id r) (rs_condition_id r) (rs_token_id r) (rs_side r) (rs_price r)
    (rs_quantity r) (rs_quote_exposure r) (rs_fee_rate r) (rs_state r) (rs_created_at r)
    (rs_updated_at r).

Record PreparedRow : Type := mkPreparedRow {
  pr_id : Uuid;
  pr_intent_id : Uuid;
  pr_normalized_json : string;
  pr_signed_payload_json : option string;
  pr_payload_sha256 : option string;
  pr_deterministic_order_id : string;
  pr_signer_address : option string;
  pr_funder_address : option string;
  pr_protocol_version : Z;
  pr_sdk_version : string;
  pr_policy_version : string;
  pr_created_at : DateTime;
}.

Record AttemptRow : Type := mkAttemptRow {
  at_id : Uuid;
  at_prepared_order_id : Uuid;
  at_attempt_number : Z;
  at_state : string;
  at_request_started_at : option DateTime;
  at_response_class : option string;
  at_response_json : option string;
  at_created_at : DateTime;
  at_updated_at : DateTime;
}.
#[export] Instance AttemptRow_eta : Eta AttemptRow := λ r,
  mkAttemptRow (at_id r) (at_prepared_order_id r) (at_attempt_number r) (at_state r)
    (at_request_started_at r) (at_response_class r) (at_response_json r) (at_created_at r)
    (at_updated_at r).

Record OrderRow : Type := mkOrderRow {
  order :> OrderRecord;
  or_fee_rate : string;
  or_quote_exposure : string;
}.
#[export] Instance OrderRow_eta : Eta OrderRow := λ r,
  mkOrderRow (order r) (or_fee_rate r) (or_quote_exposure r).

Record TransitionRow : Type := mkTransitionRow {
  tr_order_id : Uuid;
  tr_prior_state : option OrderState;
  tr_new_state : OrderState;
  tr_evidence_json : string;
  tr_created_at : DateTime;
}.

Record FinalityRow : Type := mkFinalityRow {
  fn_venue_trade_id : string;
  fn_trade_id : Uuid;
  fn_status : TradeState;
  fn_evidence_json : string;
  fn_updated_at : DateTime;
}.

Record PaperAccountRow : Type := mkPaperAccountRow {
  pa_configuration_sha256 : string;
  pa_quote_balance : string;
  pa_reserved_quote : string;
  pa_created_at : DateTime;
  pa_updated_at : DateTime;
}.
#[export] Instance PaperAccountRow_eta : Eta PaperAccountRow := λ r,
  mkPaperAccountRow (pa_configuration_sha256 r) (pa_quote_balance r) (pa_reserved_quote r)
    (pa_created_at r) (pa_updated_at r).

Record InventoryRow : Type := mkInventoryRow {
  iv_token_id : string;
  iv_shares : string;
  iv_reserved_shares : string;
  iv_updated_at : DateTime;
}.
#[export] Instance InventoryRow_eta : Eta InventoryRow := λ r,
  mkInventoryRow (iv_token_id r) (iv_shares r) (iv_reserved_shares r) (iv_updated_at r).

Record PaperOrderRow : Type := mkPaperOrderRow {
  po_venue_order_id : string;
  po_condition_id : string;
  po_token_id : string;
  po_side : Side;
  po_state : OrderState;
  po_price : string;
  po_fee_rate : string;
  po_original_quantity : string;
  po_remaining_quantity : string;
  po_filled_quantity : string;
  po_filled_price : option string;
  po_quote_amount : string;
  po_fee_amount : string;
  po_reserved_quote : string;
  po_reserved_shares : string;
  po_venue_trade_ids_json : string;
  po_evidence_json : string;
  po_created_at : DateTime;
  po_updated_at : DateTime;
}.
#[export] Instance PaperOrderRow_eta : Eta PaperOrderRow := λ r,
  mkPaperOrderRow (po_venue_order_id r) (po_condition_id r) (po_token_id r) (po_side r)
    (po_state r) (po_price r) (po_fee_rate r) (po_original_quantity r)
    (po_remaining_quantity r) (po_filled_quantity r) (po_filled_price r) (po_quote_amount r)
    (po_fee_amount r) (po_reserved_quote r) (po_reserved_shares r)
    (po_venue_trade_ids_json r) (po_evidence_json r) (po_created_at r) (po_updated_at r).

Record MarketEventRow : Type := mkMarketEventRow {
  me_event_id : string;
  me_token_id : string;
  me_price : string;
  me_size : string;
  me_observed_at : DateTime;
  me_created_at : DateTime;
}.

Record CancellationRecord : Type := mkCancellationRecord {
  cn_id : Uuid;
  cn_actor_id : string;
  cn_selector_json : string;
  cn_target_order_ids_json : string;
  cn_reason : string;
  cn_state : string;
  cn_created_at : DateTime;
  cn_updated_at : DateTime;
}.
#[export] Instance CancellationRecord_eta : Eta CancellationRecord := λ r,
  mkCancellationRecord (cn_id r) (cn_actor_id r) (cn_selector_json r)
    (cn_target_order_ids_json r) (cn_reason r) (cn_state r) (cn_created_at r) (cn_updated_at r).

Record ReconciliationRecord : Type := mkReconciliationRecord {
  rr_id : Uuid;
  rr_trigger : string;
  rr_state : string;
  rr_summary_json : string;
  rr_started_at : DateTime;
  rr_completed_at : option DateTime;
}.
#[export] Instance ReconciliationRecord_eta : Eta ReconciliationRecord := λ r,
  mkReconciliationRecord (rr_id r) (rr_trigger r) (rr_state r) (rr_summary_json r)
    (rr_started_at r) (rr_completed_at r).

Record FindingRow : Type := mkFindingRow {
  fd_id : Uuid;
  fd_reconciliation_id : Uuid;
  fd_severity : string;
  fd_code : string;
  fd_details_json : string;
  fd_resolved_at : option DateTime;
}.
#[export] Instance FindingRow_eta : Eta FindingRow := λ r,
  mkFindingRow (fd_id r) (fd_reconciliation_id r) (fd_severity r) (fd_code r)
    (fd_details_json r) (fd_resolved_at r).

Record ControlRow : Type := mkControlRow {
  ct_state : string;
  ct_reason : string;
  ct_updated_at : DateTime;
  ct_revision : Z;
}.

Record OperatorActionRow : Type := mkOperatorActionRow {
  oa_id : Uuid;
  oa_actor_id : string;
  oa_action : string;
  oa_reason : string;
  oa_prior_state : string;
  oa_new_state : string;
  oa_correlation_id : string;
  oa_created_at : DateTime;
}.

Record BackupRecord : Type := mkBackupRecord {
  bk_id : Uuid;
  bk_state : string;
  bk_database_path : option string;
  bk_manifest_path : option string;
  bk_checksum_sha256 : option string;
  bk_last_event_sequence : option Z;
  bk_error : option string;
  bk_created_at : DateTime;
  bk_updated_at : DateTime;
}.
#[export] Instance BackupRecord_eta : Eta BackupRecord := λ r,
  mkBackupRecord (bk_id r) (bk_state r) (bk_database_path r) (bk_manifest_path r)
    (bk_checksum_sha256 r) (bk_last_event_sequence r) (bk_error r) (bk_created_at r)
    (bk_updated_at r).

Record InstanceRow : Type := mkInstanceRow {
  im_mode : string;
  im_chain_id : Z;
  im_protocol_version : Z;
  im_signer_address : option string;
  im_funder_address : option string;
  im_created_at : DateTime;
}.

(** ** The database *)

Record Db : Type := mkDb {
  instance_metadata : option InstanceRow;
  intents : list IntentRow;
  idempotency_keys : list IdempotencyRow;
  risk_decisions : list RiskDecisionRow;
  risk_reservations : list ReservationRow;
  prepared_orders : list PreparedRow;
  submission_attempts : list AttemptRow;
  orders : list OrderRow;
  order_transitions : list TransitionRow;
  trades : list TradeRecord;
  venue_trade_finality : list FinalityRow;
  positions : list PositionRecord;
  paper_account : option PaperAccountRow;
  paper_inventory : list InventoryRow;
  paper_venue_orders : list PaperOrderRow;
  paper_market_events : list MarketEventRow;
  cancellation_requests : list CancellationRecord;
  execution_events : list ExecutionEvent;
  (** the AUTOINCREMENT counter of [execution_events]: the last sequence given *)
  last_sequence : Z;
  reconciliation_runs : list ReconciliationRecord;
  reconciliation_findings : list FindingRow;
  control_state : ControlRow;
  operator_actions : list OperatorActionRow;
  backups : list BackupRecord;
}.
#[export] Instance Db_eta : Eta Db := λ d,
  mkDb (instance_metadata d) (intents d) (idempotency_keys d) (risk_decisions d)
    (risk_reservations d) (prepared_orders d) (submission_attempts d) (orders d)
    (order_transitions d) (trades d) (venue_trade_finality d) (positions d) (paper_account d)
    (paper_inventory d) (paper_venue_orders d) (paper_market_events d)
    (cancellation_requests d) (execution_events d) (last_sequence d) (reconciliation_runs d)
    (reconciliation_findings d) (control_state d) (operator_actions d) (backups d).

(** The store and its surroundings: the database, the events broadcast so far
    and how often the clock and the identifier generator were read. *)
Record Sys : Type := mkSys {
  db : Db;
  sent : list ExecutionEvent;
  tick : nat;
}.
#[export] Instance Sys_eta : Eta Sys := λ s, mkSys (db s) (sent s) (tick s).

(** ** Tables: their rows, unique keys and foreign keys *)

Class Table (R : Type) : Type := {
  rows : Db → list R;
  set_rows : list R → Db → Db;
  clash : R → R → bool;
  refs : Db → R → bool;
}.

Definition has_intent (d : Db) (id : Uuid) : bool := existsb (λ r : IntentRow, int_id r ≟ id) (intents d).
Definition has_order (d : Db) (id : Uuid) : bool := existsb (λ r : OrderRow, ord_id r ≟ id) (orders d).

#[export] Instance intents_table : Table IntentRow := {|
  rows := intents; set_rows l d := d <| intents := l |>;
  clash a b := (int_id a ≟ int_id b) ||
    ((int_actor_id a ≟ int_actor_id b) && (int_idempotency_key a ≟ int_idempotency_key b));
  refs _ _ := true |}.
#[export] Instance idempotency_table : Table IdempotencyRow := {|
  rows := idempotency_keys; set_rows l d := d <| idempotency_keys := l |>;
  clash a b := (ik_actor_id a ≟ ik_actor_id b) && (ik_key a ≟ ik_key b);
  refs _ _ := true |}.
#[export] Instance risk_decisions_table : Table RiskDecisionRow := {|
  rows := risk_decisions; set_rows l d := d <| risk_decisions := l |>;
  clash a b := rk_id a ≟ rk_id b;
  refs d r := has_intent d (rk_intent_id r) |}.
#[export] Instance reservations_table : Table ReservationRow := {|
  rows := risk_reservations; set_rows l d := d <| risk_reservations := l |>;
  clash a b := rs_intent_id a ≟ rs_intent_id b;
  refs d r := has_intent d (rs_intent_id r) |}.
#[export] Instance prepared_table : Table PreparedRow := {|
  rows := prepared_orders; set_rows l d := d <| prepared_orders := l |>;
  clash a b := pr_id a ≟ pr_id b;
  refs d r := has_intent d (pr_intent_id r) |}.
#[export] Instance attempts_table : Table AttemptRow := {|
  rows := submission_attempts; set_rows l d := d <| submission_attempts := l |>;
  clash a b := (at_id a ≟ at_id b) ||
    ((at_prepared_order_id a ≟ at_prepared_order_id b) &&
     (at_attempt_number a ≟ at_attempt_number b));
  refs d r := existsb (λ p, pr_id p ≟ at_prepared_order_id r) (prepared_orders d) |}.
#[export] Instance orders_table : Table OrderRow := {|
  rows := orders; set_rows l d := d <| orders := l |>;
  clash a b := ord_id a ≟ ord_id b;
  refs d r := has_intent d (ord_intent_id r) |}.
#[export] Instance transitions_table : Table TransitionRow := {|
  rows := order_transitions; set_rows l d := d <| order_transitions := l |>;
  clash _ _ := false;
  refs d r := has_order d (tr_order_id r) |}.
#[export] Instance trades_table : Table TradeRecord := {|
  rows := trades; set_rows l d := d <| trades := l |>;
  clash a b := (trd_id a ≟ trd_id b) || (venue_trade_id a ≟ venue_trade_id b);
  refs d r := has_order d (trd_order_id r) |}.
#[export] Instance finality_table : Table FinalityRow := {|
  rows := venue_trade_finality; set_rows l d := d <| venue_trade_finality := l |>;
  clash a b := fn_venue_trade_id a ≟ fn_venue_trade_id b;
  refs d r := existsb (λ t, trd_id t ≟ fn_trade_id r) (trades d) |}.
#[export] Instance positions_table : Table PositionRecord := {|
  rows := positions; set_rows l d := d <| positions := l |>;
  clash a b := pos_token_id a ≟ pos_token_id b;
  refs _ _ := true |}.
#[export] Instance inventory_table : Table InventoryRow := {|
  rows := paper_inventory; set_rows l d := d <| paper_inventory := l |>;
  clash a b := iv_token_id a ≟ iv_token_id b;
  refs _ _ := true |}.
#[export] Instance paper_orders_table : Table PaperOrderRow := {|
  rows := paper_venue_orders; set_rows l d := d <| paper_venue_orders := l |>;
  clash a b := po_venue_order_id a ≟ po_venue_order_id b;
  refs _ _ := true |}.
#[export] Instance market_events_table : Table MarketEventRow := {|
  rows := paper_market_events; set_rows l d := d <| paper_market_events := l |>;
  clash a b := me_event_id a ≟ me_event_id b;
  refs _ _ := true |}.
#[export] Instance cancellations_table : Table CancellationRecord := {|
  rows := cancellation_requests; set_rows l d := d <| cancellation_requests := l |>;
  clash a b := cn_id a ≟ cn_id b;
  refs _ _ := true |}.
#[export] Instance runs_table : Table ReconciliationRecord := {|
  rows := reconciliation_runs; set_rows l d := d <| reconciliation_runs := l |>;
  clash a b := rr_id a ≟ rr_id b;
  refs _ _ := true |}.
#[export] Instance findings_table : Table FindingRow := {|
  rows := reconciliation_findings; set_rows l d := d <| reconciliation_findings := l |>;
  clash a b := fd_id a ≟ fd_id b;
  refs d r := existsb (λ x, rr_id x ≟ fd_reconciliation_id r) (reconciliation_runs d) |}.
#[export] Instance actions_table : Table OperatorActionRow := {|
  rows := operator_actions; set_rows l d := d <| operator_actions := l |>;
  clash a b := oa_id a ≟ oa_id b;
  refs _ _ := true |}.
#[export] Instance backups_table : Table BackupRecord := {|
  rows := backups; set_rows l d := d <| backups := l |>;
  clash a b := bk_id a ≟ bk_id b;
  refs _ _ := true |}.

(** ** Statements *)

Definition update_list {R} (p : R → bool) (f : R → R) (l : list R) : list R :=
  (λ r, if p r then f r else r) <$> l.

Section statements.
Context `{Table R}.

Definition fetch_all (p : R → bool) : Prog Sys StoreError (list R) :=
  gets (λ s, List.filter p (rows (db s))).
Definition fetch_optional (p : R → bool) : Prog Sys StoreError (option R) :=
  gets (λ s, List.find p (rows (db s))).
Definition fetch_one (p : R → bool) : Prog Sys StoreError R :=
  o ← fetch_optional p; lift (ok_or (Database RowNotFound) o).
Definition count (p : R → bool) : Prog Sys StoreError nat :=
  gets (λ s, length (List.filter p (rows (db s)))).

(** [INSERT INTO]. *)
Definition insert (r : R) : Prog Sys StoreError () := λ s,
  if existsb (clash r) (rows (db s)) then (Failed (Database UniqueViolation), s)
  else if refs (db s) r then (Done tt, s <| db := set_rows (rows (db s) ++ [r]) (db s) |>)
  else (Failed (Database ForeignKeyViolation), s).

(** [INSERT .. ON CONFLICT DO NOTHING]: the number of rows inserted. *)
Definition insert_or_ignore (r : R) : Prog Sys StoreError nat := λ s,
  if existsb (clash r) (rows (db s)) then (Done 0%nat, s)
  else if refs (db s) r then (Done 1%nat, s <| db := set_rows (rows (db s) ++ [r]) (db s) |>)
  else (Failed (Database ForeignKeyViolation), s).

(** [INSERT .. ON CONFLICT DO UPDATE]: the clashing row is replaced. *)
Definition upsert (r : R) : Prog Sys StoreError () := λ s,
  if refs (db s) r then
    (Done tt, s <| db := set_rows
       (if existsb (clash r) (rows (db s))
        then update_list (clash r) (λ _, r) (rows (db s))
        else rows (db s) ++ [r]) (db s) |>)
  else (Failed (Database ForeignKeyViolation), s).

(** [UPDATE .. WHERE]: the number of rows matched. *)
Definition update_where (p : R → bool) (f : R → R) : Prog Sys StoreError nat := λ s,
  (Done (length (List.filter p (rows (db s)))),
   s <| db := set_rows (update_list p f (rows (db s))) (db s) |>).
End statements.

Section transactions.
Context `{Platform}.

(** [Utc::now()] and [Uuid::now_v7()]. *)
Definition utc_now {E} : Prog Sys E DateTime := λ s,
  (Done (utc_clock (tick s)), s <| tick := S (tick s) |>).
Definition now_v7 {E} : Prog Sys E Uuid := λ s,
  (Done (uuid_v7 (tick s)), s <| tick := S (tick s) |>).

(** [begin] .. [commit]: the events the body returns are broadcast after the
    commit; an error or a panic rolls the tables back. *)
Definition transaction {A} (body : Prog Sys StoreError (A * list ExecutionEvent))
    : Prog Sys StoreError A := λ s,
  match body s with
  | (Done (a, events), s') => (Done a, s' <| sent := sent s' ++ events |>)
  | (Failed e, s') => (Failed e, s <| tick := tick s' |>)
  | (Panicked, s') => (Panicked, s <| tick := tick s' |>)
  end.

(** The row of an event takes the next sequence number. *)
Definition push_event (event : Z → ExecutionEvent) : Prog Sys StoreError ExecutionEvent := λ s,
  let sequence := last_sequence (db s) + 1 in
  (Done (event sequence),
   s <| db := db s <| execution_events := execution_events (db s) ++ [event sequence] |>
                   <| last_sequence := sequence |> |>).

Definition append_event (mode : Mode) (event_type resource_type resource_id payload : string)
    : Prog Sys StoreError ExecutionEvent :=
  created_at ← utc_now;
  push_event (λ sequence,
    mkExecutionEvent sequence event_type resource_type resource_id mode payload created_at).
End transactions.

Definition update_control (c : ControlRow) : Prog Sys StoreError () :=
  modify (λ s, s <| db := db s <| control_state := c |> |>).

(** The store's own fields (the handle, not the database). *)
Record Store : Type := mkStore { st_mode : Mode; event_retention : Z }.
