(* ===== verification/StoreIntents.v ===== *)
(** * StoreIntents: admission, idempotency and intent states (store.rs) *)
From stdpp Require Import sorting.
From S2P Require Import Prelude Text DecimalSpec Json Platform Domain Venue Schema.

(** The [serde_json::from_str] of the types the store and the service read
    back, and SQLite's [json_extract]. *)
Class Codec : Type := {
  intent_from_json : string → option IntentRecord;
  request_from_json : string → option OrderIntentRequest;
  strings_from_json : string → option (list string);
  uuids_from_json : string → option (list Uuid);
  json_extract : string → string → option string;
  (** the text of an error value of another crate *)
  error_detail : StoreError → string;
}.

Inductive Admission : Type := Created (r : IntentRecord) | AlreadyAdmitted (r : IntentRecord).

Record IdempotentResponse : Type := mkIdempotentResponse { status : Z; body : Value }.

(** [ORDER BY created_at, id]. *)
Definition page_le (a b : DateTime * Uuid) : Prop :=
  a.1 < b.1 ∨ (a.1 = b.1 ∧ (a.2 ≤ b.2)%N).
#[export] Instance page_le_dec a b : Decision (page_le a b).
Proof. unfold page_le. apply _. Defined.
Definition order_by {R} (key : R → DateTime * Uuid) (l : list R) : list R :=
  merge_sort (λ a b, page_le (key a) (key b)) l.
Lemma elem_of_order_by {R} (key : R → DateTime * Uuid) l r : r ∈ order_by key l ↔ r ∈ l.
Proof. unfold order_by. by rewrite merge_sort_Permutation. Qed.

(** The row comes after the cursor in that order. *)
Definition after_cursor (cursor : option (DateTime * Uuid)) (key : DateTime * Uuid) : bool :=
  match cursor with
  | None => true
  | Some (created_at, id) => (created_at <? key.1) || ((key.1 =? created_at) && (id <? key.2)%N)
  end.
Definition matches_filter {A} `{EqDecision A} (wanted : option A) (got : A) : bool :=
  match wanted with None => true | Some a => got ≟ a end.
Definition page_limit (limit : Z) : Z := Z.max 1 (Z.min 500 limit).

Section store.
Context `{Platform} `{Codec}.
Variable self : Store.
Notation mode := (st_mode self).

Definition operation_hash (operation : string) (body : Value) : string :=
  sha256_hex (jcs_to_string (json_obj ["operation" ::= operation; "body" ::= body])).

Definition by_key (actor_id key : string) (r : IdempotencyRow) : bool :=
  (ik_actor_id r ≟ actor_id) && (ik_key r ≟ key).

Definition insert_idempotency_record (actor_id idempotency_key operation resource_id : string)
    (request_body : Value) (response_status : Z) (response_body : Value) (created_at : DateTime)
    : Prog Sys StoreError () :=
  let request_hash := operation_hash operation request_body in
  let response_json := jcs_to_string response_body in
  n ← insert_or_ignore (mkIdempotencyRow actor_id idempotency_key request_hash operation
        resource_id response_status response_json created_at);
  ensure (n ≟ 1%nat) IdempotencyConflict.

Definition admit_intent (actor_id idempotency_key : string) (request : OrderIntentRequest)
    : Prog Sys StoreError Admission :=
  let canonical := jcs_to_string (to_value request) in
  let request_hash := sha256_hex canonical in
  let request_json := canonical in
  transaction (
    existing ← fetch_optional (λ r : IntentRow,
      (int_actor_id r ≟ actor_id) && (int_idempotency_key r ≟ idempotency_key));
    match existing with
    | Some existing =>
        ensure (int_request_hash (intent existing) ≟ request_hash) IdempotencyConflict;;
        original_response ← fetch_one (λ r,
          by_key actor_id idempotency_key r && (ik_resource_type r ≟ "intent"));
        record ← lift (ok_or Serialization
          (intent_from_json (ik_response_json original_response)));
        mret (AlreadyAdmitted record, [])
    | None =>
        service_state ← gets (λ s, ct_state (control_state (db s)));
        ensure (service_state ≟ "READY") (NewRiskDisabled service_state);;
        now ← utc_now;
        id ← now_v7;
        let record := mkIntentRecord id mode actor_id idempotency_key request_hash request_json
          IntentState.Received None None now now in
        insert (mkIntentRow record None);;
        let response_json := json_to_string (to_value record) in
        insert (mkIdempotencyRow actor_id idempotency_key request_hash "intent"
          (uuid_to_string id) 202 response_json now);;
        event ← append_event mode "intent.received" "intent" (uuid_to_string (int_id record))
          (json_to_string (to_value request));
        mret (Created record, [event])
    end).

Definition replay_intent (actor_id idempotency_key : string) (request : OrderIntentRequest)
    : Prog Sys StoreError (option IntentRecord) :=
  let request_hash := sha256_hex (jcs_to_string (to_value request)) in
  existing ← fetch_optional (λ r,
    by_key actor_id idempotency_key r && (ik_resource_type r ≟ "intent"));
  match existing with
  | Some existing =>
      ensure (ik_request_hash existing ≟ request_hash) IdempotencyConflict;;
      record ← lift (ok_or Serialization (intent_from_json (ik_response_json existing)));
      mret (Some record)
  | None => mret None
  end.

Definition idempotent_response (actor_id idempotency_key operation : string) (body : Value)
    : Prog Sys StoreError (option IdempotentResponse) :=
  let request_hash := operation_hash operation body in
  row ← fetch_optional (by_key actor_id idempotency_key);
  match row with
  | None => mret None
  | Some row =>
      ensure ((ik_request_hash row ≟ request_hash) && (ik_resource_type row ≟ operation))
        IdempotencyConflict;;
      ensure ((0 <=? ik_response_status row) && (ik_response_status row <? 2 ^ 16))
        (IdentityMismatch "stored HTTP response status is invalid");;
      body ← lift (ok_or Serialization (json_from_str (ik_response_json row)));
      mret (Some (mkIdempotentResponse (ik_response_status row) body))
  end.

Definition record_idempotent_response (actor_id idempotency_key operation resource_id : string)
    (request_body : Value) (status : Z) (response_body : Value) : Prog Sys StoreError () :=
  let request_hash := operation_hash operation request_body in
  let response_json := jcs_to_string response_body in
  now ← utc_now;
  n ← insert_or_ignore (mkIdempotencyRow actor_id idempotency_key request_hash operation
        resource_id status response_json now);
  if n ≟ 0%nat then
    replay ← idempotent_response actor_id idempotency_key operation request_body;
    ensure (bool_decide (is_Some replay)) IdempotencyConflict
  else mret tt.

Definition intent_is (id : Uuid) (r : IntentRow) : bool := int_id r ≟ id.
Definition intent_in (id : Uuid) (state : IntentState) (r : IntentRow) : bool :=
  (int_id r ≟ id) && (int_state r ≟ state).
Definition set_intent_state (state : IntentState) (now : DateTime) (r : IntentRow) : IntentRow :=
  r <| intent := intent r <| int_state := state |> <| int_updated_at := now |> |>.
Definition set_rejection (code message : option string) (r : IntentRow) : IntentRow :=
  r <| intent := intent r <| rejection_code := code |> <| rejection_message := message |> |>.

Definition get_intent (id : Uuid) : Prog Sys StoreError IntentRecord :=
  row ← fetch_optional (intent_is id);
  match row with Some row => mret (intent row) | None => fail NotFound end.

Definition list_intents (limit : Z) : Prog Sys StoreError (list IntentRecord) :=
  rows ← fetch_all (λ _ : IntentRow, true);
  mret (intent <$> take (Z.to_nat (Z.min limit 500))
    (order_by (λ r : IntentRow, (int_created_at r, int_id r)) rows)).

Definition list_intents_page (limit : Z) (state : option IntentState)
    (condition_id : option string) (created_after : option DateTime)
    (cursor : option (DateTime * Uuid)) : Prog Sys StoreError (list IntentRecord) :=
  let limit := page_limit limit in
  rows ← fetch_all (λ r : IntentRow,
    matches_filter state (int_state r) &&
    match condition_id with
    | None => true
    | Some c => json_extract (int_request_json r) "$.condition_id" ≟ Some c
    end &&
    match created_after with None => true | Some t => t <=? int_created_at r end &&
    after_cursor cursor (int_created_at r, int_id r));
  mret (intent <$> take (Z.to_nat (limit + 1))
    (order_by (λ r : IntentRow, (int_created_at r, int_id r)) rows)).

Definition transition_intent (id : Uuid) (expected next : IntentState)
    (rejection : option (string * string)) : Prog Sys StoreError IntentRecord :=
  transaction (
    now ← utc_now;
    n ← update_where (intent_in id expected) (λ r,
      set_rejection (fst <$> rejection) (snd <$> rejection) (set_intent_state next now r));
    ensure (n ≟ 1%nat) NotFound;;
    record ← fetch_one (intent_is id);
    event ← append_event mode (to_ascii_lowercase ("intent." +:+ IntentState_debug next)) "intent"
      (uuid_to_string id) (json_to_string (to_value (intent record)));
    mret (intent record, [event])).

Definition decision_payload (decision_id intent_id : Uuid) (approved : bool)
    (reason_code : string) (observed : Value) (policy_version : string) (now : DateTime) : string :=
  json_to_string (json_obj ["id" ::= uuid_to_string decision_id;
    "intent_id" ::= uuid_to_string intent_id; "approved" ::= approved;
    "reason_code" ::= reason_code; "observed" ::= observed;
    "policy_version" ::= policy_version; "mode" ::= Mode_to_string mode;
    "created_at" ::= to_rfc3339 now]).

Definition record_risk_decision (intent_id : Uuid) (approved : bool) (reason_code : string)
    (observed : Value) (policy_version : string) : Prog Sys StoreError () :=
  transaction (
    decision_id ← now_v7;
    now ← utc_now;
    insert (mkRiskDecisionRow decision_id intent_id approved reason_code
      (json_to_string observed) policy_version now);;
    event ← append_event mode "risk.decision" "risk_decision" (uuid_to_string decision_id)
      (decision_payload decision_id intent_id approved reason_code observed policy_version now);
    mret (tt, [event])).
End store.
