(* ===== verification/StoreRisk.v ===== *)
(** * StoreRisk: the risk snapshot and the atomic reservation (store.rs) *)
From S2P Require Import Prelude Text DecimalSpec Json Platform Domain Venue Risk Schema StoreIntents.

(** The order states that still hold risk. *)
Definition holds_risk (s : OrderState) : bool :=
  match s with
  | OrderState.Prepared | OrderState.Submitting | OrderState.Live | OrderState.PartiallyFilled
  | OrderState.CancelPending | OrderState.Unknown => true
  | _ => false
  end.

Record RiskExposureRow : Type := mkRiskExposureRow {
  re_condition_id : string;
  re_token_id : string;
  re_side : string;
  re_fee_rate : string;
  re_quote_exposure : string;
  re_original_quantity : string;
  re_quantity : string;
}.

Definition Side_name (s : Side) : string := match s with Buy => "BUY" | Sell => "SELL" end.

(** The columns the two exposure queries select. *)
Definition order_exposure (r : OrderRow) : RiskExposureRow :=
  mkRiskExposureRow (ord_condition_id r) (ord_token_id r) (Side_name (ord_side r))
    (or_fee_rate r) (or_quote_exposure r) (original_quantity r) (remaining_quantity r).
Definition reservation_exposure (r : ReservationRow) : RiskExposureRow :=
  mkRiskExposureRow (rs_condition_id r) (rs_token_id r) (Side_name (rs_side r))
    (rs_fee_rate r) (rs_quote_exposure r) (rs_quantity r) (rs_quantity r).

Section snapshot.
Context `{DecimalOps}.

Definition parse_stored_decimal (raw : string) : outcome StoreError Decimal :=
  ok_or (InvalidDecimal raw) (dec_from_str raw).

(** The running totals of the loop over the exposure rows. *)
Record Exposure : Type := mkExposure {
  ex_market_open_notional : Decimal;
  ex_token_pending_buys : Decimal;
  ex_token_pending_sells : Decimal;
  ex_gross_exposure : Decimal;
}.

Definition row_notional (row : RiskExposureRow)
    : outcome StoreError (Decimal * Decimal) :=
  quantity ← parse_stored_decimal (re_quantity row);
  original_quantity ← parse_stored_decimal (re_original_quantity row);
  reject_if (dec_le original_quantity dec_ZERO)
    (IdentityMismatch "risk exposure has a non-positive original quantity");;
  quote_exposure ← parse_stored_decimal (re_quote_exposure row);
  product ← or_panic (dec_mul quote_exposure quantity);
  notional ← or_panic (dec_div product original_quantity);
  mret (quantity, notional).

Definition add_exposure (condition_id token_id : string) (acc : Exposure)
    (row : RiskExposureRow) : outcome StoreError Exposure :=
  '(quantity, notional) ← row_notional row;
  market ← (if re_condition_id row ≟ condition_id
            then or_panic (dec_add (ex_market_open_notional acc) notional)
            else mret (ex_market_open_notional acc));
  buys ← (if (re_token_id row ≟ token_id) && (re_side row ≟ "BUY")
          then or_panic (dec_add (ex_token_pending_buys acc) quantity)
          else mret (ex_token_pending_buys acc));
  sells ← (if (re_token_id row ≟ token_id) && (re_side row ≟ "SELL")
           then or_panic (dec_add (ex_token_pending_sells acc) quantity)
           else mret (ex_token_pending_sells acc));
  gross ← (if re_side row ≟ "BUY" then
             fee_rate ← parse_stored_decimal (re_fee_rate row);
             factor ← or_panic (dec_add dec_ONE fee_rate);
             charged ← or_panic (dec_mul notional factor);
             or_panic (dec_add (ex_gross_exposure acc) charged)
           else mret (ex_gross_exposure acc));
  mret (mkExposure market buys sells gross).

Fixpoint add_exposures (condition_id token_id : string) (acc : Exposure)
    (l : list RiskExposureRow) : outcome StoreError Exposure :=
  match l with
  | [] => mret acc
  | row :: l' => acc' ← add_exposure condition_id token_id acc row;
                 add_exposures condition_id token_id acc' l'
  end.

(** The loop over the positions: gross exposure and the token's own position. *)
Fixpoint add_positions (token_id : string) (gross position : Decimal)
    (l : list PositionRecord) : outcome StoreError (Decimal * Decimal) :=
  match l with
  | [] => mret (gross, position)
  | row :: l' =>
      shares ← parse_stored_decimal (pos_shares row);
      gross' ← or_panic (dec_add gross (dec_abs shares));
      add_positions token_id gross'
        (if pos_token_id row ≟ token_id then shares else position) l'
  end.

Fixpoint add_daily (total : Decimal) (l : list TradeRecord) : outcome StoreError Decimal :=
  match l with
  | [] => mret total
  | row :: l' =>
      price ← parse_stored_decimal (trd_price row);
      size ← parse_stored_decimal (trd_size row);
      notional ← or_panic (dec_mul price size);
      total' ← or_panic (dec_add total notional);
      add_daily total' l'
  end.

Definition build_risk_snapshot (condition_id token_id : string)
    (orders reservations : list RiskExposureRow) (positions : list PositionRecord)
    (daily_rows : list TradeRecord) : outcome StoreError RiskSnapshot :=
  let open_order_count := Z.of_nat (length orders + length reservations) in
  exposure ← add_exposures condition_id token_id
    (mkExposure dec_ZERO dec_ZERO dec_ZERO dec_ZERO) (orders ++ reservations);
  '(gross_exposure, token_position) ←
    add_positions token_id (ex_gross_exposure exposure) dec_ZERO positions;
  daily_matched_notional ← add_daily dec_ZERO daily_rows;
  mret (mkRiskSnapshot open_order_count (ex_market_open_notional exposure) token_position
    (ex_token_pending_buys exposure) (ex_token_pending_sells exposure) gross_exposure
    daily_matched_notional).
End snapshot.

(** SQLite's [date('now')]: the start of the current day. *)
Definition day_start (t : DateTime) : DateTime := t - t mod seconds 86400.

Section store.
Context `{DecimalOps} `{Platform} `{Codec}.
Variable self : Store.
Notation mode := (st_mode self).

(** The four queries of the snapshot on a database, at the time [t]. *)
Definition snapshot_of (d : Db) (t : DateTime) (condition_id token_id : string)
    : outcome StoreError RiskSnapshot :=
  build_risk_snapshot condition_id token_id
    (order_exposure <$> List.filter (λ r : OrderRow, holds_risk (ord_state r)) (orders d))
    (reservation_exposure <$> List.filter (λ r, rs_state r ≟ "ACTIVE") (risk_reservations d))
    (positions d)
    (List.filter (λ r, day_start t <=? trd_created_at r) (trades d)).

Definition risk_snapshot (condition_id token_id : string) : Prog Sys StoreError RiskSnapshot :=
  λ s, (snapshot_of (db s) (utc_clock (tick s)) condition_id token_id, s).

Definition reservation_row (intent_id : Uuid) (request : OrderIntentRequest)
    (price shares quote_exposure fee_rate : Decimal) (now : DateTime) : ReservationRow :=
  mkReservationRow intent_id (req_condition_id request) (req_token_id request)
    (req_side request) (dec_to_string (dec_normalize price))
    (dec_to_string (dec_normalize shares)) (dec_to_string (dec_normalize quote_exposure))
    (dec_to_string (dec_normalize fee_rate)) "ACTIVE" now now.

(** The reservation of an approved intent. *)
Definition reserve (intent_id : Uuid) (request : OrderIntentRequest) (market : MarketRules)
    (policy : RiskPolicy) (now : DateTime) : Prog Sys StoreError ExecutionEvent :=
  price ← lift (map_err (λ e, InvalidDecimal (DomainError_to_string e))
    (protection_price request));
  quantity ← lift (map_err (λ e, InvalidDecimal (DomainError_to_string e))
    (quantity_decimal request));
  exposure ← lift (or_panic (conservative_exposure request market quantity price));
  '(shares, quote_exposure) ← lift (ok_or
    (IdentityMismatch "approved risk decision has an invalid market tick size") exposure);
  let fee_rate := dec_max (maker_fee_rate market) (taker_fee_rate market) in
  insert (reservation_row intent_id request price shares quote_exposure fee_rate now);;
  append_event mode "risk.reserved" "risk_reservation" (uuid_to_string intent_id)
    (json_to_string (json_obj ["intent_id" ::= uuid_to_string intent_id;
      "condition_id" ::= req_condition_id request; "token_id" ::= req_token_id request;
      "side" ::= req_side request; "price" ::= price; "quantity" ::= shares;
      "quote_exposure" ::= quote_exposure; "fee_rate" ::= fee_rate;
      "policy_version" ::= version policy; "mode" ::= Mode_to_string mode])).

Definition evaluate_and_reserve_risk (intent_id : Uuid) (request : OrderIntentRequest)
    (market : MarketRules) (book : OrderBook) (policy : RiskPolicy)
    : Prog Sys StoreError RiskDecision :=
  transaction (
    snapshot ← risk_snapshot (req_condition_id request) (req_token_id request);
    decision ← lift (or_panic (evaluate policy request market book snapshot));
    now ← utc_now;
    decision_id ← now_v7;
    insert (mkRiskDecisionRow decision_id intent_id (approved decision) (reason_code decision)
      (json_to_string (observed decision)) (policy_version decision) now);;
    decision_event ← append_event mode "risk.decision" "risk_decision"
      (uuid_to_string decision_id)
      (decision_payload self decision_id intent_id (approved decision) (reason_code decision)
        (observed decision) (policy_version decision) now);
    reserved ← (if approved decision
                then event ← reserve intent_id request market policy now; mret [event]
                else mret []);
    let next_state := if approved decision then IntentState.Approved else IntentState.Rejected in
    let code := if approved decision then None else Some (reason_code decision) in
    let message := if approved decision then None else Some (rd_message decision) in
    n ← update_where (intent_in intent_id IntentState.Validating) (λ r,
      (set_rejection code message (set_intent_state next_state now r))
        <| ir_policy_version := Some (policy_version decision) |>);
    ensure (n ≟ 1%nat) (IdentityMismatch "intent was not VALIDATING during risk reservation");;
    intent_event ← append_event mode
      (to_ascii_lowercase ("intent." +:+ IntentState_debug next_state)) "intent"
      (uuid_to_string intent_id)
      (json_to_string (json_obj ["state" ::= next_state; "reason_code" ::= code;
        "policy_version" ::= policy_version decision]));
    mret (decision, decision_event :: reserved ++ [intent_event])).
End store.
