(* ===== verification/StoreOrders.v ===== *)
(** * StoreOrders: prepared orders, submissions and fills (store.rs) *)
From Stdlib Require Import Ascii.
From stdpp Require Import sorting.
From S2P Require Import Prelude Text DecimalSpec Json Platform Domain Venue Risk Schema StoreIntents StoreRisk.

(** ** Pure functions *)

Definition is_terminal (s : OrderState) : bool :=
  match s with
  | OrderState.Filled | OrderState.Cancelled | OrderState.Expired | OrderState.Rejected => true
  | _ => false
  end.

Definition valid_order_transition (prior next : OrderState) : bool :=
  (prior ≟ next) ||
  match prior, next with
  | (OrderState.Live | OrderState.PartiallyFilled), OrderState.CancelPending => true
  | (OrderState.CancelPending | OrderState.Unknown),
    (OrderState.Filled | OrderState.Cancelled | OrderState.Expired) => true
  | _, _ => false
  end.

Definition aggregate_trade_status (statuses : list TradeState) : TradeState :=
  if bool_decide (TradeState.Failed ∈ statuses) then TradeState.Failed
  else if bool_decide (TradeState.Retrying ∈ statuses) then TradeState.Retrying
  else if forallb (λ s, s ≟ TradeState.Confirmed) statuses then TradeState.Confirmed
  else if forallb (λ s, (s ≟ TradeState.Mined) || (s ≟ TradeState.Confirmed)) statuses
  then TradeState.Mined
  else TradeState.Matched.

Definition comma : ascii := ","%char.

Definition trade_component_ids (venue_trade_id : string) : list string :=
  match strip_prefix "submission:" venue_trade_id with
  | None => [venue_trade_id]
  | Some ids => split_at comma ids
  end.

(** The name [apply_matched_fill] gives a trade. *)
Definition matched_trade_id (reference : string) (venue_trade_ids : list string) : string :=
  match venue_trade_ids with
  | [] => "submission:" +:+ reference
  | [venue_trade_id] => venue_trade_id
  | _ => "submission:" +:+ join "," venue_trade_ids
  end.

Section evidence.
Context `{DecimalOps}.

(** A venue never reports a state only this service uses. *)
Definition venue_state (s : OrderState) : bool :=
  match s with
  | OrderState.Live | OrderState.PartiallyFilled | OrderState.Filled | OrderState.Cancelled
  | OrderState.Expired | OrderState.Rejected | OrderState.Unknown => true
  | _ => false
  end.

Definition validate_venue_order_evidence (original_quantity : Decimal) (state : OrderState)
    (remaining_quantity filled_quantity : Decimal) (filled_price : option Decimal)
    : outcome StoreError () :=
  let bounds := IdentityMismatch "venue order quantities violate the persisted order bounds" in
  reject_if (dec_le original_quantity dec_ZERO || dec_lt remaining_quantity dec_ZERO ||
             dec_lt filled_quantity dec_ZERO ||
             dec_gt remaining_quantity original_quantity ||
             dec_gt filled_quantity original_quantity) bounds;;
  total ← or_panic (dec_add remaining_quantity filled_quantity);
  reject_if (dec_gt total original_quantity) bounds;;
  reject_if (negb (venue_state state))
    (IdentityMismatch "venue evidence contains a local-only order state");;
  reject_if
    (((state ≟ OrderState.Filled) && dec_ne remaining_quantity dec_ZERO) ||
     ((state ≟ OrderState.Live) && dec_eq remaining_quantity dec_ZERO) ||
     ((state ≟ OrderState.PartiallyFilled) &&
      (dec_eq remaining_quantity dec_ZERO || dec_eq filled_quantity dec_ZERO)) ||
     ((state ≟ OrderState.Rejected) && dec_ne filled_quantity dec_ZERO) ||
     ((state ≟ OrderState.Unknown) &&
      (dec_ne filled_quantity dec_ZERO || dec_ne remaining_quantity original_quantity)))
    (IdentityMismatch "venue order state is inconsistent with reported quantities");;
  if dec_gt filled_quantity dec_ZERO then
    price ← ok_or (IdentityMismatch "venue fill is missing its execution price") filled_price;
    reject_if (dec_le price dec_ZERO || dec_ge price dec_ONE)
      (IdentityMismatch "venue fill price must be between zero and one")
  else mret tt.
End evidence.

(** ** Rows *)

Definition order_is (id : Uuid) (r : OrderRow) : bool := ord_id r ≟ id.
Definition order_in (id : Uuid) (state : OrderState) (r : OrderRow) : bool :=
  (ord_id r ≟ id) && (ord_state r ≟ state).
Definition order_of (id intent_id : Uuid) (state : OrderState) (r : OrderRow) : bool :=
  (ord_id r ≟ id) && (ord_intent_id r ≟ intent_id) && (ord_state r ≟ state).
Definition set_order_state (state : OrderState) (now : DateTime) (r : OrderRow) : OrderRow :=
  r <| order := order r <| ord_state := state |> <| ord_updated_at := now |> |>.
(** [venue_order_id = COALESCE(?, venue_order_id)] *)
Definition set_venue_order_id (id : option string) (r : OrderRow) : OrderRow :=
  r <| order := order r <| venue_order_id :=
         match id with Some v => Some v | None => venue_order_id r end |> |>.
Definition set_remaining (quantity : string) (r : OrderRow) : OrderRow :=
  r <| order := order r <| remaining_quantity := quantity |> |>.

(** [prepared_order_id = (SELECT id FROM prepared_orders WHERE intent_id = ?)]: the
    subquery yields its first row, and NULL equals nothing. *)
Definition attempt_of (d : Db) (intent_id : Uuid) (state : string) (a : AttemptRow) : bool :=
  match List.find (λ p, pr_intent_id p ≟ intent_id) (prepared_orders d) with
  | Some p => (at_prepared_order_id a ≟ pr_id p) && (at_state a ≟ state)
  | None => false
  end.
Definition update_attempts (intent_id : Uuid) (state : string) (f : AttemptRow → AttemptRow)
    : Prog Sys StoreError nat :=
  λ s, update_where (attempt_of (db s) intent_id state) f s.
Definition set_attempt (state : string) (class response : option string) (now : DateTime)
    (a : AttemptRow) : AttemptRow :=
  a <| at_state := state |> <| at_response_class := class |> <| at_response_json := response |>
    <| at_updated_at := now |>.

Definition set_reservation (state : string) (now : DateTime) (r : ReservationRow)
    : ReservationRow := r <| rs_state := state |> <| rs_updated_at := now |>.
Definition active_reservation (intent_id : Uuid) (r : ReservationRow) : bool :=
  (rs_intent_id r ≟ intent_id) && (rs_state r ≟ "ACTIVE").

Record UnknownSubmission : Type := mkUnknownSubmission {
  us_order_id : Uuid;
  us_intent_id : Uuid;
  us_deterministic_order_id : string;
}.
Record PreparedSubmission : Type := mkPreparedSubmission {
  ps_order_id : Uuid;
  ps_deterministic_order_id : string;
  ps_normalized_json : string;
  ps_signed_payload_json : option string;
  ps_signer_address : option string;
  ps_funder_address : option string;
  ps_protocol_version : Z;
  ps_sdk_version : string;
}.

Section store.
Context `{DecimalOps} `{Platform} `{Codec}.
Variable self : Store.
Notation mode := (st_mode self).

Definition dec_text (d : Decimal) : string := dec_to_string (dec_normalize d).
Definition event_name (resource debug : string) : string :=
  to_ascii_lowercase (resource +:+ "." +:+ debug).
Definition state_payload (state : string) : string :=
  json_to_string (json_obj ["state" ::= state]).

Definition insert_order (order : OrderRecord) (fee_rate quote_exposure : Decimal)
    : Prog Sys StoreError () :=
  insert (mkOrderRow order (dec_text fee_rate) (dec_text quote_exposure)).

Definition insert_transition (order_id : Uuid) (prior next : OrderState) (evidence : string)
    (now : DateTime) : Prog Sys StoreError () :=
  insert (mkTransitionRow order_id (Some prior) next evidence now).

(** ** Preparation *)

Definition create_prepared_order (intent : IntentRecord) (request : OrderIntentRequest)
    (normalized_venue_json deterministic_order_id : string)
    (signed_payload_json signer_address funder_address : option string)
    (protocol_version : Z) (sdk_version policy_version : string) (fee_rate : Decimal)
    : Prog Sys StoreError OrderRecord :=
  transaction (
    now ← utc_now;
    prepared_id ← now_v7;
    normalized ← lift (ok_or Serialization (json_from_str normalized_venue_json));
    let normalized_json := jcs_to_string normalized in
    let payload_sha256 := sha256_hex <$> signed_payload_json in
    insert (mkPreparedRow prepared_id (int_id intent) normalized_json signed_payload_json
      payload_sha256 deterministic_order_id signer_address funder_address protocol_version
      sdk_version policy_version now);;
    attempt_id ← now_v7;
    insert (mkAttemptRow attempt_id prepared_id 1 "PREPARED" None None None now now);;
    price ← lift (map_err (λ e, InvalidDecimal (DomainError_to_string e))
      (protection_price request));
    reservation ← fetch_optional (active_reservation (int_id intent));
    reservation ← lift (ok_or
      (IdentityMismatch "prepared order does not have an active risk reservation") reservation);
    share_quantity ← lift (parse_stored_decimal (rs_quantity reservation));
    quote_exposure ← lift (parse_stored_decimal (rs_quote_exposure reservation));
    order_id ← now_v7;
    let order := mkOrderRecord order_id (int_id intent) mode None (req_condition_id request)
      (req_token_id request) (req_side request) (req_time_in_force request) (dec_text price)
      (dec_text share_quantity) (dec_text share_quantity) OrderState.Prepared now now in
    insert_order order fee_rate quote_exposure;;
    reservation_update ← update_where (active_reservation (int_id intent))
      (set_reservation "CONSUMED" now);
    ensure (reservation_update ≟ 1%nat)
      (IdentityMismatch "prepared order does not have exactly one active risk reservation");;
    intent_update ← update_where (intent_in (int_id intent) IntentState.Preparing)
      (set_intent_state IntentState.Prepared now);
    ensure (intent_update ≟ 1%nat)
      (IdentityMismatch "intent was not PREPARING while committing prepared order");;
    prepared_intent ← fetch_one (intent_is (int_id intent));
    intent_event ← append_event mode "intent.prepared" "intent" (uuid_to_string (int_id intent))
      (json_to_string (to_value (Schema.intent prepared_intent)));
    order_event ← append_event mode "order.prepared" "order" (uuid_to_string (ord_id order))
      (json_to_string (to_value order));
    mret (order, [intent_event; order_event])).

Definition reject_preparation (intent_id : Uuid) (code message : string)
    : Prog Sys StoreError () :=
  transaction (
    now ← utc_now;
    reservation ← update_where (active_reservation intent_id) (set_reservation "RELEASED" now);
    ensure (reservation ≟ 1%nat)
      (IdentityMismatch "preparation rejection does not have an active risk reservation");;
    intent ← update_where (intent_in intent_id IntentState.Preparing) (λ r,
      set_rejection (Some code) (Some message) (set_intent_state IntentState.Rejected now r));
    ensure (intent ≟ 1%nat)
      (IdentityMismatch "intent was not PREPARING during reservation release");;
    reservation_event ← append_event mode "risk.released" "risk_reservation"
      (uuid_to_string intent_id)
      (json_to_string (json_obj ["intent_id" ::= uuid_to_string intent_id; "reason" ::= code;
        "mode" ::= Mode_to_string mode]));
    intent_event ← append_event mode "intent.rejected" "intent" (uuid_to_string intent_id)
      (json_to_string (json_obj ["state" ::= "REJECTED"; "reason_code" ::= code;
        "message" ::= message]));
    mret (tt, [reservation_event; intent_event])).

(** ** Submission *)

Definition begin_submission (intent_id order_id : Uuid) : Prog Sys StoreError () :=
  transaction (
    service_state ← gets (λ s, ct_state (control_state (db s)));
    ensure (service_state ≟ "READY") (NewRiskDisabled service_state);;
    now ← utc_now;
    intent_update ← update_where (intent_in intent_id IntentState.Prepared)
      (set_intent_state IntentState.Submitting now);
    order_update ← update_where (order_of order_id intent_id OrderState.Prepared)
      (set_order_state OrderState.Submitting now);
    ensure ((intent_update ≟ 1%nat) && (order_update ≟ 1%nat))
      (IdentityMismatch "prepared intent/order pair changed before submission");;
    attempt_update ← update_attempts intent_id "PREPARED" (λ a,
      a <| at_state := "SUBMITTING" |> <| at_request_started_at := Some now |>
        <| at_updated_at := now |>);
    ensure (attempt_update ≟ 1%nat)
      (IdentityMismatch "submission attempt was not PREPARED");;
    insert_transition order_id OrderState.Prepared OrderState.Submitting "{}" now;;
    intent_event ← append_event mode "intent.submitting" "intent" (uuid_to_string intent_id)
      (state_payload "SUBMITTING");
    order_event ← append_event mode "order.submitting" "order" (uuid_to_string order_id)
      (state_payload "SUBMITTING");
    mret (tt, [intent_event; order_event])).

(** A fill becomes one trade, named after the venue's trade ids; a trade that
    is already known changes nothing. *)
Definition apply_matched_fill (order : OrderRecord) (venue_order_id : option string)
    (filled_quantity : Decimal) (filled_price : option Decimal) (venue_trade_ids : list string)
    (now : DateTime) : Prog Sys StoreError (option ExecutionEvent) :=
  if dec_le filled_quantity dec_ZERO then mret None
  else
    order_price ← lift (parse_stored_decimal (ord_price order));
    let trade_price := dec_normalize (default order_price filled_price) in
    let venue_trade_id := matched_trade_id
      (default (uuid_to_string (ord_id order)) venue_order_id) venue_trade_ids in
    trade_id ← now_v7;
    let trade := mkTradeRecord trade_id (ord_id order) mode venue_trade_id
      (dec_to_string trade_price) (dec_text filled_quantity) TradeState.Matched now now in
    inserted ← (λ s, if existsb (λ t, Domain.venue_trade_id t ≟ venue_trade_id) (trades (db s))
                     then (Done 0%nat, s) else (insert trade;; mret 1%nat) s);
    if inserted ≟ 0%nat then mret None
    else
      row ← fetch_optional (λ p, pos_token_id p ≟ ord_token_id order);
      current_position ← lift match row with
        | None => Done dec_ZERO
        | Some p => parse_stored_decimal (pos_shares p)
        end;
      next_position ← lift (or_panic match ord_side order with
        | Buy => dec_add current_position filled_quantity
        | Sell => dec_sub current_position filled_quantity
        end);
      upsert (mkPositionRecord (ord_token_id order) (ord_condition_id order) mode
        (dec_text next_position) now);;
      event ← append_event mode "trade.matched" "trade" (uuid_to_string trade_id)
        (json_to_string (to_value trade));
      mret (Some event).

Definition event_list (e : option ExecutionEvent) : list ExecutionEvent :=
  match e with Some e => [e] | None => [] end.

Definition finish_submission (intent_id order_id : Uuid) (intent_state : IntentState)
    (order_state : OrderState) (venue_order_id : option string) (response_class : string)
    (filled_quantity : Decimal) (filled_price : option Decimal) (venue_trade_ids : list string)
    (evidence : Value) : Prog Sys StoreError () :=
  ensure ((intent_state ≟ IntentState.Submitted) || (intent_state ≟ IntentState.Unknown))
    (IdentityMismatch "invalid terminal submission intent state");;
  transaction (
    now ← utc_now;
    prior_order ← fetch_optional (order_of order_id intent_id OrderState.Submitting);
    prior_order ← lift (ok_or
      (IdentityMismatch "submitting order changed before response commit") prior_order);
    original ← lift (parse_stored_decimal (original_quantity (order prior_order)));
    remaining ← lift (if is_terminal order_state then Done dec_ZERO
      else rest ← or_panic (dec_sub original filled_quantity); Done (dec_max rest dec_ZERO));
    lift (validate_venue_order_evidence original order_state remaining filled_quantity
      filled_price);;
    intent_update ← update_where (intent_in intent_id IntentState.Submitting)
      (set_intent_state intent_state now);
    order_update ← update_where (order_of order_id intent_id OrderState.Submitting) (λ r,
      set_remaining (dec_text remaining)
        (set_venue_order_id venue_order_id (set_order_state order_state now r)));
    trade_event ← (if intent_state ≟ IntentState.Submitted
      then apply_matched_fill (order prior_order) venue_order_id filled_quantity filled_price
             venue_trade_ids now
      else mret None);
    ensure ((intent_update ≟ 1%nat) && (order_update ≟ 1%nat))
      (IdentityMismatch "submitting intent/order pair changed before response commit");;
    let attempt_state := if intent_state ≟ IntentState.Unknown then "UNKNOWN"
                         else if order_state ≟ OrderState.Rejected then "REJECTED"
                         else "ACCEPTED" in
    update_attempts intent_id "SUBMITTING"
      (set_attempt attempt_state (Some response_class) (Some (json_to_string evidence)) now);;
    insert_transition order_id OrderState.Submitting order_state (json_to_string evidence) now;;
    intent_event ← append_event mode (event_name "intent" (IntentState_debug intent_state))
      "intent" (uuid_to_string intent_id)
      (json_to_string (json_obj ["state" ::= intent_state; "response_class" ::= response_class]));
    order_event ← append_event mode (event_name "order" (OrderState_debug order_state)) "order"
      (uuid_to_string order_id)
      (json_to_string (json_obj ["state" ::= order_state; "venue_order_id" ::= venue_order_id;
        "evidence" ::= evidence]));
    mret (tt, intent_event :: order_event :: event_list trade_event)).

(** ** Recovery after a crash *)

Definition joined (d : Db) : list (OrderRow * PreparedRow) :=
  o ← orders d;
  p ← List.filter (λ p, pr_intent_id p ≟ ord_intent_id (order o)) (prepared_orders d);
  mret (o, p).

Definition interrupted_payload : string :=
  "{" +:+ String (ascii_of_N 34) "reason" +:+ String (ascii_of_N 34) ":" +:+
  String (ascii_of_N 34) "process_interrupted_after_submitting_commit" +:+
  String (ascii_of_N 34) "}".

Definition interrupted (d : Db) : list UnknownSubmission :=
  (λ x : OrderRow * PreparedRow,
     mkUnknownSubmission (ord_id x.1) (ord_intent_id x.1) (pr_deterministic_order_id x.2)) <$>
  List.filter (λ x : OrderRow * PreparedRow,
     existsb (λ i : IntentRow, (int_id i ≟ ord_intent_id x.1) &&
       ((ord_state x.1 ≟ OrderState.Submitting) || (int_state i ≟ IntentState.Submitting)))
     (intents d)) (joined d).

Definition recover_one (now : DateTime) (row : UnknownSubmission)
    : Prog Sys StoreError (list ExecutionEvent) :=
  update_where (order_is (us_order_id row)) (λ r,
    (set_venue_order_id (match venue_order_id r with
       | Some v => Some v | None => Some (us_deterministic_order_id row) end)
     (set_order_state OrderState.Unknown now r)));;
  update_where (intent_is (us_intent_id row)) (set_intent_state IntentState.Unknown now);;
  update_attempts (us_intent_id row) "SUBMITTING" (λ a,
    a <| at_state := "UNKNOWN" |> <| at_response_class := Some "PROCESS_INTERRUPTED" |>
      <| at_updated_at := now |>);;
  insert_transition (us_order_id row) OrderState.Submitting OrderState.Unknown
    interrupted_payload now;;
  intent_event ← append_event mode "intent.unknown" "intent"
    (uuid_to_string (us_intent_id row)) interrupted_payload;
  order_event ← append_event mode "order.unknown" "order"
    (uuid_to_string (us_order_id row)) interrupted_payload;
  mret [intent_event; order_event].

Definition recover_interrupted_submissions : Prog Sys StoreError nat :=
  transaction (
    rows ← gets (λ s, interrupted (db s));
    now ← utc_now;
    events ← for_collect rows (recover_one now);
    mret (length rows, concat events)).

Definition pre_submission (s : IntentState) : bool :=
  match s with
  | IntentState.Received | IntentState.Validating | IntentState.Approved
  | IntentState.Preparing | IntentState.Prepared => true
  | _ => false
  end.

Definition attempts_of (d : Db) (p : PreparedRow) (state : string) : list AttemptRow :=
  List.filter (λ a, (at_prepared_order_id a ≟ pr_id p) && (at_state a ≟ state))
    (submission_attempts d).
(** The rows of [orders JOIN prepared_orders JOIN submission_attempts] that are
    PREPARED, for one intent. *)
Definition prepared_rows (d : Db) (intent_id : Uuid) : list (OrderRow * PreparedRow) :=
  x ← List.filter (λ x : OrderRow * PreparedRow,
        (ord_intent_id x.1 ≟ intent_id) && (ord_state x.1 ≟ OrderState.Prepared)) (joined d);
  (λ _, x) <$> attempts_of d x.2 "PREPARED".

Definition release_payload : string :=
  "{" +:+ String (ascii_of_N 34) "reason" +:+ String (ascii_of_N 34) ":" +:+
  String (ascii_of_N 34) "process_interrupted_before_prepared_order" +:+
  String (ascii_of_N 34) "}".

Definition recover_pre_one (now : DateTime) (row : IntentRow)
    : Prog Sys StoreError (list ExecutionEvent) :=
  let id := int_id row in
  let state := int_state row in
  if state ≟ IntentState.Prepared then
    n ← gets (λ s, length (prepared_rows (db s) id));
    ensure (n ≟ 1%nat) (IdentityMismatch ("prepared intent " +:+ uuid_to_string id +:+
      " does not have exactly one prepared order and attempt"));;
    mret []
  else if state ≟ IntentState.Received then mret []
  else
    released ← update_where (active_reservation id) (set_reservation "RELEASED" now);
    release_events ← (if (0 <? released)%nat then
        event ← append_event mode "risk.released" "risk_reservation" (uuid_to_string id)
          release_payload;
        mret [event]
      else mret []);
    update_where (intent_in id state) (set_intent_state IntentState.Received now);;
    event ← append_event mode "intent.recovered_before_submission" "intent" (uuid_to_string id)
      (json_to_string (json_obj ["prior_state" ::= state; "new_state" ::= "RECEIVED";
        "reason" ::= "no venue request had begun"]));
    mret (release_events ++ [event]).

Definition recover_pre_submission_work : Prog Sys StoreError (list Uuid) :=
  transaction (
    rows ← gets (λ s, order_by (λ r : IntentRow, (int_created_at r, int_id r))
                        (List.filter (λ r : IntentRow, pre_submission (int_state r))
                           (intents (db s))));
    now ← utc_now;
    events ← for_collect rows (recover_pre_one now);
    mret ((λ r : IntentRow, int_id r) <$> rows, concat events)).

Definition prepared_submission (intent_id : Uuid) : Prog Sys StoreError PreparedSubmission :=
  rows ← gets (λ s, prepared_rows (db s) intent_id);
  match rows with
  | [] => fail NotFound
  | (o, p) :: _ =>
      ensure ((0 <=? pr_protocol_version p) && (pr_protocol_version p <? 2 ^ 32))
        (IdentityMismatch "stored protocol version is outside u32");;
      mret (mkPreparedSubmission (ord_id (order o)) (pr_deterministic_order_id p)
        (pr_normalized_json p) (pr_signed_payload_json p) (pr_signer_address p)
        (pr_funder_address p) (pr_protocol_version p) (pr_sdk_version p))
  end.

Definition unknown_submissions : Prog Sys StoreError (list UnknownSubmission) :=
  gets (λ s, (λ x : OrderRow * PreparedRow,
      mkUnknownSubmission (ord_id x.1) (ord_intent_id x.1) (pr_deterministic_order_id x.2)) <$>
    List.filter (λ x : OrderRow * PreparedRow, ord_state x.1 ≟ OrderState.Unknown)
      (joined (db s))).

Definition resolve_unknown_submission (unknown : UnknownSubmission) (venue_order_id : string)
    (state : OrderState) (remaining_quantity filled_quantity : Decimal)
    (filled_price : option Decimal) (venue_trade_ids : list string) (evidence : Value)
    : Prog Sys StoreError () :=
  if state ≟ OrderState.Unknown then mret tt
  else transaction (
    now ← utc_now;
    prior_order ← fetch_optional (order_in (us_order_id unknown) OrderState.Unknown);
    prior_order ← lift (ok_or
      (IdentityMismatch "unknown order changed during reconciliation") prior_order);
    original ← lift (parse_stored_decimal (original_quantity (order prior_order)));
    lift (validate_venue_order_evidence original state remaining_quantity filled_quantity
      filled_price);;
    order_update ← update_where (order_in (us_order_id unknown) OrderState.Unknown) (λ r,
      set_remaining (dec_text remaining_quantity)
        (set_venue_order_id (Some venue_order_id) (set_order_state state now r)));
    ensure (order_update ≟ 1%nat)
      (IdentityMismatch "unknown order changed during reconciliation");;
    update_where (intent_in (us_intent_id unknown) IntentState.Unknown)
      (set_intent_state IntentState.Submitted now);;
    trade_event ← apply_matched_fill (order prior_order) (Some venue_order_id) filled_quantity
      filled_price venue_trade_ids now;
    update_attempts (us_intent_id unknown) "UNKNOWN"
      (set_attempt "RESOLVED" (Some "RECONCILED") (Some (json_to_string evidence)) now);;
    insert_transition (us_order_id unknown) OrderState.Unknown state
      (json_to_string evidence) now;;
    order_event ← append_event mode (event_name "order" (OrderState_debug state)) "order"
      (uuid_to_string (us_order_id unknown))
      (json_to_string (json_obj ["state" ::= state; "venue_order_id" ::= venue_order_id;
        "reconciled_from" ::= "UNKNOWN"; "evidence" ::= evidence]));
    intent_event ← append_event mode "intent.submitted" "intent"
      (uuid_to_string (us_intent_id unknown))
      (json_to_string (json_obj ["state" ::= "SUBMITTED"; "reconciled_from" ::= "UNKNOWN"]));
    mret (tt, order_event :: intent_event :: event_list trade_event)).

(** ** Transitions and cancellation *)

Definition transition_order (id : Uuid) (next : OrderState) (venue_order_id : option string)
    (evidence : Value) : Prog Sys StoreError OrderRecord :=
  transaction (
    prior_row ← fetch_optional (order_is id);
    prior_row ← lift (ok_or NotFound prior_row);
    let prior := ord_state (order prior_row) in
    let intent_id := ord_intent_id (order prior_row) in
    if (next ≟ OrderState.CancelPending) && is_terminal prior then
      row ← fetch_one (order_is id);
      mret (order row, [])
    else
      ensure (valid_order_transition prior next) (IdentityMismatch
        ("invalid order transition " +:+ OrderState_debug prior +:+ " -> " +:+
         OrderState_debug next));;
      now ← utc_now;
      update_where (order_is id) (λ r,
        set_venue_order_id venue_order_id (set_order_state next now r));;
      (if (prior ≟ OrderState.Unknown) &&
          ((next ≟ OrderState.Filled) || (next ≟ OrderState.Cancelled) ||
           (next ≟ OrderState.Expired))
       then update_where (intent_in intent_id IntentState.Unknown)
              (set_intent_state IntentState.Submitted now)
       else mret 0%nat);;
      insert_transition id prior next (json_to_string evidence) now;;
      row ← fetch_one (order_is id);
      event ← append_event mode (event_name "order" (OrderState_debug next)) "order"
        (uuid_to_string id) (json_to_string (to_value (order row)));
      mret (order row, [event])).

Definition cancel_prepared_order (order_id : Uuid) (evidence : Value)
    : Prog Sys StoreError OrderRecord :=
  transaction (
    row ← fetch_optional (order_in order_id OrderState.Prepared);
    row ← lift (ok_or NotFound row);
    let intent_id := ord_intent_id (order row) in
    now ← utc_now;
    update_where (order_is order_id) (set_order_state OrderState.Cancelled now);;
    update_where (intent_in intent_id IntentState.Prepared) (λ r,
      set_rejection (Some "CANCELLED_BEFORE_SUBMISSION")
        (Some "cancelled before venue submission")
        (set_intent_state IntentState.Rejected now r));;
    update_attempts intent_id "PREPARED" (set_attempt "CANCELLED"
      (Some "CANCELLED_BEFORE_SUBMISSION") (Some (json_to_string evidence)) now);;
    insert_transition order_id OrderState.Prepared OrderState.Cancelled
      (json_to_string evidence) now;;
    cancelled ← fetch_one (order_is order_id);
    order_event ← append_event mode "order.cancelled" "order" (uuid_to_string order_id)
      (json_to_string (to_value (order cancelled)));
    intent_event ← append_event mode "intent.rejected" "intent" (uuid_to_string intent_id)
      (json_to_string (json_obj ["state" ::= "REJECTED";
        "reason_code" ::= "CANCELLED_BEFORE_SUBMISSION";
        "order_id" ::= uuid_to_string order_id]));
    mret (order cancelled, [order_event; intent_event])).

Definition get_order (id : Uuid) : Prog Sys StoreError OrderRecord :=
  row ← fetch_optional (order_is id);
  match row with Some row => mret (order row) | None => fail NotFound end.

(** ** Reconciliation of the order projection *)

Definition reconciliation_orders : Prog Sys StoreError (list OrderRecord * gset string) :=
  gets (λ s,
    let known := List.filter (λ r : OrderRow, bool_decide (is_Some (venue_order_id r)))
                   (orders (db s)) in
    let known_ids : gset string :=
      list_to_set (omap (λ r : OrderRow, venue_order_id r) known) ∪
      list_to_set (pr_deterministic_order_id <$> prepared_orders (db s)) in
    let active := List.filter (λ r : OrderRow,
      (ord_state r ≟ OrderState.Live) || (ord_state r ≟ OrderState.PartiallyFilled) ||
      (ord_state r ≟ OrderState.CancelPending)) known in
    (order <$> active, known_ids)).

Definition reconcile_order_projection (order_id : Uuid) (observed_state : OrderState)
    (remaining_quantity total_filled_quantity : Decimal) (filled_price : option Decimal)
    (venue_trade_ids : list string) (evidence : Value) : Prog Sys StoreError () :=
  transaction (
    row ← fetch_optional (order_is order_id);
    row ← lift (ok_or NotFound row);
    let order := order row in
    original ← lift (parse_stored_decimal (original_quantity order));
    lift (validate_venue_order_evidence original observed_state remaining_quantity
      total_filled_quantity filled_price);;
    local_remaining ← lift (parse_stored_decimal (Domain.remaining_quantity order));
    difference ← lift (or_panic (dec_sub original local_remaining));
    let local_filled := dec_max difference dec_ZERO in
    ensure (negb (dec_lt total_filled_quantity local_filled)) (IdentityMismatch
      ("venue fill quantity " +:+ dec_to_string total_filled_quantity +:+
       " regressed below local " +:+ dec_to_string local_filled));;
    delta_fill ← lift (or_panic (dec_sub total_filled_quantity local_filled));
    let next_state :=
      if (ord_state order ≟ OrderState.CancelPending) &&
         ((observed_state ≟ OrderState.Live) || (observed_state ≟ OrderState.PartiallyFilled))
      then OrderState.CancelPending else observed_state in
    if (next_state ≟ ord_state order) && dec_eq remaining_quantity local_remaining &&
       dec_eq delta_fill dec_ZERO
    then mret (tt, [])
    else
      now ← utc_now;
      update_where (order_is order_id) (λ r,
        set_remaining (dec_text remaining_quantity) (set_order_state next_state now r));;
      trade_event ← apply_matched_fill order (venue_order_id order) delta_fill filled_price
        venue_trade_ids now;
      insert_transition order_id (ord_state order) next_state (json_to_string evidence) now;;
      order_event ← append_event mode "order.reconciled" "order" (uuid_to_string order_id)
        (json_to_string (json_obj ["prior_state" ::= ord_state order; "new_state" ::= next_state;
          "remaining_quantity" ::= remaining_quantity; "delta_fill" ::= delta_fill;
          "evidence" ::= evidence]));
      mret (tt, order_event :: event_list trade_event)).

(** A [BTreeSet] of the ids, in order. *)
Definition order_ids_for_venue_ids (venue_order_ids : list string)
    : Prog Sys StoreError (list Uuid) :=
  gets (λ s,
    let found := omap (λ v, (λ r : OrderRow, ord_id r) <$>
      List.find (λ r : OrderRow, venue_order_id r ≟ Some v) (orders (db s))) venue_order_ids in
    merge_sort N.le (elements (list_to_set found : gset N))).

(** [ORDER BY id]. *)
Definition trade_le (a b : TradeRecord) : Prop := (trd_id a ≤ trd_id b)%N.
#[local] Instance trade_le_dec a b : Decision (trade_le a b).
Proof. unfold trade_le. apply _. Defined.

Definition finality_status (d : Db) (venue_trade_id : string) : option TradeState :=
  fn_status <$> List.find (λ f, fn_venue_trade_id f ≟ venue_trade_id) (venue_trade_finality d).

Definition record_venue_trade_finality (order_id : Uuid) (venue_trade_id : string)
    (status : TradeState) (evidence : Value) : Prog Sys StoreError bool :=
  transaction (
    rows ← gets (λ s, merge_sort trade_le
      (List.filter (λ t, trd_order_id t ≟ order_id) (trades (db s))));
    match List.find (λ t, bool_decide (venue_trade_id ∈
            trade_component_ids (Domain.venue_trade_id t))) rows with
    | None => mret (false, [])
    | Some trade =>
        prior_status ← gets (λ s, finality_status (db s) venue_trade_id);
        if prior_status ≟ Some status then mret (true, [])
        else
          now ← utc_now;
          upsert (mkFinalityRow venue_trade_id (trd_id trade) status
            (json_to_string evidence) now);;
          let component_ids := trade_component_ids (Domain.venue_trade_id trade) in
          component_statuses ← gets (λ s, omap (finality_status (db s)) component_ids);
          let aggregate_status :=
            if length component_statuses ≟ length component_ids
            then aggregate_trade_status component_statuses else trd_status trade in
          (if aggregate_status ≟ trd_status trade then mret 0%nat
           else update_where (λ t, trd_id t ≟ trd_id trade) (λ t,
             t <| trd_status := aggregate_status |> <| trd_updated_at := now |>));;
          event ← append_event mode "trade.finality_observed" "trade"
            (uuid_to_string (trd_id trade))
            (json_to_string (json_obj ["venue_trade_id" ::= venue_trade_id;
              "prior_status" ::= prior_status; "status" ::= status;
              "aggregate_status" ::= aggregate_status; "evidence" ::= evidence]));
          mret (true, [event])
    end).
End store.
