(* ===== verification/StoreControl.v ===== *)
(** * StoreControl: service state, cancellations, events, reconciliation runs,
    positions and backups (store.rs) *)
From Stdlib Require Import Ascii.
From stdpp Require Import sorting.
From S2P Require Import Prelude Text DecimalSpec Json Platform Domain Venue Risk Schema StoreIntents StoreRisk StoreOrders.

Definition service_state_text (s : ServiceState) : string := ServiceState_name s.

Definition parse_service_state (raw : string) : outcome StoreError ServiceState :=
  if raw ≟ "STARTING" then Done Starting
  else if raw ≟ "RECONCILING" then Done Reconciling
  else if raw ≟ "READY" then Done Ready
  else if raw ≟ "DEGRADED" then Done Degraded
  else if raw ≟ "HALTED" then Done Halted
  else if (raw ≟ "SHUTTING_DOWN") || (raw ≟ "SHUTTINGDOWN") then Done ShuttingDown
  else Failed (IdentityMismatch ("unknown control state " +:+ raw)).

(** [i64::MAX]. *)
Definition i64_max : Z := 2 ^ 63 - 1.
Definition checked_add_i64 (a b : Z) : option Z := if i64_max <? a + b then None else Some (a + b).
Definition saturating_sub_i64 (a b : Z) : Z := Z.max (- 2 ^ 63) (Z.min i64_max (a - b)).

(** What an operation that changes control state records for its caller's
    idempotency key: the key, the operation, the request and the response. *)
Record Idempotency : Type := mkIdempotency {
  idem_key : string;
  idem_operation : string;
  idem_request : Value;
  idem_response : Value;
}.

Definition string_le (a b : string) : Prop := Stdlib.Strings.String.leb a b = true.
#[export] Instance string_le_dec a b : Decision (string_le a b).
Proof. unfold string_le. apply _. Defined.

Section store.
Context `{DecimalOps} `{Platform} `{Codec}.
Variable self : Store.
Notation mode := (st_mode self).

(** ** Service state *)

Definition service_state_with_revision
    : Prog Sys StoreError (ServiceState * string * DateTime * Z) :=
  row ← gets (λ s, control_state (db s));
  state ← lift (parse_service_state (ct_state row));
  mret (state, ct_reason row, ct_updated_at row, ct_revision row).

Definition service_state : Prog Sys StoreError (ServiceState * string * DateTime) :=
  '(state, reason, updated_at, _) ← service_state_with_revision;
  mret (state, reason, updated_at).

Definition set_service_state_inner (actor : string) (next : ServiceState) (reason : string)
    (idempotency : option Idempotency) (expected_revision : option Z)
    : Prog Sys StoreError () :=
  transaction (
    row ← gets (λ s, control_state (db s));
    let prior := ct_state row in
    let prior_revision := ct_revision row in
    ensure (match expected_revision with
            | None => true
            | Some expected => (prior ≟ "HALTED") && (prior_revision =? expected)
            end)
      (IdentityMismatch "control state changed while resume checks were running");;
    next_revision ← lift (ok_or (IdentityMismatch "control state revision exhausted")
      (checked_add_i64 prior_revision 1));
    now ← utc_now;
    let next_text := service_state_text next in
    update_control (mkControlRow next_text reason now next_revision);;
    action_id ← now_v7;
    correlation_id ← now_v7;
    insert (mkOperatorActionRow action_id actor (to_ascii_lowercase next_text) reason prior
      next_text (uuid_to_string correlation_id) now);;
    match idempotency with
    | Some i => insert_idempotency_record actor (idem_key i) (idem_operation i) "control"
                  (idem_request i) 202 (idem_response i) now
    | None => mret tt
    end;;
    event ← append_event mode "control.state_changed" "operator_action"
      (uuid_to_string action_id)
      (json_to_string (json_obj ["prior_state" ::= prior; "new_state" ::= next_text;
        "reason" ::= reason]));
    mret (tt, [event])).

Definition set_service_state (actor : string) (next : ServiceState) (reason : string) :=
  set_service_state_inner actor next reason None None.
Definition set_service_state_idempotent (actor : string) (next : ServiceState)
    (reason idempotency_key operation : string) (request_body response_body : Value) :=
  set_service_state_inner actor next reason
    (Some (mkIdempotency idempotency_key operation request_body response_body)) None.
Definition set_service_state_if_unchanged (actor : string) (next : ServiceState)
    (reason : string) (expected_revision : Z) :=
  set_service_state_inner actor next reason None (Some expected_revision).
Definition set_service_state_idempotent_if_unchanged (actor : string) (next : ServiceState)
    (reason idempotency_key operation : string) (request_body response_body : Value)
    (expected_revision : Z) :=
  set_service_state_inner actor next reason
    (Some (mkIdempotency idempotency_key operation request_body response_body))
    (Some expected_revision).

(** ** Cancellations *)

Definition cancellation_targets (request : CancellationRequest) (d : Db) : list Uuid :=
  let open := List.filter (λ r : OrderRow, negb (is_terminal (ord_state r))) (orders d) in
  let ids := fmap (λ r : OrderRow, ord_id r) in
  match can_order_id request, can_intent_id request, can_condition_id request with
  | Some order_id, _, _ => [order_id]
  | None, Some intent_id, _ => ids (List.filter (λ r : OrderRow, ord_intent_id r ≟ intent_id) open)
  | None, None, Some condition_id =>
      ids (List.filter (λ r : OrderRow, ord_condition_id r ≟ condition_id) open)
  | None, None, None => ids open
  end.

Definition create_cancellation_inner (actor : string) (request : CancellationRequest)
    (idempotency : option (string * Value)) : Prog Sys StoreError (Uuid * list Uuid) :=
  transaction (
    targets ← gets (λ s, cancellation_targets request (db s));
    id ← now_v7;
    now ← utc_now;
    insert (mkCancellationRecord id actor (json_to_string (to_value request))
      (json_to_string (to_value (uuid_to_string <$> targets))) (can_reason request) "PENDING"
      now now);;
    match idempotency with
    | Some (key, request_body) =>
        let response_body := json_obj ["id" ::= uuid_to_string id;
          "target_order_ids" ::= (uuid_to_string <$> targets);
          "mode" ::= Mode_to_string mode] in
        insert_idempotency_record actor key "cancellation" (uuid_to_string id) request_body 202
          response_body now
    | None => mret tt
    end;;
    event ← append_event mode "cancellation.pending" "cancellation" (uuid_to_string id)
      (json_to_string (json_obj ["id" ::= uuid_to_string id; "actor_id" ::= actor;
        "target_order_ids" ::= (uuid_to_string <$> targets); "reason" ::= can_reason request;
        "state" ::= "PENDING"; "mode" ::= Mode_to_string mode]));
    mret ((id, targets), [event])).

Definition create_cancellation (actor : string) (request : CancellationRequest) :=
  create_cancellation_inner actor request None.
Definition create_cancellation_idempotent (actor idempotency_key : string)
    (request : CancellationRequest) :=
  create_cancellation_inner actor request (Some (idempotency_key, to_value request)).

Definition finish_cancellation (id : Uuid) (failed_order_ids : list Uuid)
    : Prog Sys StoreError CancellationRecord :=
  transaction (
    let state := if failed_order_ids ≟ [] then "COMPLETE" else "RECONCILIATION_REQUIRED" in
    now ← utc_now;
    n ← update_where (λ r, (cn_id r ≟ id) && (cn_state r ≟ "PENDING")) (λ r,
      r <| cn_state := state |> <| cn_updated_at := now |>);
    ensure (n ≟ 1%nat) NotFound;;
    record ← fetch_one (λ r, cn_id r ≟ id);
    event ← append_event mode "cancellation.completed" "cancellation" (uuid_to_string id)
      (json_to_string (json_obj ["id" ::= uuid_to_string id; "state" ::= state;
        "failed_order_ids" ::= (uuid_to_string <$> failed_order_ids);
        "mode" ::= Mode_to_string mode]));
    mret (record, [event])).

Definition get_cancellation (id : Uuid) : Prog Sys StoreError CancellationRecord :=
  row ← fetch_optional (λ r, cn_id r ≟ id);
  lift (ok_or NotFound row).

Definition pending_cancellations : Prog Sys StoreError (list CancellationRecord) :=
  gets (λ s, order_by (λ r, (cn_created_at r, cn_id r))
    (List.filter (λ r, cn_state r ≟ "PENDING") (cancellation_requests (db s)))).

(** ** Events *)

(** [ORDER BY sequence]: the sequence is the primary key. *)
Definition sequence_le (a b : ExecutionEvent) : Prop := sequence a <= sequence b.
#[local] Instance sequence_le_dec a b : Decision (sequence_le a b).
Proof. unfold sequence_le. apply _. Defined.

Definition replay_events (after_sequence limit : Z) : Prog Sys StoreError (list ExecutionEvent) :=
  gets (λ s, take (Z.to_nat (Z.min limit 10000)) (merge_sort sequence_le
    (List.filter (λ e, after_sequence <? sequence e) (execution_events (db s))))).

Definition list_max (l : list Z) : option Z :=
  match l with [] => None | z :: l' => Some (fold_left Z.max l' z) end.
Definition list_min (l : list Z) : option Z :=
  match l with [] => None | z :: l' => Some (fold_left Z.min l' z) end.

Definition event_sequence_bounds : Prog Sys StoreError (option Z * option Z) :=
  gets (λ s, (list_min (sequence <$> execution_events (db s)),
              list_max (sequence <$> execution_events (db s)))).

Definition delete_events (cutoff : Z) : Prog Sys StoreError nat := λ s,
  (Done (length (List.filter (λ e, sequence e <=? cutoff) (execution_events (db s)))),
   s <| db := db s <| execution_events :=
     List.filter (λ e, negb (sequence e <=? cutoff)) (execution_events (db s)) |> |>).

Definition backed_up_through (d : Db) : Z :=
  default 0 (list_max (omap bk_last_event_sequence
    (List.filter (λ b, bk_state b ≟ "COMPLETE") (backups d)))).

Definition prune_events : Prog Sys StoreError nat :=
  retention ← lift (ok_or (IdentityMismatch "event retention exceeds SQLite integer")
    (if event_retention self <=? i64_max then Some (event_retention self) else None));
  transaction (
    maximum ← gets (λ s, default 0 (list_max (sequence <$> execution_events (db s))));
    let cutoff := saturating_sub_i64 maximum retention in
    if cutoff <=? 0 then mret (0%nat, [])
    else
      covered ← gets (λ s, backed_up_through (db s));
      if (mode ≟ Live) && (covered <? cutoff) then mret (0%nat, [])
      else
        n ← delete_events cutoff;
        mret (n, [])).

(** ** Reconciliation runs *)

Definition start_reconciliation_inner (trigger : string)
    (idempotency : option (string * string * Value)) : Prog Sys StoreError Uuid :=
  transaction (
    id ← now_v7;
    now ← utc_now;
    insert (mkReconciliationRecord id trigger "RUNNING" "{}" now None);;
    match idempotency with
    | Some (actor, key, request_body) =>
        let response_body := json_obj ["id" ::= uuid_to_string id;
                                       "mode" ::= Mode_to_string mode] in
        insert_idempotency_record actor key "reconciliation" (uuid_to_string id) request_body
          202 response_body now
    | None => mret tt
    end;;
    event ← append_event mode "reconciliation.started" "reconciliation" (uuid_to_string id)
      (json_to_string (json_obj ["trigger" ::= trigger]));
    mret (id, [event])).
Definition start_reconciliation (trigger : string) := start_reconciliation_inner trigger None.
Definition start_reconciliation_idempotent (actor idempotency_key trigger : string)
    (request_body : Value) :=
  start_reconciliation_inner trigger (Some (actor, idempotency_key, request_body)).

Definition run_is (id : Uuid) (r : ReconciliationRecord) : bool := rr_id r ≟ id.
Definition run_running (id : Uuid) (r : ReconciliationRecord) : bool :=
  (rr_id r ≟ id) && (rr_state r ≟ "RUNNING").
Definition close_run (state summary : string) (now : DateTime) (r : ReconciliationRecord)
    : ReconciliationRecord :=
  r <| rr_state := state |> <| rr_summary_json := summary |> <| rr_completed_at := Some now |>.
Definition insert_finding (id : Uuid) (code details : string) : Prog Sys StoreError () :=
  finding_id ← now_v7;
  insert (mkFindingRow finding_id id "CRITICAL" code details None).
Definition unresolved (f : FindingRow) : bool :=
  (fd_severity f ≟ "CRITICAL") && (fd_resolved_at f ≟ None).

Definition fail_interrupted_reconciliations : Prog Sys StoreError nat :=
  transaction (
    rows ← gets (λ s, rr_id <$> order_by (λ r, (rr_started_at r, rr_id r))
      (List.filter (λ r, rr_state r ≟ "RUNNING") (reconciliation_runs (db s))));
    now ← utc_now;
    events ← for_collect rows (λ id,
      let summary := json_to_string (json_obj
        ["error" ::= "executor restarted before reconciliation completed"]) in
      update_where (run_running id) (close_run "FAILED" summary now);;
      insert_finding id "RECONCILIATION_INTERRUPTED" summary;;
      append_event mode "reconciliation.failed" "reconciliation" (uuid_to_string id) summary);
    mret (length rows, events)).

(** [summary.get("critical_findings").and_then(Value::as_array)]. *)
Definition summary_findings (summary : Value) : option (list Value) :=
  match get_member "critical_findings" summary with
  | Some (JArray findings) => Some findings
  | _ => None
  end.

Definition finish_reconciliation (id : Uuid) (summary : Value) : Prog Sys StoreError () :=
  transaction (
    completed_at ← utc_now;
    update_where (run_is id) (close_run "COMPLETE" (json_to_string summary) completed_at);;
    match summary_findings summary with
    | None => mret tt
    | Some findings =>
        (match findings with
         | [] => resolved_at ← utc_now;
                 update_where unresolved (λ f, f <| fd_resolved_at := Some resolved_at |>);;
                 mret tt
         | _ => mret tt
         end);;
        for_each findings (λ finding,
          insert_finding id "RECONCILIATION_MISMATCH"
            (json_to_string (json_obj ["message" ::= finding])))
    end;;
    event ← append_event mode "reconciliation.completed" "reconciliation" (uuid_to_string id)
      (json_to_string summary);
    mret (tt, [event])).

Definition fail_reconciliation (id : Uuid) (error : string) : Prog Sys StoreError () :=
  transaction (
    let summary := json_to_string (json_obj ["error" ::= error]) in
    completed_at ← utc_now;
    update_where (run_is id) (close_run "FAILED" summary completed_at);;
    insert_finding id "RECONCILIATION_FAILED" summary;;
    event ← append_event mode "reconciliation.failed" "reconciliation" (uuid_to_string id)
      summary;
    mret (tt, [event])).

Definition get_reconciliation (id : Uuid) : Prog Sys StoreError ReconciliationRecord :=
  row ← fetch_optional (run_is id);
  lift (ok_or NotFound row).

Definition unresolved_critical_findings : Prog Sys StoreError nat := count unresolved.

Definition latest_successful_reconciliation : Prog Sys StoreError (option DateTime) :=
  gets (λ s, list_max (omap rr_completed_at
    (List.filter (λ r, rr_state r ≟ "COMPLETE") (reconciliation_runs (db s))))).

(** ** Positions *)

Definition current_positions : Prog Sys StoreError (list (string * (string * Decimal))) :=
  rows ← gets (λ s, positions (db s));
  for_collect rows (λ r : PositionRecord,
    shares ← lift (parse_stored_decimal (pos_shares r));
    mret (pos_token_id r, (pos_condition_id r, shares))).

Definition position_event (condition_id token_id : string) (prior : option Decimal)
    (shares : Decimal) : Prog Sys StoreError ExecutionEvent :=
  append_event mode "position.reconciled" "position" token_id
    (json_to_string (json_obj ["condition_id" ::= condition_id; "token_id" ::= token_id;
      "prior_shares" ::= prior; "shares" ::= shares])).

(** The loop over the venue's positions; the set is the tokens seen so far. *)
Fixpoint observe_positions (current : gmap string (string * Decimal)) (seen : gset string)
    (observed : list (string * string * Decimal))
    : Prog Sys StoreError (gset string * list ExecutionEvent) :=
  match observed with
  | [] => mret (seen, [])
  | (condition_id, token_id, shares) :: rest =>
      ensure (negb (is_empty condition_id || is_empty token_id || dec_lt shares dec_ZERO))
        (IdentityMismatch "venue returned an invalid position");;
      ensure (bool_decide (token_id ∉ seen))
        (IdentityMismatch ("venue returned duplicate position token " +:+ token_id));;
      let prior := snd <$> current !! token_id in
      let unchanged := match prior with Some p => dec_eq p shares | None => false end in
      events ← (if unchanged then mret []
        else
          now ← utc_now;
          upsert (mkPositionRecord token_id condition_id mode (dec_text shares) now);;
          event ← position_event condition_id token_id prior shares;
          mret [event]);
      '(seen', more) ← observe_positions current ({[token_id]} ∪ seen) rest;
      mret (seen', events ++ more)
  end.

Definition clear_position (seen : gset string) (entry : string * (string * Decimal))
    : Prog Sys StoreError (list ExecutionEvent) :=
  let '(token_id, (condition_id, prior_shares)) := entry in
  if bool_decide (token_id ∈ seen) || dec_eq prior_shares dec_ZERO then mret []
  else
    now ← utc_now;
    update_where (λ p, pos_token_id p ≟ token_id) (λ p,
      p <| pos_shares := "0" |> <| pos_updated_at := now |>);;
    event ← position_event condition_id token_id (Some prior_shares) dec_ZERO;
    mret [event].

Definition entry_le (a b : string * (string * Decimal)) : Prop := string_le a.1 b.1.
#[local] Instance entry_le_dec a b : Decision (entry_le a b).
Proof. unfold entry_le. apply _. Defined.

Definition reconcile_venue_positions (observed : list (string * string * Decimal))
    : Prog Sys StoreError () :=
  transaction (
    rows ← current_positions;
    let current : gmap string (string * Decimal) := list_to_map (reverse rows) in
    '(seen, events) ← observe_positions current ∅ observed;
    cleared ← for_collect (merge_sort entry_le (map_to_list current)) (clear_position seen);
    mret (tt, events ++ concat cleared)).

(** ** Backups: the rows; the files are written by the operating system *)

Definition backup_is (id : Uuid) (r : BackupRecord) : bool := bk_id r ≟ id.
Definition get_backup (id : Uuid) : Prog Sys StoreError BackupRecord :=
  row ← fetch_optional (backup_is id);
  lift (ok_or NotFound row).

(** [directory] is the outcome of creating the backup directory. *)
Definition start_backup_inner (directory : outcome StoreError ())
    (idempotency : option (string * string * Value)) : Prog Sys StoreError BackupRecord :=
  lift directory;;
  id ← now_v7;
  created_at ← utc_now;
  transaction (
    insert (mkBackupRecord id "RUNNING" None None None None None created_at created_at);;
    match idempotency with
    | Some (actor, key, request_body) =>
        let response_body := json_obj ["id" ::= uuid_to_string id; "state" ::= "RUNNING";
                                       "mode" ::= Mode_to_string mode] in
        insert_idempotency_record actor key "backup" (uuid_to_string id) request_body 202
          response_body created_at
    | None => mret tt
    end;;
    event ← append_event mode "backup.started" "backup" (uuid_to_string id)
      (json_to_string (json_obj ["id" ::= uuid_to_string id; "state" ::= "RUNNING";
        "mode" ::= Mode_to_string mode]));
    mret (tt, [event]));;
  get_backup id.

Definition start_backup_idempotent (directory : outcome StoreError ())
    (actor idempotency_key : string) (request_body : Value) :=
  start_backup_inner directory (Some (actor, idempotency_key, request_body)).

(** What writing the backup files yields: their paths and the checksum. *)
Record BackupFiles : Type := mkBackupFiles {
  bf_database_path : string;
  bf_manifest_path : string;
  bf_checksum : string;
}.

Definition create_backup_files (files : outcome StoreError BackupFiles) (id : Uuid)
    : Prog Sys StoreError () :=
  files ← lift files;
  sequence ← gets (λ s, default 0 (list_max (sequence <$> execution_events (db s))));
  transaction (
    now ← utc_now;
    update_where (backup_is id) (λ b,
      b <| bk_state := "COMPLETE" |> <| bk_database_path := Some (bf_database_path files) |>
        <| bk_manifest_path := Some (bf_manifest_path files) |>
        <| bk_checksum_sha256 := Some (bf_checksum files) |>
        <| bk_last_event_sequence := Some sequence |> <| bk_updated_at := now |>);;
    event ← append_event mode "backup.completed" "backup" (uuid_to_string id)
      (json_to_string (json_obj ["id" ::= uuid_to_string id; "state" ::= "COMPLETE";
        "checksum_sha256" ::= bf_checksum files; "last_event_sequence" ::= sequence;
        "mode" ::= Mode_to_string mode]));
    mret (tt, [event])).

Definition StoreError_to_string (e : StoreError) : string :=
  match e with
  | StoreError.Database _ => "database error: " +:+ error_detail e
  | StoreError.Migration => "database migration error: " +:+ error_detail e
  | StoreError.Io m => "I/O error: " +:+ m
  | StoreError.Serialization => "serialization error: " +:+ error_detail e
  | StoreError.AlreadyLocked p =>
      "database is already locked by another executor: " +:+ p
  | StoreError.IdentityMismatch m => "database identity mismatch: " +:+ m
  | StoreError.IdempotencyConflict => "idempotency key reused with a different request"
  | StoreError.NewRiskDisabled s =>
      "new risk admission is disabled while service state is " +:+ s
  | StoreError.NotFound => "resource not found"
  | StoreError.InvalidDecimal raw => "invalid stored decimal: " +:+ raw
  end.

Definition run_backup (files : outcome StoreError BackupFiles) (id : Uuid)
    : Prog Sys StoreError () :=
  row ← fetch_optional (λ r, backup_is id r && (bk_state r ≟ "RUNNING"));
  lift (ok_or NotFound row);;
  result ← try (create_backup_files files id);
  match result with
  | inr _ => mret tt
  | inl error =>
      transaction (
        now ← utc_now;
        update_where (backup_is id) (λ b,
          b <| bk_state := "FAILED" |> <| bk_error := Some (StoreError_to_string error) |>
            <| bk_updated_at := now |>);;
        event ← append_event mode "backup.failed" "backup" (uuid_to_string id)
          (json_to_string (json_obj ["id" ::= uuid_to_string id; "state" ::= "FAILED";
            "error" ::= StoreError_to_string error]));
        mret (tt, [event]));;
      fail error
  end.

Definition fail_interrupted_backups : Prog Sys StoreError nat :=
  transaction (
    ids ← gets (λ s, bk_id <$> order_by (λ r, (bk_created_at r, bk_id r))
      (List.filter (λ r, bk_state r ≟ "RUNNING") (backups (db s))));
    now ← utc_now;
    events ← for_collect ids (λ id,
      let message := "executor restarted before backup completed" in
      update_where (λ b, backup_is id b && (bk_state b ≟ "RUNNING")) (λ b,
        b <| bk_state := "FAILED" |> <| bk_error := Some message |> <| bk_updated_at := now |>);;
      append_event mode "backup.failed" "backup" (uuid_to_string id)
        (json_to_string (json_obj ["id" ::= uuid_to_string id; "state" ::= "FAILED";
          "error" ::= message])));
    mret (length ids, events)).

(** ** Identity of the database *)

(** The fields of [PolymarketConfig] the store binds. *)
Record Identity : Type := mkIdentity {
  id_chain_id : Z;
  id_expected_protocol : Z;
  id_signer_address : option string;
  id_funder_address : option string;
}.

Definition bind_identity (polymarket : Identity) : Prog Sys StoreError () :=
  existing ← gets (λ s, instance_metadata (db s));
  let configured := if id_chain_id polymarket <=? i64_max then Some (id_chain_id polymarket)
                    else None in
  let too_large := IdentityMismatch "configured chain ID exceeds SQLite integer" in
  match existing with
  | Some row =>
      ensure (im_mode row ≟ Mode_to_string mode)
        (IdentityMismatch ("mode is " +:+ im_mode row +:+ ", requested " +:+
          Mode_to_string mode));;
      configured_chain_id ← lift (ok_or too_large configured);
      ensure ((im_chain_id row =? configured_chain_id) &&
              (im_protocol_version row =? id_expected_protocol polymarket))
        (IdentityMismatch "chain or protocol changed");;
      ensure (negb ((mode ≟ Live) &&
                (negb (im_signer_address row ≟ id_signer_address polymarket) ||
                 negb (im_funder_address row ≟ id_funder_address polymarket))))
        (IdentityMismatch "signer or funder changed")
  | None =>
      chain_id ← lift (ok_or too_large configured);
      now ← utc_now;
      modify (λ s, s <| db := db s <| instance_metadata :=
        Some (mkInstanceRow (Mode_to_string mode) chain_id (id_expected_protocol polymarket)
          (id_signer_address polymarket) (id_funder_address polymarket) now) |> |>)
  end.
(** [PRAGMA wal_checkpoint(TRUNCATE)]: the log of the database file is written
    back, which no table shows. *)
Definition checkpoint : Prog Sys StoreError () := mret tt.
End store.
