(* ===== verification/StorePaper.v ===== *)
(** * StorePaper: the durable ledger of the paper venue (store.rs) *)
From stdpp Require Import sorting.
From S2P Require Import Prelude Text DecimalSpec Json Platform Domain Venue Risk Schema StoreIntents StoreRisk StoreOrders.

Record PaperPosition : Type := mkPaperPosition {
  pp_condition_id : string;
  pp_token_id : string;
  pp_shares : string;
}.
Record PaperConfig : Type := mkPaperConfig {
  starting_quote_balance : string;
  starting_positions : list PaperPosition;
}.
#[export] Instance PaperPosition_value : ToValue PaperPosition := λ p,
  json_obj ["condition_id" ::= pp_condition_id p; "token_id" ::= pp_token_id p;
            "shares" ::= pp_shares p].
#[export] Instance PaperConfig_value : ToValue PaperConfig := λ c,
  json_obj ["starting_quote_balance" ::= starting_quote_balance c;
            "starting_positions" ::= starting_positions c].

(** A stable sort: [ORDER BY] and [slice::sort_by]. *)
Section sort.
Context {A : Type} (le : A → A → bool).
Fixpoint sort_insert (x : A) (l : list A) : list A :=
  match l with
  | [] => [x]
  | y :: l' => if le x y then x :: l else y :: sort_insert x l'
  end.
Fixpoint stable_sort (l : list A) : list A :=
  match l with [] => [] | x :: l' => sort_insert x (stable_sort l') end.

Lemma sort_insert_perm x l : sort_insert x l ≡ₚ x :: l.
Proof.
  induction l as [|y l IH]; cbn; [done|]. destruct (le x y); [done|].
  rewrite IH. apply Permutation_swap.
Qed.
Lemma stable_sort_perm l : stable_sort l ≡ₚ l.
Proof. induction l as [|x l IH]; cbn; [done|]. by rewrite sort_insert_perm, IH. Qed.

Lemma stable_sort_sorted l :
  (∀ a b, le a b = false → le b a = true) →
  (∀ a b c, le a b = true → le b c = true → le a c = true) →
  StronglySorted (λ a b, le a b = true) (stable_sort l).
Proof.
  intros Htotal Htrans. induction l as [|x l IH]; cbn; [constructor|].
  induction IH as [|y l' Hs IH Hall]; cbn; [by repeat constructor|].
  destruct (le x y) eqn:E.
  - constructor; [by constructor|]. constructor; [done|].
    eapply Forall_impl; [exact Hall|]. intros z Hz. by eapply Htrans.
  - constructor; [done|]. rewrite sort_insert_perm. constructor; [by apply Htotal|done].
Qed.
End sort.

Section store.
Context `{DecimalOps} `{Platform} `{Codec}.
Variable self : Store.
Notation mode := (st_mode self).

Record PaperOrderCommit : Type := mkPaperOrderCommit {
  pc_venue_order_id : string;
  pc_condition_id : string;
  pc_token_id : string;
  pc_side : Side;
  pc_state : OrderState;
  pc_price : Decimal;
  pc_fee_rate : Decimal;
  pc_original_quantity : Decimal;
  pc_remaining_quantity : Decimal;
  pc_filled_quantity : Decimal;
  pc_filled_price : option Decimal;
  pc_quote_amount : Decimal;
  pc_fee_amount : Decimal;
  pc_reserved_quote : Decimal;
  pc_reserved_shares : Decimal;
  pc_venue_trade_ids : list string;
  pc_evidence : Value;
}.

Record PaperOrderSnapshot : Type := mkPaperOrderSnapshot {
  pn_venue_order_id : string;
  pn_state : OrderState;
  pn_remaining_quantity : Decimal;
  pn_filled_quantity : Decimal;
  pn_filled_price : option Decimal;
  pn_venue_trade_ids : list string;
  pn_evidence : Value;
}.

(** ** The account *)

Definition paper_only (message : string) : Prog Sys StoreError () :=
  ensure (mode ≟ Paper) (IdentityMismatch message).

Definition set_account (row : option PaperAccountRow) : Prog Sys StoreError () :=
  modify (λ s, s <| db := db s <| paper_account := row |> |>).

Definition parse_starting (raw : string) : outcome StoreError Decimal :=
  value ← ok_or (InvalidDecimal raw) (dec_from_str_exact raw);
  reject_if (dec_lt value dec_ZERO) (InvalidDecimal raw);;
  mret value.

Definition insert_starting_position (now : DateTime) (position : PaperPosition)
    : Prog Sys StoreError () :=
  shares ← lift (parse_starting (pp_shares position));
  inserted ← try (insert (mkInventoryRow (pp_token_id position) (dec_text shares) "0" now));
  match inserted with
  | inl (StoreError.Database UniqueViolation) => fail (IdentityMismatch
      ("paper starting inventory contains duplicate token " +:+ pp_token_id position))
  | inl e => fail e
  | inr _ => mret tt
  end;;
  insert (mkPositionRecord (pp_token_id position) (pp_condition_id position) mode
    (dec_text shares) now).

Definition initialize_paper_account (config : PaperConfig) : Prog Sys StoreError () :=
  paper_only "paper simulator state cannot be used by a live database";;
  let configuration_sha256 := sha256_hex (jcs_to_string (to_value config)) in
  quote_balance ← lift (parse_starting (starting_quote_balance config));
  transaction (
    existing ← gets (λ s, pa_configuration_sha256 <$> paper_account (db s));
    match existing with
    | Some existing =>
        ensure (existing ≟ configuration_sha256) (IdentityMismatch
          "paper starting balance/inventory differs from the database binding");;
        mret (tt, [])
    | None =>
        now ← utc_now;
        set_account (Some (mkPaperAccountRow configuration_sha256 (dec_text quote_balance) "0"
          now now));;
        for_each (starting_positions config) (insert_starting_position now);;
        event ← append_event mode "paper.account_initialized" "paper_account" "paper"
          (json_to_string (json_obj ["mode" ::= Mode_to_string mode;
            "configuration_sha256" ::= configuration_sha256;
            "quote_balance" ::= quote_balance;
            "position_count" ::= Z.of_nat (length (starting_positions config))]));
        mret (tt, [event])
    end).

(** The balances of the account and of one token's inventory. *)
Record Balances : Type := mkBalances {
  quote_balance : Decimal;
  reserved_quote : Decimal;
  shares : Decimal;
  reserved_shares : Decimal;
}.

Definition load_balances (token_id : string) : Prog Sys StoreError Balances :=
  account ← gets (λ s, paper_account (db s));
  account ← lift (ok_or (IdentityMismatch "paper account is not initialized") account);
  quote ← lift (parse_stored_decimal (pa_quote_balance account));
  reserved ← lift (parse_stored_decimal (pa_reserved_quote account));
  row ← fetch_optional (λ r, iv_token_id r ≟ token_id);
  match row with
  | None => mret (mkBalances quote reserved dec_ZERO dec_ZERO)
  | Some row =>
      owned ← lift (parse_stored_decimal (iv_shares row));
      held ← lift (parse_stored_decimal (iv_reserved_shares row));
      mret (mkBalances quote reserved owned held)
  end.

Definition store_balances (token_id : string) (b : Balances) (now : DateTime)
    : Prog Sys StoreError () :=
  modify (λ s, s <| db := db s <| paper_account := (λ a,
      a <| pa_quote_balance := dec_text (quote_balance b) |>
        <| pa_reserved_quote := dec_text (reserved_quote b) |>
        <| pa_updated_at := now |>) <$> paper_account (db s) |> |>);;
  upsert (mkInventoryRow token_id (dec_text (shares b)) (dec_text (reserved_shares b)) now).

(** ** Orders *)

Definition load_paper_order (venue_order_id : string)
    : Prog Sys StoreError (option PaperOrderSnapshot) :=
  row ← fetch_optional (λ r, po_venue_order_id r ≟ venue_order_id);
  match row with
  | None => mret None
  | Some row =>
      filled_price ← lift match po_filled_price row with
        | None => Done None
        | Some raw => price ← parse_stored_decimal raw; Done (Some price)
        end;
      remaining ← lift (parse_stored_decimal (po_remaining_quantity row));
      filled ← lift (parse_stored_decimal (po_filled_quantity row));
      ids ← lift (ok_or Serialization (strings_from_json (po_venue_trade_ids_json row)));
      evidence ← lift (ok_or Serialization (json_from_str (po_evidence_json row)));
      mret (Some (mkPaperOrderSnapshot (po_venue_order_id row) (po_state row) remaining filled
        filled_price ids evidence))
  end.

(** The balances after an order: a buy pays quote and fee and holds what its
    resting part may still cost, a sell delivers shares. *)
Definition settle (b : Balances) (o : PaperOrderCommit) : outcome StoreError Balances :=
  match pc_side o with
  | Buy =>
      debit ← or_panic (dec_add (pc_quote_amount o) (pc_fee_amount o));
      available ← or_panic (dec_sub (quote_balance b) (reserved_quote b));
      needed ← or_panic (dec_add debit (pc_reserved_quote o));
      reject_if (dec_lt available needed)
        (IdentityMismatch "paper quote balance is insufficient");;
      quote' ← or_panic (dec_sub (quote_balance b) debit);
      reserved' ← or_panic (dec_add (reserved_quote b) (pc_reserved_quote o));
      shares' ← or_panic (dec_add (shares b) (pc_filled_quantity o));
      mret (mkBalances quote' reserved' shares' (reserved_shares b))
  | Sell =>
      available ← or_panic (dec_sub (shares b) (reserved_shares b));
      needed ← or_panic (dec_add (pc_filled_quantity o) (pc_reserved_shares o));
      reject_if (dec_lt available needed)
        (IdentityMismatch "paper share balance is insufficient");;
      shares' ← or_panic (dec_sub (shares b) (pc_filled_quantity o));
      reserved' ← or_panic (dec_add (reserved_shares b) (pc_reserved_shares o));
      net ← or_panic (dec_sub (pc_quote_amount o) (pc_fee_amount o));
      quote' ← or_panic (dec_add (quote_balance b) net);
      mret (mkBalances quote' (reserved_quote b) shares' reserved')
  end.

Definition commit_row (o : PaperOrderCommit) (now : DateTime) : PaperOrderRow :=
  mkPaperOrderRow (pc_venue_order_id o) (pc_condition_id o) (pc_token_id o) (pc_side o)
    (pc_state o) (dec_text (pc_price o)) (dec_text (pc_fee_rate o))
    (dec_text (pc_original_quantity o)) (dec_text (pc_remaining_quantity o))
    (dec_text (pc_filled_quantity o)) (dec_text <$> pc_filled_price o)
    (dec_text (pc_quote_amount o)) (dec_text (pc_fee_amount o))
    (dec_text (pc_reserved_quote o)) (dec_text (pc_reserved_shares o))
    (json_to_string (to_value (pc_venue_trade_ids o))) (json_to_string (pc_evidence o)) now now.

(** [Value] equality, on the text of the values. *)
Definition same_value (a b : Value) : bool := jcs_to_string a ≟ jcs_to_string b.

Definition commit_paper_order (o : PaperOrderCommit) : Prog Sys StoreError PaperOrderSnapshot :=
  paper_only "paper order cannot be committed in live mode";;
  transaction (
    existing ← load_paper_order (pc_venue_order_id o);
    match existing with
    | Some existing =>
        ensure (same_value (pn_evidence existing) (pc_evidence o)) (IdentityMismatch
          "paper deterministic order ID was reused with different evidence");;
        mret (existing, [])
    | None =>
        balances ← load_balances (pc_token_id o);
        next ← lift (settle balances o);
        now ← utc_now;
        store_balances (pc_token_id o) next now;;
        insert (commit_row o now);;
        event ← append_event mode "paper.venue_order_committed" "paper_order"
          (pc_venue_order_id o)
          (json_to_string (json_obj ["mode" ::= Mode_to_string mode;
            "venue_order_id" ::= pc_venue_order_id o; "state" ::= pc_state o;
            "filled_quantity" ::= pc_filled_quantity o; "quote_amount" ::= pc_quote_amount o;
            "fee_amount" ::= pc_fee_amount o]));
        snapshot ← load_paper_order (pc_venue_order_id o);
        snapshot ← lift (ok_or NotFound snapshot);
        mret (snapshot, [event])
    end).

(** ** Trade-through fills *)

Record ThroughState : Type := mkThroughState {
  ts_balances : Balances;
  market_size_remaining : Decimal;
  fill_count : nat;
}.

(** The amounts of one resting order as the loop reads them. *)
Record RestingAmounts : Type := mkRestingAmounts {
  ra_fee_rate : Decimal;
  ra_filled : Decimal;
  ra_quote : Decimal;
  ra_fee : Decimal;
  ra_reserved_quote : Decimal;
  ra_reserved_shares : Decimal;
}.
Definition resting_amounts (row : PaperOrderRow) : outcome StoreError RestingAmounts :=
  fee_rate ← parse_stored_decimal (po_fee_rate row);
  filled ← parse_stored_decimal (po_filled_quantity row);
  quote ← parse_stored_decimal (po_quote_amount row);
  fee ← parse_stored_decimal (po_fee_amount row);
  reserved_quote ← parse_stored_decimal (po_reserved_quote row);
  reserved_shares ← parse_stored_decimal (po_reserved_shares row);
  mret (mkRestingAmounts fee_rate filled quote fee reserved_quote reserved_shares).

Definition crossed (side : Side) (trade_price limit_price : Decimal) : bool :=
  match side with
  | Buy => dec_lt trade_price limit_price
  | Sell => dec_gt trade_price limit_price
  end.

(** The balances and the order's reservations after a fill of [fill_quantity]. *)
Definition settle_fill (b : Balances) (side : Side) (limit_price : Decimal)
    (a : RestingAmounts) (fill_quantity quote_amount fee_amount : Decimal)
    : outcome StoreError (Balances * Decimal * Decimal) :=
  match side with
  | Buy =>
      at_limit ← or_panic (dec_mul fill_quantity limit_price);
      factor ← or_panic (dec_add dec_ONE (ra_fee_rate a));
      released ← or_panic (dec_mul at_limit factor);
      account_rest ← or_panic (dec_sub (reserved_quote b) released);
      cost ← or_panic (dec_add quote_amount fee_amount);
      quote' ← or_panic (dec_sub (quote_balance b) cost);
      shares' ← or_panic (dec_add (shares b) fill_quantity);
      order_rest ← or_panic (dec_sub (ra_reserved_quote a) released);
      mret (mkBalances quote' (dec_max account_rest dec_ZERO) shares' (reserved_shares b),
            dec_max order_rest dec_ZERO, ra_reserved_shares a)
  | Sell =>
      account_rest ← or_panic (dec_sub (reserved_shares b) fill_quantity);
      shares' ← or_panic (dec_sub (shares b) fill_quantity);
      net ← or_panic (dec_sub quote_amount fee_amount);
      quote' ← or_panic (dec_add (quote_balance b) net);
      order_rest ← or_panic (dec_sub (ra_reserved_shares a) fill_quantity);
      mret (mkBalances quote' (reserved_quote b) shares' (dec_max account_rest dec_ZERO),
            ra_reserved_quote a, dec_max order_rest dec_ZERO)
  end.

Section through.
Context (event_id token_id : string) (trade_price trade_size : Decimal) (observed_at : DateTime).

(** The core order that carries the venue order id takes the fill too. *)
Definition fill_core_order (venue_order_id venue_trade_id : string) (state : OrderState)
    (next_remaining fill_quantity : Decimal) (evidence : Value) (now : DateTime)
    : Prog Sys StoreError (list ExecutionEvent) :=
  core ← fetch_optional (λ r : OrderRow, Domain.venue_order_id r ≟ Some venue_order_id);
  match core with
  | None => mret []
  | Some core =>
      let core_state := ord_state (order core) in
      if negb ((core_state ≟ OrderState.Live) || (core_state ≟ OrderState.PartiallyFilled) ||
               (core_state ≟ OrderState.CancelPending))
      then mret []
      else
        let next_core_state :=
          if (core_state ≟ OrderState.CancelPending) && negb (state ≟ OrderState.Filled)
          then OrderState.CancelPending else state in
        update_where (order_is (ord_id (order core))) (λ r,
          set_remaining (dec_text next_remaining) (set_order_state next_core_state now r));;
        trade_event ← apply_matched_fill self (order core) (Some venue_order_id) fill_quantity
          (Some trade_price) [venue_trade_id] now;
        insert_transition (ord_id (order core)) core_state next_core_state
          (json_to_string evidence) now;;
        event ← append_event mode "order.paper_filled" "order"
          (uuid_to_string (ord_id (order core)))
          (json_to_string (json_obj ["state" ::= next_core_state;
            "remaining_quantity" ::= next_remaining; "fill_quantity" ::= fill_quantity;
            "market_event_id" ::= event_id]));
        mret (event_list trade_event ++ [event])
  end.

Definition fill_resting (t : ThroughState) (row : PaperOrderRow) (fill_quantity limit_price
    remaining_quantity : Decimal) : Prog Sys StoreError (ThroughState * list ExecutionEvent) :=
  a ← lift (resting_amounts row);
  quote_amount ← lift (or_panic (dec_mul fill_quantity trade_price));
  fee_amount ← lift (or_panic (dec_mul quote_amount (ra_fee_rate a)));
  next_filled ← lift (or_panic (dec_add (ra_filled a) fill_quantity));
  next_remaining ← lift (or_panic (dec_sub remaining_quantity fill_quantity));
  next_quote ← lift (or_panic (dec_add (ra_quote a) quote_amount));
  next_fee ← lift (or_panic (dec_add (ra_fee a) fee_amount));
  average_price ← lift (or_panic (dec_div next_quote next_filled));
  '(balances, next_reserved_quote, next_reserved_shares) ←
    lift (settle_fill (ts_balances t) (po_side row) limit_price a fill_quantity quote_amount
      fee_amount);
  ensure (negb (dec_lt (quote_balance balances) dec_ZERO || dec_lt (shares balances) dec_ZERO))
    (IdentityMismatch "paper trade-through would overdraw the account");;
  let state := if dec_eq next_remaining dec_ZERO then OrderState.Filled
               else OrderState.PartiallyFilled in
  let venue_order_id := po_venue_order_id row in
  let venue_trade_id := "paper:" +:+ event_id +:+ ":" +:+ venue_order_id in
  prior_ids ← lift (ok_or Serialization (strings_from_json (po_venue_trade_ids_json row)));
  let venue_trade_ids := prior_ids ++ [venue_trade_id] in
  let evidence := json_obj ["paper" ::= true; "fill_model" ::= "strict_trade_through";
    "market_event_id" ::= event_id; "observed_at" ::= to_rfc3339 observed_at;
    "trade_price" ::= trade_price; "trade_size" ::= trade_size;
    "fill_quantity" ::= fill_quantity] in
  now ← utc_now;
  update_where (λ r, po_venue_order_id r ≟ venue_order_id) (λ r,
    r <| po_state := state |> <| po_remaining_quantity := dec_text next_remaining |>
      <| po_filled_quantity := dec_text next_filled |>
      <| po_filled_price := Some (dec_text average_price) |>
      <| po_quote_amount := dec_text next_quote |> <| po_fee_amount := dec_text next_fee |>
      <| po_reserved_quote := dec_text next_reserved_quote |>
      <| po_reserved_shares := dec_text next_reserved_shares |>
      <| po_venue_trade_ids_json := json_to_string (to_value venue_trade_ids) |>
      <| po_evidence_json := json_to_string evidence |> <| po_updated_at := now |>);;
  core_events ← fill_core_order venue_order_id venue_trade_id state next_remaining fill_quantity
    evidence now;
  event ← append_event mode "paper.trade_through_fill" "paper_order" venue_order_id
    (json_to_string evidence);
  rest ← lift (or_panic (dec_sub (market_size_remaining t) fill_quantity));
  mret (mkThroughState balances rest (S (fill_count t)), core_events ++ [event]).

(** The loop over the resting orders. *)
Fixpoint through_loop (t : ThroughState) (rows : list PaperOrderRow)
    : Prog Sys StoreError (ThroughState * list ExecutionEvent) :=
  match rows with
  | [] => mret (t, [])
  | row :: rest =>
      if dec_le (market_size_remaining t) dec_ZERO then mret (t, [])
      else
        limit_price ← lift (parse_stored_decimal (po_price row));
        if negb (crossed (po_side row) trade_price limit_price) then through_loop t rest
        else
          remaining_quantity ← lift (parse_stored_decimal (po_remaining_quantity row));
          let fill_quantity := dec_min remaining_quantity (market_size_remaining t) in
          if dec_le fill_quantity dec_ZERO then through_loop t rest
          else
            '(t', events) ← fill_resting t row fill_quantity limit_price remaining_quantity;
            '(t'', more) ← through_loop t' rest;
            mret (t'', events ++ more)
  end.

Definition resting_le (a b : PaperOrderRow) : bool :=
  (po_created_at a <? po_created_at b) ||
  ((po_created_at a =? po_created_at b) &&
   Stdlib.Strings.String.leb (po_venue_order_id a) (po_venue_order_id b)).
Definition is_resting_order (r : PaperOrderRow) : bool :=
  (po_token_id r ≟ token_id) &&
  ((po_state r ≟ OrderState.Live) || (po_state r ≟ OrderState.PartiallyFilled)) &&
  (po_created_at r <=? observed_at).

Definition apply_paper_trade_through : Prog Sys StoreError nat :=
  paper_only "paper market event cannot be applied in live mode";;
  ensure (negb (is_empty event_id || is_empty token_id || dec_le trade_price dec_ZERO ||
                dec_ge trade_price dec_ONE || dec_le trade_size dec_ZERO))
    (IdentityMismatch "paper market event contains invalid fields");;
  transaction (
    created_at ← utc_now;
    inserted ← insert_or_ignore (mkMarketEventRow event_id token_id (dec_text trade_price)
      (dec_text trade_size) observed_at created_at);
    if inserted ≟ 0%nat then mret (0%nat, [])
    else
      balances ← load_balances token_id;
      rows ← gets (λ s, stable_sort resting_le
        (List.filter is_resting_order (paper_venue_orders (db s))));
      '(t, events) ← through_loop (mkThroughState balances trade_size 0) rows;
      now ← utc_now;
      store_balances token_id (ts_balances t) now;;
      event ← append_event mode "paper.market_trade_observed" "paper_market_event" event_id
        (json_to_string (json_obj ["token_id" ::= token_id; "price" ::= trade_price;
          "size" ::= trade_size; "observed_at" ::= to_rfc3339 observed_at;
          "fill_count" ::= Z.of_nat (fill_count t)]));
      mret (fill_count t, events ++ [event])).
End through.

(** ** Cancellation and queries *)

Definition release_reservations (row : PaperOrderRow) : Prog Sys StoreError () :=
  released_quote ← lift (parse_stored_decimal (po_reserved_quote row));
  released_shares ← lift (parse_stored_decimal (po_reserved_shares row));
  now ← utc_now;
  account ← gets (λ s, paper_account (db s));
  account ← lift (ok_or (Database RowNotFound) account);
  current_quote ← lift (parse_stored_decimal (pa_reserved_quote account));
  rest_quote ← lift (or_panic (dec_sub current_quote released_quote));
  set_account (Some (account <| pa_reserved_quote := dec_text (dec_max rest_quote dec_ZERO) |>
                             <| pa_updated_at := now |>));;
  inventory ← fetch_optional (λ r, iv_token_id r ≟ po_token_id row);
  match inventory with
  | None => mret 0%nat
  | Some inventory =>
      current_shares ← lift (parse_stored_decimal (iv_reserved_shares inventory));
      rest_shares ← lift (or_panic (dec_sub current_shares released_shares));
      update_where (λ r, iv_token_id r ≟ po_token_id row) (λ r,
        r <| iv_reserved_shares := dec_text (dec_max rest_shares dec_ZERO) |>
          <| iv_updated_at := now |>)
  end;;
  update_where (λ r, po_venue_order_id r ≟ po_venue_order_id row) (λ r,
    r <| po_state := OrderState.Cancelled |> <| po_remaining_quantity := "0" |>
      <| po_reserved_quote := "0" |> <| po_reserved_shares := "0" |> <| po_updated_at := now |>);;
  mret tt.

Definition cancel_paper_order (venue_order_id : string)
    : Prog Sys StoreError PaperOrderSnapshot :=
  paper_only "paper cancellation cannot run in live mode";;
  transaction (
    row ← fetch_optional (λ r, po_venue_order_id r ≟ venue_order_id);
    row ← lift (ok_or NotFound row);
    (if is_terminal (po_state row) then mret tt else release_reservations row);;
    snapshot ← load_paper_order venue_order_id;
    snapshot ← lift (ok_or NotFound snapshot);
    event ← append_event mode "paper.venue_order_cancelled" "paper_order" venue_order_id
      (json_to_string (json_obj ["mode" ::= Mode_to_string mode;
        "venue_order_id" ::= venue_order_id; "state" ::= pn_state snapshot]));
    mret (snapshot, [event])).

Definition find_paper_order := load_paper_order.

(** [SELECT DISTINCT token_id .. ORDER BY token_id]. *)
Definition paper_active_tokens : Prog Sys StoreError (list string) :=
  gets (λ s, stable_sort Stdlib.Strings.String.leb (remove_dups (po_token_id <$> List.filter (λ r,
    (po_state r ≟ OrderState.Live) || (po_state r ≟ OrderState.PartiallyFilled))
    (paper_venue_orders (db s))))).

Definition paper_venue_counts : Prog Sys StoreError (nat * nat) :=
  gets (λ s, (length (paper_venue_orders (db s)),
    length (List.filter (λ r, negb (po_filled_quantity r ≟ "0")) (paper_venue_orders (db s))))).

Definition list_paper_orders : Prog Sys StoreError (list PaperOrderSnapshot) :=
  ids ← gets (λ s, po_venue_order_id <$> stable_sort (λ a b,
    po_created_at a <=? po_created_at b) (paper_venue_orders (db s)));
  found ← for_collect ids find_paper_order;
  mret (omap id found).

(** The condition of a token: its position's, or that of its oldest order. *)
Definition condition_of (d : Db) (token_id : string) : option string :=
  match List.find (λ p, pos_token_id p ≟ token_id) (positions d) with
  | Some p => Some (pos_condition_id p)
  | None => po_condition_id <$> head (stable_sort (λ a b, po_created_at a <=? po_created_at b)
      (List.filter (λ r, po_token_id r ≟ token_id) (paper_venue_orders d)))
  end.
Definition paper_venue_positions : Prog Sys StoreError (list (string * string * Decimal)) :=
  rows ← gets (λ s, stable_sort (λ a b,
    Stdlib.Strings.String.leb (iv_token_id a) (iv_token_id b)) (paper_inventory (db s)));
  for_collect rows (λ r,
    condition_id ← gets (λ s, condition_of (db s) (iv_token_id r));
    condition_id ← lift (ok_or
      (IdentityMismatch "paper inventory is missing its market condition") condition_id);
    shares ← lift (parse_stored_decimal (iv_shares r));
    mret (condition_id, iv_token_id r, shares)).
End store.
