(* ===== verification/StoreQueries.v ===== *)
(** * StoreQueries: the pages of orders and trades, and the rest of the queries
    (store.rs)

    The pages of orders and trades are read with a cursor, the creation time
    and the id of the last row the client has seen, as those of the intents
    are; Paging.v proves what following the cursors reads. *)
From stdpp Require Import sorting.
From S2P Require Import Prelude Text DecimalSpec RefDecimal Json Platform Domain Venue Fixtures Risk Schema StoreIntents StoreRisk StoreOrders StoreControl.

Section store.
Context `{DecimalOps} `{Platform} `{Codec}.

Definition order_key (r : OrderRow) : DateTime * Uuid := (ord_created_at r, ord_id r).
Definition trade_key (t : TradeRecord) : DateTime * Uuid := (trd_created_at t, trd_id t).

Definition list_orders (limit : Z) : Prog Sys StoreError (list OrderRecord) :=
  rows ← fetch_all (λ _ : OrderRow, true);
  mret (order <$> take (Z.to_nat (Z.min limit 500)) (order_by order_key rows)).

Definition matches_order (state : option OrderState) (condition_id token_id : option string)
    (r : OrderRow) : bool :=
  matches_filter state (ord_state r) && matches_filter condition_id (ord_condition_id r) &&
  matches_filter token_id (ord_token_id r).
Definition list_orders_page (limit : Z) (state : option OrderState)
    (condition_id token_id : option string) (cursor : option (DateTime * Uuid))
    : Prog Sys StoreError (list OrderRecord) :=
  let limit := page_limit limit in
  rows ← fetch_all (λ r, matches_order state condition_id token_id r &&
    after_cursor cursor (order_key r));
  mret (order <$> take (Z.to_nat (limit + 1)) (order_by order_key rows)).

Definition list_trades (limit : Z) : Prog Sys StoreError (list TradeRecord) :=
  rows ← fetch_all (λ _ : TradeRecord, true);
  mret (take (Z.to_nat (Z.min limit 500)) (order_by trade_key rows)).

(** The join with the trade's order, whose id is unique. *)
Definition matches_trade (d : Db) (status : option TradeState)
    (condition_id token_id : option string) (t : TradeRecord) : bool :=
  existsb (λ o : OrderRow, (ord_id o ≟ trd_order_id t) &&
    matches_filter condition_id (ord_condition_id o) &&
    matches_filter token_id (ord_token_id o)) (orders d) &&
  matches_filter status (trd_status t).
Definition list_trades_page (limit : Z) (status : option TradeState)
    (condition_id token_id : option string) (cursor : option (DateTime * Uuid))
    : Prog Sys StoreError (list TradeRecord) :=
  let limit := page_limit limit in
  rows ← gets (λ s, List.filter (λ t, matches_trade (db s) status condition_id token_id t &&
    after_cursor cursor (trade_key t)) (trades (db s)));
  mret (take (Z.to_nat (limit + 1)) (order_by trade_key rows)).

Definition list_positions : Prog Sys StoreError (list PositionRecord) :=
  gets (λ s, merge_sort (λ a b, string_le (pos_token_id a) (pos_token_id b)) (positions (db s))).

(** What [Store::open] checks of a database it finds: no active risk without a
    bound of its quote. *)
Definition active_order_state (s : OrderState) : bool := negb (is_terminal s).
Definition legacy_active_exposure (d : Db) : nat :=
  length (List.filter (λ r, (rs_state r ≟ "ACTIVE") && (rs_quote_exposure r ≟ "0"))
    (risk_reservations d)) +
  length (List.filter (λ r : OrderRow, active_order_state (ord_state r) &&
    (or_quote_exposure r ≟ "0")) (orders d)).
Definition check_legacy_exposure : Prog Sys StoreError () :=
  n ← gets (λ s, legacy_active_exposure (db s));
  ensure (negb (0 <? n)%nat) (IdentityMismatch
    ("legacy active risk records do not contain conservative quote exposure; " +:+
     "reconcile and retire the development database before starting this version")).

Definition create_backup (self : Store) (directory : outcome StoreError ())
    (files : outcome StoreError BackupFiles) : Prog Sys StoreError BackupRecord :=
  backup ← start_backup_inner self directory None;
  run_backup self files (bk_id backup);;
  get_backup (bk_id backup).
End store.
