(* ===== verification/PaperVenue.v ===== *)
(** * PaperVenue: the paper venue (venue/paper.rs)

    The paper venue reads the public market data over HTTP, fills immediate
    orders against the book it reads, keeps resting orders in the ledger of
    StorePaper.v, and fills those from a stream of trades.  What the HTTP client
    and the stream client answer is an argument, [PaperMarket]; the ledger is
    the database, so the venue's state is [Sys * PaperState]. *)
From Stdlib Require Import Ascii.
From S2P Require Import Prelude Text DecimalSpec Json Platform Domain Venue Risk Schema StoreIntents StoreRisk StoreOrders StoreControl StorePaper.

(** ** Reading JSON *)

(** [value.get(a).or_else(|| value.get(b))]. *)
Definition get_either (a b : string) (v : Value) : option Value :=
  match get_member a v with Some w => Some w | None => get_member b v end.

(** The character U+0022. *)
Definition quote_character : ascii := ascii_of_N 34.

(** ** What the crates answer *)

Inductive HttpReply : Type :=
| SendError (error : string)
| StatusError (error : string)
| BodyError (error : string)
| Body (v : Value).

(** One message of the trade stream. *)
Record LastTradePrice `{DecimalOps} : Type := mkLastTradePrice {
  lt_asset_id : string;
  lt_market : string;
  lt_price : Decimal;
  lt_side : option string;
  lt_size : option Decimal;
  lt_timestamp : Z;
}.
Inductive StreamMessage `{DecimalOps} : Type :=
| StreamTrade (t : LastTradePrice)
| StreamError
| StreamEnd.

(** The [n]-th call of a client may answer differently. *)
Class PaperMarket : Type := {
  http_get : nat → string → list (string * string) → HttpReply;
  ws_connected : nat → bool;
  (** the error of [subscribe_last_trade_price], if any *)
  ws_subscribe : nat → string → option string;
  (** the error of [U256::from_str], if any *)
  u256_error : string → option string;
  (** the text of the error of [Decimal::from_str] *)
  decimal_error : string → string;
  from_timestamp_millis : Z → option DateTime;
  (** [Utc::now] in the venue *)
  venue_clock : nat → DateTime;
  (** the order in which a [HashSet] is iterated *)
  hash_order : gset string → list string;
}.

Record PaperState : Type := mkPaperState {
  trade_subscriptions : gset string;
  stream_failures : gset string;
  pv_calls : nat;
}.
#[export] Instance PaperState_eta : Eta PaperState := λ p,
  mkPaperState (trade_subscriptions p) (stream_failures p) (pv_calls p).

(** ** Fills *)
Section fills.
Context `{DecimalOps}.

Record PaperFill : Type := mkPaperFill {
  pf_shares : Decimal;
  pf_quote : Decimal;
  pf_fee : Decimal;
  pf_complete : bool;
}.
Definition PaperFill_default : PaperFill := mkPaperFill dec_ZERO dec_ZERO dec_ZERO false.

(** The division panics when it overflows. *)
Definition average_price (self : PaperFill) : option (option Decimal) :=
  if dec_gt (pf_shares self) dec_ZERO
  then p ← dec_div (pf_quote self) (pf_shares self); Some (Some p)
  else Some None.

(** [Decimal::new(1, 6)]. *)
Definition dust : Decimal := dec_new 1 6.

(** [fill.shares += ..; fill.quote += ..; fill.fee += ..]. *)
Definition add_fill (fill : PaperFill) (shares quote fee : Decimal) : option PaperFill :=
  shares' ← dec_add (pf_shares fill) shares;
  quote' ← dec_add (pf_quote fill) quote;
  fee' ← dec_add (pf_fee fill) fee;
  Some (mkPaperFill shares' quote' fee' (pf_complete fill)).
Definition completed (fill : PaperFill) : PaperFill :=
  mkPaperFill (pf_shares fill) (pf_quote fill) (pf_fee fill) true.

(** The loops over the levels, best price first. *)
Fixpoint walk_asks (fee_rate : Decimal) (fill : PaperFill) (quote_remaining : Decimal)
    (levels : list PriceLevel) : option PaperFill :=
  match levels with
  | [] => Some fill
  | level :: levels' =>
      factor ← dec_add dec_ONE fee_rate;
      quote_per_share ← dec_mul (price level) factor;
      affordable ← dec_div quote_remaining quote_per_share;
      let shares := dec_min (size level) affordable in
      quote ← dec_mul shares (price level);
      fee ← dec_mul quote fee_rate;
      fill' ← add_fill fill shares quote fee;
      cost ← dec_add quote fee;
      rest ← dec_sub quote_remaining cost;
      if dec_le rest dust then Some (completed fill') else walk_asks fee_rate fill' rest levels'
  end.
Fixpoint walk_bids (fee_rate : Decimal) (fill : PaperFill) (shares_remaining : Decimal)
    (levels : list PriceLevel) : option PaperFill :=
  match levels with
  | [] => Some fill
  | level :: levels' =>
      let shares := dec_min (size level) shares_remaining in
      quote ← dec_mul shares (price level);
      fee ← dec_mul quote fee_rate;
      fill' ← add_fill fill shares quote fee;
      rest ← dec_sub shares_remaining shares;
      if dec_le rest dust then Some (completed fill') else walk_bids fee_rate fill' rest levels'
  end.

(** The levels an order may take, best price first. *)
Definition reachable_levels (book : OrderBook) (side : Side) (worst_price : Decimal)
    : list PriceLevel :=
  match side with
  | Buy => List.filter (λ level, dec_le (price level) worst_price)
      (stable_sort (λ a b, dec_le (price a) (price b)) (asks book))
  | Sell => List.filter (λ level, dec_ge (price level) worst_price)
      (stable_sort (λ a b, dec_ge (price a) (price b)) (bids book))
  end.
Definition walk_book (book : OrderBook) (side : Side) (requested worst_price fee_rate : Decimal)
    : option PaperFill :=
  let levels := reachable_levels book side worst_price in
  match side with
  | Buy => walk_asks fee_rate PaperFill_default requested levels
  | Sell => walk_bids fee_rate PaperFill_default requested levels
  end.
End fills.

(** ** The venue *)

(** The 16 bytes of a UUID. *)
Definition uuid_bytes (id : Uuid) : string :=
  string_of_list_ascii ((λ k, ascii_of_N ((id / 2 ^ (8 * N.of_nat (15 - k))) mod 256)) <$> seq 0 16).

Section venue.
Context `{DecimalOps} `{Platform} `{Codec} `{PaperMarket}.
(** [self.store] and [self.clob_url]. *)
Variable st : Store.
Variable clob_url : string.
Notation V := (Sys * PaperState)%type.
Notation Venue := (Prog V VenueError).

Definition store_error (error : StoreError) : VenueError :=
  VenueError.Rejected ("paper ledger: " +:+ StoreError_to_string error).

Definition ledger {A} (m : Prog Sys StoreError A) : Venue A := λ sv,
  let '(r, s) := m sv.1 in (map_err store_error r, (s, sv.2)).
Definition set_paper (f : PaperState → PaperState) : Venue () := modify (λ sv, (sv.1, f sv.2)).
(** The number of a call of a client. *)
Definition next_call : Venue nat :=
  n ← gets (λ sv, pv_calls sv.2);
  set_paper (λ p, p <| pv_calls := S n |>);;
  mret n.
Definition venue_now : Venue DateTime := n ← next_call; mret (venue_clock n).

Definition market_json (condition_id : string) : Venue Value :=
  n ← next_call;
  match http_get n (clob_url +:+ "/markets/" +:+ condition_id) [] with
  | SendError e => fail (VenueError.Unavailable e)
  | StatusError e | BodyError e => fail (VenueError.Market e)
  | Body v => mret v
  end.

Definition parse_decimal (value : option Value) (field : string) : outcome VenueError Decimal :=
  raw ← ok_or (VenueError.Market ("missing " +:+ field))
    ((λ v, match as_str v with Some s => s | None => json_to_string v end) <$> value);
  let raw := trim_matches quote_character raw in
  ok_or (VenueError.Market ("invalid " +:+ field +:+ ": " +:+ decimal_error raw))
    (dec_from_str raw).
(** [parse_decimal(..).unwrap_or(Decimal::ZERO)]. *)
Definition decimal_or_zero (value : option Value) (field : string) : Decimal :=
  match parse_decimal value field with Done d => d | _ => dec_ZERO end.

Definition is_token (token_id : string) (token : Value) : bool :=
  match get_either "token_id" "tokenId" token with
  | None => false
  | Some value =>
      match as_str value with Some raw => raw ≟ token_id | None => false end ||
      match as_u64 value with Some raw => nat_to_string raw ≟ token_id | None => false end
  end.
Definition token_matches (token_id : string) (value : Value) : bool :=
  match get_member "tokens" value ≫= as_array with
  | Some tokens => existsb (is_token token_id) tokens
  | None => false
  end.
Definition flag (value : option Value) (default : bool) : bool :=
  match value ≫= as_bool with Some b => b | None => default end.

Definition paper_market_rules (condition_id token_id : string) : Venue MarketRules :=
  value ← market_json condition_id;
  ensure (token_matches token_id value) (VenueError.Market "token does not belong to condition");;
  tick_size ← lift (parse_decimal (get_either "minimum_tick_size" "minimumTickSize" value)
    "minimum_tick_size");
  minimum_order_size ← lift (parse_decimal
    (get_either "minimum_order_size" "minimumOrderSize" value) "minimum_order_size");
  observed_at ← venue_now;
  mret (mkMarketRules condition_id token_id (flag (get_member "active" value) false)
    (flag (get_member "closed" value) true)
    (flag (get_either "accepting_orders" "acceptingOrders" value) false)
    tick_size minimum_order_size (flag (get_either "neg_risk" "negRisk" value) false)
    (decimal_or_zero (get_either "maker_base_fee" "makerBaseFee" value) "maker_base_fee")
    (decimal_or_zero (get_either "taker_base_fee" "takerBaseFee" value) "taker_base_fee")
    observed_at).

Definition parse_level (level : Value) : outcome VenueError PriceLevel :=
  p ← parse_decimal (get_member "price" level) "price";
  q ← parse_decimal (get_member "size" level) "size";
  mret (mkPriceLevel p q).
Fixpoint parse_all (levels : list Value) : outcome VenueError (list PriceLevel) :=
  match levels with
  | [] => mret []
  | level :: rest => l ← parse_level level; ls ← parse_all rest; mret (l :: ls)
  end.
Definition parse_levels (value : Value) (name : string) : outcome VenueError (list PriceLevel) :=
  levels ← ok_or (VenueError.Market ("missing " +:+ name)) (get_member name value ≫= as_array);
  parse_all levels.

Definition paper_order_book (token_id : string) : Venue OrderBook :=
  n ← next_call;
  value ← match http_get n (clob_url +:+ "/book") [("token_id", token_id)] with
    | SendError e | StatusError e | BodyError e => fail (VenueError.Unavailable e)
    | Body v => mret v
    end;
  bids ← lift (parse_levels value "bids");
  asks ← lift (parse_levels value "asks");
  observed_at ← venue_now;
  mret (mkOrderBook bids asks observed_at (get_member "hash" value ≫= as_str)).

Definition paper_prepare (intent_id : Uuid) (request : OrderIntentRequest)
    : Venue PreparedVenueOrder :=
  let normalized_json := jcs_to_string (to_value request) in
  mret (mkPreparedVenueOrder
    ("paper_" +:+ sha256_hex ("oddsfox-paper-order-v1" +:+ uuid_bytes intent_id +:+ normalized_json))
    normalized_json None None None 2 "paper-v1").

(** ** The trade streams *)

Definition fail_stream (token_id : string) (p : PaperState) : PaperState :=
  p <| stream_failures := stream_failures p ∪ {[token_id]} |>.

(** The token's stream is subscribed and works. *)
Definition healthy_subscription (token_id : string) : Venue bool :=
  subscribed ← gets (λ sv, bool_decide (token_id ∈ trade_subscriptions sv.2));
  if negb subscribed then mret false
  else
    failed ← gets (λ sv, bool_decide (token_id ∈ stream_failures sv.2));
    if failed : bool then mret false else n ← next_call; mret (ws_connected n).

Definition ensure_trade_subscription (token_id : string) : Venue () :=
  healthy ← healthy_subscription token_id;
  if healthy : bool then mret tt
  else
    set_paper (λ p, p <| trade_subscriptions := trade_subscriptions p ∖ {[token_id]} |>);;
    match u256_error token_id with
    | Some e => fail (VenueError.Market ("invalid token ID: " +:+ e))
    | None =>
        n ← next_call;
        match ws_subscribe n token_id with
        | Some e => fail (VenueError.Unavailable e)
        | None =>
            set_paper (λ p, p <| trade_subscriptions := trade_subscriptions p ∪ {[token_id]} |>)
        end
    end.

Definition event_payload (size : Decimal) (trade : LastTradePrice) : Value :=
  json_obj ["asset_id" ::= lt_asset_id trade; "market" ::= lt_market trade;
    "price" ::= lt_price trade; "side" ::= lt_side trade; "size" ::= size;
    "timestamp" ::= lt_timestamp trade].

(** The task of a token's stream, one message at a time. *)
Definition apply_stream_trade (token_id : string) (trade : LastTradePrice) : Venue () :=
  set_paper (λ p, p <| stream_failures := stream_failures p ∖ {[token_id]} |>);;
  match lt_size trade with
  | Some size =>
      if dec_gt size dec_ZERO then
        observed_at ← match from_timestamp_millis (lt_timestamp trade) with
          | Some t => mret t
          | None => venue_now
          end;
        let event_id := sha256_hex (jcs_to_string (event_payload size trade)) in
        applied ← try (ledger (apply_paper_trade_through st event_id token_id (lt_price trade)
          size observed_at));
        match applied with
        | inr _ => mret tt
        | inl _ => set_paper (fail_stream token_id)
        end
      else mret tt
  | None => mret tt
  end.
Definition stream_turn (token_id : string) (message : StreamMessage) : Venue () :=
  match message with
  | StreamTrade trade => apply_stream_trade token_id trade
  | StreamError | StreamEnd => set_paper (fail_stream token_id)
  end.

Definition apply_market_trade_fixture (event_id token_id : string) (price size : Decimal)
    (observed_at : DateTime) : Venue nat :=
  ledger (apply_paper_trade_through st event_id token_id price size observed_at).

Definition subscribe_active : Venue () :=
  tokens ← ledger paper_active_tokens;
  for_each tokens ensure_trade_subscription.

(** [PaperVenue::new], after the WebSocket client is made. *)
Definition paper_new (config : PaperConfig) (client_error : option string) : Venue () :=
  ledger (initialize_paper_account st config);;
  match client_error with
  | Some e => fail (VenueError.Unavailable e)
  | None =>
      set_paper (λ p, mkPaperState ∅ ∅ (pv_calls p));;
      subscribe_active
  end.

Definition check_streams : Venue () :=
  failed_streams ← gets (λ sv, stream_failures sv.2);
  ensure (bool_decide (failed_streams = ∅)) (VenueError.Stale
    ("paper trade streams unhealthy for tokens: " +:+ join "," (hash_order failed_streams))).

(** ** Orders *)

Definition is_immediate (request : OrderIntentRequest) : bool :=
  (req_time_in_force request ≟ Fok) || (req_time_in_force request ≟ Fak).

(** The order the ledger books for a request and the fill it gets. *)
Definition order_commit (prepared : PreparedVenueOrder) (request : OrderIntentRequest)
    (tick_size fee_rate price quantity : Decimal) (fill : PaperFill)
    : outcome VenueError PaperOrderCommit :=
  let immediate := is_immediate request in
  let fok_unfilled := (req_time_in_force request ≟ Fok) && negb (pf_complete fill) in
  reserved_quote ← (if negb immediate && (req_side request ≟ Buy)
    then
      at_price ← or_panic (dec_mul quantity price);
      factor ← or_panic (dec_add dec_ONE fee_rate);
      or_panic (dec_mul at_price factor)
    else Done dec_ZERO);
  let reserved_shares :=
    if negb immediate && (req_side request ≟ Sell) then quantity else dec_ZERO in
  let state :=
    if fok_unfilled then OrderState.Cancelled
    else if immediate then if pf_complete fill then OrderState.Filled else OrderState.Cancelled
    else OrderState.Live in
  let applied_fill := if fok_unfilled then PaperFill_default else fill in
  original_quantity ← (if (req_side request ≟ Buy) && immediate
    then or_panic (dec_div quantity tick_size) else Done quantity);
  let remaining_quantity := if immediate then dec_ZERO else original_quantity in
  let venue_trade_ids :=
    if dec_gt (pf_shares applied_fill) dec_ZERO
    then ["paper_trade_" +:+ deterministic_order_id prepared] else [] in
  filled_price ← or_panic (average_price applied_fill);
  let evidence :=
    if fok_unfilled
    then json_obj ["paper" ::= true; "reason" ::= "insufficient_depth"]
    else json_obj ["paper" ::= true; "filled_quantity" ::= pf_shares applied_fill;
      "quote" ::= pf_quote applied_fill; "fee" ::= pf_fee applied_fill;
      "average_price" ::= filled_price] in
  mret (mkPaperOrderCommit (deterministic_order_id prepared) (req_condition_id request)
    (req_token_id request) (req_side request) state price fee_rate original_quantity
    remaining_quantity (pf_shares applied_fill) filled_price (pf_quote applied_fill)
    (pf_fee applied_fill) reserved_quote reserved_shares venue_trade_ids evidence).

Definition paper_submission (o : PaperOrderSnapshot) : VenueSubmission :=
  mkVenueSubmission (pn_venue_order_id o) (pn_state o) (pn_filled_quantity o)
    (pn_filled_price o) (pn_venue_trade_ids o) (pn_evidence o).

Definition paper_submit (prepared : PreparedVenueOrder) (request : OrderIntentRequest)
    : Venue VenueSubmission :=
  book ← paper_order_book (req_token_id request);
  market ← paper_market_rules (req_condition_id request) (req_token_id request);
  price ← lift (map_err (λ e, VenueError.Rejected (DomainError_to_string e))
    (protection_price request));
  quantity ← lift (map_err (λ e, VenueError.Rejected (DomainError_to_string e))
    (quantity_decimal request));
  let fee_rate := dec_max (maker_fee_rate market) (taker_fee_rate market) in
  fill ← (if is_immediate request
    then lift (or_panic (walk_book book (req_side request) quantity price fee_rate))
    else ensure_trade_subscription (req_token_id request);; mret PaperFill_default);
  commit ← lift (order_commit prepared request (tick_size market) fee_rate price quantity fill);
  committed ← ledger (commit_paper_order st commit);
  mret (paper_submission committed).

Definition paper_cancel (venue_order_id : string) : Venue VenueCancellation :=
  order ← ledger (cancel_paper_order st venue_order_id);
  mret (mkVenueCancellation (pn_state order)
    (json_obj ["paper" ::= true; "state" ::= pn_state order])).

Definition observed_order (note : string) (o : PaperOrderSnapshot) : ObservedVenueOrder :=
  mkObservedVenueOrder (pn_venue_order_id o) (pn_state o) (pn_remaining_quantity o)
    (pn_filled_quantity o) (pn_filled_price o) (pn_venue_trade_ids o)
    (json_obj ["paper" ::= true; note ::= true; "original_evidence" ::= pn_evidence o]).
Definition paper_find_order (deterministic_order_id : string)
    : Venue (option ObservedVenueOrder) :=
  order ← ledger (find_paper_order deterministic_order_id);
  mret (observed_order "recovered" <$> order).

Definition observed_trades_of (o : PaperOrderSnapshot) : list ObservedVenueTrade :=
  (λ venue_trade_id, mkObservedVenueTrade venue_trade_id [pn_venue_order_id o]
    TradeState.Matched (json_obj ["paper" ::= true; "reconciliation" ::= true])) <$>
    pn_venue_trade_ids o.
Definition paper_reconcile : Venue ReconciliationResult :=
  check_streams;;
  '(orders_observed, _) ← ledger paper_venue_counts;
  paper_orders ← ledger list_paper_orders;
  let observed_trades := concat (observed_trades_of <$> paper_orders) in
  positions ← ledger paper_venue_positions;
  let observed_positions := (λ '(condition_id, token_id, shares),
    mkObservedVenuePosition condition_id token_id shares
      (json_obj ["paper" ::= true; "source" ::= "durable_paper_inventory"])) <$> positions in
  mret (mkReconciliationResult (Z.of_nat orders_observed) (Z.of_nat (length observed_trades))
    (observed_order "reconciliation" <$> paper_orders) observed_trades observed_positions []).

Definition paper_heartbeat : Venue () := subscribe_active;; check_streams.

#[export] Instance PaperVenue : ExecutionVenue V := {|
  market_rules := paper_market_rules;
  order_book := paper_order_book;
  prepare := paper_prepare;
  submit := paper_submit;
  cancel := paper_cancel;
  find_order := paper_find_order;
  venue_reconcile := paper_reconcile;
  heartbeat := paper_heartbeat;
  requires_heartbeat := true;
  reconciliation_required _ := false;
|}.
End venue.
