(* ===== verification/Config.v ===== *)
(** * Config: the configuration and its validation (config.rs)

    The TOML text is read by a crate; the model starts from the values it
    gives.  The environment of the process and the features the binary was built
    with are an argument, and so is the decoder of hexadecimal text. *)
From S2P Require Import Prelude Text DecimalSpec Json Platform Domain Venue Risk Schema StoreControl StorePaper.

(** ** The standard library's addresses *)
Inductive IpAddr : Type := V4 (a b c d : N) | V6 (address : N).
Definition is_loopback (ip : IpAddr) : bool :=
  match ip with V4 a _ _ _ => (a =? 127)%N | V6 address => (address =? 1)%N end.
Record SocketAddr : Type := mkSocketAddr { ip : IpAddr; port : N }.

(** ** The configuration *)
Record ServerConfig : Type := mkServerConfig {
  bind : SocketAddr;
  metrics_bind : SocketAddr;
  max_body_bytes : Z;
  request_timeout_ms : Z;
  allow_non_loopback : bool;
}.
Record StorageConfig : Type := mkStorageConfig {
  database_path : string;
  backup_dir : string;
  cfg_event_retention : Z;
}.
Record PolymarketConfig : Type := mkPolymarketConfig {
  clob_url : string;
  websocket_url : string;
  data_api_url : string;
  geoblock_url : string;
  expected_protocol : Z;
  chain_id : Z;
  cfg_signer_address : option string;
  cfg_funder_address : option string;
  private_key_file : option string;
  reconciliation_interval_seconds : Z;
  geoblock_interval_seconds : Z;
  heartbeat_interval_seconds : Z;
}.
Record AuthCredential : Type := mkAuthCredential {
  actor_id : string;
  token_sha256 : string;
  scopes : list string;
}.
Record Config : Type := mkConfig {
  cfg_mode : Mode;
  server : ServerConfig;
  storage : StorageConfig;
  paper : PaperConfig;
  polymarket : PolymarketConfig;
  auth : list AuthCredential;
}.

Definition default_bind : SocketAddr := mkSocketAddr (V4 127 0 0 1) 8787.
Definition default_metrics_bind : SocketAddr := mkSocketAddr (V4 127 0 0 1) 9090.
Definition default_body_limit : Z := 64 * 1024.
Definition default_request_timeout_ms : Z := 45000.
Definition default_backup_dir : string := "./data/backups".
Definition default_event_retention : Z := 1000000.
Definition default_quote_balance : string := "10000".
Definition default_clob_url : string := "https://clob.polymarket.com".
Definition default_websocket_url : string := "wss://ws-subscriptions-clob.polymarket.com".
Definition default_data_api_url : string := "https://data-api.polymarket.com".
Definition default_geoblock_url : string := "https://polymarket.com/api/geoblock".
Definition default_expected_protocol : Z := 2.
Definition default_chain_id : Z := 137.
Definition default_reconcile_seconds : Z := 60.
Definition default_geoblock_seconds : Z := 300.
Definition default_heartbeat_seconds : Z := 5.

Definition ServerConfig_default : ServerConfig :=
  mkServerConfig default_bind default_metrics_bind default_body_limit default_request_timeout_ms
    false.
Definition PaperConfig_default : PaperConfig := mkPaperConfig default_quote_balance [].
Definition PolymarketConfig_default : PolymarketConfig :=
  mkPolymarketConfig default_clob_url default_websocket_url default_data_api_url
    default_geoblock_url default_expected_protocol default_chain_id None None None
    default_reconcile_seconds default_geoblock_seconds default_heartbeat_seconds.

(** ** Validation *)

(** [cfg!(feature = "live")], the environment variable, and [hex::decode]. *)
Class Environment : Type := {
  live_feature : bool;
  enable_live_trading : option string;
  hex_decode : string → option (list N);
}.

Section validation.
Context `{Environment}.

Definition valid_evm_address (value : string) : bool :=
  (string_length value =? 42)%nat &&
  match strip_prefix "0x" value with
  | Some rest => all_bytes is_ascii_hexdigit rest && existsb (λ b, negb (b =? 48)%N) (bytes rest)
  | None => false
  end.

Definition valid_scope (scope : string) : bool :=
  existsb (λ s, s ≟ scope) ["read"; "submit"; "cancel"; "operate"].

(** [hex::decode(..)?.try_into::<[u8; 32]>()]. *)
Definition credential_digest (token_sha256 : string) : outcome string (list N) :=
  digest ← ok_or "auth token_sha256 must be hexadecimal" (hex_decode token_sha256);
  reject_if (negb (length digest =? 32)%nat) "auth token_sha256 must contain a SHA-256 digest";;
  mret digest.

Fixpoint check_scopes (scopes : list string) : outcome string () :=
  match scopes with
  | [] => mret tt
  | scope :: scopes' =>
      reject_if (negb (valid_scope scope)) ("unsupported auth scope " +:+ scope);;
      check_scopes scopes'
  end.
Fixpoint check_credentials (actor_ids : list string) (token_digests : list (list N))
    (credentials : list AuthCredential) : outcome string () :=
  match credentials with
  | [] => mret tt
  | credential :: credentials' =>
      reject_if (trim_is_empty (actor_id credential)) "auth actor_id may not be empty";;
      reject_if (bool_decide (actor_id credential ∈ actor_ids))
        "auth actor_id values must be unique";;
      digest ← credential_digest (token_sha256 credential);
      reject_if (bool_decide (digest ∈ token_digests)) "auth token digests must be unique";;
      reject_if (scopes credential ≟ []) "each auth credential requires at least one scope";;
      check_scopes (scopes credential);;
      check_credentials (actor_id credential :: actor_ids) (digest :: token_digests) credentials'
  end.
Definition validate_auth (self : Config) : outcome string () :=
  reject_if (auth self ≟ []) "at least one bearer credential is required";;
  check_credentials [] [] (auth self).

Definition within (lo hi z : Z) : bool := (lo <=? z) && (z <=? hi).
Definition validate_runtime_bounds (self : Config) : outcome string () :=
  reject_if ((max_body_bytes (server self) =? 0) || (request_timeout_ms (server self) =? 0))
    "server body and timeout bounds must be positive";;
  reject_if (cfg_event_retention (storage self) =? 0) "storage.event_retention must be positive";;
  reject_if (negb (within 1 60 (reconciliation_interval_seconds (polymarket self))))
    "reconciliation_interval_seconds must be between 1 and 60";;
  reject_if (negb (within 1 300 (geoblock_interval_seconds (polymarket self))))
    "geoblock_interval_seconds must be between 1 and 300";;
  reject_if (negb (within 1 5 (heartbeat_interval_seconds (polymarket self))))
    "heartbeat_interval_seconds must be between 1 and 5".

Definition check_address (name : string) (address : option string) : outcome string () :=
  address ← ok_or ("live mode requires " +:+ name) address;
  reject_if (negb (valid_evm_address address))
    (name +:+ " must be a nonzero 20-byte hexadecimal address").
Definition placeholder_token (credential : AuthCredential) : bool :=
  all_bytes (λ b, (b =? 48)%N) (token_sha256 credential).
Definition secure_endpoints (p : PolymarketConfig) : bool :=
  starts_with "https://" (clob_url p) && starts_with "https://" (data_api_url p) &&
  starts_with "https://" (geoblock_url p) && starts_with "wss://" (websocket_url p).

Definition validate_live (self : Config) : outcome string () :=
  reject_if (negb live_feature) "live mode requires a binary built with the live feature";;
  reject_if (negb (enable_live_trading ≟ Some "YES"))
    "live mode requires ODDSFOX_ENABLE_LIVE_TRADING=YES";;
  check_address "polymarket.signer_address" (cfg_signer_address (polymarket self));;
  check_address "polymarket.funder_address" (cfg_funder_address (polymarket self));;
  reject_if (existsb placeholder_token (auth self))
    "live mode refuses placeholder bearer-token digests";;
  reject_if (negb (chain_id (polymarket self) =? 137) ||
             negb (expected_protocol (polymarket self) =? 2))
    "live mode supports only Polygon chain 137 and Polymarket protocol V2";;
  reject_if (negb (secure_endpoints (polymarket self)))
    "live venue endpoints require HTTPS/WSS";;
  reject_if (private_key_file (polymarket self) ≟ None)
    "live mode requires polymarket.private_key_file";;
  reject_if (negb (is_loopback (ip (bind (server self)))) && negb (allow_non_loopback (server self)))
    "live non-loopback HTTP bind requires server.allow_non_loopback=true";;
  reject_if (negb (is_loopback (ip (metrics_bind (server self)))))
    "live metrics listener must bind to loopback".

Definition Config_validate (self : Config) : outcome string () :=
  validate_auth self;;
  validate_runtime_bounds self;;
  if cfg_mode self ≟ Live then validate_live self else mret tt.

(** [Config::load], after the file is read and parsed. *)
Definition Config_load (parsed : Config) (mode_override : option Mode) : outcome string Config :=
  let config := mkConfig (default (cfg_mode parsed) mode_override) (server parsed)
    (storage parsed) (paper parsed) (polymarket parsed) (auth parsed) in
  Config_validate config;;
  mret config.

Definition request_timeout (self : Config) : Z := milliseconds (request_timeout_ms (server self)).
End validation.
Definition token_digest `{Platform} (token : string) : string := sha256_hex token.
