(* ===== verification/StoreFixtures.v ===== *)
(** * StoreFixtures: a concrete database and runs on it for the witnesses *)
From S2P Require Import Prelude Text DecimalSpec RefDecimal Json Platform Domain Venue Fixtures Risk Schema StoreIntents StoreRisk StoreOrders StoreControl StorePaper.

Section fixtures.
#[local] Existing Instance RefOps.
#[local] Existing Instance RefPlatform.

(** A codec that reads every list of strings as empty and no other type. *)
Definition RefCodec : Codec := {|
  intent_from_json _ := None;
  request_from_json _ := None;
  strings_from_json s := Some [];
  uuids_from_json _ := None;
  json_extract _ _ := None;
  error_detail _ := "detail";
|}.
#[local] Existing Instance RefCodec.

Definition fix_control (state : string) : ControlRow := mkControlRow state "test" 0 1.
(** An empty database in the given service state. *)
Definition fix_db (state : string) : Db :=
  mkDb None [] [] [] [] [] [] [] [] [] [] [] None [] [] [] [] [] 0 [] [] (fix_control state) [] [].
Definition fix_sys (state : string) : Sys := mkSys (fix_db state) [] 0.
Definition fix_store : Store := mkStore Paper 100.

(** The final state of a run, and its result. *)
Definition final {A} (m : Prog Sys StoreError A) (s : Sys) : Sys := (m s).2.
Definition result {A} (m : Prog Sys StoreError A) (s : Sys) : outcome StoreError A := (m s).1.

(** One order on its way: admitted, validated, approved, prepared, submitting
    and resting at the venue. *)
Definition sys_ready : Sys := fix_sys "READY".
Definition sys_received : Sys := final (admit_intent fix_store "actor" "key" fix_request) sys_ready.
Definition fix_intent : IntentRecord :=
  match intents (db sys_received) with
  | r :: _ => intent r
  | [] => mkIntentRecord 0%N Paper "" "" "" "" IntentState.Received None None 0 0
  end.
Definition fix_id : Uuid := int_id fix_intent.
Definition sys_validating : Sys :=
  final (transition_intent fix_store fix_id IntentState.Received IntentState.Validating None)
    sys_received.
Definition sys_approved : Sys :=
  final (evaluate_and_reserve_risk fix_store fix_id fix_request fix_market fix_book fix_policy)
    sys_validating.
Definition sys_preparing : Sys :=
  final (transition_intent fix_store fix_id IntentState.Approved IntentState.Preparing None)
    sys_approved.
Definition sys_prepared : Sys :=
  final (create_prepared_order fix_store fix_intent fix_request "payload" "order-1" None None None
    2 "sdk" "v1" dec_ZERO) sys_preparing.
Definition fix_order_id : Uuid :=
  match orders (db sys_prepared) with o :: _ => ord_id o | [] => 0%N end.
Definition sys_submitting : Sys :=
  final (begin_submission fix_store fix_id fix_order_id) sys_prepared.
Definition sys_live : Sys :=
  final (finish_submission fix_store fix_id fix_order_id IntentState.Submitted OrderState.Live
    (Some "venue-1") "ACCEPTED" dec_ZERO None [] (JObject [])) sys_submitting.

Definition states (s : Sys) : list IntentState * list OrderState :=
  ((λ i : IntentRow, int_state i) <$> intents (db s),
   (λ o : OrderRow, ord_state o) <$> orders (db s)).
Example run_states :
  states <$> [sys_ready; sys_received; sys_validating; sys_approved; sys_preparing;
              sys_prepared; sys_submitting; sys_live] =
  [([], []); ([IntentState.Received], []); ([IntentState.Validating], []);
   ([IntentState.Approved], []); ([IntentState.Preparing], []);
   ([IntentState.Prepared], [OrderState.Prepared]);
   ([IntentState.Submitting], [OrderState.Submitting]);
   ([IntentState.Submitted], [OrderState.Live])].
Proof. vm_compute. reflexivity. Qed.
End fixtures.
