(* ===== verification/StoreLogic.v ===== *)
(** * StoreLogic: reasoning about store operations

    Inversion lemmas for the statements, the atomicity of transactions, and two
    predicates on programs: [frames v m], [m] leaves the part [v] of the
    database alone, and [keeps I m], [m] keeps the invariant [I] whatever its
    outcome. *)
From S2P Require Import Prelude Text DecimalSpec Json Platform Domain Venue Schema.

(** ** Lists of rows *)
Section rows.
Context {R : Type}.
Implicit Types (p : R → bool) (f : R → R) (l : list R).

Lemma elem_of_update p f l r :
  r ∈ update_list p f l ↔ ∃ r0, r0 ∈ l ∧ r = (if p r0 then f r0 else r0).
Proof. unfold update_list. rewrite list_elem_of_fmap. naive_solver. Qed.

Lemma elem_of_filter_b p l r : r ∈ List.filter p l ↔ p r = true ∧ r ∈ l.
Proof. rewrite !list_elem_of_In, filter_In. tauto. Qed.

Lemma find_Some_elem p l r : List.find p l = Some r → r ∈ l ∧ p r = true.
Proof. intros [Hin Hp]%find_some. by rewrite list_elem_of_In. Qed.

Lemma find_None_elem p l r : List.find p l = None → r ∈ l → p r = false.
Proof. intros Hn Hin. eapply find_none; [done|]. by apply list_elem_of_In. Qed.

Lemma existsb_false_elem p l r : existsb p l = false → r ∈ l → p r = false.
Proof.
  intros He Hin. apply not_true_iff_false. intros Hp.
  apply not_true_iff_false in He. apply He, existsb_exists. exists r.
  by rewrite <-list_elem_of_In.
Qed.

Lemma existsb_true_elem p l : existsb p l = true ↔ ∃ r, r ∈ l ∧ p r = true.
Proof. rewrite existsb_exists. by setoid_rewrite list_elem_of_In. Qed.

Lemma update_list_fmap {K} (key : R → K) p f l :
  (∀ r, key (f r) = key r) → key <$> update_list p f l = key <$> l.
Proof.
  intros Hk. unfold update_list. rewrite <-list_fmap_compose. apply list_fmap_ext.
  intros _ r _. unfold compose. destruct (p r); [apply Hk | done].
Qed.

Lemma filter_all p l : (∀ r, r ∈ l → p r = true) → List.filter p l = l.
Proof.
  induction l as [|x l IH]; intros Hp; [done|]. cbn. rewrite (Hp x) by left.
  f_equal. apply IH. intros r Hr. apply Hp. by right.
Qed.
Lemma filter_none p l : (∀ r, r ∈ l → p r = false) → List.filter p l = [].
Proof.
  induction l as [|x l IH]; intros Hp; [done|]. cbn. rewrite (Hp x) by left.
  apply IH. intros r Hr. apply Hp. by right.
Qed.
Lemma filter_filter p q l : List.filter p (List.filter q l) = List.filter (λ r, q r && p r) l.
Proof.
  induction l as [|x l IH]; [done|]. cbn. destruct (q x); cbn; [|done].
  destruct (p x); by rewrite IH.
Qed.
#[export] Instance filter_b_perm p : Proper ((≡ₚ) ==> (≡ₚ)) (List.filter p).
Proof.
  intros l l' Hl. induction Hl as [|x l l' _ IH|x y l|l l' l'' _ IH1 _ IH2]; cbn.
  - done.
  - destruct (p x); by rewrite IH.
  - destruct (p x), (p y); [constructor|done..].
  - by rewrite IH1.
Qed.

Lemma length_filter_one p l :
  length (List.filter p l) = 1%nat → ∃ r, r ∈ l ∧ p r = true.
Proof.
  destruct (List.filter p l) as [|r ?] eqn:Hf; [done|]. intros _. exists r.
  assert (r ∈ List.filter p l) as Hr by (rewrite Hf; left).
  by apply elem_of_filter_b in Hr as [? ?].
Qed.

Lemma nodup_key_eq {K} (key : R → K) l a b :
  NoDup (key <$> l) → a ∈ l → b ∈ l → key a = key b → a = b.
Proof.
  induction l as [|x l IH]; intros Hnd Ha Hb Hkey; [by apply not_elem_of_nil in Ha|].
  cbn in Hnd. apply NoDup_cons in Hnd as [Hx Hnd].
  apply elem_of_cons in Ha as [->|Ha], Hb as [->|Hb]; [done| | |by apply IH].
  - exfalso. apply Hx, list_elem_of_fmap. eauto.
  - exfalso. apply Hx, list_elem_of_fmap. eauto.
Qed.

Lemma nodup_key_filter {K} (key : R → K) p l :
  NoDup (key <$> l) → NoDup (key <$> List.filter p l).
Proof.
  induction l as [|x l IH]; [done|]. cbn. intros [Hx Hnd]%NoDup_cons.
  destruct (p x); [|by apply IH]. cbn. apply NoDup_cons. split; [|by apply IH].
  intros (r & Hr & Hin)%list_elem_of_fmap. apply Hx, list_elem_of_fmap. exists r.
  split; [done|]. by apply elem_of_filter_b in Hin as [_ ?].
Qed.
End rows.

(** ** Statements *)
Section statements.
Context `{Table R}.

Lemma fetch_optional_done (p : R → bool) s o s' :
  fetch_optional p s = (Done o, s') ↔ o = List.find p (rows (db s)) ∧ s' = s.
Proof. unfold fetch_optional. by rewrite gets_done. Qed.
Lemma fetch_all_done (p : R → bool) s l s' :
  fetch_all p s = (Done l, s') ↔ l = List.filter p (rows (db s)) ∧ s' = s.
Proof. unfold fetch_all. by rewrite gets_done. Qed.
Lemma fetch_one_done (p : R → bool) s r s' :
  fetch_one p s = (Done r, s') ↔ List.find p (rows (db s)) = Some r ∧ s' = s.
Proof.
  unfold fetch_one. rewrite bind_done. split.
  - intros (o & s1 & [-> ->]%fetch_optional_done & [Ho ->]%lift_done).
    by apply ok_or_done in Ho.
  - intros [Hf ->]. exists (Some r), s. rewrite fetch_optional_done. done.
Qed.

Lemma insert_done (r : R) s u s' :
  insert r s = (Done u, s') ↔
  existsb (clash r) (rows (db s)) = false ∧ refs (db s) r = true ∧
  s' = s <| db := set_rows (rows (db s) ++ [r]) (db s) |>.
Proof.
  unfold insert. destruct (existsb _ _); [naive_solver|].
  destruct u, (refs _ _); naive_solver.
Qed.

Lemma insert_or_ignore_done (r : R) s n s' :
  insert_or_ignore r s = (Done n, s') ↔
  (existsb (clash r) (rows (db s)) = true ∧ n = 0%nat ∧ s' = s) ∨
  (existsb (clash r) (rows (db s)) = false ∧ refs (db s) r = true ∧ n = 1%nat ∧
   s' = s <| db := set_rows (rows (db s) ++ [r]) (db s) |>).
Proof.
  unfold insert_or_ignore. destruct (existsb _ _); [naive_solver|].
  destruct (refs _ _); naive_solver.
Qed.

Lemma upsert_done (r : R) s u s' :
  upsert r s = (Done u, s') ↔ refs (db s) r = true ∧
  s' = s <| db := set_rows (if existsb (clash r) (rows (db s))
                            then update_list (clash r) (λ _, r) (rows (db s))
                            else rows (db s) ++ [r]) (db s) |>.
Proof. unfold upsert. destruct u, (refs (db s) r); naive_solver. Qed.
Lemma update_where_done (p : R → bool) (f : R → R) s n s' :
  update_where p f s = (Done n, s') ↔
  n = length (List.filter p (rows (db s))) ∧
  s' = s <| db := set_rows (update_list p f (rows (db s))) (db s) |>.
Proof. unfold update_where. naive_solver. Qed.
End statements.

Section transactions.
Context `{Platform}.

Lemma utc_now_done {E} s t s' :
  (utc_now : Prog Sys E DateTime) s = (Done t, s') ↔
  t = utc_clock (tick s) ∧ s' = s <| tick := S (tick s) |>.
Proof. unfold utc_now. naive_solver. Qed.
Lemma now_v7_done {E} s t s' :
  (now_v7 : Prog Sys E Uuid) s = (Done t, s') ↔
  t = uuid_v7 (tick s) ∧ s' = s <| tick := S (tick s) |>.
Proof. unfold now_v7. naive_solver. Qed.

Definition next_event (mode : Mode) (event_type resource_type resource_id payload : string)
    (s : Sys) : ExecutionEvent :=
  mkExecutionEvent (last_sequence (db s) + 1) event_type resource_type resource_id mode payload
    (utc_clock (tick s)).
Definition with_event (e : ExecutionEvent) (d : Db) : Db :=
  d <| execution_events := execution_events d ++ [e] |> <| last_sequence := sequence e |>.

Lemma append_event_done mode ty rt ri payload s e s' :
  append_event mode ty rt ri payload s = (Done e, s') ↔
  e = next_event mode ty rt ri payload s ∧
  s' = mkSys (with_event e (db s)) (sent s) (S (tick s)).
Proof.
  unfold append_event, push_event, mbind, prog_bind, utc_now. cbn.
  split; [by intros [= <- <-] | by intros [-> ->]].
Qed.

Lemma transaction_done {A} (body : Prog Sys StoreError (A * list ExecutionEvent)) s a s' :
  transaction body s = (Done a, s') ↔
  ∃ events s1, body s = (Done (a, events), s1) ∧
    s' = s1 <| sent := sent s1 ++ events |>.
Proof.
  unfold transaction. destruct (body s) as [[[b ev]|e|] s1]; naive_solver.
Qed.

(** A transaction that does not commit changes neither the tables nor what was
    broadcast. *)
Lemma transaction_rolls_back {A} (body : Prog Sys StoreError (A * list ExecutionEvent)) s o s' :
  transaction body s = (o, s') → (∀ a, o ≠ Done a) → db s' = db s ∧ sent s' = sent s.
Proof.
  unfold transaction. destruct (body s) as [[[b ev]|e|] s1]; intros [= <- <-] Ho;
    [by destruct (Ho b) | done..].
Qed.
End transactions.

Lemma update_control_done c s u s' :
  update_control c s = (Done u, s') ↔ s' = s <| db := db s <| control_state := c |> |>.
Proof. unfold update_control. by rewrite modify_done. Qed.

(** [db_inv]: take apart a run that returned normally, statements included. *)
Ltac db_inv_step :=
  match goal with
  | H : transaction _ _ = (Done _, _) |- _ =>
      apply transaction_done in H; destruct H as (? & ? & ? & ?)
  | H : fetch_optional _ _ = (Done _, _) |- _ =>
      apply fetch_optional_done in H; destruct H as [? ?]
  | H : fetch_all _ _ = (Done _, _) |- _ => apply fetch_all_done in H; destruct H as [? ?]
  | H : fetch_one _ _ = (Done _, _) |- _ => apply fetch_one_done in H; destruct H as [? ?]
  | H : insert _ _ = (Done _, _) |- _ => apply insert_done in H; destruct H as (? & ? & ?)
  | H : upsert _ _ = (Done _, _) |- _ => apply upsert_done in H; destruct H as [? ?]
  | H : update_where _ _ _ = (Done _, _) |- _ =>
      apply update_where_done in H; destruct H as [? ?]
  | H : utc_now _ = (Done _, _) |- _ => apply utc_now_done in H; destruct H as [? ?]
  | H : now_v7 _ = (Done _, _) |- _ => apply now_v7_done in H; destruct H as [? ?]
  | H : append_event _ _ _ _ _ _ = (Done _, _) |- _ =>
      apply append_event_done in H; destruct H as [? ?]
  | H : update_control _ _ = (Done _, _) |- _ => apply update_control_done in H
  | H : (_, _) = (_, _) |- _ => injection H as H; subst
  | H : ?x = ?t |- _ => is_var x; subst x
  | H : ?t = ?x |- _ => is_var x; subst x
  end.
Ltac db_inv := repeat (run_inv_step || db_inv_step).

(** ** Framing *)

Definition frames {A B} (v : Db → B) (m : Prog Sys StoreError A) : Prop :=
  ∀ s, v (db (m s).2) = v (db s).

Section frames.
Context {B : Type} (v : Db → B).

Lemma frames_bind {A A'} (m : Prog Sys StoreError A) (k : A → Prog Sys StoreError A') :
  frames v m → (∀ a, frames v (k a)) → frames v (m ≫= k).
Proof.
  intros Hm Hk s. specialize (Hm s). unfold mbind, prog_bind.
  destruct (m s) as [[a|e|] s1]; cbn in *; [|done..]. by rewrite Hk.
Qed.
Lemma frames_ret {A} (a : A) : frames v (mret a).
Proof. done. Qed.
Lemma frames_lift {A} (o : outcome StoreError A) : frames v (lift o).
Proof. done. Qed.
Lemma frames_fail {A} e : frames v (fail e : Prog Sys StoreError A).
Proof. done. Qed.
Lemma frames_gets {A} (f : Sys → A) : frames v (gets f).
Proof. done. Qed.
Lemma frames_ensure b e : frames v (ensure b e).
Proof. by destruct b. Qed.
Lemma frames_for_each {A} (l : list A) body :
  (∀ a, frames v (body a)) → frames v (for_each l body).
Proof. intros Hb. induction l; cbn; [done|]. by apply frames_bind. Qed.
Lemma frames_for_collect {A A'} (l : list A) (body : A → Prog Sys StoreError A') :
  (∀ a, frames v (body a)) → frames v (for_collect l body).
Proof.
  intros Hb. induction l; cbn; [done|]. apply frames_bind; [done|]. intros b.
  by apply frames_bind.
Qed.
Lemma frames_try {A} (m : Prog Sys StoreError A) :
  frames v m → frames v (try m : Prog Sys StoreError _).
Proof. intros Hm s. specialize (Hm s). unfold try. by destruct (m s) as [[]]. Qed.
Lemma frames_utc_now `{Platform} : frames v utc_now.
Proof. done. Qed.
Lemma frames_now_v7 `{Platform} : frames v now_v7.
Proof. done. Qed.
Lemma frames_transaction {A} (body : Prog Sys StoreError (A * _)) :
  frames v body → frames v (transaction body).
Proof.
  intros Hb s. specialize (Hb s). unfold transaction.
  by destruct (body s) as [[[a ev]|e|] s1].
Qed.
Lemma frames_modify f : (∀ s, v (db (f s)) = v (db s)) → frames v (modify f).
Proof. intros Hf s. apply Hf. Qed.

Section tables.
Context `{Table R}.
Hypothesis Hset : ∀ l d, v (set_rows l d) = v d.
Lemma frames_insert r : frames v (insert r).
Proof. intros s. 
  unfold insert. destruct (existsb _ (rows (db s))); [done|].
  destruct (refs (db s) r); cbn; auto.
Qed.
Lemma frames_insert_or_ignore r : frames v (insert_or_ignore r).
Proof. intros s. 
  unfold insert_or_ignore. destruct (existsb _ (rows (db s))); [done|].
  destruct (refs (db s) r); cbn; auto.
Qed.
Lemma frames_upsert r : frames v (upsert r).
Proof. intros s. 
  unfold upsert. destruct (refs (db s) r); cbn; auto.
Qed.
Lemma frames_update_where p f : frames v (update_where p f).
Proof. intros s. cbn. auto. Qed.
End tables.

Lemma frames_fetch_all `{Table R} p : frames v (fetch_all p).
Proof. done. Qed.
Lemma frames_fetch_optional `{Table R} p : frames v (fetch_optional p).
Proof. done. Qed.
Lemma frames_count `{Table R} p : frames v (count p).
Proof. done. Qed.
Lemma frames_fetch_one `{Table R} p : frames v (fetch_one p).
Proof. apply frames_bind; [done|]. done. Qed.
Lemma frames_append_event `{Platform} mode ty rt ri p :
  (∀ e d, v (with_event e d) = v d) → frames v (append_event mode ty rt ri p).
Proof. intros He s. apply He. Qed.
Lemma frames_update_control c :
  (∀ d, v (d <| control_state := c |>) = v d) → frames v (update_control c).
Proof. intros Hc s. apply Hc. Qed.
End frames.

(** ** Keeping an invariant *)

Definition keeps {A} (I : Db → Prop) (m : Prog Sys StoreError A) : Prop :=
  ∀ s, I (db s) → I (db (m s).2).

(** The part of the runs that return normally. *)
Definition keeps_done {A} (I : Db → Prop) (m : Prog Sys StoreError A) : Prop :=
  ∀ s a s', I (db s) → m s = (Done a, s') → I (db s').

Section keeps.
Context (I : Db → Prop).

Lemma keeps_bind {A A'} (m : Prog Sys StoreError A) (k : A → Prog Sys StoreError A') :
  keeps I m → (∀ a, keeps I (k a)) → keeps I (m ≫= k).
Proof.
  intros Hm Hk s Hs. specialize (Hm s Hs). unfold mbind, prog_bind.
  destruct (m s) as [[a|e|] s1]; cbn in *; [by apply Hk | done..].
Qed.
Lemma keeps_done_bind {A A'} (m : Prog Sys StoreError A) (k : A → Prog Sys StoreError A') :
  keeps_done I m → (∀ a, keeps_done I (k a)) → keeps_done I (m ≫= k).
Proof.
  intros Hm Hk s a s' Hs (b & s1 & Hb & Hr)%bind_done.
  eapply Hk; [|exact Hr]. by eapply Hm.
Qed.
Lemma keeps_keeps_done {A} (m : Prog Sys StoreError A) : keeps I m → keeps_done I m.
Proof. intros Hm s a s' Hs Hr. specialize (Hm s Hs). by rewrite Hr in Hm. Qed.
Lemma keeps_for_each {A} (l : list A) body :
  (∀ a, keeps I (body a)) → keeps I (for_each l body).
Proof. intros Hb. induction l; cbn; [by intros s|]. by apply keeps_bind. Qed.
Lemma keeps_for_collect {A A'} (l : list A) (body : A → Prog Sys StoreError A') :
  (∀ a, keeps I (body a)) → keeps I (for_collect l body).
Proof.
  intros Hb. induction l; cbn; [by intros s|]. apply keeps_bind; [done|]. intros b.
  apply keeps_bind; [done|]. by intros bs s.
Qed.
Lemma keeps_try {A} (m : Prog Sys StoreError A) :
  keeps I m → keeps I (try m : Prog Sys StoreError _).
Proof. intros Hm s Hs. specialize (Hm s Hs). unfold try. by destruct (m s) as [[]]. Qed.
Lemma keeps_ensure {A} b e (m : Prog Sys StoreError A) :
  (b = true → keeps I m) → keeps I (ensure b e;; m).
Proof. intros Hm. destruct b; [by apply Hm | by intros s]. Qed.

(** A transaction only has to keep the invariant when it commits. *)
Lemma keeps_transaction {A} (body : Prog Sys StoreError (A * _)) :
  keeps_done I body → keeps I (transaction body).
Proof.
  intros Hb s Hs. unfold transaction.
  destruct (body s) as [[[a ev]|e|] s1] eqn:Hr; cbn; [by eapply Hb | done..].
Qed.
(** The same for an operation that is only called in some states. *)
Lemma keeps_when_transaction {A} (P : Db → Prop) (body : Prog Sys StoreError (A * _)) :
  (∀ s a s', P (db s) → I (db s) → body s = (Done a, s') → I (db s')) →
  ∀ s, P (db s) → I (db s) → I (db (transaction body s).2).
Proof.
  intros Hb s HP Hs. unfold transaction.
  destruct (body s) as [[[a ev]|e|] s1] eqn:Hr; cbn; [by eapply Hb | done..].
Qed.
Lemma keeps_frames {A B} (v : Db → B) (m : Prog Sys StoreError A) :
  (∀ d d', v d = v d' → I d → I d') → frames v m → keeps I m.
Proof. intros Hp Hm s Hs. eapply Hp; [|exact Hs]. by rewrite Hm. Qed.
End keeps.

Create HintDb frames discriminated.

(** [frame]: the program is built from statements that leave [v] alone. *)
Ltac frame_step :=
  match goal with
  | |- frames _ (_ ≫= _) => apply frames_bind; [|intros ?]
  | |- frames _ (mret _) => apply frames_ret
  | |- frames _ (lift _) => apply frames_lift
  | |- frames _ (fail _) => apply frames_fail
  | |- frames _ (gets _) => apply frames_gets
  | |- frames _ (ensure _ _) => apply frames_ensure
  | |- frames _ (for_each _ _) => apply frames_for_each; intros ?
  | |- frames _ (for_collect _ _) => apply frames_for_collect; intros ?
  | |- frames _ (try _) => apply frames_try
  | |- frames _ utc_now => apply frames_utc_now
  | |- frames _ now_v7 => apply frames_now_v7
  | |- frames _ (transaction _) => apply frames_transaction
  | |- frames _ (modify _) => apply frames_modify; intros; reflexivity
  | |- frames _ (insert _) => apply frames_insert; intros; reflexivity
  | |- frames _ (insert_or_ignore _) => apply frames_insert_or_ignore; intros; reflexivity
  | |- frames _ (upsert _) => apply frames_upsert; intros; reflexivity
  | |- frames _ (update_where _ _) => apply frames_update_where; intros; reflexivity
  | |- frames _ (fetch_all _) => apply frames_fetch_all
  | |- frames _ (fetch_optional _) => apply frames_fetch_optional
  | |- frames _ (fetch_one _) => apply frames_fetch_one
  | |- frames _ (count _) => apply frames_count
  | |- frames _ (append_event _ _ _ _ _) => apply frames_append_event; intros; reflexivity
  | |- frames _ (update_control _) => apply frames_update_control; intros; reflexivity
  | |- frames _ (match ?x with _ => _ end) => destruct x
  | |- frames _ (let _ := _ in _) => cbv zeta
  | |- frames _ _ => solve [auto with frames nocore]
  end.
Ltac frame := repeat frame_step.

(** [keep_with tac]: the program keeps an invariant because its statements do,
    which [tac] shows. *)
Create HintDb keeps discriminated.
Ltac keep_with tac :=
  repeat lazymatch goal with
  | |- keeps _ (transaction _) => apply keeps_transaction, keeps_keeps_done
  | |- keeps _ (_ ≫= _) => apply keeps_bind; [|intros ?]
  | |- keeps _ (for_each _ _) => apply keeps_for_each; intros ?
  | |- keeps _ (for_collect _ _) => apply keeps_for_collect; intros ?
  | |- keeps _ (try _) => apply keeps_try
  | |- keeps _ (let _ := _ in _) => cbv zeta
  | |- keeps _ (match ?x with _ => _ end) => destruct x
  | |- keeps _ _ => first [ solve [auto with keeps nocore] | tac ]
  end.
