(* ===== verification/Auth.v ===== *)
(** * Auth: bearer authentication and scopes (auth.rs)

    What a request must carry to be let through, and what a validated
    configuration gives the registry of credentials. *)
From S2P Require Import Prelude Text DecimalSpec Json Platform Domain Venue Risk Schema StoreLogic StoreControl StorePaper Config.

Record Actor : Type := mkActor { act_id : string; act_scopes : gset string }.
Definition has_scope (self : Actor) (scope : string) : bool :=
  bool_decide (scope ∈ act_scopes self).

Record Credential : Type := mkCredential { cred_actor : Actor; digest : list N }.
Definition AuthRegistry : Type := list Credential.

(** [Sha256::digest]. *)
Class Sha256 : Type := sha256_digest : string → list N.

Section auth.
Context `{Environment} `{Sha256}.

(** [AuthRegistry::new]: the errors are those of the crates. *)
Definition new_credential (entry : AuthCredential) : outcome string Credential :=
  bytes ← ok_or "invalid hexadecimal" (hex_decode (token_sha256 entry));
  reject_if (negb (length bytes =? 32)%nat) "token digest must be 32 bytes";;
  mret (mkCredential (mkActor (actor_id entry) (list_to_set (scopes entry))) bytes).
Fixpoint AuthRegistry_new (config : list AuthCredential) : outcome string AuthRegistry :=
  match config with
  | [] => mret []
  | entry :: config' =>
      credential ← new_credential entry;
      credentials ← AuthRegistry_new config';
      mret (credential :: credentials)
  end.

(** The loop keeps the last credential that matches. *)
Definition authenticate (self : AuthRegistry) (token : string) : option Actor :=
  let d := sha256_digest token in
  foldl (λ authenticated credential,
    if digest credential ≟ d then Some (cred_actor credential) else authenticated) None self.

Definition required_scope (method path : string) : string :=
  if method ≟ "GET" then "read"
  else if path ≟ "/v1/intents" then "submit"
  else if path ≟ "/v1/cancellations" then "cancel"
  else "operate".

(** What [require_auth] answers: the inner handler runs for the actor, or the
    request is refused. *)
Inductive AuthResult : Type :=
| Allowed (actor : Actor)
| Unauthorized
| Forbidden (scope : string).

(** [header] is the Authorization header when its value is text. *)
Definition require_auth (registry : AuthRegistry) (method path : string) (header : option string)
    : AuthResult :=
  let scope := required_scope method path in
  match header with
  | None => Unauthorized
  | Some header =>
      match strip_prefix "Bearer " header with
      | None => Unauthorized
      | Some token =>
          match authenticate registry token with
          | None => Unauthorized
          | Some actor => if negb (has_scope actor scope) then Forbidden scope else Allowed actor
          end
      end
  end.

(** The body of a refusal. *)
Definition AuthFailure (r : AuthResult) (correlation_id : Value) : option (Z * Value) :=
  let body code message details := json_obj ["error" ::= json_obj ["code" ::= (code : string);
    "message" ::= (message : string); "retryable" ::= false;
    "correlation_id" ::= correlation_id; "details" ::= (details : Value)]] in
  match r with
  | Allowed _ => None
  | Unauthorized =>
      Some (401, body "AUTH_REQUIRED" "valid bearer authentication is required" (json_obj []))
  | Forbidden scope =>
      Some (403, body "AUTH_SCOPE_REQUIRED" (scope +:+ " scope is required")
        (json_obj ["required_scope" ::= scope]))
  end.

(** ** A validated configuration *)

(** A credential that the validation accepts. *)
Record credential_ok (c : AuthCredential) : Prop := {
  credential_actor : trim_is_empty (actor_id c) = false;
  credential_sha : ∃ d, hex_decode (token_sha256 c) = Some d ∧ length d = 32%nat;
  credential_scopes : scopes c ≠ [] ∧
    ∀ s, s ∈ scopes c → s ∈ ["read"; "submit"; "cancel"; "operate"];
}.
(** No two credentials share an actor or a digest. *)
Record auth_ok (l : list AuthCredential) : Prop := {
  auth_some : l ≠ [];
  auth_each : Forall credential_ok l;
  auth_actors : NoDup (actor_id <$> l);
  auth_digests : NoDup ((λ c, hex_decode (token_sha256 c)) <$> l);
}.

Lemma valid_scope_spec s : valid_scope s = true ↔ s ∈ ["read"; "submit"; "cancel"; "operate"].
Proof.
  unfold valid_scope. rewrite existsb_true_elem. split.
  - by intros (s' & Hin & <-%bool_decide_eq_true).
  - intros Hin. exists s. by rewrite bool_decide_true.
Qed.
Lemma check_scopes_done l u :
  check_scopes l = Done u ↔ ∀ s, s ∈ l → s ∈ ["read"; "submit"; "cancel"; "operate"].
Proof.
  destruct u. induction l as [|s l IH]; cbn [check_scopes].
  - split; [|done]. intros _ s Hs. by apply not_elem_of_nil in Hs.
  - rewrite outcome_bind_done. setoid_rewrite reject_if_done. setoid_rewrite negb_false_iff.
    setoid_rewrite valid_scope_spec. setoid_rewrite IH. split.
    + intros (_ & Hs & Hl) s' [->|Hs']%elem_of_cons; [done|]. by apply Hl.
    + intros Hl. exists tt. split; [apply Hl; left|]. intros s' Hs'. apply Hl. by right.
Qed.
Lemma credential_digest_done t d :
  credential_digest t = Done d ↔ hex_decode t = Some d ∧ length d = 32%nat.
Proof.
  unfold credential_digest. rewrite outcome_bind_done. setoid_rewrite ok_or_done.
  setoid_rewrite outcome_bind_done. setoid_rewrite reject_if_done. setoid_rewrite negb_false_iff.
  setoid_rewrite Nat.eqb_eq. split.
  - by intros (d' & Hd & _ & Hl & [= ->]).
  - intros [Hd Hl]. exists d. split; [done|]. by exists tt.
Qed.

#[local] Opaque credential_digest check_scopes.
Lemma check_credentials_done l actors digests u :
  check_credentials actors digests l = Done u ↔
  Forall credential_ok l ∧ NoDup (actor_id <$> l) ∧
  NoDup ((λ c, hex_decode (token_sha256 c)) <$> l) ∧
  (∀ c, c ∈ l → actor_id c ∉ actors) ∧
  (∀ c d, c ∈ l → hex_decode (token_sha256 c) = Some d → d ∉ digests).
Proof.
  destruct u. revert actors digests. induction l as [|c l IH]; intros actors digests.
  { cbn. split; [|done]. intros _. split_and!; try constructor; intros c; intros;
      exfalso; by eapply not_elem_of_nil. }
  cbn [check_credentials]. repeat setoid_rewrite outcome_bind_done.
  repeat setoid_rewrite reject_if_done. setoid_rewrite credential_digest_done.
  setoid_rewrite check_scopes_done. setoid_rewrite bool_decide_eq_false. setoid_rewrite IH.
  cbn [fmap list_fmap]. rewrite Forall_cons, !NoDup_cons. split.
  - intros (_ & Ha & _ & Hna & d & [Hd Hl] & _ & Hnd & _ & Hne & _ & Hs & Hall & Ha' & Hd' & Hin & Hid).
    split_and!; [|done| |done| |done| |].
    + split; [done|by exists d|done].
    + intros (c' & Hc & Hc')%list_elem_of_fmap. apply (Hin c' Hc'). rewrite Hc. left.
    + intros (c' & Hc & Hc')%list_elem_of_fmap. apply (Hid c' d Hc'); [congruence|left].
    + intros c' [->|Hc']%elem_of_cons; [done|]. intros Hx. apply (Hin c' Hc'). by right.
    + intros c' d' [->|Hc']%elem_of_cons He; [by simplify_eq|]. intros Hx.
      apply (Hid c' d' Hc' He). by right.
  - intros ([[Ha (d & Hd & Hl) [Hne Hs]] Hall] & [Hn1 Ha'] & [Hn2 Hd'] & Hin & Hid).
    exists tt. split; [done|]. exists tt. split; [apply Hin; left|]. exists d. split; [done|].
    exists tt. split; [apply (Hid c d); [left|done]|]. exists tt. split; [done|]. exists tt.
    split; [done|]. split_and!; [done..| |].
    + intros c' Hc' [Heq|Hx]%elem_of_cons; [|by apply (Hin c'); [right|]].
      apply Hn1. rewrite <-Heq. by apply list_elem_of_fmap_2.
    + intros c' d' Hc' He [->|Hx]%elem_of_cons; [|by apply (Hid c' d'); [right| |]].
      apply Hn2, list_elem_of_fmap. exists c'. split; [congruence|done].
Qed.

Lemma validate_auth_done c u : validate_auth c = Done u ↔ auth_ok (auth c).
Proof.
  unfold validate_auth. rewrite outcome_bind_done. setoid_rewrite reject_if_done.
  setoid_rewrite bool_decide_eq_false. setoid_rewrite check_credentials_done. split.
  - by intros (_ & Hne & Hall & Ha & Hd & _).
  - intros []. exists tt. split_and!; try done; intros; apply not_elem_of_nil.
Qed.

(** A registry of distinct digests finds the credential of a digest. *)
Lemma authenticate_spec (r : AuthRegistry) token a :
  NoDup (digest <$> r) →
  authenticate r token = Some a ↔
  ∃ c, c ∈ r ∧ digest c = sha256_digest token ∧ cred_actor c = a.
Proof.
  unfold authenticate. cbv zeta.
  assert (∀ acc, NoDup (digest <$> r) →
    foldl (λ authenticated c, if digest c ≟ sha256_digest token then Some (cred_actor c)
      else authenticated) acc r = Some a ↔
    (∃ c, c ∈ r ∧ digest c = sha256_digest token ∧ cred_actor c = a) ∨
    (acc = Some a ∧ sha256_digest token ∉ digest <$> r)) as Hgen.
  { induction r as [|c r IH]; intros acc Hnd.
    - cbn. split; [intros ->; right; split; [done|apply not_elem_of_nil]|].
      intros [(c & Hc & _)|[-> _]]; [by apply not_elem_of_nil in Hc|done].
    - cbn [foldl fmap list_fmap] in *. apply NoDup_cons in Hnd as [Hn Hnd]. rewrite IH by done.
      destruct (digest c ≟ sha256_digest token) eqn:E.
      + apply bool_decide_eq_true in E. split.
        * intros [(c' & ? & ? & ?)|[[= <-] _]]; left; [exists c'|exists c]; set_solver.
        * intros [(c' & [->|Hc']%elem_of_cons & Hd & Ha)|[_ Hx]]; [right|left; by exists c'|].
          -- rewrite Ha, <-Hd. done.
          -- exfalso. apply Hx. rewrite E. left.
      + apply bool_decide_eq_false in E. split.
        * intros [(c' & ? & ? & ?)|[-> Hx]]; [left; exists c'; set_solver|right].
          split; [done|]. intros [?|?]%elem_of_cons; congruence.
        * intros [(c' & [->|Hc']%elem_of_cons & Hd & Ha)|[-> Hx]]; [done|left; by exists c'|right].
          split; [done|]. intros Hin. apply Hx. by right. }
  intros Hnd. rewrite Hgen by done. naive_solver.
Qed.

(** The registry of a validated configuration holds its credentials. *)
Definition holds (e : AuthCredential) (c : Credential) : Prop :=
  hex_decode (token_sha256 e) = Some (digest c) ∧
  cred_actor c = mkActor (actor_id e) (list_to_set (scopes e)).
Lemma AuthRegistry_new_done l :
  Forall credential_ok l → ∃ r, AuthRegistry_new l = Done r ∧ Forall2 holds l r.
Proof.
  induction 1 as [|e l [_ (d & Hd & Hl) _] _ (r & Hr & HF)]; [by exists []|].
  cbn [AuthRegistry_new]. unfold new_credential. rewrite Hd. cbn. rewrite Hl, Hr. cbn.
  eexists. split; [done|]. by constructor.
Qed.
Lemma holds_digests l r :
  Forall2 holds l r → (λ e, hex_decode (token_sha256 e)) <$> l = Some <$> (digest <$> r).
Proof. induction 1 as [|e c l r [He _] _ IH]; [done|]. cbn. by rewrite He, IH. Qed.

(** The registry of a validated configuration knows its tokens. *)
Lemma authenticate_configured l r token actor :
  auth_ok l → AuthRegistry_new l = Done r →
  authenticate r token = Some actor ↔
  ∃ entry, entry ∈ l ∧ hex_decode (token_sha256 entry) = Some (sha256_digest token) ∧
    actor = mkActor (actor_id entry) (list_to_set (scopes entry)).
Proof.
  intros [Hne Hall Ha Hd] Hr. destruct (AuthRegistry_new_done _ Hall) as (r' & Hr' & HF).
  rewrite Hr in Hr'. injection Hr' as <-.
  assert (NoDup (digest <$> r)) as Hnd.
  { rewrite (holds_digests _ _ HF) in Hd. by apply NoDup_fmap_1 in Hd. }
  rewrite authenticate_spec by done. split.
  - intros (c & Hc & Hdg & Hac). apply list_elem_of_lookup in Hc as [i Hi].
    destruct (Forall2_lookup_r _ _ _ _ _ HF Hi) as (e & He & [Hdec Hact]).
    exists e. split; [by apply list_elem_of_lookup_2 in He|]. split; congruence.
  - intros (e & He & Hdec & ->). apply list_elem_of_lookup in He as [i Hi].
    destruct (Forall2_lookup_l _ _ _ _ _ HF Hi) as (c & Hc & [Hdec' Hact]).
    exists c. split; [by apply list_elem_of_lookup_2 in Hc|]. split; congruence.
Qed.
Lemma has_scope_list id l scope : has_scope (mkActor id (list_to_set l)) scope = true ↔ scope ∈ l.
Proof. unfold has_scope. rewrite bool_decide_eq_true. cbn. by rewrite elem_of_list_to_set. Qed.

(** C34. Only the holder of a configured token acts, and only within its scopes.
    When a configuration passes [Config::validate], the registry of its
    credentials can be built, and [require_auth] lets a request through as an
    actor exactly when the Authorization header is a bearer token whose SHA-256
    digest is the one configured for that actor, and the actor has the scope the
    method and the path ask for. *)
Theorem require_auth_decides config method path header actor :
  Config_validate config = Done tt →
  ∃ registry, AuthRegistry_new (auth config) = Done registry ∧
    (require_auth registry method path header = Allowed actor ↔
     ∃ token entry, header = Some ("Bearer " +:+ token) ∧ entry ∈ auth config ∧
       hex_decode (token_sha256 entry) = Some (sha256_digest token) ∧
       actor = mkActor (actor_id entry) (list_to_set (scopes entry)) ∧
       required_scope method path ∈ scopes entry).
Proof.
  intros (u & Hok%validate_auth_done & _)%outcome_bind_done.
  destruct (AuthRegistry_new_done _ (auth_each _ Hok)) as (r & Hr & _). exists r. split; [done|].
  unfold require_auth. cbv zeta. split.
  - destruct header as [h|]; [|done]. destruct (strip_prefix _ h) as [token|] eqn:Hp; [|done].
    apply strip_prefix_spec in Hp as ->. destruct (authenticate r token) as [a|] eqn:Hau; [|done].
    destruct (has_scope a _) eqn:Hs; [|done]. intros [= <-].
    apply (authenticate_configured _ _ _ _ Hok Hr) in Hau as (e & He & Hdec & ->).
    apply has_scope_list in Hs. by exists token, e.
  - intros (token & e & -> & He & Hdec & -> & Hs).
    rewrite (proj2 (strip_prefix_spec _ _ token)) by done.
    rewrite (proj2 (authenticate_configured _ _ token _ Hok Hr)) by by exists e.
    by rewrite (proj2 (has_scope_list _ _ _) Hs).
Qed.

(** ** The configurations that are accepted *)

Record runtime_ok (c : Config) : Prop := {
  runtime_server : max_body_bytes (server c) ≠ 0 ∧ request_timeout_ms (server c) ≠ 0;
  runtime_retention : cfg_event_retention (storage c) ≠ 0;
  runtime_reconciliation : 1 ≤ reconciliation_interval_seconds (polymarket c) ≤ 60;
  runtime_geoblock : 1 ≤ geoblock_interval_seconds (polymarket c) ≤ 300;
  runtime_heartbeat : 1 ≤ heartbeat_interval_seconds (polymarket c) ≤ 5;
}.

(** [0x] and forty hexadecimal digits that are not all zero. *)
Definition evm_address (a : string) : Prop := ∃ digits,
  a = "0x" +:+ digits ∧ string_length digits = 40%nat ∧
  Forall (λ b, is_ascii_hexdigit b = true) (bytes digits) ∧ ∃ b, b ∈ bytes digits ∧ b ≠ 48%N.
Definition has_prefix (p s : string) : Prop := ∃ rest, s = p +:+ rest.

Record live_ok (c : Config) : Prop := {
  live_built : live_feature = true ∧ enable_live_trading = Some "YES";
  live_signer : ∃ a, cfg_signer_address (polymarket c) = Some a ∧ evm_address a;
  live_funder : ∃ a, cfg_funder_address (polymarket c) = Some a ∧ evm_address a;
  live_tokens : ∀ e, e ∈ auth c → ∃ b, b ∈ bytes (token_sha256 e) ∧ b ≠ 48%N;
  live_chain : chain_id (polymarket c) = 137 ∧ expected_protocol (polymarket c) = 2;
  live_endpoints : has_prefix "https://" (clob_url (polymarket c)) ∧
    has_prefix "https://" (data_api_url (polymarket c)) ∧
    has_prefix "https://" (geoblock_url (polymarket c)) ∧
    has_prefix "wss://" (websocket_url (polymarket c));
  live_key : is_Some (private_key_file (polymarket c));
  live_bind : is_loopback (ip (bind (server c))) = true ∨ allow_non_loopback (server c) = true;
  live_metrics : is_loopback (ip (metrics_bind (server c))) = true;
}.

Lemma within_spec lo hi z : within lo hi z = true ↔ lo ≤ z ≤ hi.
Proof. unfold within. rewrite andb_true_iff, !Z.leb_le. done. Qed.
Lemma validate_runtime_done c u : validate_runtime_bounds c = Done u ↔ runtime_ok c.
Proof.
  destruct u. unfold validate_runtime_bounds. repeat setoid_rewrite outcome_bind_done.
  repeat setoid_rewrite reject_if_done. setoid_rewrite negb_false_iff.
  setoid_rewrite within_spec. setoid_rewrite orb_false_iff. setoid_rewrite Z.eqb_neq. split.
  - by intros (_ & ? & _ & ? & _ & ? & _ & ? & ?).
  - intros []. by do 4 (exists tt; split; [done|]).
Qed.

Lemma existsb_bytes p s : existsb p (bytes s) = true ↔ ∃ b, b ∈ bytes s ∧ p b = true.
Proof. apply existsb_true_elem. Qed.
Lemma nonzero_byte b : negb (b =? 48)%N = true ↔ b ≠ 48%N.
Proof. by rewrite negb_true_iff, N.eqb_neq. Qed.
Lemma string_length_app a b :
  string_length (a +:+ b) = (string_length a + string_length b)%nat.
Proof. induction a as [|c a IH]; [done|]. change (S (string_length (a +:+ b)) = S (string_length a + string_length b)). by rewrite IH. Qed.
Lemma valid_evm_address_spec a : valid_evm_address a = true ↔ evm_address a.
Proof.
  unfold valid_evm_address, evm_address. rewrite andb_true_iff, Nat.eqb_eq. split.
  - intros [Hl Hv]. destruct (strip_prefix "0x" a) as [rest|] eqn:Hp; [|done].
    apply strip_prefix_spec in Hp as ->. apply andb_true_iff in Hv as [Hh Hz].
    exists rest. split; [done|]. rewrite string_length_app in Hl. cbn in Hl.
    split; [lia|]. split.
    + apply Forall_forall. intros b Hb. unfold all_bytes in Hh. rewrite forallb_forall in Hh.
      apply Hh. by apply list_elem_of_In.
    + apply existsb_bytes in Hz as (b & Hb & Hn). exists b. by apply nonzero_byte in Hn.
  - intros (rest & -> & Hl & Hh & b & Hb & Hn). split; [rewrite string_length_app, Hl; done|].
    rewrite (proj2 (strip_prefix_spec _ _ rest)) by done. apply andb_true_iff. split.
    + unfold all_bytes. apply forallb_forall. intros x Hx. rewrite Forall_forall in Hh.
      apply Hh. by apply list_elem_of_In.
    + apply existsb_bytes. exists b. by rewrite nonzero_byte.
Qed.
Lemma check_address_done name address u :
  check_address name address = Done u ↔ ∃ a, address = Some a ∧ evm_address a.
Proof.
  destruct u. unfold check_address. rewrite outcome_bind_done. setoid_rewrite ok_or_done.
  setoid_rewrite reject_if_done. setoid_rewrite negb_false_iff.
  by setoid_rewrite valid_evm_address_spec.
Qed.
Lemma placeholder_spec e :
  placeholder_token e = false ↔ ∃ b, b ∈ bytes (token_sha256 e) ∧ b ≠ 48%N.
Proof.
  unfold placeholder_token, all_bytes. rewrite <-not_true_iff_false, forallb_forall. split.
  - intros Hn. destruct (existsb (λ b, negb (b =? 48)%N) (bytes (token_sha256 e))) eqn:E.
    + apply existsb_bytes in E as (b & Hb & Hz). exists b. by apply nonzero_byte in Hz.
    + destruct Hn. intros b Hb. apply N.eqb_eq. destruct (decide (b = 48%N)) as [|Hz]; [done|].
      apply not_true_iff_false in E. destruct E. apply existsb_bytes. exists b.
      split; [by apply list_elem_of_In|by apply nonzero_byte].
  - intros (b & Hb & Hz) Hall. apply Hz, N.eqb_eq, Hall. by apply list_elem_of_In.
Qed.
Lemma no_placeholder_spec l :
  existsb placeholder_token l = false ↔
  ∀ e, e ∈ l → ∃ b, b ∈ bytes (token_sha256 e) ∧ b ≠ 48%N.
Proof.
  rewrite <-not_true_iff_false, existsb_true_elem. split.
  - intros Hn e He. apply placeholder_spec. apply not_true_iff_false. eauto.
  - intros Hall (e & He & Hp). apply Hall, placeholder_spec in He. congruence.
Qed.
Lemma secure_endpoints_spec p :
  secure_endpoints p = true ↔ has_prefix "https://" (clob_url p) ∧
    has_prefix "https://" (data_api_url p) ∧ has_prefix "https://" (geoblock_url p) ∧
    has_prefix "wss://" (websocket_url p).
Proof. unfold secure_endpoints. rewrite !andb_true_iff, !starts_with_spec. unfold has_prefix. tauto. Qed.

#[local] Opaque check_address secure_endpoints.
Lemma validate_live_done c u : validate_live c = Done u ↔ live_ok c.
Proof.
  destruct u. unfold validate_live. repeat setoid_rewrite outcome_bind_done.
  repeat setoid_rewrite reject_if_done. repeat setoid_rewrite check_address_done.
  setoid_rewrite no_placeholder_spec. repeat setoid_rewrite negb_false_iff.
  setoid_rewrite secure_endpoints_spec. setoid_rewrite orb_false_iff.
  setoid_rewrite andb_false_iff. repeat setoid_rewrite negb_false_iff.
  setoid_rewrite bool_decide_eq_true. setoid_rewrite bool_decide_eq_false.
  repeat setoid_rewrite Z.eqb_eq. split.
  - intros (_ & ? & _ & ? & _ & ? & _ & ? & _ & ? & _ & ? & _ & ? & _ & Hk & _ & ? & ?).
    split; try done. by destruct (private_key_file _).
  - intros [[] ???? ? [k Hk] ??]. do 9 (exists tt; split; [first [done|by rewrite Hk]|]). done.
Qed.

#[local] Opaque validate_auth validate_runtime_bounds validate_live.
(** C35. [Config::validate] accepts exactly the configurations that make sense:
    credentials with distinct actors, distinct 32-byte digests and known scopes,
    positive bounds and intervals in their ranges; and in live mode the
    interlocks: a live build with its environment variable set, signer and
    funder addresses, no placeholder token, the one supported chain and
    protocol, TLS endpoints, a key file, a loopback listener unless allowed
    otherwise, and a loopback metrics listener. *)
Theorem config_validate_iff c :
  Config_validate c = Done tt ↔
  auth_ok (auth c) ∧ runtime_ok c ∧ (cfg_mode c = Live → live_ok c).
Proof.
  unfold Config_validate. repeat setoid_rewrite outcome_bind_done.
  setoid_rewrite validate_auth_done. setoid_rewrite validate_runtime_done.
  destruct (cfg_mode c ≟ Live) eqn:E.
  - apply bool_decide_eq_true in E. setoid_rewrite validate_live_done. naive_solver.
  - apply bool_decide_eq_false in E. naive_solver.
Qed.
End auth.

Section fixtures.
(** Two credentials with digests of repeated bytes, and the decoder and hash
    that know them. *)
Definition FixEnvironment : Environment := {|
  live_feature := true;
  enable_live_trading := Some "YES";
  hex_decode s := if s ≟ "0101" then Some (repeat 1%N 32) else
                  if s ≟ "0202" then Some (repeat 2%N 32) else None;
|}.
#[local] Existing Instance FixEnvironment.
Definition FixSha256 : Sha256 := λ token, if token ≟ "strategy-token" then repeat 1%N 32 else [].
#[local] Existing Instance FixSha256.
Definition fix_config : Config :=
  mkConfig Paper ServerConfig_default (mkStorageConfig "test.sqlite3" "backups" 100)
    PaperConfig_default PolymarketConfig_default
    [mkAuthCredential "strategy" "0101" ["read"; "submit"];
     mkAuthCredential "operator" "0202" ["read"; "operate"]].

Lemma require_auth_decides_witness :
  ∃ registry, AuthRegistry_new (auth fix_config) = Done registry ∧
    (require_auth registry "POST" "/v1/intents" (Some "Bearer strategy-token") =
       Allowed (mkActor "strategy" {["read"; "submit"]}) ↔
     ∃ token entry, Some "Bearer strategy-token" = Some ("Bearer " +:+ token) ∧
       entry ∈ auth fix_config ∧
       hex_decode (token_sha256 entry) = Some (sha256_digest token) ∧
       mkActor "strategy" {["read"; "submit"]} =
         mkActor (actor_id entry) (list_to_set (scopes entry)) ∧
       required_scope "POST" "/v1/intents" ∈ scopes entry).
Proof. apply (require_auth_decides fix_config). vm_compute. reflexivity. Defined.

Example auth_example :
  match AuthRegistry_new (auth fix_config) with
  | Done registry => require_auth registry "POST" "/v1/control/resume" (Some "Bearer strategy-token")
  | _ => Unauthorized
  end = Forbidden "operate".
Proof. vm_compute. reflexivity. Qed.
End fixtures.
