(* ===== verification/Paging.v ===== *)
(** * Paging: following the cursors of a listing

    A page holds the first rows after a cursor, in the order of creation time
    and id; the lemmas say that the rows after the last row of a page are the
    ones the page left, so that following the cursors visits every row once. *)
From stdpp Require Import sorting.
From S2P Require Import Prelude Text DecimalSpec RefDecimal Json Platform Domain Venue Risk Schema StoreIntents StoreLogic.

#[export] Instance page_le_total : Total page_le.
Proof. intros [a1 a2] [b1 b2]. unfold page_le. cbn. lia. Qed.
#[export] Instance page_le_trans : Transitive page_le.
Proof. intros [a1 a2] [b1 b2] [c1 c2]. unfold page_le. cbn. lia. Qed.
#[export] Instance page_le_antisymm : AntiSymm (=) page_le.
Proof. intros [a1 a2] [b1 b2]. unfold page_le. cbn. intros. f_equal; lia. Qed.

Lemma after_cursor_spec c k : after_cursor (Some c) k = true ↔ page_le c k ∧ c ≠ k.
Proof.
  destruct c as [c1 c2], k as [k1 k2]. unfold after_cursor, page_le. cbn.
  rewrite orb_true_iff, andb_true_iff, Z.ltb_lt, Z.eqb_eq, N.ltb_lt. split.
  - intros Hc. split; [lia|]. intros [= -> ->]. lia.
  - intros [[Hc|[-> Hc]] Hne]; [by left|right]. split; [done|].
    assert (c2 ≠ k2) by congruence. lia.
Qed.

Section paging.
Context {R : Type} (key : R → DateTime * Uuid).
Notation le := (λ a b, page_le (key a) (key b)).
#[local] Instance le_total : Total le.
Proof. intros a b. apply page_le_total. Qed.
#[local] Instance le_trans : Transitive le.
Proof. intros a b c. apply page_le_trans. Qed.

Lemma order_by_sorted l : StronglySorted le (order_by key l).
Proof. apply Sorted_StronglySorted, (Sorted_merge_sort le); apply _. Qed.
Lemma order_by_perm l : order_by key l ≡ₚ l.
Proof. apply merge_sort_Permutation. Qed.

(** The rows after a cursor, in their order. *)
Definition rest (cursor : option (DateTime * Uuid)) (l : list R) : list R :=
  order_by key (List.filter (λ r, after_cursor cursor (key r)) l).

Lemma rest_perm cursor l : rest cursor l ≡ₚ List.filter (λ r, after_cursor cursor (key r)) l.
Proof. apply order_by_perm. Qed.
Lemma rest_none l : rest None l = order_by key l.
Proof.
  unfold rest. f_equal. by apply filter_all.
Qed.

Lemma sorted_after l1 x l2 :
  StronglySorted le (l1 ++ x :: l2) → NoDup (key <$> l1 ++ x :: l2) →
  List.filter (λ r, after_cursor (Some (key x)) (key r)) (l1 ++ x :: l2) = l2.
Proof.
  intros [Hle [_ [Hx Hs]%StronglySorted_cons]]%StronglySorted_app Hnd.
  rewrite List.filter_app. cbn -[after_cursor].
  rewrite fmap_app in Hnd. apply NoDup_app in Hnd as (_ & Hd & Hnd). cbn in Hnd.
  apply NoDup_cons in Hnd as [Hnx _]. rewrite Forall_forall in Hx.
  rewrite (filter_none _ l1), (filter_all _ l2); cbn -[after_cursor].
  - destruct (after_cursor _ _) eqn:E; [|done]. by apply after_cursor_spec in E as [_ []].
  - intros r Hr. apply after_cursor_spec. split; [by apply Hx|].
    intros E. apply Hnx. rewrite E. by apply list_elem_of_fmap_2.
  - intros r Hr. apply not_true_iff_false. intros [Hr' Hne]%after_cursor_spec.
    apply Hne, (anti_symm page_le); [done|]. apply Hle; [done|left].
Qed.

(** The rest after the last row of a page is what the page left. *)
Lemma rest_next cursor l l1 x l2 :
  NoDup (key <$> l) → rest cursor l = l1 ++ x :: l2 → rest (Some (key x)) l = l2.
Proof.
  intros Hnd E.
  assert (Hs : StronglySorted le (l1 ++ x :: l2)) by (rewrite <-E; apply order_by_sorted).
  assert (Hp := rest_perm cursor l). rewrite E in Hp.
  assert (Hndp : NoDup (key <$> l1 ++ x :: l2)).
  { rewrite Hp. by apply nodup_key_filter. }
  assert (Hnd' : ∀ a b, a ∈ l → b ∈ l → key a = key b → a = b).
  { intros a b Ha Hb Hk. by apply (nodup_key_eq key l). }
  assert (Hrest : rest (Some (key x)) l ≡ₚ l2).
  { rewrite <-(sorted_after l1 x l2) by done. rewrite rest_perm, Hp, filter_filter.
    rewrite (List.filter_ext_in
      (λ r, after_cursor cursor (key r) && after_cursor (Some (key x)) (key r))
      (λ r, after_cursor (Some (key x)) (key r))); [done|].
    intros r Hr.
    destruct (after_cursor (Some (key x)) (key r)) eqn:Er; [|by rewrite andb_false_r].
    rewrite andb_true_r. destruct cursor as [c|]; [|done].
    apply after_cursor_spec. apply after_cursor_spec in Er as [Hxr Hne].
    assert (x ∈ List.filter (λ r, after_cursor (Some c) (key r)) l) as Hin.
    { rewrite <-Hp. apply elem_of_app. right. left. }
    apply elem_of_filter_b in Hin as [[Hcx Hnc]%after_cursor_spec _].
    split; [by etrans|]. intros ->. apply Hnc. by apply (anti_symm page_le). }
  apply (StronglySorted_unique_strong le); [|apply order_by_sorted| |done].
  - intros a b Ha Hb Hab Hba. apply Hnd'; [| |by apply (anti_symm page_le)].
    + rewrite rest_perm in Ha. by apply elem_of_filter_b in Ha as [_ ?].
    + rewrite <-Hrest, rest_perm in Hb. by apply elem_of_filter_b in Hb as [_ ?].
  - apply StronglySorted_app in Hs as (_ & _ & [_ Hs]%StronglySorted_cons). done.
Qed.
End paging.
