(* ===== verification/PaperFills.v ===== *)
(** * PaperFills: the fills of the paper venue against exact arithmetic

    [walk_book] computes with decimals, which round and overflow.  The same walk
    over the rationals is its reference: where every number on the way is a
    decimal, the two agree, and what the exact walk fills stays within the
    book, the budget of the order and its price protection. *)
From stdpp Require Import sorting.
From S2P Require Import Prelude Text DecimalSpec RefDecimal Json Platform Domain Venue Fixtures Risk Schema StoreIntents StoreRisk StoreOrders StoreControl StorePaper StoreLogic PaperVenue.

(** ** The exact walk *)

Record QFill : Type := mkQFill { q_shares : Q; q_quote : Q; q_fee : Q; q_complete : bool }.
Definition q_empty : QFill := mkQFill 0 0 0 false.
Definition q_dust : Q := 1 # 1000000.
(** The smaller of two numbers, the first when they are equal. *)
Definition q_min (a b : Q) : Q := if Qle_bool a b then a else b.

Definition q_add (fill : QFill) (shares quote fee : Q) : QFill :=
  mkQFill (q_shares fill + shares) (q_quote fill + quote) (q_fee fill + fee) (q_complete fill).
Definition q_done (fill : QFill) : QFill :=
  mkQFill (q_shares fill) (q_quote fill) (q_fee fill) true.
Definition q_numbers (fill : QFill) : list Q := [q_shares fill; q_quote fill; q_fee fill].

(** The fill, and every number computed on the way. *)
Fixpoint exact_asks (fee_rate : Q) (fill : QFill) (remaining : Q) (levels : list (Q * Q))
    : QFill * list Q :=
  match levels with
  | [] => (fill, [])
  | (p, s) :: levels' =>
      let per_share := p * (1 + fee_rate) in
      let shares := q_min s (remaining / per_share) in
      let quote := shares * p in
      let fee := quote * fee_rate in
      let fill' := q_add fill shares quote fee in
      let rest := remaining - (quote + fee) in
      let here := [1 + fee_rate; per_share; remaining / per_share; quote; fee; quote + fee; rest]
        ++ q_numbers fill' in
      if Qle_bool rest q_dust then (q_done fill', here)
      else let '(r, more) := exact_asks fee_rate fill' rest levels' in (r, here ++ more)
  end%Q.
Fixpoint exact_bids (fee_rate : Q) (fill : QFill) (remaining : Q) (levels : list (Q * Q))
    : QFill * list Q :=
  match levels with
  | [] => (fill, [])
  | (p, s) :: levels' =>
      let shares := q_min s remaining in
      let quote := shares * p in
      let fee := quote * fee_rate in
      let fill' := q_add fill shares quote fee in
      let rest := remaining - shares in
      let here := [quote; fee; rest] ++ q_numbers fill' in
      if Qle_bool rest q_dust then (q_done fill', here)
      else let '(r, more) := exact_bids fee_rate fill' rest levels' in (r, here ++ more)
  end%Q.
Definition exact_walk (side : Side) (fee_rate requested : Q) (levels : list (Q * Q))
    : QFill * list Q :=
  match side with
  | Buy => exact_asks fee_rate q_empty requested levels
  | Sell => exact_bids fee_rate q_empty requested levels
  end.

Fixpoint depth (levels : list (Q * Q)) : Q :=
  match levels with [] => 0 | l :: levels' => l.2 + depth levels' end%Q.

(** A level the walk may take from: a positive price, no worse than [worst]. *)
Definition level_ok (side : Side) (worst : Q) (l : Q * Q) : Prop :=
  (0 < l.1)%Q ∧ (0 <= l.2)%Q ∧
  match side with Buy => (l.1 <= worst)%Q | Sell => (worst <= l.1)%Q end.

(** What a fill uses of the order: quote and fees of a buy, shares of a sell. *)
Definition used (side : Side) (f : QFill) : Q :=
  match side with Buy => q_quote f + q_fee f | Sell => q_shares f end.

#[local] Arguments Qplus : simpl never.
#[local] Arguments Qminus : simpl never.
#[local] Arguments Qmult : simpl never.
#[local] Arguments Qdiv : simpl never.
#[local] Arguments Qle_bool : simpl never.

Record sound_fill (side : Side) (fee_rate requested worst : Q) (levels : list (Q * Q))
    (f : QFill) : Prop := {
  sound_shares : (0 <= q_shares f <= depth levels)%Q;
  sound_fee : (q_fee f == q_quote f * fee_rate)%Q;
  sound_price : match side with
    | Buy => (0 <= q_quote f <= worst * q_shares f)%Q
    | Sell => (worst * q_shares f <= q_quote f)%Q
    end;
  sound_budget : (used side f <= requested)%Q;
  sound_complete : if q_complete f then (requested - used side f <= q_dust)%Q
                   else (q_shares f == depth levels)%Q;
}.

Lemma q_min_spec a b : (q_min a b <= a)%Q ∧ (q_min a b <= b)%Q ∧ (q_min a b = a ∨ q_min a b = b).
Proof.
  unfold q_min. destruct (Qle_bool a b) eqn:E.
  - apply Qle_bool_iff in E. split_and!; [lra|done|by left].
  - apply not_true_iff_false in E. rewrite Qle_bool_iff in E. split_and!; [lra|lra|by right].
Qed.

(** What a walk adds to a fill, level by level. *)
Definition extends (side : Side) (fee_rate remaining worst : Q) (levels : list (Q * Q))
    (f f' : QFill) : Prop :=
  sound_fill side fee_rate remaining worst levels
    (mkQFill (q_shares f' - q_shares f) (q_quote f' - q_quote f) (q_fee f' - q_fee f)
      (q_complete f')).

Lemma buy_level fee worst rem p s :
  level_ok Buy worst (p, s) → (0 <= fee)%Q → (0 <= rem)%Q →
  let shares := q_min s (rem / (p * (1 + fee))) in
  (0 <= shares <= s)%Q ∧ (0 <= shares * p <= worst * shares)%Q ∧
  (shares * p + shares * p * fee <= rem)%Q ∧
  ((shares == s)%Q ∨ (shares * p + shares * p * fee == rem)%Q).
Proof.
  intros (Hp & Hs & Hw) Hfee Hrem. cbn in Hp, Hs, Hw. intros shares.
  set (per := (p * (1 + fee))%Q). assert (0 < per)%Q as Hper by (unfold per; nra).
  set (aff := (rem / per)%Q).
  assert (aff * per == rem)%Q as Haff by (unfold aff; field; lra).
  assert (0 <= aff)%Q as Haff0 by nra.
  destruct (q_min_spec s aff) as (Hle1 & Hle2 & Hor). fold shares in Hle1, Hle2, Hor.
  change (q_min s aff) with shares in *.
  assert (0 <= shares)%Q as H0 by (destruct Hor as [->| ->]; done).
  assert (shares * p + shares * p * fee == shares * per)%Q as Hcost by (unfold per; ring).
  split; [done|]. split; [nra|]. split; [rewrite Hcost; nra|].
  rewrite Hcost. destruct Hor as [->| ->]; [left; done|right; done].
Qed.

Lemma sell_level worst rem p s :
  level_ok Sell worst (p, s) → (0 <= rem)%Q →
  let shares := q_min s rem in
  (0 <= shares <= s)%Q ∧ (worst * shares <= shares * p)%Q ∧ (shares <= rem)%Q ∧
  ((shares == s)%Q ∨ (shares == rem)%Q).
Proof.
  intros (Hp & Hs & Hw) Hrem. cbn in Hp, Hs, Hw. intros shares.
  destruct (q_min_spec s rem) as (Hle1 & Hle2 & Hor). fold shares in Hle1, Hle2, Hor.
  assert (0 <= shares)%Q as H0 by (destruct Hor as [->| ->]; done).
  split; [done|]. split; [nra|]. split; [done|].
  destruct Hor as [->| ->]; [left; done|right; done].
Qed.

Lemma depth_nonneg side worst levels :
  Forall (level_ok side worst) levels → (0 <= depth levels)%Q.
Proof. induction 1 as [|l levels (_ & Hl & _) _ IH]; cbn; lra. Qed.

Lemma extends_nil side fee rem worst f :
  q_complete f = false → (0 <= rem)%Q → extends side fee rem worst [] f f.
Proof.
  intros Hf Hrem. unfold extends. split; cbn; rewrite ?Hf.
  - lra.
  - lra.
  - destruct side; lra.
  - destruct side; cbn; lra.
  - lra.
Qed.

(** The last level the walk takes, and one before it. *)
Lemma extends_last side fee rem worst l levels f sh quote :
  Forall (level_ok side worst) levels → (0 <= sh <= l.2)%Q →
  match side with Buy => 0 <= quote <= worst * sh | Sell => worst * sh <= quote end%Q →
  let cost := match side with Buy => quote + quote * fee | Sell => sh end%Q in
  (cost <= rem)%Q → (rem - cost <= q_dust)%Q →
  extends side fee rem worst (l :: levels) f (q_done (q_add f sh quote (quote * fee)%Q)).
Proof.
  intros Hls%depth_nonneg Hsh Hq cost Hc Hd. unfold extends.
  split; cbn; destruct side; subst cost; cbn in *; try lra; ring_simplify; lra.
Qed.
Lemma extends_step side fee rem worst l levels f r sh quote :
  (0 <= sh <= l.2)%Q →
  match side with Buy => 0 <= quote <= worst * sh | Sell => worst * sh <= quote end%Q →
  let cost := match side with Buy => quote + quote * fee | Sell => sh end%Q in
  (sh == l.2)%Q →
  extends side fee (rem - cost) worst levels (q_add f sh quote (quote * fee)%Q) r →
  extends side fee rem worst (l :: levels) f r.
Proof.
  intros Hsh Hq cost Heq [S1 S2 S3 S4 S5]. cbn in *. split; cbn.
  - lra.
  - lra.
  - destruct side; subst cost; cbn in *; lra.
  - destruct side; subst cost; cbn in *; lra.
  - destruct (q_complete r); [|lra]. destruct side; subst cost; cbn in *; lra.
Qed.

Lemma exact_asks_extends fee worst levels f rem :
  q_complete f = false → Forall (level_ok Buy worst) levels → (0 <= fee)%Q → (0 <= rem)%Q →
  extends Buy fee rem worst levels f (exact_asks fee f rem levels).1.
Proof.
  intros Hf Hl Hfee. revert f Hf rem. induction Hl as [|[p s] levels Hok Hl IH]; intros f Hf rem Hrem.
  { by apply extends_nil. }
  destruct (buy_level fee worst rem p s Hok Hfee Hrem) as (Hsh & Hq & Hc & Hor).
  cbn [exact_asks]. cbv zeta. set (sh := q_min s _) in *. destruct (Qle_bool _ _) eqn:Hd; cbn.
  - apply Qle_bool_iff in Hd. by apply (extends_last Buy).
  - apply not_true_iff_false in Hd. rewrite Qle_bool_iff in Hd.
    destruct (exact_asks _ _ _ levels) as [r more] eqn:E. cbn.
    assert (sh == s)%Q as Heq by (destruct Hor as [?|Hz]; [done|unfold q_dust in Hd; lra]).
    apply (extends_step Buy fee rem worst (p, s) levels f r sh (sh * p)); [done..|].
    replace r with (exact_asks fee (q_add f sh (sh * p) (sh * p * fee))
      (rem - (sh * p + sh * p * fee)) levels).1 by (by rewrite E).
    apply IH; [done|lra].
Qed.

Lemma exact_bids_extends fee worst levels f rem :
  q_complete f = false → Forall (level_ok Sell worst) levels → (0 <= rem)%Q →
  extends Sell fee rem worst levels f (exact_bids fee f rem levels).1.
Proof.
  intros Hf Hl. revert f Hf rem. induction Hl as [|[p s] levels Hok Hl IH]; intros f Hf rem Hrem.
  { by apply extends_nil. }
  destruct (sell_level worst rem p s Hok Hrem) as (Hsh & Hq & Hc & Hor).
  cbn [exact_bids]. cbv zeta. set (sh := q_min s _) in *. destruct (Qle_bool _ _) eqn:Hd; cbn.
  - apply Qle_bool_iff in Hd. by apply (extends_last Sell).
  - apply not_true_iff_false in Hd. rewrite Qle_bool_iff in Hd.
    destruct (exact_bids _ _ _ levels) as [r more] eqn:E. cbn.
    assert (sh == s)%Q as Heq by (destruct Hor as [?|Hz]; [done|unfold q_dust in Hd; lra]).
    apply (extends_step Sell fee rem worst (p, s) levels f r sh (sh * p)); [done..|].
    replace r with (exact_bids fee (q_add f sh (sh * p) (sh * p * fee)) (rem - sh) levels).1
      by (by rewrite E).
    apply IH; [done|lra].
Qed.

(** The exact walk is sound. *)
Lemma exact_walk_sound side fee requested worst levels :
  Forall (level_ok side worst) levels → (0 <= fee)%Q → (0 <= requested)%Q →
  sound_fill side fee requested worst levels (exact_walk side fee requested levels).1.
Proof.
  intros Hl Hfee Hreq.
  assert (extends side fee requested worst levels q_empty (exact_walk side fee requested levels).1)
    as [S1 S2 S3 S4 S5].
  { destruct side; [by apply exact_asks_extends|by apply exact_bids_extends]. }
  cbn in *. split.
  - lra.
  - lra.
  - destruct side; lra.
  - destruct side; cbn in *; lra.
  - destruct (q_complete _), side; cbn in *; lra.
Qed.

(** ** The decimals agree with it *)
Lemma Forall_representable_b l : forallb representable_b l = true → Forall representable l.
Proof.
  intros Hl. apply Forall_forall. intros q Hq. apply representable_b_sound.
  rewrite forallb_forall in Hl. apply Hl. by apply list_elem_of_In.
Qed.

Section agreement.
Context `{DL : DecimalLaws}.

Definition level_values (l : PriceLevel) : Q * Q := (⟦price l⟧, ⟦size l⟧).
Record fill_is (f : PaperFill) (q : QFill) : Prop := {
  fill_shares : ⟦pf_shares f⟧ == q_shares q;
  fill_quote : ⟦pf_quote f⟧ == q_quote q;
  fill_fee : ⟦pf_fee f⟧ == q_fee q;
  fill_complete : pf_complete f = q_complete q;
}.

(** An operation on decimals whose exact result is a decimal. *)
Lemma mul_is a b qa qb :
  ⟦a⟧ == qa → ⟦b⟧ == qb → representable (qa * qb) →
  ∃ c, dec_mul a b = Some c ∧ ⟦c⟧ == qa * qb.
Proof.
  intros Ha Hb Hr. destruct (dec_mul_exact a b) as (c & Hc & Hv); [by rewrite Ha, Hb|].
  exists c. by rewrite Hv, Ha, Hb.
Qed.
Lemma add_is a b qa qb :
  ⟦a⟧ == qa → ⟦b⟧ == qb → representable (qa + qb) →
  ∃ c, dec_add a b = Some c ∧ ⟦c⟧ == qa + qb.
Proof.
  intros Ha Hb Hr. destruct (dec_add_exact a b) as (c & Hc & Hv); [by rewrite Ha, Hb|].
  exists c. by rewrite Hv, Ha, Hb.
Qed.
Lemma sub_is a b qa qb :
  ⟦a⟧ == qa → ⟦b⟧ == qb → representable (qa - qb) →
  ∃ c, dec_sub a b = Some c ∧ ⟦c⟧ == qa - qb.
Proof.
  intros Ha Hb Hr. destruct (dec_sub_exact a b) as (c & Hc & Hv); [by rewrite Ha, Hb|].
  exists c. by rewrite Hv, Ha, Hb.
Qed.
Lemma div_is a b qa qb :
  ⟦a⟧ == qa → ⟦b⟧ == qb → ¬ qb == 0 → representable (qa / qb) →
  ∃ c, dec_div a b = Some c ∧ ⟦c⟧ == qa / qb.
Proof.
  intros Ha Hb Hn Hr. destruct (dec_div_exact a b) as (c & Hc & Hv); [by rewrite Hb|by rewrite Ha, Hb|].
  exists c. by rewrite Hv, Ha, Hb.
Qed.
Lemma min_is a b qa qb :
  ⟦a⟧ == qa → ⟦b⟧ == qb → ⟦dec_min a b⟧ == q_min qa qb.
Proof.
  intros Ha Hb. unfold dec_min, q_min. destruct (dec_gt a b) eqn:E; dec_prop.
  - destruct (Qle_bool qa qb) eqn:E'; [apply Qle_bool_iff in E'; lra|done].
  - destruct (Qle_bool qa qb) eqn:E'; [done|].
    apply not_true_iff_false in E'. rewrite Qle_bool_iff in E'. lra.
Qed.
Lemma dust_is r qr : ⟦r⟧ == qr → dec_le r dust = Qle_bool qr q_dust.
Proof.
  intros Hr. apply eq_true_iff_eq. rewrite dec_le_spec, Qle_bool_iff, Hr. unfold dust.
  by rewrite dec_new_value by (vm_compute; done).
Qed.

Lemma add_fill_is f q sh qu fe qsh qqu qfe :
  fill_is f q → ⟦sh⟧ == qsh → ⟦qu⟧ == qqu → ⟦fe⟧ == qfe →
  Forall representable (q_numbers (q_add q qsh qqu qfe)) →
  ∃ f', add_fill f sh qu fe = Some f' ∧ fill_is f' (q_add q qsh qqu qfe).
Proof.
  intros [F1 F2 F3 F4] E1 E2 E3 HR. unfold q_numbers, q_add in HR. cbn [q_shares q_quote q_fee] in HR. rewrite !Forall_cons in HR.
  destruct HR as (R1 & R2 & R3 & _). unfold add_fill.
  destruct (add_is _ _ _ _ F1 E1 R1) as (a & -> & Ha).
  destruct (add_is _ _ _ _ F2 E2 R2) as (b & -> & Hb).
  destruct (add_is _ _ _ _ F3 E3 R3) as (c & -> & Hc). cbn. by eexists.
Qed.

Lemma walk_asks_exact fee qfee levels f q rem qrem :
  ⟦fee⟧ == qfee → fill_is f q → ⟦rem⟧ == qrem →
  Forall (λ l, ¬ (⟦price l⟧ * (1 + qfee) == 0)%Q) levels →
  Forall representable (exact_asks qfee q qrem (level_values <$> levels)).2 →
  ∃ f', walk_asks fee f rem levels = Some f' ∧
    fill_is f' (exact_asks qfee q qrem (level_values <$> levels)).1.
Proof.
  intros Hfee. revert f q rem qrem. induction levels as [|l levels IH]; intros f q rem qrem Hf Hr Hp HR.
  { by exists f. }
  apply Forall_cons in Hp as [Hl Hp]. cbn [fmap list_fmap level_values exact_asks walk_asks] in *.
  cbv zeta in *. set (shares := q_min _ _) in *. set (q' := q_add _ _ _ _) in *.
  assert (Hhere : Forall representable ([1 + qfee; ⟦price l⟧ * (1 + qfee);
    qrem / (⟦price l⟧ * (1 + qfee)); shares * ⟦price l⟧; shares * ⟦price l⟧ * qfee;
    shares * ⟦price l⟧ + shares * ⟦price l⟧ * qfee;
    qrem - (shares * ⟦price l⟧ + shares * ⟦price l⟧ * qfee)] ++ q_numbers q')%Q).
  { destruct (Qle_bool _ _); [done|]. destruct (exact_asks _ _ _ _). by apply Forall_app in HR as [??]. }
  apply Forall_app in Hhere as [Hhere Hsums]. rewrite !Forall_cons in Hhere.
  destruct Hhere as (R1 & R2 & R3 & R4 & R5 & R6 & R7 & _).
  destruct (add_is dec_ONE fee 1 qfee dec_ONE_value Hfee R1) as (factor & -> & Hfactor). cbn.
  destruct (mul_is (price l) factor _ _ (reflexivity _) Hfactor R2) as (per & -> & Hper). cbn.
  destruct (div_is rem per _ _ Hr Hper Hl R3) as (aff & -> & Haff). cbn.
  pose proof (min_is (size l) aff _ _ (reflexivity _) Haff) as Hsh. fold shares in Hsh.
  destruct (mul_is _ (price l) _ _ Hsh (reflexivity _) R4) as (quote & -> & Hquote). cbn.
  destruct (mul_is quote fee _ _ Hquote Hfee R5) as (fe & -> & Hfe). cbn.
  destruct (add_fill_is f q _ _ _ _ _ _ Hf Hsh Hquote Hfe Hsums) as (f' & -> & Hf'). cbn.
  fold q' in Hf'.
  destruct (add_is quote fe _ _ Hquote Hfe R6) as (cost & -> & Hcost). cbn.
  destruct (sub_is rem cost _ _ Hr Hcost R7) as (rest & -> & Hrest). cbn.
  rewrite (dust_is _ _ Hrest). destruct (Qle_bool _ _) eqn:E.
  - eexists. split; [done|]. destruct Hf' as [????]. by split.
  - destruct (exact_asks _ _ _ _) as [r more] eqn:Er. apply Forall_app in HR as [_ HR].
    destruct (IH f' q' rest _ Hf' Hrest Hp) as (f'' & Hw & Hf''); rewrite Er in *; [done|].
    by exists f''.
Qed.

Lemma walk_bids_exact fee qfee levels f q rem qrem :
  ⟦fee⟧ == qfee → fill_is f q → ⟦rem⟧ == qrem →
  Forall representable (exact_bids qfee q qrem (level_values <$> levels)).2 →
  ∃ f', walk_bids fee f rem levels = Some f' ∧
    fill_is f' (exact_bids qfee q qrem (level_values <$> levels)).1.
Proof.
  intros Hfee. revert f q rem qrem. induction levels as [|l levels IH]; intros f q rem qrem Hf Hr HR.
  { by exists f. }
  cbn [fmap list_fmap level_values exact_bids walk_bids] in *.
  cbv zeta in *. set (shares := q_min _ _) in *. set (q' := q_add _ _ _ _) in *.
  assert (Hhere : Forall representable ([shares * ⟦price l⟧; shares * ⟦price l⟧ * qfee;
    qrem - shares] ++ q_numbers q')%Q).
  { destruct (Qle_bool _ _); [done|]. destruct (exact_bids _ _ _ _). by apply Forall_app in HR as [??]. }
  apply Forall_app in Hhere as [Hhere Hsums]. rewrite !Forall_cons in Hhere.
  destruct Hhere as (R4 & R5 & R7 & _).
  pose proof (min_is (size l) rem _ _ (reflexivity _) Hr) as Hsh. fold shares in Hsh.
  destruct (mul_is _ (price l) _ _ Hsh (reflexivity _) R4) as (quote & -> & Hquote). cbn.
  destruct (mul_is quote fee _ _ Hquote Hfee R5) as (fe & -> & Hfe). cbn.
  destruct (add_fill_is f q _ _ _ _ _ _ Hf Hsh Hquote Hfe Hsums) as (f' & -> & Hf'). cbn.
  fold q' in Hf'.
  destruct (sub_is rem _ _ _ Hr Hsh R7) as (rest & -> & Hrest). cbn.
  rewrite (dust_is _ _ Hrest). destruct (Qle_bool _ _) eqn:E.
  - eexists. split; [done|]. destruct Hf' as [????]. by split.
  - destruct (exact_bids _ _ _ _) as [r more] eqn:Er. apply Forall_app in HR as [_ HR].
    destruct (IH f' q' rest _ Hf' Hrest) as (f'' & Hw & Hf''); rewrite Er in *; [done|].
    by exists f''.
Qed.

Lemma reachable_ok book side worst :
  Forall (λ l, (0 < ⟦price l⟧)%Q ∧ (0 <= ⟦size l⟧)%Q)
    (match side with Buy => asks book | Sell => bids book end) →
  Forall (level_ok side ⟦worst⟧) (level_values <$> reachable_levels book side worst).
Proof.
  intros Hbook. apply Forall_fmap, Forall_forall. intros l Hl.
  rewrite Forall_forall in Hbook. unfold reachable_levels in Hl.
  destruct side; apply elem_of_filter_b in Hl as [Hc Hl]; rewrite stable_sort_perm in Hl;
    destruct (Hbook l Hl) as [??]; dec_prop; unfold level_ok; cbn; done.
Qed.

(** Best price first. *)
Definition best_first (side : Side) (a b : PriceLevel) : Prop :=
  match side with Buy => (⟦price a⟧ <= ⟦price b⟧)%Q | Sell => (⟦price b⟧ <= ⟦price a⟧)%Q end.
Lemma reachable_sorted book side worst :
  StronglySorted (best_first side) (reachable_levels book side worst).
Proof.
  assert (Hf : ∀ (R : PriceLevel → PriceLevel → Prop) p l,
    StronglySorted R l → StronglySorted R (List.filter p l)).
  { intros R p l. induction 1 as [|x l Hs IH Hall]; cbn; [constructor|].
    destruct (p x); [|done]. constructor; [done|]. apply Forall_forall. intros y Hy.
    apply elem_of_filter_b in Hy as [_ Hy]. rewrite Forall_forall in Hall. auto. }
  assert (Hi : ∀ (R R' : PriceLevel → PriceLevel → Prop) l, (∀ a b, R a b → R' a b) →
    StronglySorted R l → StronglySorted R' l).
  { intros R R' l HR. induction 1 as [|x l Hs IH Hall]; constructor; [done|].
    eapply Forall_impl; [done|]. auto. }
  unfold reachable_levels. destruct side; apply Hf.
  - apply (Hi (λ a b, dec_le (price a) (price b) = true)).
    + intros a b Hab. by dec_prop.
    + apply stable_sort_sorted; intros; dec_prop; apply dec_le_spec; lra.
  - apply (Hi (λ a b, dec_ge (price a) (price b) = true)).
    + intros a b Hab. by dec_prop.
    + apply stable_sort_sorted; intros; dec_prop; apply dec_ge_spec; lra.
Qed.

Definition reachable_values (book : OrderBook) (side : Side) (worst : Decimal) : list (Q * Q) :=
  level_values <$> reachable_levels book side worst.

(** C31. A fill of the paper venue is exact and stays within the order.  When the
    numbers on the way are decimals, [walk_book] takes the levels the price
    protection allows, best price first, and computes what exact arithmetic
    computes; no more shares than these levels offer, no worse price than the
    worst one, no more than the quote a buy asks for with its fees, or the
    shares a sell offers; and it either completes the order or empties the
    levels. *)
Theorem walk_book_exact book side requested worst fee :
  Forall (λ l, (0 < ⟦price l⟧)%Q ∧ (0 <= ⟦size l⟧)%Q)
    (match side with Buy => asks book | Sell => bids book end) →
  (0 <= ⟦fee⟧)%Q → (0 <= ⟦requested⟧)%Q →
  Forall representable (exact_walk side ⟦fee⟧ ⟦requested⟧ (reachable_values book side worst)).2 →
  ∃ fill q, walk_book book side requested worst fee = Some fill ∧ fill_is fill q ∧
    q = (exact_walk side ⟦fee⟧ ⟦requested⟧ (reachable_values book side worst)).1 ∧
    sound_fill side ⟦fee⟧ ⟦requested⟧ ⟦worst⟧ (reachable_values book side worst) q ∧
    StronglySorted (best_first side) (reachable_levels book side worst).
Proof.
  intros Hbook Hfee Hreq HR. pose proof (reachable_ok book side worst Hbook) as Hok.
  pose proof (exact_walk_sound side _ _ _ _ Hok Hfee Hreq) as Hsound.
  pose proof (reachable_sorted book side worst) as Hsorted.
  assert (fill_is PaperFill_default q_empty) as Hempty by (split; cbn; [apply dec_ZERO_value..|done]).
  unfold walk_book. destruct side.
  - destruct (walk_asks_exact fee ⟦fee⟧ (reachable_levels book Buy worst) _ _ requested ⟦requested⟧
      (reflexivity _) Hempty (reflexivity _)) as (f & Hw & Hf); [|done|by exists f; eauto 10].
    rewrite Forall_fmap in Hok. eapply Forall_impl; [exact Hok|].
    intros l [Hp _]. cbn in *. nra.
  - destruct (walk_bids_exact fee ⟦fee⟧ (reachable_levels book Sell worst) _ _ requested ⟦requested⟧
      (reflexivity _) Hempty (reflexivity _)) as (f & Hw & Hf); [done|by exists f; eauto 10].
Qed.
End agreement.

Section fixtures.
#[local] Existing Instance RefOps.
#[local] Existing Instance RefLaws.

(** Two levels of ten shares; a buy of 6.3 at a fee of five percent takes
    fourteen shares for 6 and 0.3 of fees. *)
Definition fix_asks : OrderBook :=
  mkOrderBook [] [mkPriceLevel (RefDec 5 1) (RefDec 10 0); mkPriceLevel (RefDec 4 1) (RefDec 10 0)]
    fix_now None.

Lemma walk_book_exact_witness :
  ∃ fill q, walk_book fix_asks Buy (RefDec 63 1) (RefDec 5 1) (RefDec 5 2) = Some fill ∧
    fill_is fill q ∧
    q = (exact_walk Buy ⟦RefDec 5 2⟧ ⟦RefDec 63 1⟧
      (reachable_values fix_asks Buy (RefDec 5 1))).1 ∧
    sound_fill Buy ⟦RefDec 5 2⟧ ⟦RefDec 63 1⟧ ⟦RefDec 5 1⟧
      (reachable_values fix_asks Buy (RefDec 5 1)) q ∧
    StronglySorted (best_first Buy) (reachable_levels fix_asks Buy (RefDec 5 1)).
Proof.
  apply (walk_book_exact fix_asks Buy (RefDec 63 1) (RefDec 5 1) (RefDec 5 2)).
  - repeat constructor; vm_compute; done.
  - vm_compute. done.
  - vm_compute. done.
  - apply Forall_representable_b. vm_compute. reflexivity.
Defined.

Example walk_book_example :
  (λ f, (Qeq_bool ⟦pf_shares f⟧ 14, Qeq_bool ⟦pf_quote f⟧ 6, Qeq_bool ⟦pf_fee f⟧ (3 # 10),
      pf_complete f)) <$>
    walk_book fix_asks Buy (RefDec 63 1) (RefDec 5 1) (RefDec 5 2) = Some (true, true, true, true).
Proof. vm_compute. reflexivity. Qed.
End fixtures.
