(* ===== verification/Lifecycle.v ===== *)
(** * Lifecycle: the invariant of intents, orders and reservations

    What the rows of [intents], [orders], [risk_reservations] and
    [order_transitions] have to do with each other, kept by every operation of
    the store, and the state machine the intents move through. *)
From S2P Require Import Prelude Text DecimalSpec RefDecimal Json Platform Domain Venue Fixtures Risk Schema StoreIntents StoreRisk StoreOrders StoreControl StorePaper StoreFixtures StoreLogic.

(** ** The invariant *)

Definition ist (i : IntentRow) : IntentState := int_state i.
Definition ost (o : OrderRow) : OrderState := ord_state o.

(** The state of an intent and of its order go together.  An order is named at
    the venue only once its submission has ended. *)
Definition linked (i : IntentRow) (o : OrderRow) : Prop :=
  match ist i, ost o with
  | IntentState.Prepared, OrderState.Prepared
  | IntentState.Submitting, OrderState.Submitting
  | IntentState.Rejected, OrderState.Cancelled => venue_order_id o = None
  | (IntentState.Submitted | IntentState.Unknown), (OrderState.Prepared | OrderState.Submitting) =>
      False
  | (IntentState.Submitted | IntentState.Unknown), _ => True
  | _, _ => False
  end.

Definition is_submission (id : Uuid) (t : TransitionRow) : bool :=
  (tr_order_id t ≟ id) && (tr_prior_state t ≟ Some OrderState.Prepared) &&
  (tr_new_state t ≟ OrderState.Submitting).
(** How often the order has gone from PREPARED to SUBMITTING. *)
Definition submissions (ts : list TransitionRow) (id : Uuid) : nat :=
  length (List.filter (is_submission id) ts).
Definition submissions_allowed (o : OrderRow) : nat :=
  if ost o ≟ OrderState.Prepared then 0 else 1.

Definition reserving (s : IntentState) : Prop :=
  s = IntentState.Approved ∨ s = IntentState.Preparing.

Definition iid (i : IntentRow) : Uuid := int_id i.
Definition oid (o : OrderRow) : Uuid := ord_id o.
Definition oiid (o : OrderRow) : Uuid := ord_intent_id o.

Record Inv (d : Db) : Prop := {
  inv_intents : NoDup (iid <$> intents d);
  inv_orders : NoDup (oid <$> orders d);
  inv_one_order : NoDup (oiid <$> orders d);
  inv_intent_of o : o ∈ orders d → ∃ i, i ∈ intents d ∧ iid i = oiid o;
  inv_linked i o : i ∈ intents d → o ∈ orders d → iid i = oiid o → linked i o;
  inv_transitions t : t ∈ order_transitions d → ∃ o, o ∈ orders d ∧ oid o = tr_order_id t;
  inv_submissions o : o ∈ orders d →
    (submissions (order_transitions d) (oid o) ≤ submissions_allowed o)%nat;
  inv_reservation_of r : r ∈ risk_reservations d → ∃ i, i ∈ intents d ∧ iid i = rs_intent_id r;
  inv_reservations r i : r ∈ risk_reservations d → i ∈ intents d → iid i = rs_intent_id r →
    rs_state r = "ACTIVE" → reserving (ist i);
}.

(** ** The state machine of an intent *)

Inductive intent_edge : IntentState → IntentState → Prop :=
| E_validate : intent_edge IntentState.Received IntentState.Validating
| E_refuse : intent_edge IntentState.Received IntentState.Rejected
| E_approve : intent_edge IntentState.Validating IntentState.Approved
| E_reject : intent_edge IntentState.Validating IntentState.Rejected
| E_prepare : intent_edge IntentState.Approved IntentState.Preparing
| E_prepared : intent_edge IntentState.Preparing IntentState.Prepared
| E_abandon : intent_edge IntentState.Preparing IntentState.Rejected
| E_submit : intent_edge IntentState.Prepared IntentState.Submitting
| E_cancel : intent_edge IntentState.Prepared IntentState.Rejected
| E_submitted : intent_edge IntentState.Submitting IntentState.Submitted
| E_unknown : intent_edge IntentState.Submitting IntentState.Unknown
| E_resolve : intent_edge IntentState.Unknown IntentState.Submitted
| E_recover s : s = IntentState.Validating ∨ s = IntentState.Approved ∨
                s = IntentState.Preparing → intent_edge s IntentState.Received.

(** No intent disappears, and each has moved along the edges. *)
Definition evolves (d d' : Db) : Prop :=
  ∀ i, i ∈ intents d → ∃ i', i' ∈ intents d' ∧ iid i' = iid i ∧
    rtc intent_edge (ist i) (ist i').

#[export] Instance evolves_preorder : PreOrder evolves.
Proof.
  split.
  - intros d i Hi. exists i. done.
  - intros d1 d2 d3 H12 H23 i (i2 & Hi2 & Hid2 & He2)%H12.
    apply H23 in Hi2 as (i3 & Hi3 & Hid3 & He3). exists i3.
    split_and!; [done|congruence|by etrans].
Qed.

(** The database is sound and has evolved from [d0]. *)
Definition Good (d0 d : Db) : Prop := Inv d ∧ evolves d0 d.

(** The tables the invariant reads. *)
Definition view (d : Db) :=
  (intents d, orders d, risk_reservations d, order_transitions d).

Lemma Inv_view d d' : view d = view d' → Inv d → Inv d'.
Proof.
  intros [= Hi Ho Hr Ht] []. split; rewrite <-?Hi, <-?Ho, <-?Hr, <-?Ht; done.
Qed.
Lemma evolves_view d0 d d' : view d = view d' → evolves d0 d → evolves d0 d'.
Proof. intros [= Hi _ _ _] He i Hin. apply He in Hin. by rewrite <-Hi. Qed.
Lemma Good_view d0 d d' : view d = view d' → Good d0 d → Good d0 d'.
Proof. intros Hv [Hi He]. split; [by eapply Inv_view | by eapply evolves_view]. Qed.
Lemma frames_Good {A} d0 (m : Prog Sys StoreError A) : frames view m → keeps (Good d0) m.
Proof. apply keeps_frames, Good_view. Qed.

(** ** Updates *)

(** What happens to a row that an [UPDATE] may match. *)
Definition upd {R} (p : R → bool) (f : R → R) (r : R) : R := if p r then f r else r.

Lemma elem_of_upd {R} (p : R → bool) f l r :
  r ∈ update_list p f l ↔ ∃ r0, r0 ∈ l ∧ r = upd p f r0.
Proof. apply elem_of_update. Qed.

Lemma elem_upd_hit {R} (p : R → bool) f l r : r ∈ l → p r = true → f r ∈ update_list p f l.
Proof. intros Hr Hp. apply elem_of_upd. exists r. unfold upd. by rewrite Hp. Qed.

Lemma submissions_app ts ts' id :
  submissions (ts ++ ts') id = (submissions ts id + submissions ts' id)%nat.
Proof. unfold submissions. by rewrite List.filter_app, length_app. Qed.

Record updates (d d' : Db) : Type := {
  u_pi : IntentRow → bool; u_fi : IntentRow → IntentRow;
  u_po : OrderRow → bool; u_fo : OrderRow → OrderRow;
  u_pr : ReservationRow → bool; u_fr : ReservationRow → ReservationRow;
  u_ts : list TransitionRow;
  u_intents : intents d' = update_list u_pi u_fi (intents d);
  u_orders : orders d' = update_list u_po u_fo (orders d);
  u_reservations : risk_reservations d' = update_list u_pr u_fr (risk_reservations d);
  u_transitions : order_transitions d' = order_transitions d ++ u_ts;
  u_iid i : iid (u_fi i) = iid i;
  u_oid o : oid (u_fo o) = oid o;
  u_oiid o : oiid (u_fo o) = oiid o;
  u_rid r : rs_intent_id (u_fr r) = rs_intent_id r;
}.

(** An operation that only updates rows and journals transitions is sound when
    each pair of an intent and its order stays linked, each order's budget of
    submissions is respected, and active reservations stay with intents that
    may hold them. *)
Section updates.
Context {d0 d d' : Db} (U : updates d d').
Let pi := u_pi _ _ U.
Let fi := u_fi _ _ U.
Let po := u_po _ _ U.
Let fo := u_fo _ _ U.
Let pr := u_pr _ _ U.
Let fr := u_fr _ _ U.
Let ts := u_ts _ _ U.

Lemma upd_iid i : iid (upd pi fi i) = iid i.
Proof. unfold upd. destruct (pi i); [apply u_iid|done]. Qed.
Lemma upd_oid o : oid (upd po fo o) = oid o.
Proof. unfold upd. destruct (po o); [apply u_oid|done]. Qed.
Lemma upd_oiid o : oiid (upd po fo o) = oiid o.
Proof. unfold upd. destruct (po o); [apply u_oiid|done]. Qed.
Lemma upd_rid r : rs_intent_id (upd pr fr r) = rs_intent_id r.
Proof. unfold upd. destruct (pr r); [apply u_rid|done]. Qed.

Lemma updates_good :
  Good d0 d →
  (∀ i, i ∈ intents d → rtc intent_edge (ist i) (ist (upd pi fi i))) →
  (∀ i o, i ∈ intents d → o ∈ orders d → iid i = oiid o → linked i o →
     linked (upd pi fi i) (upd po fo o)) →
  (∀ t, t ∈ ts → ∃ o, o ∈ orders d ∧ oid o = tr_order_id t) →
  (∀ o, o ∈ orders d →
     (submissions (order_transitions d) (oid o) ≤ submissions_allowed o)%nat →
     (submissions (order_transitions d) (oid o) + submissions ts (oid o) ≤
       submissions_allowed (upd po fo o))%nat) →
  (∀ r i, r ∈ risk_reservations d → i ∈ intents d → iid i = rs_intent_id r →
     rs_state (upd pr fr r) = "ACTIVE" →
     rs_state r = "ACTIVE" ∧ (reserving (ist i) → reserving (ist (upd pi fi i)))) →
  Good d0 d'.
Proof.
  intros [[] He] Hedge Hlink Hts Hsub Hres.
  assert (intents d' = update_list pi fi (intents d)) as Ei by apply u_intents.
  assert (orders d' = update_list po fo (orders d)) as Eo by apply u_orders.
  assert (risk_reservations d' = update_list pr fr (risk_reservations d)) as Er
    by apply u_reservations.
  assert (order_transitions d' = order_transitions d ++ ts) as Et by apply u_transitions.
  split.
  2: { etrans; [exact He|]. intros i Hi. exists (upd pi fi i).
       rewrite Ei, elem_of_upd, upd_iid. split_and!; [by exists i|done|by apply Hedge]. }
  split; rewrite ?Ei, ?Eo, ?Er, ?Et.
  - by rewrite update_list_fmap by apply u_iid.
  - by rewrite update_list_fmap by apply u_oid.
  - by rewrite update_list_fmap by apply u_oiid.
  - intros o (o0 & Ho & ->)%elem_of_upd. rewrite upd_oiid.
    destruct (inv_intent_of0 o0 Ho) as (i & Hi & Hid).
    exists (upd pi fi i). rewrite elem_of_upd, upd_iid. split; [by exists i|done].
  - intros i o (i0 & Hi & ->)%elem_of_upd (o0 & Ho & ->)%elem_of_upd.
    rewrite upd_iid, upd_oiid. intros Hid. apply Hlink; auto.
  - intros t [Ht|Ht]%elem_of_app.
    + destruct (inv_transitions0 t Ht) as (o & Ho & Hid).
      exists (upd po fo o). rewrite elem_of_upd, upd_oid. split; [by exists o|done].
    + destruct (Hts t Ht) as (o & Ho & Hid).
      exists (upd po fo o). rewrite elem_of_upd, upd_oid. split; [by exists o|done].
  - intros o (o0 & Ho & ->)%elem_of_upd. rewrite upd_oid, submissions_app. auto.
  - intros r (r0 & Hr & ->)%elem_of_upd. rewrite upd_rid.
    destruct (inv_reservation_of0 r0 Hr) as (i & Hi & Hid).
    exists (upd pi fi i). rewrite elem_of_upd, upd_iid. split; [by exists i|done].
  - intros r i (r0 & Hr & ->)%elem_of_upd (i0 & Hi & ->)%elem_of_upd.
    rewrite upd_iid, upd_rid. intros Hid Hact.
    destruct (Hres r0 i0 Hr Hi Hid Hact) as [Hact0 Hkeep]. eauto.
Qed.
End updates.

Lemma update_list_none {R} (f : R → R) l : l = update_list (λ _, false) f l.
Proof. unfold update_list. by rewrite list_fmap_id. Qed.

(** ** Symbolic execution on the four tables

    A run is followed statement by statement; what is remembered of a state is
    its [view]. *)
Section execution.
Context {s s1 : Sys} {li : list IntentRow} {lo : list OrderRow} {lr : list ReservationRow}
        {lt : list TransitionRow}.
Hypothesis Hview : view (db s) = (li, lo, lr, lt).

Lemma sx_frame {A} (m : Prog Sys StoreError A) a :
  frames view m → m s = (Done a, s1) → view (db s1) = (li, lo, lr, lt).
Proof. intros Hf Hr. specialize (Hf s). rewrite Hr in Hf. cbn in Hf. by rewrite Hf. Qed.

Lemma sx_update_intents p f n :
  update_where (R:=IntentRow) p f s = (Done n, s1) →
  n = length (List.filter p li) ∧ view (db s1) = (update_list p f li, lo, lr, lt).
Proof.
  injection Hview as <- <- <- <-. by intros [-> ->]%update_where_done.
Qed.
Lemma sx_update_orders p f n :
  update_where (R:=OrderRow) p f s = (Done n, s1) →
  n = length (List.filter p lo) ∧ view (db s1) = (li, update_list p f lo, lr, lt).
Proof.
  injection Hview as <- <- <- <-. by intros [-> ->]%update_where_done.
Qed.
Lemma sx_update_reservations p f n :
  update_where (R:=ReservationRow) p f s = (Done n, s1) →
  n = length (List.filter p lr) ∧ view (db s1) = (li, lo, update_list p f lr, lt).
Proof.
  injection Hview as <- <- <- <-. by intros [-> ->]%update_where_done.
Qed.

Lemma sx_fetch_intent p o :
  fetch_optional (R:=IntentRow) p s = (Done o, s1) → o = List.find p li ∧ s1 = s.
Proof. injection Hview as <- <- <- <-. by intros [-> ->]%fetch_optional_done. Qed.
Lemma sx_fetch_order p o :
  fetch_optional (R:=OrderRow) p s = (Done o, s1) → o = List.find p lo ∧ s1 = s.
Proof. injection Hview as <- <- <- <-. by intros [-> ->]%fetch_optional_done. Qed.
Lemma sx_fetch_reservation p o :
  fetch_optional (R:=ReservationRow) p s = (Done o, s1) → o = List.find p lr ∧ s1 = s.
Proof. injection Hview as <- <- <- <-. by intros [-> ->]%fetch_optional_done. Qed.

Lemma sx_insert_intent r u :
  insert (R:=IntentRow) r s = (Done u, s1) →
  (∀ i, i ∈ li → iid i ≠ iid r) ∧ view (db s1) = (li ++ [r], lo, lr, lt).
Proof.
  injection Hview as <- <- <- <-. intros (Hc & _ & ->)%insert_done. split; [|done].
  intros i Hi Heq. apply (existsb_false_elem _ _ i) in Hc; [|done].
  cbn in Hc. apply orb_false_iff in Hc as [Hc _]. by apply bool_decide_eq_false in Hc.
Qed.
Lemma has_intent_elem d id : has_intent d id = true → ∃ i, i ∈ intents d ∧ iid i = id.
Proof.
  unfold has_intent. intros (i & Hi & Hid)%existsb_true_elem.
  apply bool_decide_eq_true in Hid. eauto.
Qed.
Lemma has_order_elem d id : has_order d id = true → ∃ o, o ∈ orders d ∧ oid o = id.
Proof.
  unfold has_order. intros (i & Hi & Hid)%existsb_true_elem.
  apply bool_decide_eq_true in Hid. eauto.
Qed.
Lemma sx_insert_order r u :
  insert (R:=OrderRow) r s = (Done u, s1) →
  (∀ o, o ∈ lo → oid o ≠ oid r) ∧ (∃ i, i ∈ li ∧ iid i = oiid r) ∧
  view (db s1) = (li, lo ++ [r], lr, lt).
Proof.
  injection Hview as <- <- <- <-. intros (Hc & Hr & ->)%insert_done.
  split_and!; [|by apply has_intent_elem|done].
  intros i Hi Heq. apply (existsb_false_elem _ _ i) in Hc; [|done].
  cbn in Hc. by apply bool_decide_eq_false in Hc.
Qed.
Lemma sx_insert_reservation r u :
  insert (R:=ReservationRow) r s = (Done u, s1) →
  (∀ r', r' ∈ lr → rs_intent_id r' ≠ rs_intent_id r) ∧
  (∃ i, i ∈ li ∧ iid i = rs_intent_id r) ∧ view (db s1) = (li, lo, lr ++ [r], lt).
Proof.
  injection Hview as <- <- <- <-. intros (Hc & Hr & ->)%insert_done.
  split_and!; [|by apply has_intent_elem|done].
  intros i Hi Heq. apply (existsb_false_elem _ _ i) in Hc; [|done].
  cbn in Hc. by apply bool_decide_eq_false in Hc.
Qed.
Lemma sx_insert_transition r u :
  insert (R:=TransitionRow) r s = (Done u, s1) →
  (∃ o, o ∈ lo ∧ oid o = tr_order_id r) ∧ view (db s1) = (li, lo, lr, lt ++ [r]).
Proof.
  injection Hview as <- <- <- <-. intros (_ & Hr & ->)%insert_done.
  split; [by apply has_order_elem|done].
Qed.
End execution.

Lemma frames_update_attempts intent_id state f : frames view (update_attempts intent_id state f).
Proof. intros s. reflexivity. Qed.
Lemma frames_set_account row : frames view (set_account row).
Proof. intros s. reflexivity. Qed.

(** One statement of a run. *)
Ltac sx_frame V H :=
  let V' := fresh "V" in
  apply (sx_frame V) in H as V'; [|frame; done]; clear V; rename V' into V.
Ltac sx_step :=
  match goal with
  | H : (_ ≫= _) ?s = (Done _, _) |- _ =>
      let a := fresh "a" in let s1 := fresh "s" in let H1 := fresh "R" in
      apply bind_done in H; destruct H as (a & s1 & H1 & H)
  | H : mret _ _ = (Done _, _) |- _ => apply ret_done in H; destruct H as [? ?]; subst
  | H : lift _ _ = (Done _, _) |- _ => apply lift_done in H; destruct H as [? ?]; subst
  | H : fail _ _ = (Done _, _) |- _ => apply fail_done in H; destruct H
  | H : gets _ _ = (Done _, _) |- _ => apply gets_done in H; destruct H as [? ?]; subst
  | H : ensure _ _ _ = (Done _, _) |- _ => apply ensure_done in H; destruct H as [? ?]; subst
  | H : fetch_one _ _ = (Done _, _) |- _ => apply fetch_one_done in H; destruct H as [? ?]; subst
  | V : view (db ?s) = _, H : update_where (R:=IntentRow) _ _ ?s = _ |- _ =>
      apply (sx_update_intents V) in H; clear V; destruct H as [? V]; subst
  | V : view (db ?s) = _, H : update_where (R:=OrderRow) _ _ ?s = _ |- _ =>
      apply (sx_update_orders V) in H; clear V; destruct H as [? V]; subst
  | V : view (db ?s) = _, H : update_where (R:=ReservationRow) _ _ ?s = _ |- _ =>
      apply (sx_update_reservations V) in H; clear V; destruct H as [? V]; subst
  | V : view (db ?s) = _, H : fetch_optional (R:=IntentRow) _ ?s = _ |- _ =>
      apply (sx_fetch_intent V) in H; destruct H as [? ?]; subst
  | V : view (db ?s) = _, H : fetch_optional (R:=OrderRow) _ ?s = _ |- _ =>
      apply (sx_fetch_order V) in H; destruct H as [? ?]; subst
  | V : view (db ?s) = _, H : fetch_optional (R:=ReservationRow) _ ?s = _ |- _ =>
      apply (sx_fetch_reservation V) in H; destruct H as [? ?]; subst
  | V : view (db ?s) = _, H : insert (R:=IntentRow) _ ?s = _ |- _ =>
      apply (sx_insert_intent V) in H; clear V; destruct H as [? V]
  | V : view (db ?s) = _, H : insert (R:=OrderRow) _ ?s = _ |- _ =>
      apply (sx_insert_order V) in H; clear V; destruct H as (? & ? & V)
  | V : view (db ?s) = _, H : insert (R:=ReservationRow) _ ?s = _ |- _ =>
      apply (sx_insert_reservation V) in H; clear V; destruct H as (? & ? & V)
  | V : view (db ?s) = _, H : insert (R:=TransitionRow) _ ?s = _ |- _ =>
      apply (sx_insert_transition V) in H; clear V; destruct H as [? V]
  | V : view (db ?s) = _, H : utc_now ?s = _ |- _ => sx_frame V H; clear H
  | V : view (db ?s) = _, H : now_v7 ?s = _ |- _ => sx_frame V H; clear H
  | V : view (db ?s) = _, H : append_event _ _ _ _ _ ?s = _ |- _ => sx_frame V H; clear H
  | V : view (db ?s) = _, H : insert _ ?s = _ |- _ => sx_frame V H; clear H
  | V : view (db ?s) = _, H : upsert _ ?s = _ |- _ => sx_frame V H; clear H
  | V : view (db ?s) = _, H : update_where _ _ ?s = _ |- _ => sx_frame V H; clear H
  | V : view (db ?s) = _, H : update_attempts _ _ _ ?s = _ |- _ =>
      apply (sx_frame V _ _ (frames_update_attempts _ _ _)) in H; clear V; rename H into V
  | V : view (db ?s) = _, H : ?m ?s = (Done _, _) |- _ =>
      let F := fresh "F" in
      assert (frames view m) as F by (frame; fail);
      apply (sx_frame V _ _ F) in H; clear V F; rename H into V
  end.
Ltac sx := repeat sx_step.

(** Start following a run: name the tables of the first state. *)
Ltac sx_start s :=
  let V := fresh "V" in
  let E := fresh "E" in
  destruct (view (db s)) as [[[li lo] lr] lt] eqn:V.

(** The invariant of the four tables, whatever the rest of the database. *)
Definition GoodV (d0 : Db) (v : _) : Prop := ∃ d, view d = v ∧ Good d0 d.

Lemma GoodV_Good d0 d v : view d = v → GoodV d0 v → Good d0 d.
Proof. intros Hv (d' & Hd & Hg). eapply Good_view; [|exact Hg]. congruence. Qed.
Lemma GoodV_intro d0 li lo lr lt :
  (∀ d, view d = (li, lo, lr, lt) → Good d0 d) → GoodV d0 (li, lo, lr, lt).
Proof.
  intros Hg. exists (d0 <| intents := li |> <| orders := lo |> <| risk_reservations := lr |>
    <| order_transitions := lt |>). split; [done|]. by apply Hg.
Qed.

Section good_updates.
Context {d0 : Db} {li : list IntentRow} {lo : list OrderRow} {lr : list ReservationRow}
        {lt : list TransitionRow}.

Lemma good_updates pi fi po fo pr fr ts d' :
  GoodV d0 (li, lo, lr, lt) →
  view d' = (update_list pi fi li, update_list po fo lo, update_list pr fr lr, lt ++ ts) →
  (∀ i, iid (fi i) = iid i) → (∀ o, oid (fo o) = oid o) → (∀ o, oiid (fo o) = oiid o) →
  (∀ r, rs_intent_id (fr r) = rs_intent_id r) →
  (∀ i, i ∈ li → rtc intent_edge (ist i) (ist (upd pi fi i))) →
  (∀ i o, i ∈ li → o ∈ lo → iid i = oiid o → linked i o →
     linked (upd pi fi i) (upd po fo o)) →
  (∀ t, t ∈ ts → ∃ o, o ∈ lo ∧ oid o = tr_order_id t) →
  (∀ o, o ∈ lo → (submissions lt (oid o) ≤ submissions_allowed o)%nat →
     (submissions lt (oid o) + submissions ts (oid o) ≤ submissions_allowed (upd po fo o))%nat) →
  (∀ r i, r ∈ lr → i ∈ li → iid i = rs_intent_id r → rs_state (upd pr fr r) = "ACTIVE" →
     rs_state r = "ACTIVE" ∧ (reserving (ist i) → reserving (ist (upd pi fi i)))) →
  Good d0 d'.
Proof.
  intros (d & Hv & Hg) Hv'. injection Hv as <- <- <- <-. injection Hv' as E1 E2 E3 E4.
  intros H1 H2 H3 H4. apply (updates_good (Build_updates d d' pi fi po fo pr fr ts
    E1 E2 E3 E4 H1 H2 H3 H4)). done.
Qed.
End good_updates.


(** ** Facts about rows *)

Lemma upd_case {R} (p : R → bool) f r :
  (p r = true ∧ upd p f r = f r) ∨ (p r = false ∧ upd p f r = r).
Proof. unfold upd. destruct (p r); auto. Qed.
Lemma upd_none {R} (f : R → R) r : upd (λ _, false) f r = r.
Proof. done. Qed.

Lemma intent_in_iff id st i : intent_in id st i = true ↔ iid i = id ∧ ist i = st.
Proof. unfold intent_in. by rewrite andb_true_iff, !bool_decide_eq_true. Qed.
Lemma intent_is_iff id i : intent_is id i = true ↔ iid i = id.
Proof. unfold intent_is. by rewrite bool_decide_eq_true. Qed.
Lemma order_in_iff id st o : order_in id st o = true ↔ oid o = id ∧ ost o = st.
Proof. unfold order_in. by rewrite andb_true_iff, !bool_decide_eq_true. Qed.
Lemma order_is_iff id o : order_is id o = true ↔ oid o = id.
Proof. unfold order_is. by rewrite bool_decide_eq_true. Qed.
Lemma order_of_iff id id' st o :
  order_of id id' st o = true ↔ oid o = id ∧ oiid o = id' ∧ ost o = st.
Proof. unfold order_of. rewrite !andb_true_iff, !bool_decide_eq_true. unfold oid, oiid, ost. tauto. Qed.
Lemma active_iff id r :
  active_reservation id r = true ↔ rs_intent_id r = id ∧ rs_state r = "ACTIVE".
Proof. unfold active_reservation. by rewrite andb_true_iff, !bool_decide_eq_true. Qed.

(** Boolean row predicates among the hypotheses become propositions. *)
Ltac row_prop :=
  repeat match goal with
  | H : ?b = false |- _ => apply not_true_iff_false in H
  | H : context [intent_in _ _ _ = true] |- _ => rewrite intent_in_iff in H
  | H : context [intent_is _ _ = true] |- _ => rewrite intent_is_iff in H
  | H : context [order_in _ _ _ = true] |- _ => rewrite order_in_iff in H
  | H : context [order_is _ _ = true] |- _ => rewrite order_is_iff in H
  | H : context [order_of _ _ _ _ = true] |- _ => rewrite order_of_iff in H
  | H : context [active_reservation _ _ = true] |- _ => rewrite active_iff in H
  | H : (_ ≟ _) = true |- _ => apply bool_decide_eq_true in H
  | H : _ && _ = true |- _ => apply andb_true_iff in H; destruct H
  | H : _ ∧ _ |- _ => destruct H
  end.

Lemma submissions_one t id : submissions [t] id = if is_submission id t then 1%nat else 0%nat.
Proof. unfold submissions. cbn. by destruct (is_submission id t). Qed.
(** A transition that is not PREPARED to SUBMITTING does not count. *)
Lemma submissions_other id prior next ev now oid :
  prior ≠ OrderState.Prepared ∨ next ≠ OrderState.Submitting →
  submissions [mkTransitionRow id (Some prior) next ev now] oid = 0%nat.
Proof.
  intros Hp. rewrite submissions_one. unfold is_submission. cbn.
  destruct Hp as [Hp|Hp].
  - rewrite (bool_decide_false (Some prior = _)) by congruence. by rewrite andb_false_r.
  - rewrite (bool_decide_false (next = _)) by done. by rewrite andb_false_r.
Qed.
Lemma submissions_nil id : submissions [] id = 0%nat.
Proof. done. Qed.
Lemma submissions_le_one t id : (submissions [t] id ≤ 1)%nat.
Proof. rewrite submissions_one. destruct (is_submission id t); lia. Qed.
Lemma submissions_elsewhere t id : tr_order_id t ≠ id → submissions [t] id = 0%nat.
Proof.
  intros Hid. rewrite submissions_one. unfold is_submission.
  by rewrite (bool_decide_false (tr_order_id t = id)).
Qed.
Lemma submissions_new ts id : (∀ t, t ∈ ts → tr_order_id t ≠ id) → submissions ts id = 0%nat.
Proof.
  induction ts as [|t ts IH]; intros Hn; [done|].
  rewrite (submissions_app [t] ts), submissions_elsewhere, IH; [done| |].
  - intros t' Ht'. apply Hn. by right.
  - apply Hn. by left.
Qed.
Lemma allowed_prepared o : ost o = OrderState.Prepared → submissions_allowed o = 0%nat.
Proof. intros He. unfold submissions_allowed. by rewrite bool_decide_true. Qed.
Lemma allowed_started o : ost o ≠ OrderState.Prepared → submissions_allowed o = 1%nat.
Proof. intros He. unfold submissions_allowed. by rewrite bool_decide_false. Qed.
Lemma allowed_mono o o' :
  (ost o' = OrderState.Prepared → ost o = OrderState.Prepared) →
  (submissions_allowed o ≤ submissions_allowed o')%nat.
Proof.
  unfold submissions_allowed. intros Hp.
  destruct (decide (ost o' = OrderState.Prepared)) as [He|He].
  - rewrite !bool_decide_true by auto. done.
  - rewrite (bool_decide_false (ost o' = _)) by done. by destruct (_ ≟ _); lia.
Qed.

Section good_facts.
Context {d0 : Db} {li : list IntentRow} {lo : list OrderRow} {lr : list ReservationRow}
        {lt : list TransitionRow}.
Hypothesis HV : GoodV d0 (li, lo, lr, lt).

Lemma good_inv : ∃ d, view d = (li, lo, lr, lt) ∧ Inv d.
Proof. destruct HV as (d & Hd & Hg & _). eauto. Qed.
Lemma same_intent a b : a ∈ li → b ∈ li → iid a = iid b → a = b.
Proof.
  destruct good_inv as (d & Hd & []). injection Hd as <- <- <- <-.
  apply nodup_key_eq; done.
Qed.
Lemma same_order a b : a ∈ lo → b ∈ lo → oid a = oid b → a = b.
Proof.
  destruct good_inv as (d & Hd & []). injection Hd as <- <- <- <-.
  apply nodup_key_eq; done.
Qed.
Lemma one_order a b : a ∈ lo → b ∈ lo → oiid a = oiid b → a = b.
Proof.
  destruct good_inv as (d & Hd & []). injection Hd as <- <- <- <-.
  apply nodup_key_eq; done.
Qed.
Lemma order_intent o : o ∈ lo → ∃ i, i ∈ li ∧ iid i = oiid o ∧ linked i o.
Proof.
  destruct good_inv as (d & Hd & []). injection Hd as <- <- <- <-. intros Ho.
  destruct (inv_intent_of0 o Ho) as (i & Hi & Hid). eauto.
Qed.
Lemma is_linked i o : i ∈ li → o ∈ lo → iid i = oiid o → linked i o.
Proof. destruct good_inv as (d & Hd & []). injection Hd as <- <- <- <-. auto. Qed.
Lemma reservation_held r i :
  r ∈ lr → i ∈ li → iid i = rs_intent_id r → rs_state r = "ACTIVE" → reserving (ist i).
Proof. destruct good_inv as (d & Hd & []). injection Hd as <- <- <- <-. eauto. Qed.
Lemma found_order p o : List.find p lo = Some o → o ∈ lo ∧ p o = true.
Proof. apply find_Some_elem. Qed.
End good_facts.

(** The common case: an order moves, its intent perhaps with it, one transition is
    journaled, and the reservations stay. *)
Section good_moves.
Context {d0 : Db} {li : list IntentRow} {lo : list OrderRow} {lr : list ReservationRow}
        {lt : list TransitionRow}.

Lemma good_moves pi fi po fo t d' :
  GoodV d0 (li, lo, lr, lt) →
  view d' = (update_list pi fi li, update_list po fo lo, lr, lt ++ [t]) →
  (∀ i, iid (fi i) = iid i) → (∀ o, oid (fo o) = oid o) → (∀ o, oiid (fo o) = oiid o) →
  (∀ i, i ∈ li → rtc intent_edge (ist i) (ist (upd pi fi i))) →
  (∀ i, i ∈ li → reserving (ist i) → reserving (ist (upd pi fi i))) →
  (∀ i o, i ∈ li → o ∈ lo → iid i = oiid o → linked i o →
     linked (upd pi fi i) (upd po fo o)) →
  (∃ o, o ∈ lo ∧ oid o = tr_order_id t) →
  (∀ id, submissions [t] id = 0%nat) →
  (∀ o, o ∈ lo → ost (upd po fo o) = OrderState.Prepared → ost o = OrderState.Prepared) →
  Good d0 d'.
Proof.
  intros HV Hv' H1 H2 H3 Hedge Hres Hlink Hex Ht Hp.
  eapply (good_updates pi fi po fo (λ _, false) (λ r, r) [t]); [done| |done..| | |].
  - by rewrite Hv', <-update_list_none.
  - by intros t' ->%list_elem_of_singleton.
  - intros o Ho Hle. rewrite Ht. pose proof (allowed_mono o (upd po fo o) (Hp o Ho)). lia.
  - intros r i Hr Hi Hid Hact. split; [done|auto].
Qed.
End good_moves.

(** An intent that no order can belong to yet. *)
Definition unplaced (s : IntentState) : Prop :=
  s = IntentState.Received ∨ s = IntentState.Validating ∨ s = IntentState.Approved ∨
  s = IntentState.Preparing.

(** Only intents move, before they have an order. *)
Section good_intents.
Context {d0 : Db} {li : list IntentRow} {lo : list OrderRow} {lr : list ReservationRow}
        {lt : list TransitionRow}.

Lemma good_intents pi fi pr fr d' :
  GoodV d0 (li, lo, lr, lt) →
  view d' = (update_list pi fi li, lo, update_list pr fr lr, lt) →
  (∀ i, iid (fi i) = iid i) → (∀ r, rs_intent_id (fr r) = rs_intent_id r) →
  (∀ i, i ∈ li → pi i = true → unplaced (ist i) ∧ intent_edge (ist i) (ist (fi i))) →
  (∀ r i, r ∈ lr → i ∈ li → iid i = rs_intent_id r → rs_state (upd pr fr r) = "ACTIVE" →
     rs_state r = "ACTIVE" ∧ (reserving (ist i) → reserving (ist (upd pi fi i)))) →
  Good d0 d'.
Proof.
  intros HV Hv' H1 H2 Hmove Hres.
  eapply (good_updates pi fi (λ _, false) (λ o, o) pr fr []); [done| |done..| | | | |done].
  - by rewrite Hv', <-update_list_none, app_nil_r.
  - intros i Hi. destruct (upd_case pi fi i) as [[Hp ->]|[_ ->]]; [|done].
    by apply rtc_once, Hmove.
  - intros i o Hi Ho Hid Hl. destruct (upd_case pi fi i) as [[Hp ->]|[_ ->]]; [|done].
    destruct (Hmove i Hi Hp) as [Hu _]. exfalso. revert Hl. unfold linked.
    by destruct Hu as [-> |[-> |[-> | ->]]].
  - by intros t []%not_elem_of_nil.
  - intros o Ho Hle. rewrite submissions_nil, upd_none. lia.
Qed.
End good_intents.

(** The final view is an update of the first one. *)
Ltac view_shape :=
  match goal with V : view _ = _ |- view _ = _ => rewrite V; clear V end;
  repeat match goal with |- (_, _) = (_, _) => f_equal end;
  first [ reflexivity | apply update_list_none | symmetry; apply app_nil_r ].

(** Split on whether each updated row of the goal is matched. *)
Ltac upd_cases :=
  repeat match goal with
  | |- context [upd (λ _, false) ?f ?r] => rewrite (upd_none f r)
  | |- context [upd ?p ?f ?r] =>
      let Hp := fresh "Hp" in destruct (upd_case p f r) as [[Hp ->]|[Hp ->]]
  end; row_prop.

Lemma ist_set st now i : ist (set_intent_state st now i) = st.
Proof. done. Qed.
Lemma ist_rejection c m i : ist (set_rejection c m i) = ist i.
Proof. done. Qed.
Lemma ost_set st now o : ost (set_order_state st now o) = st.
Proof. done. Qed.
Lemma ost_remaining q o : ost (set_remaining q o) = ost o.
Proof. done. Qed.
Lemma ost_venue v o : ost (set_venue_order_id v o) = ost o.
Proof. done. Qed.
Create HintDb row_states discriminated.
#[export] Hint Rewrite ist_set ist_rejection ost_set ost_remaining ost_venue : row_states.

(** Decide a goal about the states of rows: those the hypotheses name are
    rewritten, the others are split. *)
Ltac by_state :=
  repeat match goal with L : linked _ _ |- _ => revert L end;
  unfold linked, submissions_allowed, reserving; autorewrite with row_states;
  repeat match goal with
  | H : ist ?i = _ |- context [ist ?i] => rewrite H
  | H : ost ?o = _ |- context [ost ?o] => rewrite H
  end;
  try done;
  repeat match goal with
  | |- context [match ist ?i with _ => _ end] => destruct (ist i) eqn:?
  | |- context [match ost ?o with _ => _ end] => destruct (ost o) eqn:?
  end; try done; try (intros; congruence); try (intros; naive_solver).

(** The states of one matched row. *)
Ltac edge := apply rtc_once; autorewrite with row_states;
  match goal with H : ist _ = _ |- _ => rewrite H end; constructor; auto.

(** Begin the proof that a transaction is sound. *)
Ltac good_start d0 s V HV :=
  apply keeps_transaction;
  let a := fresh "a" in let s' := fresh "s'" in let Hg := fresh "Hg" in let Hr := fresh "Hr" in
  intros s a s' Hg Hr;
  destruct (view (db s)) as [[[li lo] lr] lt] eqn:V;
  assert (GoodV d0 (li, lo, lr, lt)) as HV by (exists (db s); done); clear Hg.

Lemma validate_venue_state `{DecimalOps} q st r f p :
  validate_venue_order_evidence q st r f p = Done tt → venue_state st = true.
Proof.
  unfold validate_venue_order_evidence. intros (_ & _ & Hv)%outcome_bind_done.
  apply outcome_bind_done in Hv as (? & _ & Hv). apply outcome_bind_done in Hv as (_ & _ & Hv).
  apply outcome_bind_done in Hv as (? & Hn & _).
  by apply reject_if_done, negb_false_iff in Hn.
Qed.

Lemma frames_apply_matched_fill `{DecimalOps} `{Platform} self o v q p ids now :
  frames view (apply_matched_fill self o v q p ids now).
Proof.
  unfold apply_matched_fill. case_match; [frame|]. frame.
  intros s. cbv beta. destruct (existsb _ _); [done|].
  refine (frames_bind _ _ _ _ _ s); [frame | intros ?; frame].
Qed.
#[export] Hint Resolve frames_apply_matched_fill : frames.

Section operations.
Context `{DL : DecimalLaws} `{Platform} `{Codec}.
Variables (self : Store) (d0 : Db).

Lemma begin_submission_good intent_id order_id :
  keeps (Good d0) (begin_submission self intent_id order_id).
Proof.
  unfold begin_submission, insert_transition. good_start d0 s V HV. sx. row_prop.
  match goal with H : length (List.filter (order_of _ _ _) _) = _ |- _ =>
    apply length_filter_one in H as (o1 & Ho1 & Hp1) end. row_prop.
  eapply (good_updates (intent_in intent_id IntentState.Prepared)
    (set_intent_state IntentState.Submitting _) (order_of order_id intent_id OrderState.Prepared)
    (set_order_state OrderState.Submitting _) (λ _, false) id [_]); [done|view_shape|done..| | | | |].
  - intros i Hi. upd_cases; [edge|done].
  - intros i o Hi Ho Hid Hl. upd_cases; [by_state| | |done].
    + by_state. intros _. exfalso.
      assert (o = o1) as -> by (eapply one_order; [exact HV|done..|congruence]). tauto.
    + by_state. exfalso. naive_solver congruence.
  - intros t ->%list_elem_of_singleton. exists o1. done.
  - intros o Ho Hle. upd_cases.
    + rewrite allowed_prepared in Hle by done. rewrite allowed_started by done.
      match goal with |- context [submissions [?t] ?id] =>
        pose proof (submissions_le_one t id) end. lia.
    + rewrite submissions_elsewhere; [lia|]. cbn. intros Heq.
      assert (o = o1) as -> by (eapply same_order; [exact HV|done..|congruence]). tauto.
  - intros r i Hr Hi Hid Hact. split; [done|]. upd_cases; [by_state|done].
Qed.

(** The states [transition_intent] is asked to move an intent between. *)
Inductive direct_edge : IntentState → IntentState → Prop :=
| D_validate : direct_edge IntentState.Received IntentState.Validating
| D_refuse : direct_edge IntentState.Received IntentState.Rejected
| D_reject : direct_edge IntentState.Validating IntentState.Rejected
| D_prepare : direct_edge IntentState.Approved IntentState.Preparing.

Lemma transition_intent_good id expected next rejection :
  direct_edge expected next → keeps (Good d0) (transition_intent self id expected next rejection).
Proof.
  intros He. unfold transition_intent. good_start d0 s V HV. sx.
  eapply (good_intents (intent_in id expected) _ (λ _, false) (λ r, r));
    [done|view_shape|done..| |].
  - intros i Hi Hp. row_prop. autorewrite with row_states.
    match goal with H : ist _ = _ |- _ => rewrite H end.
    unfold unplaced. destruct He; (split; [auto|constructor]).
  - intros r i Hr Hi Hid Hact. split; [done|]. upd_cases; [|done].
    autorewrite with row_states. match goal with H : ist _ = _ |- _ => rewrite H end.
    unfold reserving. destruct He; naive_solver.
Qed.

Lemma reject_preparation_good intent_id code message :
  keeps (Good d0) (reject_preparation self intent_id code message).
Proof.
  unfold reject_preparation. good_start d0 s V HV. sx. row_prop.
  eapply (good_intents (intent_in intent_id IntentState.Preparing) _
    (active_reservation intent_id) (set_reservation "RELEASED" _)); [done|view_shape|done..| |].
  - intros i Hi Hp. row_prop. autorewrite with row_states. unfold unplaced.
    match goal with H : ist _ = _ |- _ => rewrite H end. split; [auto|constructor].
  - intros r i Hr Hi Hid Hact. revert Hact. upd_cases; try done; intros Hact; split; try done.
    all: exfalso; naive_solver congruence.
Qed.
Lemma finish_submission_good intent_id order_id ist' ost' v class q p ids ev :
  keeps (Good d0) (finish_submission self intent_id order_id ist' ost' v class q p ids ev).
Proof.
  unfold finish_submission, insert_transition. apply keeps_ensure. intros He.
  good_start d0 s V HV. sx. run_inv. sx. row_prop.
  match goal with H : validate_venue_order_evidence _ _ _ _ _ = _ |- _ =>
    apply validate_venue_state in H as Hst end.
  match goal with H : find _ _ = Some ?o |- _ =>
    apply found_order in H as (Ho1 & Hp1); rename o into o1 end. row_prop.
  assert (ist' = IntentState.Submitted ∨ ist' = IntentState.Unknown) as Hist
    by (apply orb_true_iff in He as [?|?]; row_prop; auto).
  eapply (good_moves (intent_in intent_id IntentState.Submitting) (set_intent_state ist' _)
    (order_of order_id intent_id OrderState.Submitting)); [done|view_shape|done..| | | | | |].
  - intros i Hi. upd_cases; [|done]. destruct Hist as [-> | ->]; edge.
  - intros i Hi. upd_cases; [by_state|done].
  - intros i o Hi Ho Hid. upd_cases; [| | |done].
    + by_state. intros _. destruct Hist as [-> | ->]; by destruct ost'.
    + by_state. intros _. exfalso.
      assert (o = o1) as -> by (eapply one_order; [exact HV|done..|congruence]). tauto.
    + by_state. exfalso. naive_solver congruence.
  - by exists o1.
  - intros id. apply submissions_other. by left.
  - intros o Ho. upd_cases; [|done]. autorewrite with row_states. by destruct ost'.
Qed.

Lemma keeps_if {A} I (b : bool) (m1 m2 : Prog Sys StoreError A) :
  (b = true → keeps I m1) → (b = false → keeps I m2) → keeps I (if b then m1 else m2).
Proof. destruct b; auto. Qed.
Lemma keeps_ret {A} I (a : A) : keeps I (mret a : Prog Sys StoreError A).
Proof. by intros s. Qed.

Lemma resolve_unknown_submission_good unknown v ost' rem q p ids ev :
  keeps (Good d0) (resolve_unknown_submission self unknown v ost' rem q p ids ev).
Proof.
  unfold resolve_unknown_submission, insert_transition.
  apply keeps_if; [intros _; apply keeps_ret|intros He].
  good_start d0 s V HV. sx. run_inv. sx.
  match goal with H : validate_venue_order_evidence _ _ _ _ _ = _ |- _ =>
    apply validate_venue_state in H as Hst end.
  match goal with H : find _ _ = Some ?o |- _ =>
    apply found_order in H as (Ho1 & Hp1); rename o into o1 end. row_prop.
  eapply (good_moves (intent_in (us_intent_id unknown) IntentState.Unknown) _
    (order_in (us_order_id unknown) OrderState.Unknown)); [done|view_shape|done..| | | | | |].
  - intros i Hi. upd_cases; [edge|done].
  - intros i Hi. upd_cases; [by_state|done].
  - intros i o Hi Ho Hid. unfold linked. upd_cases; [| | |done]; autorewrite with row_states.
    all: repeat match goal with
      | H : ist ?x = _ |- context [ist ?x] => rewrite H
      | H : ost ?x = _ |- context [ost ?x] => rewrite H end.
    + by destruct ost'.
    + done.
    + by destruct (ist i), ost'.
  - by exists o1.
  - intros id. apply submissions_other. by left.
  - intros o Ho. upd_cases; [|done]. autorewrite with row_states. by destruct ost'.
Qed.

Lemma cancel_prepared_order_good order_id ev :
  keeps (Good d0) (cancel_prepared_order self order_id ev).
Proof.
  unfold cancel_prepared_order, insert_transition. good_start d0 s V HV. sx. run_inv. sx.
  match goal with H : find (order_in _ _) _ = Some ?o |- _ =>
    apply found_order in H as (Ho1 & Hp1); rename o into o1 end. row_prop.
  eapply (good_moves (intent_in (ord_intent_id o1) IntentState.Prepared) _
    (order_is order_id)); [done|view_shape|done..| | | | | |].
  - intros i Hi. upd_cases; [edge|done].
  - intros i Hi. upd_cases; [by_state|done].
  - intros i o Hi Ho Hid. upd_cases; [| | |done].
    + by_state.
    + assert (o = o1) as -> by (eapply one_order; [exact HV|done..|unfold oiid in *; congruence]). tauto.
    + assert (o = o1) as -> by (eapply same_order; [exact HV|done..|congruence]).
      unfold linked. autorewrite with row_states.
      repeat match goal with H : ost _ = _ |- _ => rewrite H end.
      destruct (ist i) eqn:?; naive_solver.
  - by exists o1.
  - intros id. apply submissions_other. by right.
  - intros o Ho. upd_cases; by autorewrite with row_states.
Qed.

(** The moves of [valid_order_transition] keep an order where its intent says it
    is, and none of them is a submission. *)
Lemma valid_transition_linked i o st now :
  valid_order_transition (ost o) st = true → linked i o → linked i (set_order_state st now o).
Proof.
  unfold linked, valid_order_transition. autorewrite with row_states.
  intros [Hv|Hv]%orb_true_iff.
  - row_prop. by subst st.
  - by destruct (ost o), st, (ist i).
Qed.
Lemma valid_transition_other prior next :
  valid_order_transition prior next = true →
  prior ≠ OrderState.Prepared ∨ next ≠ OrderState.Submitting.
Proof. destruct prior; try (by left). destruct next; try (by right). Qed.
Lemma valid_transition_prepared prior :
  valid_order_transition prior OrderState.Prepared = true → prior = OrderState.Prepared.
Proof. by destruct prior. Qed.

(** An intent that was unknown counts as submitted when its order is resolved. *)
Lemma linked_resolved i o now :
  ist i = IntentState.Unknown → linked i o →
  linked (set_intent_state IntentState.Submitted now i) o.
Proof. unfold linked. autorewrite with row_states. by intros ->. Qed.

Lemma transition_good li lo lr lt pi now o1 next ev id d' :
  GoodV d0 (li, lo, lr, lt) →
  view d' = (update_list pi (set_intent_state IntentState.Submitted now) li,
             update_list (order_is id) (set_order_state next now) lo, lr,
             lt ++ [mkTransitionRow id (Some (ost o1)) next ev now]) →
  (∀ i, pi i = true → ist i = IntentState.Unknown) →
  o1 ∈ lo → oid o1 = id → valid_order_transition (ost o1) next = true →
  Good d0 d'.
Proof.
  intros HV Hv Hpi Ho1 Hid1 Hnext.
  assert (∀ o, o ∈ lo → order_is id o = true → o = o1) as Hone.
  { intros o Ho Hp. row_prop. eapply same_order; [exact HV|done..|congruence]. }
  eapply (good_moves pi _ (order_is id) _); [done|exact Hv|done..| | | | | |].
  - intros i Hi. destruct (upd_case pi (set_intent_state IntentState.Submitted now) i)
      as [[Hp%Hpi ->]|[_ ->]]; [edge|done].
  - intros i Hi. destruct (upd_case pi (set_intent_state IntentState.Submitted now) i)
      as [[Hp%Hpi ->]|[_ ->]]; [by_state|done].
  - intros i o Hi Ho Hid Hl.
    assert (linked i (upd (order_is id) (set_order_state next now) o)) as Hl'.
    { destruct (upd_case (order_is id) (set_order_state next now) o) as [[Hp ->]|[_ ->]]; [|done].
      rewrite (Hone o Ho Hp) in *. by apply valid_transition_linked. }
    destruct (upd_case pi (set_intent_state IntentState.Submitted now) i)
      as [[Hp%Hpi ->]|[_ ->]]; [by apply linked_resolved|done].
  - by exists o1.
  - intros id'. by apply submissions_other, valid_transition_other.
  - intros o Ho. destruct (upd_case (order_is id) (set_order_state next now) o)
      as [[Hp ->]|[_ ->]]; [|done].
    autorewrite with row_states. rewrite (Hone o Ho Hp). intros ->.
    by apply valid_transition_prepared.
Qed.

Lemma transition_order_good id next ev :
  keeps (Good d0) (transition_order self id next None ev).
Proof.
  unfold transition_order, insert_transition. good_start d0 s V HV. sx. run_inv.
  match goal with H : find (order_is _) _ = Some ?o |- _ =>
    apply found_order in H as (Ho1 & Hp1); rename o into o1 end.
  case_match; sx; [by eapply GoodV_Good|]. row_prop.
  match goal with R : (if ?b then _ else _) _ = _ |- _ => destruct b; sx end.
  - eapply (transition_good _ _ _ _ (intent_in (ord_intent_id o1) IntentState.Unknown) _ o1);
      [done|view_shape|by intros i [_ ?]%intent_in_iff|done..].
  - eapply (transition_good _ _ _ _ (λ _, false) _ o1); [done|view_shape|done..].
Qed.

(** The orders that reconciliation looks at are known to the venue. *)
Definition placed (order_id : Uuid) (d : Db) : Prop :=
  ∀ o, o ∈ orders d → oid o = order_id → venue_order_id o ≠ None.

Lemma reconcile_order_projection_good order_id observed rem q p ids ev s :
  placed order_id (db s) → Good d0 (db s) →
  Good d0 (db (reconcile_order_projection self order_id observed rem q p ids ev s).2).
Proof.
  revert s. unfold reconcile_order_projection, insert_transition. apply keeps_when_transaction.
  intros s a s' HP Hg Hr. destruct (view (db s)) as [[[li lo] lr] lt] eqn:V.
  assert (GoodV d0 (li, lo, lr, lt)) as HV by (exists (db s); done). clear Hg.
  assert (∀ o, o ∈ lo → oid o = order_id → venue_order_id o ≠ None) as Hplaced.
  { injection V as <- <- <- <-. exact HP. }
  clear HP. sx. run_inv.
  match goal with H : validate_venue_order_evidence _ _ _ _ _ = _ |- _ =>
    apply validate_venue_state in H as Hst end.
  match goal with H : find _ _ = Some ?o |- _ =>
    apply found_order in H as (Ho1 & Hp1); rename o into o1 end. row_prop.
  case_match; sx; [by eapply GoodV_Good|].
  eapply (good_moves (λ _, false) (λ i, i) (order_is _));
    [done|view_shape|done..| | | |].
  - intros i o Hi Ho Hid Hl. upd_cases; [|done].
    assert (o = o1) as -> by (eapply same_order; [exact HV|done..|congruence]).
    specialize (Hplaced o1 Ho1 eq_refl). revert Hl. unfold linked. autorewrite with row_states.
    destruct (ist i), (ost o1); try done; intros _; cbn; case_match; try done; by destruct observed.
  - by exists o1.
  - intros id. apply submissions_other. 
    destruct (order_intent HV o1 Ho1) as (i & Hi & Hid & Hl).
    specialize (Hplaced o1 Ho1 eq_refl). left. intros Heq. revert Hl. unfold linked.
    fold (ost o1) in Heq. rewrite Heq. by destruct (ist i).
  - intros o Ho. upd_cases; [|done]. autorewrite with row_states.
    case_match; [done|]. by destruct observed.
Qed.

(** *** Recovery

    While the loop runs, the pair of every interrupted row is either still
    SUBMITTING or already UNKNOWN. *)
Definition pair_open (li : list IntentRow) (lo : list OrderRow) (row : UnknownSubmission) : Prop :=
  ∃ i o, i ∈ li ∧ o ∈ lo ∧ oid o = us_order_id row ∧ iid i = oiid o ∧ oiid o = us_intent_id row ∧
    ((ist i = IntentState.Submitting ∧ ost o = OrderState.Submitting) ∨
     (ist i = IntentState.Unknown ∧ ost o = OrderState.Unknown)).

Lemma interrupted_open d row : Good d0 d → row ∈ interrupted d → pair_open (intents d) (orders d) row.
Proof.
  intros [[] _] Hrow. unfold interrupted in Hrow.
  apply list_elem_of_fmap in Hrow as ([o p] & -> & Hx).
  apply elem_of_filter_b in Hx as [(i & Hi & Hs)%existsb_true_elem Hj]. cbn in Hs.
  apply list_elem_of_bind in Hj as (o' & Hj & Ho). apply list_elem_of_bind in Hj as (p' & Hj & _).
  apply list_elem_of_singleton in Hj as [= <- <-].
  apply andb_true_iff in Hs as [Hid Hs]. row_prop. exists i, o.
  assert (linked i o) as Hl by auto. cbn. split_and!; auto.
  apply orb_true_iff in Hs. revert Hl. unfold linked, ist, ost.
  destruct Hs as [Hs|Hs]; row_prop; rewrite Hs.
  - destruct (int_state i); try done; auto.
  - destruct (ord_state o); try done; auto.
Qed.

Lemma recover_one_good now (rows : list UnknownSubmission) row events s s' :
  (∀ row, row ∈ rows → pair_open (intents (db s)) (orders (db s)) row) → row ∈ rows →
  Good d0 (db s) → recover_one self now row s = (Done events, s') →
  Good d0 (db s') ∧ (∀ row, row ∈ rows → pair_open (intents (db s')) (orders (db s')) row).
Proof.
  intros Hopen Hrow Hg Hr. unfold recover_one, insert_transition in Hr.
  destruct (view (db s)) as [[[li lo] lr] lt] eqn:V.
  assert (GoodV d0 (li, lo, lr, lt)) as HV by (exists (db s); done). clear Hg.
  assert (∀ row, row ∈ rows → pair_open li lo row) as Hpairs.
  { injection V as <- <- <- <-. exact Hopen. }
  clear Hopen. sx. row_prop.
  destruct (Hpairs row Hrow) as (i1 & o1 & Hi1 & Ho1 & Hoid & Hio & Hiid & Hst).
  split.
  - eapply (good_moves (intent_is (us_intent_id row)) _ (order_is (us_order_id row)));
      [done|view_shape|done..| | | | | |].
    + intros i Hi. upd_cases; [|done].
      assert (i = i1) as -> by (eapply same_intent; [exact HV|done..|congruence]).
      destruct Hst as [[-> _]|[-> _]]; autorewrite with row_states; [apply rtc_once|]; constructor.
    + intros i Hi. upd_cases; [|done].
      assert (i = i1) as -> by (eapply same_intent; [exact HV|done..|congruence]).
      unfold reserving. destruct Hst as [[-> _]|[-> _]]; naive_solver.
    + intros i o Hi Ho Hid. upd_cases; [| | |done].
      * done.
      * assert (o = o1) as -> by (eapply one_order; [exact HV|done..|congruence]). tauto.
      * assert (o = o1) as -> by (eapply same_order; [exact HV|done..|congruence]).
        exfalso. naive_solver congruence.
    + by exists o1.
    + intros id. apply submissions_other. by left.
    + intros o Ho. by upd_cases.
  - intros row' (i2 & o2 & Hi2 & Ho2 & Hoid2 & Hio2 & Hiid2 & Hst2)%Hpairs.
    injection V as Ei Eo _ _. rewrite Ei, Eo.
    exists (upd (intent_is (us_intent_id row)) (set_intent_state IntentState.Unknown now) i2),
      (upd (order_is (us_order_id row)) (λ r : OrderRow, set_venue_order_id
         (match venue_order_id r with Some v => Some v | None => Some (us_deterministic_order_id row) end)
         (set_order_state OrderState.Unknown now r)) o2).
    rewrite !elem_of_upd.
    split_and!; [by eauto|by eauto|by upd_cases..|].
    upd_cases; [by right| | |done].
    + assert (o2 = o1) as -> by (eapply one_order; [exact HV|done..|congruence]). tauto.
    + assert (o2 = o1) as -> by (eapply same_order; [exact HV|done..|congruence]).
      exfalso. naive_solver congruence.
Qed.

Lemma recover_interrupted_submissions_good :
  keeps (Good d0) (recover_interrupted_submissions self).
Proof.
  apply keeps_transaction. intros s a s' Hg Hr. unfold recover_interrupted_submissions in Hr.
  db_inv. 
  match goal with H : for_collect _ _ ?s0 = _ |- _ =>
    eapply (for_collect_inv (λ s1, Good d0 (db s1) ∧ ∀ row, row ∈ interrupted (db s) →
      pair_open (intents (db s1)) (orders (db s1)) row)) in H as [? _] end; [done| |].
  - intros row events s1 s2 Hrow [Hg1 Hp1] Hrun. by eapply recover_one_good.
  - split; [done|]. intros row Hrow. by apply interrupted_open.
Qed.

Lemma recover_pre_one_good now row events s s' :
  pre_submission (int_state (intent row)) = true →
  Good d0 (db s) → recover_pre_one self now row s = (Done events, s') → Good d0 (db s').
Proof.
  intros Hpre Hg Hr. unfold recover_pre_one in Hr. cbv zeta in Hr.
  destruct (view (db s)) as [[[li lo] lr] lt] eqn:V.
  assert (GoodV d0 (li, lo, lr, lt)) as HV by (exists (db s); done). clear Hg.
  destruct (int_state row ≟ IntentState.Prepared) eqn:Hprep; sx; [by eapply GoodV_Good|].
  destruct (int_state row ≟ IntentState.Received) eqn:Hrecv; sx; [by eapply GoodV_Good|].
  row_prop. set (st := int_state row) in *.
  assert (st = IntentState.Validating ∨ st = IntentState.Approved ∨ st = IntentState.Preparing)
    as Hst by (unfold st in *; destruct (int_state row); naive_solver).
  eapply (good_intents (intent_in (int_id row) st) _
    (active_reservation (int_id row)) (set_reservation "RELEASED" _)); [done|view_shape|done..| |].
  - intros i Hi Hp. row_prop. autorewrite with row_states.
    match goal with H : ist _ = _ |- _ => rewrite H end.
    split; [unfold unplaced; tauto|by apply E_recover].
  - intros r i Hr' Hi Hid Hact. revert Hact. upd_cases; try done; intros Hact; split; try done.
    all: exfalso; naive_solver congruence.
Qed.

Lemma recover_pre_submission_work_good : keeps (Good d0) (recover_pre_submission_work self).
Proof.
  apply keeps_transaction. intros s a s' Hg Hr. unfold recover_pre_submission_work in Hr. db_inv.
  match goal with H : for_collect _ _ ?s0 = _ |- _ =>
    eapply (for_collect_inv (λ s1, Good d0 (db s1))) in H; [done| |done] end.
  intros row events s1 s2 Hrow Hg1 Hrun. eapply recover_pre_one_good; [|exact Hg1|exact Hrun].
  by apply elem_of_order_by, elem_of_filter_b in Hrow as [? _].
Qed.

(** *** New rows *)

Lemma admit_intent_good actor_id key request :
  keeps (Good d0) (admit_intent self actor_id key request).
Proof.
  unfold admit_intent. good_start d0 s V HV. sx. case_match; sx; [by eapply GoodV_Good|].
  destruct HV as (d & Hd & [] & He). injection Hd as <- <- <- <-.
  match goal with H : view (db ?s) = _ |- Good _ (db ?s) => injection H as Ei Eo Er Et end.
  split.
  2: { intros i (i' & Hi' & Hid & Hs)%He. exists i'. rewrite Ei, elem_of_app. eauto. }
  split; rewrite ?Ei, ?Eo, ?Er, ?Et; try done.
  - rewrite fmap_app. apply NoDup_app. split_and!; [done| |apply NoDup_singleton].
    intros x (i & -> & Hi)%list_elem_of_fmap Heq%list_elem_of_singleton. naive_solver.
  - intros o (i & Hi & Hid)%inv_intent_of0. exists i. rewrite elem_of_app. eauto.
  - intros i o [Hi| ->%list_elem_of_singleton]%elem_of_app Ho Hid; [by auto|].
    apply inv_intent_of0 in Ho as (i & Hi & Hid'). exfalso. naive_solver congruence.
  - intros r (i & Hi & Hid)%inv_reservation_of0. exists i. rewrite elem_of_app. eauto.
  - intros r i Hr' [Hi| ->%list_elem_of_singleton]%elem_of_app Hid; [by eauto|].
    apply inv_reservation_of0 in Hr' as (i & Hi & Hid'). exfalso. naive_solver congruence.
Qed.

Lemma good_reserve li lo lr lt r :
  GoodV d0 (li, lo, lr, lt) → (∃ i, i ∈ li ∧ iid i = rs_intent_id r ∧ reserving (ist i)) →
  GoodV d0 (li, lo, lr ++ [r], lt).
Proof.
  intros HV (i1 & Hi1 & Hid1 & Hres). assert (HV' := HV).
  destruct HV as (d & Hd & [] & He). exists (d <| risk_reservations := lr ++ [r] |>).
  injection Hd as <- <- <- <-. split; [done|]. split; [|exact He]. split; cbn; try done.
  - intros r' [Hr|Hr]%elem_of_app; [by auto|]. apply list_elem_of_singleton in Hr as ->. eauto.
  - intros r' i [Hr|Hr]%elem_of_app Hi Hid Hact; [by eauto|].
    apply list_elem_of_singleton in Hr as ->.
    by assert (i = i1) as -> by (eapply same_intent; [exact HV'|done..|congruence]).
Qed.

Lemma good_place li lo lr lt o :
  GoodV d0 (li, lo, lr, lt) → (∀ o', o' ∈ lo → oid o' ≠ oid o) →
  (∀ o', o' ∈ lo → oiid o' ≠ oiid o) → (∃ i, i ∈ li ∧ iid i = oiid o ∧ linked i o) →
  GoodV d0 (li, lo ++ [o], lr, lt).
Proof.
  intros HV Hnew Hone (i1 & Hi1 & Hid1 & Hl). assert (HV' := HV).
  destruct HV as (d & Hd & [] & He). exists (d <| orders := lo ++ [o] |>).
  injection Hd as <- <- <- <-. split; [done|]. split; [|exact He]. split; cbn; try done.
  - rewrite fmap_app. apply NoDup_app. split_and!; [done| |apply NoDup_singleton].
    intros x (o' & -> & Ho)%list_elem_of_fmap Heq%list_elem_of_singleton. by apply (Hnew o').
  - rewrite fmap_app. apply NoDup_app. split_and!; [done| |apply NoDup_singleton].
    intros x (o' & -> & Ho)%list_elem_of_fmap Heq%list_elem_of_singleton. by apply (Hone o').
  - intros o' [Ho|Ho]%elem_of_app; [by auto|]. apply list_elem_of_singleton in Ho as ->. eauto.
  - intros i o' Hi [Ho|Ho]%elem_of_app Hid; [by auto|]. apply list_elem_of_singleton in Ho as ->.
    by assert (i = i1) as -> by (eapply same_intent; [exact HV'|done..|congruence]).
  - intros t (o' & Ho & Hid)%inv_transitions0. exists o'. rewrite elem_of_app. eauto.
  - intros o' [Ho|Ho]%elem_of_app; [by apply inv_submissions0|]. apply list_elem_of_singleton in Ho as ->.
    change (submissions (order_transitions d) (oid o) ≤ submissions_allowed o)%nat.
    rewrite submissions_new; [lia|]. intros t (o' & Ho & <-)%inv_transitions0. by apply Hnew.
Qed.

Lemma evaluate_and_reserve_risk_good intent_id request market book policy :
  keeps (Good d0) (evaluate_and_reserve_risk self intent_id request market book policy).
Proof.
  unfold evaluate_and_reserve_risk, reserve. good_start d0 s V HV. sx. run_inv.
  match goal with R : risk_snapshot _ _ _ = _ |- _ => injection R as Hsnap <- end.
  match goal with R : (if approved ?d then _ else _) _ = _ |- _ =>
    destruct (approved d) eqn:Happ end; sx; run_inv; sx.
  - match goal with R : (let '(_, _) := ?x in _) _ = _ |- _ => destruct x end. sx. row_prop.
    match goal with H : length (List.filter (intent_in _ _) _) = _ |- _ =>
      apply length_filter_one in H as (i1 & Hi1 & Hp1) end.
    eapply GoodV_Good; [eassumption|]. apply good_reserve.
    2: { eexists. split; [by eapply elem_upd_hit|]. apply intent_in_iff in Hp1 as [Hid _].
         split; [exact Hid | by left]. }
    apply GoodV_intro. intros d' Hd.
    eapply (good_intents (intent_in intent_id IntentState.Validating) _ (λ _, false) (λ r, r));
      [done|view_shape|done..| |].
    + intros i Hi Hp. row_prop. unfold unplaced.
      match goal with H : ist i = _ |- _ => rewrite H end. split; [auto|constructor].
    + intros r i Hr' Hi Hid Hact. split; [done|]. upd_cases; [intros _; by left|done].
  - eapply (good_intents (intent_in intent_id IntentState.Validating) _ (λ _, false) (λ r, r));
      [done|view_shape|done..| |].
    + intros i Hi Hp. row_prop. unfold unplaced.
      match goal with H : ist i = _ |- _ => rewrite H end. split; [auto|constructor].
    + intros r i Hr' Hi Hid Hact. split; [done|]. upd_cases; [by_state|done].
Qed.

Lemma create_prepared_order_good i r n det sp sa fa pv sv polv fee :
  keeps (Good d0) (create_prepared_order self i r n det sp sa fa pv sv polv fee).
Proof.
  unfold create_prepared_order, insert_order. good_start d0 s V HV. sx. run_inv. sx.
  match goal with H : (length (List.filter (intent_in _ _) _) ≟ _) = true |- _ =>
    apply bool_decide_eq_true, length_filter_one in H as (i1 & Hi1 & Hp1) end.
  assert (Hp := Hp1). apply intent_in_iff in Hp as [Hid1 Hst1].
  eapply GoodV_Good; [eassumption|]. apply good_place; [|done| |].
  - apply GoodV_intro. intros d' Hd.
    eapply (good_intents (intent_in (int_id i) IntentState.Preparing) _
      (active_reservation (int_id i)) (set_reservation "CONSUMED" _)); [done|view_shape|done..| |].
    + intros i' Hi Hp. row_prop. autorewrite with row_states. unfold unplaced.
      match goal with H : ist i' = _ |- _ => rewrite H end. split; [auto|constructor].
    + intros r' i' Hr' Hi Hid Hact. revert Hact. upd_cases; try done; intros Hact; split; try done.
      all: exfalso; naive_solver congruence.
  - intros o Ho Heq.
    assert (linked i1 o) as Hl by (eapply is_linked; [exact HV|done..|by rewrite Heq]).
    revert Hl. unfold linked. by rewrite Hst1.
  - eexists. split; [by eapply elem_upd_hit|]. split; [exact Hid1|done].
Qed.

(** *** Trade-through fills *)
Lemma fill_core_order_good eid tp v tid st rem q ev now :
  st = OrderState.Filled ∨ st = OrderState.PartiallyFilled →
  keeps_done (Good d0) (fill_core_order self eid tp v tid st rem q ev now).
Proof.
  intros Hst s a s' Hg Hr. unfold fill_core_order, insert_transition in Hr.
  destruct (view (db s)) as [[[li lo] lr] lt] eqn:V.
  assert (GoodV d0 (li, lo, lr, lt)) as HV by (exists (db s); done). clear Hg. sx.
  match type of Hr with (match ?c with Some _ => _ | None => _ end) _ = _ =>
    destruct c as [o1|] eqn:Hf end; [|sx; by eapply GoodV_Good].
  apply found_order in Hf as (Ho1 & _). case_match; sx; [by eapply GoodV_Good|].
  assert (ost o1 = OrderState.Live ∨ ost o1 = OrderState.PartiallyFilled ∨
    ost o1 = OrderState.CancelPending) as Hcore.
  { match goal with H : negb _ = false |- _ =>
      apply negb_false_iff in H; apply orb_true_iff in H as [[H|H]%orb_true_iff|H] end;
      row_prop; auto. }
  eapply (good_moves (λ _, false) (λ i, i) (order_is (ord_id o1)));
    [done|view_shape|done..| | | |].
  - intros i o Hi Ho Hid Hl. upd_cases; [|done].
    assert (o = o1) as -> by (eapply same_order; [exact HV|done..|unfold oid in *; congruence]).
    revert Hl. unfold linked. autorewrite with row_states.
    destruct Hcore as [Hc|[Hc|Hc]]; rewrite Hc; destruct (ist i); try done; intros _;
      case_match; try done; by destruct Hst as [-> | ->].
  - by exists o1.
  - intros id. apply submissions_other. left. fold (ost o1).
    by destruct Hcore as [-> |[-> | ->]].
  - intros o Ho. upd_cases; [|done]. autorewrite with row_states.
    case_match; [done|]. by destruct Hst as [-> | ->].
Qed.

Lemma through_loop_good eid tp ts ob rows : ∀ t,
  keeps_done (Good d0) (through_loop self eid tp ts ob t rows).
Proof.
  assert (∀ A (m : Prog Sys StoreError A), frames view m → keeps_done (Good d0) m) as Hframe
    by (intros A m Hm; by apply keeps_keeps_done, frames_Good).
  induction rows as [|row rows IH]; intros t; cbn [through_loop]; [apply Hframe; frame|].
  case_match; [apply Hframe; frame|]. apply keeps_done_bind; [apply Hframe; frame|intros limit].
  case_match; [apply IH|]. apply keeps_done_bind; [apply Hframe; frame|intros remaining].
  case_match; [apply IH|]. apply keeps_done_bind.
  - unfold fill_resting. cbv zeta.
    repeat lazymatch goal with
    | |- keeps_done _ (fill_core_order _ _ _ _ _ _ _ _ _ _ ≫= _) =>
        apply keeps_done_bind; [apply fill_core_order_good; case_match; auto | intros ?]
    | |- keeps_done _ (_ ≫= _) => apply keeps_done_bind; [apply Hframe; frame; fail | intros ?]
    | |- keeps_done _ (let '(_, _) := ?x in _) => destruct x
    end.
    apply Hframe; frame.
  - intros [t' ev]. apply keeps_done_bind; [apply IH|]. intros [t'' more]. apply Hframe; frame.
Qed.

Lemma apply_paper_trade_through_good eid tok tp ts ob :
  keeps (Good d0) (apply_paper_trade_through self eid tok tp ts ob).
Proof.
  assert (∀ A (m : Prog Sys StoreError A), frames view m → keeps_done (Good d0) m) as Hframe
    by (intros A m Hm; by apply keeps_keeps_done, frames_Good).
  unfold apply_paper_trade_through, paper_only. apply keeps_ensure. intros _.
  apply keeps_ensure. intros _. apply keeps_transaction.
  unfold load_balances, store_balances.
  repeat first
    [ progress cbv zeta
    | apply keeps_done_bind; [by apply through_loop_good | intros [t ev]]
    | apply keeps_done_bind; [apply Hframe; frame; fail | intros ?]
    | case_match; [apply Hframe; frame|] ].
  apply Hframe; frame.
Qed.
End operations.

(** ** The operations that leave the four tables alone *)
Ltac frame_op := frame; intros s; reflexivity.

Section frames.
Context `{DL : DecimalLaws} `{Platform} `{Codec}.
Variable self : Store.

Lemma frames_record_idempotent_response actor key op id b st r :
  frames view (record_idempotent_response actor key op id b st r).
Proof. unfold record_idempotent_response, idempotent_response. frame_op. Qed.
Lemma frames_record_risk_decision i a c o pv :
  frames view (record_risk_decision self i a c o pv).
Proof. unfold record_risk_decision. frame_op. Qed.
Lemma frames_record_venue_trade_finality o t st ev :
  frames view (record_venue_trade_finality self o t st ev).
Proof. unfold record_venue_trade_finality. frame_op. Qed.
Lemma frames_set_service_state_inner a n r i e :
  frames view (set_service_state_inner self a n r i e).
Proof. unfold set_service_state_inner, insert_idempotency_record. frame_op. Qed.
Lemma frames_create_cancellation_inner a r i :
  frames view (create_cancellation_inner self a r i).
Proof. unfold create_cancellation_inner, insert_idempotency_record. frame_op. Qed.
Lemma frames_finish_cancellation i l :
  frames view (finish_cancellation self i l).
Proof. unfold finish_cancellation. frame_op. Qed.
Lemma frames_prune_events :
  frames view (prune_events self).
Proof. unfold prune_events, delete_events. frame_op. Qed.
Lemma frames_start_reconciliation_inner t i :
  frames view (start_reconciliation_inner self t i).
Proof. unfold start_reconciliation_inner, insert_idempotency_record. frame_op. Qed.
Lemma frames_finish_reconciliation i v :
  frames view (finish_reconciliation self i v).
Proof. unfold finish_reconciliation, insert_finding. frame_op. Qed.
Lemma frames_fail_reconciliation i e :
  frames view (fail_reconciliation self i e).
Proof. unfold fail_reconciliation, insert_finding. frame_op. Qed.
Lemma frames_fail_interrupted_reconciliations :
  frames view (fail_interrupted_reconciliations self).
Proof. unfold fail_interrupted_reconciliations, insert_finding. frame_op. Qed.
Lemma frames_start_backup_inner o i :
  frames view (start_backup_inner self o i).
Proof. unfold start_backup_inner, insert_idempotency_record, get_backup. frame_op. Qed.
Lemma frames_run_backup f i :
  frames view (run_backup self f i).
Proof. unfold run_backup, create_backup_files. frame_op. Qed.
Lemma frames_fail_interrupted_backups :
  frames view (fail_interrupted_backups self).
Proof. unfold fail_interrupted_backups. frame_op. Qed.
Lemma frames_bind_identity c :
  frames view (bind_identity self c).
Proof. unfold bind_identity. frame_op. Qed.
Lemma frames_initialize_paper_account c :
  frames view (initialize_paper_account self c).
Proof. unfold initialize_paper_account, paper_only, set_account, insert_starting_position. frame_op. Qed.
Lemma frames_commit_paper_order o :
  frames view (commit_paper_order self o).
Proof. unfold commit_paper_order, paper_only, load_paper_order, load_balances, store_balances. frame_op. Qed.
Lemma frames_cancel_paper_order v :
  frames view (cancel_paper_order self v).
Proof. unfold cancel_paper_order, paper_only, load_paper_order, release_reservations, set_account. frame_op. Qed.
Lemma frames_observe_positions {B} (v : Db → B) current seen l :
  (∀ ps d, v (d <| positions := ps |>) = v d) →
  (∀ e d, v (with_event e d) = v d) → frames v (observe_positions self current seen l).
Proof.
  intros Hp He. revert seen. induction l as [|[[c t] sh] l IH]; intros seen; cbn; [frame|].
  unfold position_event.
  apply frames_bind; [frame|intros _]. apply frames_bind; [frame|intros _].
  apply frames_bind; [|intros ev; apply frames_bind; [apply IH|intros [seen' more]; frame]].
  case_match; [frame|]. frame; [apply frames_upsert; intros; apply Hp | by apply frames_append_event].
Qed.
#[local] Hint Extern 1 (frames _ (observe_positions _ _ _ _)) =>
  apply frames_observe_positions; intros; reflexivity : frames.

Lemma frames_reconcile_venue_positions l : frames view (reconcile_venue_positions self l).
Proof.
  unfold reconcile_venue_positions, current_positions, clear_position, position_event. frame.
Qed.
End frames.
#[export] Hint Resolve frames_record_idempotent_response frames_record_risk_decision frames_record_venue_trade_finality frames_set_service_state_inner frames_create_cancellation_inner frames_finish_cancellation frames_prune_events frames_start_reconciliation_inner frames_finish_reconciliation frames_fail_reconciliation frames_fail_interrupted_reconciliations frames_start_backup_inner frames_run_backup frames_fail_interrupted_backups frames_bind_identity frames_initialize_paper_account frames_commit_paper_order frames_cancel_paper_order frames_reconcile_venue_positions : frames.

(** ** Histories of the store

    The operations that write, as the service calls them: the states an intent
    is moved between and the orders that reconciliation looks at are those of
    the call sites in execution.rs.  A step runs one operation to its end,
    whatever the outcome: the final state of a call that fails or panics is a
    step as well. *)
(** Unfold the operation of a goal, down to its statements. *)
Ltac unfold_op :=
  first
    [ progress unfold admit_intent
    | progress unfold record_idempotent_response, idempotent_response
    | progress unfold transition_intent
    | progress unfold record_risk_decision
    | progress unfold evaluate_and_reserve_risk, reserve
    | progress unfold create_prepared_order, insert_order
    | progress unfold reject_preparation
    | progress unfold begin_submission, insert_transition
    | progress unfold finish_submission, insert_transition
    | progress unfold recover_interrupted_submissions, recover_one, insert_transition
    | progress unfold recover_pre_submission_work, recover_pre_one
    | progress unfold resolve_unknown_submission, insert_transition
    | progress unfold transition_order, insert_transition
    | progress unfold cancel_prepared_order, insert_transition
    | progress unfold reconcile_order_projection, insert_transition
    | progress unfold record_venue_trade_finality
    | progress unfold reconcile_venue_positions, current_positions, clear_position, position_event
    | progress unfold set_service_state_inner, insert_idempotency_record
    | progress unfold create_cancellation_inner, insert_idempotency_record
    | progress unfold finish_cancellation
    | progress unfold start_reconciliation_inner, insert_idempotency_record
    | progress unfold finish_reconciliation, insert_finding
    | progress unfold fail_reconciliation, insert_finding
    | progress unfold fail_interrupted_reconciliations, insert_finding
    | progress unfold start_backup_inner, insert_idempotency_record, get_backup
    | progress unfold run_backup, create_backup_files
    | progress unfold fail_interrupted_backups
    | progress unfold bind_identity
    | progress unfold initialize_paper_account, paper_only, set_account, insert_starting_position
    | progress unfold commit_paper_order, paper_only, load_paper_order, load_balances, store_balances
    | progress unfold apply_paper_trade_through, paper_only, load_balances, store_balances
    | progress unfold cancel_paper_order, paper_only, load_paper_order, release_reservations, set_account ].

Section histories.
Context `{DL : DecimalLaws} `{Platform} `{Codec}.
Variable self : Store.

Inductive store_op (d : Db) : ∀ A, Prog Sys StoreError A → Prop :=
| Op_admit actor key r : store_op d _ (admit_intent self actor key r)
| Op_response actor key op id b st r :
    store_op d _ (record_idempotent_response actor key op id b st r)
| Op_transition_intent id e n r :
    direct_edge e n → store_op d _ (transition_intent self id e n r)
| Op_risk_decision i a c o pv : store_op d _ (record_risk_decision self i a c o pv)
| Op_risk i r m b pol : store_op d _ (evaluate_and_reserve_risk self i r m b pol)
| Op_prepare i r n det sp sa fa pv sv polv fee :
    store_op d _ (create_prepared_order self i r n det sp sa fa pv sv polv fee)
| Op_reject_preparation i c m : store_op d _ (reject_preparation self i c m)
| Op_begin_submission i o : store_op d _ (begin_submission self i o)
| Op_finish_submission i o ist ost v c q p ids ev :
    store_op d _ (finish_submission self i o ist ost v c q p ids ev)
| Op_recover_interrupted : store_op d _ (recover_interrupted_submissions self)
| Op_recover_pre : store_op d _ (recover_pre_submission_work self)
| Op_resolve u v st rem q p ids ev :
    store_op d _ (resolve_unknown_submission self u v st rem q p ids ev)
| Op_transition_order o st ev : store_op d _ (transition_order self o st None ev)
| Op_cancel_prepared o ev : store_op d _ (cancel_prepared_order self o ev)
| Op_reconcile_order o st rem q p ids ev :
    placed o d → store_op d _ (reconcile_order_projection self o st rem q p ids ev)
| Op_finality o t st ev : store_op d _ (record_venue_trade_finality self o t st ev)
| Op_positions l : store_op d _ (reconcile_venue_positions self l)
| Op_service_state a n r i e : store_op d _ (set_service_state_inner self a n r i e)
| Op_cancellation a r i : store_op d _ (create_cancellation_inner self a r i)
| Op_finish_cancellation i l : store_op d _ (finish_cancellation self i l)
| Op_prune : store_op d _ (prune_events self)
| Op_start_reconciliation t i : store_op d _ (start_reconciliation_inner self t i)
| Op_finish_reconciliation i v : store_op d _ (finish_reconciliation self i v)
| Op_fail_reconciliation i e : store_op d _ (fail_reconciliation self i e)
| Op_fail_interrupted_reconciliations :
    store_op d _ (fail_interrupted_reconciliations self)
| Op_start_backup o i : store_op d _ (start_backup_inner self o i)
| Op_run_backup f i : store_op d _ (run_backup self f i)
| Op_fail_interrupted_backups : store_op d _ (fail_interrupted_backups self)
| Op_bind_identity c : store_op d _ (bind_identity self c)
| Op_initialize_paper c : store_op d _ (initialize_paper_account self c)
| Op_commit_paper o : store_op d _ (commit_paper_order self o)
| Op_trade_through e t p q ob : store_op d _ (apply_paper_trade_through self e t p q ob)
| Op_cancel_paper v : store_op d _ (cancel_paper_order self v).

Inductive store_step (s : Sys) : Sys → Prop :=
| Store_step A (m : Prog Sys StoreError A) : store_op (db s) A m → store_step s (m s).2.

(** A database without intents, orders, reservations and transitions. *)
Definition fresh (s : Sys) : Prop := view (db s) = ([], [], [], []).
Definition reachable (s : Sys) : Prop := ∃ s0, fresh s0 ∧ rtc store_step s0 s.

#[local] Hint Resolve frames_Good admit_intent_good transition_intent_good
  evaluate_and_reserve_risk_good create_prepared_order_good reject_preparation_good
  begin_submission_good finish_submission_good recover_interrupted_submissions_good
  recover_pre_submission_work_good resolve_unknown_submission_good transition_order_good
  cancel_prepared_order_good apply_paper_trade_through_good : frames.

(** Every operation keeps the database sound, and moves intents along the edges. *)
Lemma store_op_good d0 s A (m : Prog Sys StoreError A) :
  store_op (db s) A m → Good d0 (db s) → Good d0 (db (m s).2).
Proof.
  intros Hop. destruct Hop;
    lazymatch goal with
    | |- context [reconcile_order_projection] => by apply reconcile_order_projection_good
    | |- Good _ (db ?s) → Good _ (db (?m ?s).2) =>
        change (Good d0 (db s) → Good d0 (db (m s).2));
        assert (keeps (Good d0) m) as Hk by eauto with frames nocore; apply Hk
    end.
Qed.

Lemma step_good d0 s s' : store_step s s' → Good d0 (db s) → Good d0 (db s').
Proof. intros [A m Hop]. by apply store_op_good. Qed.
Lemma steps_good d0 s s' : rtc store_step s s' → Good d0 (db s) → Good d0 (db s').
Proof. induction 1; [done|]. intros Hg. eauto using step_good. Qed.
Lemma fresh_inv s : fresh s → Inv (db s).
Proof.
  intros [= Hi Ho Hr Ht]. split; rewrite ?Hi, ?Ho, ?Hr, ?Ht; cbn; try (by constructor);
    intros; match goal with Hin : _ ∈ [] |- _ => by apply not_elem_of_nil in Hin end.
Qed.
Lemma reachable_inv s : reachable s → Inv (db s).
Proof.
  intros (s0 & Hf & Hs). eapply (steps_good (db s0)); [done|]. split; [by apply fresh_inv|done].
Qed.
Lemma reachable_evolves s s' : reachable s → rtc store_step s s' → evolves (db s) (db s').
Proof.
  intros Hr Hs. eapply (steps_good (db s)); [done|]. split; [by apply reachable_inv|done].
Qed.

(** In every history an order is submitted at most once: the journal holds
    at most one transition of it from PREPARED to SUBMITTING, and none while it
    is still PREPARED.  Crashes, recoveries and reconciliations are part of the
    histories. *)
Theorem submitted_at_most_once s o :
  reachable s → o ∈ orders (db s) →
  (submissions (order_transitions (db s)) (oid o) ≤ 1)%nat ∧
  (ost o = OrderState.Prepared → submissions (order_transitions (db s)) (oid o) = 0%nat).
Proof.
  intros []%reachable_inv Ho. specialize (inv_submissions0 o Ho). split.
  - etrans; [done|]. unfold submissions_allowed. case_match; lia.
  - intros Hp. rewrite allowed_prepared in inv_submissions0 by done. lia.
Qed.

(** C11. In every reachable database each order belongs to an intent whose state
    matches the order's, an intent has at most one order, and a reservation is
    active only while its intent is APPROVED or PREPARING. *)
Theorem reachable_consistent s :
  reachable s →
  (∀ o, o ∈ orders (db s) → ∃ i, i ∈ intents (db s) ∧ iid i = oiid o ∧ linked i o) ∧
  (∀ o o', o ∈ orders (db s) → o' ∈ orders (db s) → oiid o = oiid o' → o = o') ∧
  (∀ r i, r ∈ risk_reservations (db s) → i ∈ intents (db s) → iid i = rs_intent_id r →
     rs_state r = "ACTIVE" → reserving (ist i)).
Proof.
  intros []%reachable_inv. split_and!.
  - intros o Ho. destruct (inv_intent_of0 o Ho) as (i & Hi & Hid). eauto 6.
  - intros o o' Ho Ho'. by eapply (nodup_key_eq oiid).
  - eauto.
Qed.

(** C12. From a reachable state, intents only move along the edges of the state
    machine, and none is lost. *)
Theorem intents_follow_edges s s' i :
  reachable s → rtc store_step s s' → i ∈ intents (db s) →
  ∃ i', i' ∈ intents (db s') ∧ iid i' = iid i ∧ rtc intent_edge (ist i) (ist i').
Proof. intros Hr Hs. by apply reachable_evolves. Qed.

Lemma edge_from_final a b :
  rtc intent_edge a b → a = IntentState.Rejected ∨ a = IntentState.Submitted → b = a.
Proof.
  intros [x|x y z Hxy _] Ha; [done|].
  destruct Hxy as [| | | | | | | | | | | |x [->|[->| ->]]]; by destruct Ha.
Qed.

(** A rejected or submitted intent stays so, whatever happens afterwards:
    no recovery brings it back. *)
Theorem final_intents_stay s s' i :
  reachable s → rtc store_step s s' → i ∈ intents (db s) →
  ist i = IntentState.Rejected ∨ ist i = IntentState.Submitted →
  ∃ i', i' ∈ intents (db s') ∧ iid i' = iid i ∧ ist i' = ist i.
Proof.
  intros Hr Hs Hi Hfin. destruct (reachable_evolves s s' Hr Hs i Hi) as (i' & Hi' & Hid & He).
  exists i'. split_and!; [done..|]. by apply edge_from_final.
Qed.
End histories.

(** ** Witnesses *)
Section witnesses.
#[local] Existing Instance RefOps.
#[local] Existing Instance RefLaws.
#[local] Existing Instance RefPlatform.
#[local] Existing Instance RefCodec.

Lemma step_final {A} (m : Prog Sys StoreError A) s :
  store_op fix_store (db s) A m → store_step fix_store s (final m s).
Proof. apply Store_step. Qed.

Lemma received_live : rtc (store_step fix_store) sys_received sys_live.
Proof.
  apply (rtc_l _ _ sys_validating); [apply step_final, Op_transition_intent, D_validate|].
  apply (rtc_l _ _ sys_approved); [apply step_final, Op_risk|].
  apply (rtc_l _ _ sys_preparing); [apply step_final, Op_transition_intent, D_prepare|].
  apply (rtc_l _ _ sys_prepared); [apply step_final, Op_prepare|].
  apply (rtc_l _ _ sys_submitting); [apply step_final, Op_begin_submission|].
  apply rtc_once, step_final, Op_finish_submission.
Qed.
Lemma received_reachable : reachable fix_store sys_received.
Proof. exists sys_ready. split; [done|]. apply rtc_once, step_final, Op_admit. Qed.
Lemma live_reachable : reachable fix_store sys_live.
Proof.
  destruct received_reachable as (s0 & Hf & Hs). exists s0. split; [done|].
  etrans; [exact Hs | exact received_live].
Qed.

Definition fix_order : OrderRow :=
  default (mkOrderRow (mkOrderRecord 0%N 0%N Paper None "" "" Buy Gtc "" "" "" OrderState.Unknown 0 0)
    "" "") (head (orders (db sys_live))).
Definition fix_final_intent : IntentRow := default (mkIntentRow fix_intent None) (head (intents (db sys_live))).

Lemma submitted_at_most_once_witness :
  submissions (order_transitions (db sys_live)) (oid fix_order) = 1%nat ∧
  (submissions (order_transitions (db sys_live)) (oid fix_order) ≤ 1)%nat.
Proof.
  split; [vm_compute; reflexivity|].
  apply (submitted_at_most_once fix_store sys_live fix_order live_reachable).
  apply list_elem_of_In. vm_compute. left. reflexivity.
Defined.

Lemma reachable_consistent_witness :
  length (orders (db sys_live)) = 1%nat ∧
  ∀ o, o ∈ orders (db sys_live) →
    ∃ i, i ∈ intents (db sys_live) ∧ iid i = oiid o ∧ linked i o.
Proof.
  split; [vm_compute; reflexivity|].
  apply (reachable_consistent fix_store sys_live live_reachable).
Defined.

Definition fix_received : IntentRow := default (mkIntentRow fix_intent None) (head (intents (db sys_received))).

Lemma intents_follow_edges_witness :
  ∃ i', i' ∈ intents (db sys_live) ∧ iid i' = iid fix_received ∧
    rtc intent_edge (ist fix_received) (ist i').
Proof.
  apply (intents_follow_edges fix_store sys_received sys_live fix_received received_reachable
    received_live).
  apply list_elem_of_In. vm_compute. left. reflexivity.
Defined.

Lemma final_intents_stay_witness :
  ∃ i', i' ∈ intents (db (final (recover_pre_submission_work fix_store) sys_live)) ∧
    iid i' = iid fix_final_intent ∧ ist i' = ist fix_final_intent.
Proof.
  apply (final_intents_stay fix_store sys_live _ fix_final_intent live_reachable).
  - apply rtc_once, step_final, Op_recover_pre.
  - apply list_elem_of_In. vm_compute. left. reflexivity.
  - right. vm_compute. reflexivity.
Defined.
End witnesses.
