(* ===== verification/History.v ===== *)
(** * History: invariants of the histories of the store

    What an invariant over the event log, the control row, the identity of the
    intents and the idempotency keys needs to be kept by every operation of a
    history but [prune_events]: the condition is stated once, statement by
    statement, and the operations are taken apart once. *)
From S2P Require Import Prelude Text DecimalSpec RefDecimal Json Platform Domain Venue Fixtures Risk Schema StoreIntents StoreRisk StoreOrders StoreControl StorePaper StoreFixtures StoreLogic Lifecycle.

(** The part of an intent that no update touches. *)
Definition intent_key (i : IntentRow) : Uuid * string * string * string :=
  (int_id i, int_actor_id i, int_idempotency_key i, int_request_hash i).

(** The part of the database such an invariant reads. *)
Definition footprint (d : Db) :=
  (execution_events d, last_sequence d, control_state d, intent_key <$> intents d,
   idempotency_keys d).

Record stable (I : Db → Prop) : Prop := {
  stable_frame d d' : footprint d = footprint d' → I d → I d';
  stable_event e d : sequence e = last_sequence d + 1 → I d → I (with_event e d);
  stable_control c d : ct_revision c = ct_revision (control_state d) + 1 → I d →
    I (d <| control_state := c |>);
  stable_intent (r : IntentRow) d : existsb (clash r) (intents d) = false → I d →
    I (d <| intents := intents d ++ [r] |>);
  stable_key (r : IdempotencyRow) d : existsb (clash r) (idempotency_keys d) = false → I d →
    I (d <| idempotency_keys := idempotency_keys d ++ [r] |>);
}.

(** An invariant may also read the backups and the identity of the database: the
    backups change, but none is COMPLETE that was not, and the identity is bound
    once, in the mode of the store.  Only [run_backup] completes a backup. *)
Definition wide_footprint (d : Db) := (footprint d, backups d, instance_metadata d).
Record lasting (self : Store) (I : Db → Prop) : Prop := {
  lasting_frame d d' : wide_footprint d = wide_footprint d' → I d → I d';
  lasting_event e d : sequence e = last_sequence d + 1 → I d → I (with_event e d);
  lasting_control c d : ct_revision c = ct_revision (control_state d) + 1 → I d →
    I (d <| control_state := c |>);
  lasting_intent (r : IntentRow) d : existsb (clash r) (intents d) = false → I d →
    I (d <| intents := intents d ++ [r] |>);
  lasting_key (r : IdempotencyRow) d : existsb (clash r) (idempotency_keys d) = false → I d →
    I (d <| idempotency_keys := idempotency_keys d ++ [r] |>);
  lasting_backups l d :
    (∀ b, b ∈ l → bk_state b = "COMPLETE" → b ∈ backups d) →
    (NoDup (bk_id <$> backups d) → NoDup (bk_id <$> l)) → I d → I (d <| backups := l |>);
  lasting_identity row d :
    instance_metadata d = None → im_mode row = Mode_to_string (st_mode self) → I d →
    I (d <| instance_metadata := Some row |>);
}.
Lemma stable_lasting self I : stable I → lasting self I.
Proof.
  intros HI. split; try apply HI.
  - intros d d' [= ? ? ? ? ? _ _]. apply HI. unfold footprint. congruence.
  - intros l d _ _. by apply HI.
  - intros row d _ _. by apply HI.
Qed.

Section history.
Context `{DL : DecimalLaws} `{Platform} `{Codec}.
Variable self : Store.
Context {I : Db → Prop} (HI : lasting self I).

Lemma keeps_footprint {A} (m : Prog Sys StoreError A) : frames wide_footprint m → keeps I m.
Proof. apply keeps_frames. intros d d' E. apply HI. by rewrite E. Qed.
Lemma keeps_insert_backup (r : BackupRecord) : bk_state r ≠ "COMPLETE" → keeps I (insert r).
Proof.
  intros Hr s Hs. unfold insert. cbn [rows backups_table].
  destruct (existsb _ _) eqn:Hc; [done|]. destruct (refs _ _); [|done].
  apply (lasting_backups _ _ HI); [| |exact Hs].
  - intros b [Hb| ->%list_elem_of_singleton]%elem_of_app; done.
  - intros Hnd. rewrite fmap_app. apply NoDup_app. split; [done|]. split; [|apply NoDup_singleton].
    intros id (b & -> & Hb)%list_elem_of_fmap Hid%list_elem_of_singleton.
    apply not_true_iff_false in Hc. apply Hc, existsb_true_elem. exists b. split; [done|].
    by apply bool_decide_eq_true.
Qed.
Lemma keeps_update_backups (p : BackupRecord → bool) f :
  (∀ b, bk_state (f b) ≠ "COMPLETE" ∧ bk_id (f b) = bk_id b) → keeps I (update_where p f).
Proof.
  intros Hf s. apply (lasting_backups _ _ HI).
  - intros b (b0 & Hb0 & ->)%elem_of_upd Hb. unfold upd in *.
    destruct (p b0); [by destruct (Hf b0)|done].
  - by rewrite update_list_fmap by apply Hf.
Qed.
Lemma bind_identity_keeps c : keeps I (bind_identity self c).
Proof.
  intros s Hs. unfold bind_identity, gets. unfold mbind at 1, prog_bind at 1. cbv beta iota zeta.
  destruct (instance_metadata (db s)) as [row|] eqn:Hrow.
  - revert s Hs Hrow. match goal with |- ∀ s, _ → _ → I (db (?m s).2) =>
      enough (keeps I m) as Hm by (intros s Hs _; by apply Hm) end.
    apply keeps_footprint. frame.
  - unfold lift, utc_now, mbind, prog_bind. destruct (ok_or _ _); [|done..]. cbn.
    by apply (lasting_identity _ _ HI).
Qed.
Lemma keeps_append_event mode ty rt ri p : keeps I (append_event mode ty rt ri p).
Proof. intros s. by apply (lasting_event _ _ HI). Qed.
Lemma keeps_insert_intent (r : IntentRow) : keeps I (insert r).
Proof.
  intros s Hs. unfold insert. cbn [rows intents_table].
  destruct (existsb _ _) eqn:Hc; [done|]. destruct (refs _ _); [|done].
  by apply (lasting_intent _ _ HI).
Qed.
Lemma keeps_insert_key (r : IdempotencyRow) : keeps I (insert r).
Proof.
  intros s Hs. unfold insert. cbn [rows idempotency_table].
  destruct (existsb _ _) eqn:Hc; [done|]. destruct (refs _ _); [|done].
  by apply (lasting_key _ _ HI).
Qed.
Lemma keeps_ignore_key (r : IdempotencyRow) : keeps I (insert_or_ignore r).
Proof.
  intros s Hs. unfold insert_or_ignore. cbn [rows idempotency_table].
  destruct (existsb _ _) eqn:Hc; [done|]. destruct (refs _ _); [|done].
  by apply (lasting_key _ _ HI).
Qed.
Lemma keeps_update_intents (p : IntentRow → bool) f :
  (∀ r, intent_key (f r) = intent_key r) → keeps I (update_where p f).
Proof.
  intros Hf s. apply (lasting_frame _ _ HI). unfold wide_footprint, footprint. cbn -[update_list fmap].
  by rewrite update_list_fmap.
Qed.

Ltac keep := keep_with ltac:(first
  [ apply keeps_append_event | apply keeps_insert_intent | apply keeps_insert_key
  | apply keeps_ignore_key | by apply keeps_update_intents
  | by apply keeps_insert_backup | apply keeps_update_backups; by intros ?
  | apply keeps_footprint; frame; fail ]).

Lemma apply_matched_fill_keeps o v q p ids now : keeps I (apply_matched_fill self o v q p ids now).
Proof.
  unfold apply_matched_fill. keep. intros s Hs. cbv beta. destruct (existsb _ _); [done|].
  revert s Hs. apply keeps_bind; [|intros ?]; keep.
Qed.
Hint Resolve apply_matched_fill_keeps : keeps.

Lemma through_loop_keeps eid tp ts ob rows : ∀ t, keeps I (through_loop self eid tp ts ob t rows).
Proof.
  induction rows as [|row rows IH]; intros t; cbn [through_loop]; [keep|].
  unfold fill_resting, fill_core_order, insert_transition. keep.
Qed.
Hint Resolve through_loop_keeps : keeps.

Lemma observe_positions_keeps current l : ∀ seen, keeps I (observe_positions self current seen l).
Proof.
  induction l as [|[[c t] sh] l IH]; intros seen; cbn [observe_positions]; [keep|].
  unfold position_event. keep.
Qed.
Hint Resolve observe_positions_keeps : keeps.

Lemma update_attempts_keeps i st f : keeps I (update_attempts i st f).
Proof. apply keeps_footprint. intros s. reflexivity. Qed.
Lemma risk_snapshot_keeps c t : keeps I (risk_snapshot c t).
Proof. apply keeps_footprint. intros s. reflexivity. Qed.
Hint Resolve update_attempts_keeps risk_snapshot_keeps : keeps.

(** The revision that is written follows the one that was read. *)
Lemma set_service_state_keeps a n r i e : keeps I (set_service_state_inner self a n r i e).
Proof.
  apply keeps_transaction. intros s u s' Hs Hr. 
  apply bind_done in Hr as (row & s1 & Hrow & Hr). apply gets_done in Hrow as [-> ->].
  apply bind_done in Hr as (v & s1 & Hv & Hr). apply ensure_done in Hv as [_ ->].
  apply bind_done in Hr as (rev & s1 & Hv & Hr). apply lift_done in Hv as [Hv ->].
  apply bind_done in Hr as (now & s1 & Ht & Hr). apply utc_now_done in Ht as [-> ->].
  apply bind_done in Hr as (w & s1 & Hw & Hr). apply update_control_done in Hw as ->.
  eapply keeps_keeps_done; [| |exact Hr].
  - unfold insert_idempotency_record. keep.
  - apply (lasting_control _ _ HI); [|exact Hs]. cbn. apply ok_or_done in Hv.
    unfold checked_add_i64 in Hv. destruct (i64_max <? _); [discriminate Hv|]. by injection Hv as <-.
Qed.
Hint Resolve set_service_state_keeps : keeps.

Inductive is_prune : ∀ A, Prog Sys StoreError A → Prop :=
| Is_prune : is_prune nat (prune_events self).
Inductive is_run_backup : ∀ A, Prog Sys StoreError A → Prop :=
| Is_run_backup f i : is_run_backup () (run_backup self f i).

(** Every operation but [prune_events] and [run_backup] keeps a lasting invariant. *)
Lemma store_op_lasting s A (m : Prog Sys StoreError A) :
  store_op self (db s) A m → is_prune A m ∨ is_run_backup A m ∨ keeps I m.
Proof.
  intros Hop. destruct Hop; try (by left); try (by right; left); right; right;
    try solve [auto with keeps nocore | apply bind_identity_keeps].
  all: unfold_op; keep.
Qed.
End history.

(** Every operation but [prune_events] keeps a stable invariant. *)
Lemma store_op_stable `{DL : DecimalLaws} `{Platform} `{Codec} self {I : Db → Prop} s A
    (m : Prog Sys StoreError A) :
  stable I → store_op self (db s) A m → is_prune self A m ∨ keeps I m.
Proof.
  intros HI [|[[f i]|]]%(store_op_lasting self (stable_lasting self I HI)); [by left| |by right].
  right. unfold run_backup, create_backup_files. pose proof (stable_lasting self I HI) as HL.
  keep_with ltac:(first [ by apply (keeps_append_event self HL)
    | apply keeps_frames with (v := footprint); [apply HI|frame; fail] ]).
Qed.
