(* ===== verification/Events.v ===== *)
(** * Events: atomicity of the operations and the event log

    An operation that does not succeed leaves the tables and the broadcast
    channel as they were.  The event log only grows at its end, with sequence
    numbers that are never used twice, and only [prune_events] shortens it, at
    its start. *)
From Stdlib Require Import Sorted.
From S2P Require Import Prelude Text DecimalSpec RefDecimal Json Platform Domain Venue Fixtures Risk Schema StoreIntents StoreRisk StoreOrders StoreControl StorePaper StoreFixtures StoreLogic Lifecycle History.

(** ** Atomicity *)

Definition atomic {A} (m : Prog Sys StoreError A) : Prop :=
  ∀ s o s', m s = (o, s') → (∀ a, o ≠ Done a) → db s' = db s ∧ sent s' = sent s.

(** The tables and the channel are not touched. *)
Definition silent {A} (m : Prog Sys StoreError A) : Prop :=
  ∀ s, db (m s).2 = db s ∧ sent (m s).2 = sent s.

Lemma silent_atomic {A} (m : Prog Sys StoreError A) : silent m → atomic m.
Proof. intros Hm s o s' Hr _. specialize (Hm s). by rewrite Hr in Hm. Qed.
Lemma atomic_transaction {A} (body : Prog Sys StoreError (A * _)) : atomic (transaction body).
Proof. intros s o s'. apply transaction_rolls_back. Qed.
(** Checks before the work, and reads after it. *)
Lemma atomic_after {A B} (m : Prog Sys StoreError A) (k : A → Prog Sys StoreError B) :
  silent m → (∀ a, atomic (k a)) → atomic (m ≫= k).
Proof.
  intros Hm Hk s o s'. specialize (Hm s). unfold mbind, prog_bind.
  destruct (m s) as [[a|e|] s1]; cbn in Hm; destruct Hm as [Hd Hs].
  - intros Hr Ho. destruct (Hk a s1 o s' Hr Ho) as [-> ->]. done.
  - by intros [= <- <-] _.
  - by intros [= <- <-] _.
Qed.
Lemma silent_ensure b e : silent (ensure b e).
Proof. by destruct b. Qed.
Lemma silent_lift {A} (o : outcome StoreError A) : silent (lift o).
Proof. done. Qed.
Lemma silent_gets {A} (f : Sys → A) : silent (gets f).
Proof. done. Qed.
Lemma silent_now `{Platform} : silent utc_now.
Proof. done. Qed.
Lemma silent_id `{Platform} : silent now_v7.
Proof. done. Qed.

Lemma silent_bind {A B} (m : Prog Sys StoreError A) (k : A → Prog Sys StoreError B) :
  silent m → (∀ a, silent (k a)) → silent (m ≫= k).
Proof.
  intros Hm Hk s. specialize (Hm s). unfold mbind, prog_bind.
  destruct (m s) as [[a|e|] s1]; cbn in Hm; [|done..]. destruct Hm as [<- <-]. apply Hk.
Qed.

(** [silence]: the program is built from reads and checks. *)
Ltac silence :=
  repeat first
    [ apply silent_ensure | apply silent_lift | apply silent_gets | apply silent_now
    | apply silent_id | (intros s; split; reflexivity)
    | apply silent_bind; [|intros ?]
    | match goal with |- silent (match ?x with _ => _ end) => destruct x end ].
(** [atomicity]: checks, then a transaction. *)
Ltac atomicity :=
  repeat first
    [ apply atomic_transaction
    | apply atomic_after; [silence; fail|intros ?]
    | match goal with |- atomic (if ?b then _ else _) => destruct b end
    | apply silent_atomic; silence; fail ].

Section atomicity.
Context `{DL : DecimalLaws} `{Platform} `{Codec}.
Variable self : Store.

Lemma record_idempotent_response_atomic actor key op id b st r :
  atomic (record_idempotent_response actor key op id b st r).
Proof.
  unfold record_idempotent_response. apply atomic_after; [apply silent_now|]. intros now s o s' Hr Ho.
  unfold mbind at 1, prog_bind in Hr.
  match type of Hr with context [insert_or_ignore ?r s] =>
    destruct (insert_or_ignore r s) as [[n|e|] s1] eqn:Hi end; cbn in Hr.
  - apply insert_or_ignore_done in Hi as [(_ & -> & ->)|(_ & _ & -> & ->)].
    + revert s o s' Hr Ho. apply silent_atomic. unfold idempotent_response. silence.
    + injection Hr as <- <-. by destruct (Ho tt).
  - unfold insert_or_ignore in Hi. repeat case_match; simplify_eq; done.
  - unfold insert_or_ignore in Hi. repeat case_match; simplify_eq; done.
Qed.

Lemma bind_identity_atomic c : atomic (bind_identity self c).
Proof.
  unfold bind_identity. apply atomic_after; [silence|]. intros [row|]; [atomicity|].
  apply atomic_after; [silence|]. intros chain. apply atomic_after; [silence|]. intros now.
  by intros s o s' [= <- <-] Ho; destruct (Ho tt).
Qed.

(** [start_backup_inner] reads back the row it has just committed. *)
Lemma start_backup_atomic d i : atomic (start_backup_inner self d i).
Proof.
  unfold start_backup_inner. apply atomic_after; [silence|]. intros _.
  apply atomic_after; [silence|]. intros id. apply atomic_after; [silence|]. intros now.
  intros s o s' Hr Ho. unfold mbind at 1, prog_bind in Hr.
  match type of Hr with context [transaction ?m s] =>
    destruct (transaction m s) as [[[]|e|] s1] eqn:Ht end.
  2, 3: injection Hr as _ <-; by apply (transaction_rolls_back _ _ _ _ Ht).
  exfalso. apply transaction_done in Ht as (ev & s2 & Ht & ->).
  apply bind_done in Ht as (u & s3 & Hins & Ht). apply insert_done in Hins as (_ & _ & ->).
  match type of Ht with ?m ?s3 = _ => assert (frames backups m) as Hf
    by (unfold insert_idempotency_record; frame; fail); specialize (Hf s3); rewrite Ht in Hf end.
  cbn in Hf. unfold get_backup in Hr. destruct (List.find (backup_is id) (backups (db s2))) eqn:Hfind.
  - unfold mbind, prog_bind, fetch_optional, gets in Hr. cbn in Hr. rewrite Hfind in Hr. cbn in Hr.
    injection Hr as <- _. by eapply Ho.
  - rewrite Hf in Hfind. eapply find_None_elem in Hfind; [|apply elem_of_app; right; by left].
    unfold backup_is in Hfind. cbn in Hfind. by apply bool_decide_eq_false in Hfind.
Qed.

(** C21. An operation that fails or panics changes no table and broadcasts no
    event; only [run_backup] leaves a trace, the record of the failed backup. *)
Theorem failed_operations_change_nothing s A (m : Prog Sys StoreError A) o s' :
  store_op self (db s) A m → m s = (o, s') → (∀ a, o ≠ Done a) →
  is_run_backup self A m ∨ db s' = db s ∧ sent s' = sent s.
Proof.
  intros Hop. enough (is_run_backup self A m ∨ atomic m) as [?|Hm]; [by left| |].
  { intros Hr Ho. right. by eapply Hm. }
  destruct Hop; try (by left); right;
    first [ apply record_idempotent_response_atomic | apply bind_identity_atomic
          | apply start_backup_atomic | idtac ].
  all: unfold resolve_unknown_submission, finish_submission, commit_paper_order,
    initialize_paper_account, apply_paper_trade_through, cancel_paper_order, prune_events, paper_only,
    admit_intent, record_risk_decision; atomicity.
Qed.
End atomicity.

(** ** The event log *)

(** The log is sorted by its sequence numbers, none of which has been given out
    for later. *)
Record log_ok (d : Db) : Prop := {
  log_sorted : StronglySorted Z.lt (sequence <$> execution_events d);
  log_bound e : e ∈ execution_events d → sequence e <= last_sequence d;
}.
(** A sequence number names the same event for ever. *)
Definition log_later (d0 d : Db) : Prop :=
  last_sequence d0 <= last_sequence d ∧
  ∀ e, e ∈ execution_events d → e ∈ execution_events d0 ∨ last_sequence d0 < sequence e.

Lemma sorted_snoc l z :
  StronglySorted Z.lt l → (∀ y, y ∈ l → y < z) → StronglySorted Z.lt (l ++ [z]).
Proof.
  induction 1 as [|x l Hl IH Hx]; intros Hz; cbn; constructor; [constructor|constructor| |].
  - apply IH. intros y Hy. apply Hz. by right.
  - apply Forall_app. split; [done|]. constructor; [|constructor]. apply Hz. by left.
Qed.
Lemma sorted_filter p l :
  StronglySorted Z.lt (sequence <$> l) → StronglySorted Z.lt (sequence <$> List.filter p l).
Proof.
  induction l as [|e l IH]; cbn; intros Hs; [done|]. apply StronglySorted_inv in Hs as [Hs Hf].
  destruct (p e); cbn; [|by apply IH]. constructor; [by apply IH|].
  rewrite Forall_forall in *. intros z (e' & -> & He')%list_elem_of_fmap. apply Hf.
  apply list_elem_of_fmap. exists e'. split; [done|]. by apply elem_of_filter_b in He' as [_ ?].
Qed.

Lemma log_ok_same d d' :
  execution_events d = execution_events d' → last_sequence d = last_sequence d' →
  log_ok d → log_ok d'.
Proof. intros E1 E2 []. split; by rewrite <-?E1, <-?E2. Qed.
Lemma with_event_ok e d : sequence e = last_sequence d + 1 → log_ok d → log_ok (with_event e d).
Proof.
  intros He []. split; cbn.
  - rewrite fmap_app. apply sorted_snoc; [done|].
    intros y (e' & -> & He')%list_elem_of_fmap. specialize (log_bound0 _ He'). lia.
  - intros e' [He'|He']%elem_of_app; [specialize (log_bound0 _ He'); lia|].
    apply list_elem_of_singleton in He' as ->. lia.
Qed.
Lemma with_event_later d0 e d :
  sequence e = last_sequence d + 1 → log_later d0 d → log_later d0 (with_event e d).
Proof.
  intros He [Hl Hd]. split; cbn; [lia|].
  intros e' [He'|He']%elem_of_app; [by apply Hd|].
  apply list_elem_of_singleton in He' as ->. right. lia.
Qed.

Lemma log_ok_stable : stable log_ok.
Proof.
  split; [|exact with_event_ok|..]; intros.
  - match goal with Hf : footprint _ = footprint _ |- _ => injection Hf as E1 E2 _ _ _ end.
    by eapply log_ok_same.
  - match goal with Hk : log_ok ?d |- _ => by apply (log_ok_same d) end.
  - match goal with Hk : log_ok ?d |- _ => by apply (log_ok_same d) end.
  - match goal with Hk : log_ok ?d |- _ => by apply (log_ok_same d) end.
Qed.
Lemma log_later_stable d0 : stable (log_later d0).
Proof.
  split; [|intros e d; apply with_event_later|by intros ??? []..].
  intros d d' [= E1 E2 _ _ _] []. split; by rewrite <-?E1, <-?E2.
Qed.
Lemma log_prefix_stable l : stable (λ d, l `prefix_of` execution_events d).
Proof.
  split; [| |done..].
  - by intros d d' [= <- _ _ _ _].
  - intros e d _ Hl. by apply prefix_app_r.
Qed.

Section log_theorems.
Context `{DL : DecimalLaws} `{Platform} `{Codec}.
Variable self : Store.

(** What [prune_events] does to the database. *)
Lemma prune_events_effect s :
  let cutoff := saturating_sub_i64
    (default 0 (list_max (sequence <$> execution_events (db s)))) (event_retention self) in
  db (prune_events self s).2 = db s ∨
  0 < cutoff ∧ (st_mode self = Live → cutoff <= backed_up_through (db s)) ∧
  db (prune_events self s).2 = db s <| execution_events :=
    List.filter (λ e, negb (sequence e <=? cutoff)) (execution_events (db s)) |>.
Proof.
  cbv zeta. unfold prune_events, lift, mbind at 1, prog_bind.
  destruct (ok_or _ _) as [retention|e|] eqn:Hr; cbn; [|by left..].
  apply ok_or_done in Hr. case_match; [|done]. injection Hr as <-.
  unfold transaction, mbind, prog_bind, gets. cbn. 
  destruct (_ <=? 0) eqn:Hpos; cbn; [by left|].
  destruct (decide (st_mode self = Live)) as [Hm|Hm];
    [rewrite bool_decide_true by done | rewrite bool_decide_false by done]; cbn.
  - destruct (_ <? _) eqn:Hc; cbn; [by left|]. right. split_and!; [lia| |done]. intros _. lia.
  - right. split_and!; [lia|done..].
Qed.

(** A stable invariant that survives the deletion of events is kept by every
    history. *)
Lemma stable_steps (I : Db → Prop) s s' :
  stable I →
  (∀ p d, I d → I (d <| execution_events := List.filter p (execution_events d) |>)) →
  rtc (store_step self) s s' → I (db s) → I (db s').
Proof.
  intros HI Hprune. induction 1 as [|s s1 s2 [A m Hop] _ IH]; [done|]. intros Hs. apply IH.
  destruct (store_op_stable self s A m HI Hop) as [Hp|Hk]; [|by apply Hk].
  destruct Hp, (prune_events_effect s) as [-> |(_ & _ & ->)]; [done|]. by apply Hprune.
Qed.

Lemma event_log_ok s s' : rtc (store_step self) s s' → log_ok (db s) → log_ok (db s').
Proof.
  intros Hs Hok. eapply stable_steps; [exact log_ok_stable| |done..]. intros p d []. split; cbn.
  - by apply sorted_filter.
  - intros e [_ He]%elem_of_filter_b. auto.
Qed.

(** In every history of store operations the event log stays sorted by
    sequence number, and a sequence number is given out once: an event of the
    later log is either one of the earlier log or newer than all of it. *)
Theorem event_log_grows s s' :
  rtc (store_step self) s s' → log_ok (db s) → log_ok (db s') ∧ log_later (db s) (db s').
Proof.
  intros Hs Hok. split; [by apply (event_log_ok s)|].
  eapply (stable_steps (log_later (db s))); [apply log_later_stable| |done|split; [lia|auto]].
  intros p d [? Hl]. split; [done|]. intros e [_ He]%elem_of_filter_b. by apply Hl.
Qed.

(** Only [prune_events] removes events: every other operation, whatever its
    outcome, leaves a log that begins with the log it found. *)
Theorem event_log_append_only s A (m : Prog Sys StoreError A) :
  store_op self (db s) A m →
  is_prune self A m ∨ execution_events (db s) `prefix_of` execution_events (db (m s).2).
Proof.
  intros Hop.
  destruct (store_op_stable self s A m (log_prefix_stable (execution_events (db s))) Hop) as [|Hk];
    [by left|right; by apply Hk].
Qed.

(** [prune_events] keeps the [event_retention] newest sequence numbers, and
    in live mode it deletes nothing that a completed backup does not cover. *)
Theorem prune_keeps_recent_and_unsaved s e :
  e ∈ execution_events (db s) → e ∉ execution_events (db (prune_events self s).2) →
  sequence e <= default 0 (list_max (sequence <$> execution_events (db s))) - event_retention self ∧
  (st_mode self = Live → sequence e <= backed_up_through (db s)).
Proof.
  intros He Hgone. destruct (prune_events_effect s) as [Heq|(Hpos & Hlive & Heq)];
    rewrite Heq in Hgone; [done|]. cbn in Hgone.
  rewrite elem_of_filter_b in Hgone. destruct (sequence e <=? _) eqn:Hcut; [|naive_solver].
  apply Z.leb_le in Hcut. split.
  - revert Hcut Hpos. unfold saturating_sub_i64, i64_max. lia.
  - intros Hm. specialize (Hlive Hm). lia.
Qed.
End log_theorems.

(** ** Witnesses *)
Section witnesses.
#[local] Existing Instance RefOps.
#[local] Existing Instance RefLaws.
#[local] Existing Instance RefPlatform.
#[local] Existing Instance RefCodec.

(** An admission that is refused because the service is halted. *)
Definition halted_admission := admit_intent fix_store "actor" "key" fix_request.

Lemma failed_operations_change_nothing_witness :
  result halted_admission (fix_sys "HALTED") = Failed (NewRiskDisabled "HALTED") ∧
  (is_run_backup fix_store Admission halted_admission ∨
   db (final halted_admission (fix_sys "HALTED")) = db (fix_sys "HALTED") ∧
   sent (final halted_admission (fix_sys "HALTED")) = sent (fix_sys "HALTED")).
Proof.
  split; [vm_compute; reflexivity|].
  apply (failed_operations_change_nothing fix_store (fix_sys "HALTED") Admission halted_admission
    (result halted_admission (fix_sys "HALTED"))).
  - apply Op_admit.
  - vm_compute. reflexivity.
  - vm_compute. discriminate.
Defined.

Lemma event_log_grows_witness :
  length (execution_events (db sys_live)) = 12%nat ∧
  log_ok (db sys_live) ∧ log_later (db sys_received) (db sys_live).
Proof.
  split; [vm_compute; reflexivity|].
  apply (event_log_grows fix_store sys_received sys_live).
  - exact received_live.
  - split; [vm_compute; repeat constructor|].
    intros e He. vm_compute in He. apply list_elem_of_singleton in He as ->. vm_compute. discriminate.
Defined.

Lemma event_log_append_only_witness :
  is_prune fix_store _ halted_admission ∨
  execution_events (db sys_ready) `prefix_of`
    execution_events (db (halted_admission sys_ready).2).
Proof.
  apply (event_log_append_only fix_store sys_ready _ halted_admission). apply Op_admit.
Defined.

(** A store that keeps two events. *)
Definition small_store : Store := mkStore Paper 2.
Definition first_event : ExecutionEvent :=
  default (mkExecutionEvent 0 "" "" "" Paper "" 0) (head (execution_events (db sys_live))).

Lemma prune_keeps_recent_and_unsaved_witness :
  sequence first_event = 1 ∧
  sequence first_event <=
    default 0 (list_max (sequence <$> execution_events (db sys_live))) - 2 ∧
  (st_mode small_store = Live → sequence first_event <= backed_up_through (db sys_live)).
Proof.
  split; [vm_compute; reflexivity|].
  apply (prune_keeps_recent_and_unsaved small_store sys_live first_event).
  - apply list_elem_of_In. vm_compute. left. reflexivity.
  - intros He%(list_elem_of_fmap_2 sequence). revert He.
    apply (bool_decide_unpack (sequence first_event ∉ sequence <$>
      execution_events (db (prune_events small_store sys_live).2))). vm_compute. exact I.
Defined.
End witnesses.
