(* ===== verification/Outbox.v ===== *)
(** * Outbox: the journal and the channel agree

    Every operation that commits broadcasts exactly the events it has appended
    to the log, each once.  The bodies of the transactions carry their events as
    values, so the account is kept along the program: what it has appended so
    far, and what it still has to hand over. *)
From S2P Require Import Prelude Text DecimalSpec RefDecimal Json Platform Domain Venue Fixtures Risk Schema StoreIntents StoreRisk StoreOrders StoreControl StorePaper StoreFixtures StoreLogic Lifecycle History Events.

Notation log s := (execution_events (db s)).
Notation last_number s := (last_sequence (db s)).

(** The events [es] were appended to the log, under the next numbers. *)
Record appended (s s' : Sys) (es : list ExecutionEvent) : Prop := {
  appended_log : log s' = log s ++ es;
  appended_last : last_number s' = last_number s + Z.of_nat (length es);
  appended_numbers : sequence <$> es = seqZ (last_number s + 1) (Z.of_nat (length es));
}.
Lemma appended_nil s s' : log s' = log s → last_number s' = last_number s → appended s s' [].
Proof. intros El En. split; [by rewrite app_nil_r|rewrite En; cbn; lia|done]. Qed.
Lemma appended_app s1 s2 s3 es1 es2 :
  appended s1 s2 es1 → appended s2 s3 es2 → appended s1 s3 (es1 ++ es2).
Proof.
  intros [L1 N1 S1] [L2 N2 S2]. split.
  - by rewrite L2, L1, app_assoc.
  - rewrite length_app. lia.
  - rewrite fmap_app, S1, S2, N1, length_app, Nat2Z.inj_add, seqZ_app by lia. do 2 f_equal. lia.
Qed.

(** ** Programs without events *)

Definition outbox (s : Sys) : list ExecutionEvent * list ExecutionEvent * Z :=
  (sent s, log s, last_number s).
Definition mute {A} (m : Prog Sys StoreError A) : Prop := ∀ s, outbox (m s).2 = outbox s.

Section mute.
Lemma mute_bind {A B} (m : Prog Sys StoreError A) (k : A → Prog Sys StoreError B) :
  mute m → (∀ a, mute (k a)) → mute (m ≫= k).
Proof.
  intros Hm Hk s. specialize (Hm s). unfold mbind, prog_bind.
  destruct (m s) as [[a|e|] s1]; cbn in *; [by rewrite Hk|done..].
Qed.
Lemma mute_ensure b e : mute (ensure b e).
Proof. by destruct b. Qed.
Lemma mute_unless {A} (b : Sys → bool) (a : A) (m : Prog Sys StoreError A) :
  mute m → mute (λ s, if b s then (Done a, s) else m s).
Proof. intros Hm s. destruct (b s); [done|apply Hm]. Qed.
Lemma mute_for_each {A} (l : list A) body : (∀ a, mute (body a)) → mute (for_each l body).
Proof. intros Hb. induction l; cbn; [done|]. by apply mute_bind. Qed.
Lemma mute_for_collect {A B} (l : list A) (body : A → Prog Sys StoreError B) :
  (∀ a, mute (body a)) → mute (for_collect l body).
Proof.
  intros Hb. induction l; cbn; [done|]. apply mute_bind; [done|]. intros b.
  by apply mute_bind.
Qed.
Lemma mute_try {A} (m : Prog Sys StoreError A) : mute m → mute (try m : Prog Sys StoreError _).
Proof. intros Hm s. specialize (Hm s). unfold try. by destruct (m s) as [[]]. Qed.
Section tables.
Context `{Table R}.
Hypothesis Hset : ∀ l d, (execution_events (set_rows l d), last_sequence (set_rows l d)) =
  (execution_events d, last_sequence d).
Lemma mute_set_rows l s : outbox (s <| db := set_rows l (db s) |>) = outbox s.
Proof. unfold outbox. cbn. by specialize (Hset l (db s)) as [= -> ->]. Qed.
Lemma mute_insert r : mute (insert r).
Proof.
  intros s. unfold insert. destruct (existsb _ _); [done|]. destruct (refs (db s) r); cbn; [|done].
  apply mute_set_rows.
Qed.
Lemma mute_insert_or_ignore r : mute (insert_or_ignore r).
Proof.
  intros s. unfold insert_or_ignore. destruct (existsb _ _); [done|].
  destruct (refs (db s) r); cbn; [|done]. apply mute_set_rows.
Qed.
Lemma mute_upsert r : mute (upsert r).
Proof. intros s. unfold upsert. destruct (refs (db s) r); cbn; [|done]. apply mute_set_rows. Qed.
Lemma mute_update_where p f : mute (update_where p f).
Proof. intros s. apply mute_set_rows. Qed.
End tables.
End mute.

Create HintDb mute discriminated.
Ltac mute_step :=
  match goal with
  | |- mute (_ ≫= _) => apply mute_bind; [|intros ?]
  | |- mute (ensure _ _) => apply mute_ensure
  | |- mute (try _) => apply mute_try
  | |- mute (for_each _ _) => apply mute_for_each; intros ?
  | |- mute (for_collect _ _) => apply mute_for_collect; intros ?
  | |- mute (insert _) => apply mute_insert; intros; reflexivity
  | |- mute (insert_or_ignore _) => apply mute_insert_or_ignore; intros; reflexivity
  | |- mute (upsert _) => apply mute_upsert; intros; reflexivity
  | |- mute (update_where _ _) => apply mute_update_where; intros; reflexivity
  | |- mute (match ?x with _ => _ end) => destruct x
  | |- mute (let _ := _ in _) => cbv zeta
  | |- mute _ => solve [auto with mute nocore]
  | |- mute _ => solve [intros ?; reflexivity]
  end.
(** [mutes]: the program appends no event. *)
Ltac mutes := repeat mute_step.

(** ** The account *)

(** [m], with [p] to hand over already, returns what it has to hand over. *)
Definition owes {A} (p : list ExecutionEvent) (m : Prog Sys StoreError A)
    (f : A → list ExecutionEvent) : Prop :=
  ∀ s a s', m s = (Done a, s') → sent s' = sent s ∧ ∃ es, appended s s' es ∧ f a ≡ₚ p ++ es.
Abbreviation hands_over := (owes []).

Lemma owes_ret {A} p (a : A) f : f a ≡ₚ p → owes p (mret a) f.
Proof.
  intros Hp s _ _ [= <- <-]. split; [done|]. exists []. split; [by apply appended_nil|].
  by rewrite app_nil_r.
Qed.
Lemma owes_mute {A} (m : Prog Sys StoreError A) : mute m → hands_over m (λ _, []).
Proof.
  intros Hm s a s' Hr. specialize (Hm s). rewrite Hr in Hm. injection Hm as Hs Hl Hn. cbn in *.
  split; [done|]. exists []. split; [by apply appended_nil|done].
Qed.
Lemma owes_bind {A B} p g f (m : Prog Sys StoreError A) (k : A → Prog Sys StoreError B) :
  hands_over m g → (∀ a, owes (p ++ g a) (k a) f) → owes p (m ≫= k) f.
Proof.
  intros Hm Hk s b s' (a & s1 & Ha & Hb)%bind_done.
  apply Hm in Ha as (Hs1 & es1 & El1 & Hp1). apply Hk in Hb as (Hs2 & es2 & El2 & Hp2).
  split; [congruence|]. exists (es1 ++ es2). split; [by eapply appended_app|].
  by rewrite Hp2, Hp1, app_nil_l, app_assoc.
Qed.
Lemma owes_mute_bind {A B} p f (m : Prog Sys StoreError A) (k : A → Prog Sys StoreError B) :
  mute m → (∀ a, owes p (k a) f) → owes p (m ≫= k) f.
Proof.
  intros Hm Hk. apply (owes_bind p (λ _, [])); [by apply owes_mute|]. intros a.
  rewrite app_nil_r. apply Hk.
Qed.
Lemma owes_fail {A} p e f : owes p (fail e : Prog Sys StoreError A) f.
Proof. by intros s a s'. Qed.
Lemma owes_append_event `{Platform} mode ty rt ri payload :
  hands_over (append_event mode ty rt ri payload) (λ e, [e]).
Proof. intros s e s' [-> ->]%append_event_done. split; [done|].
  exists [next_event mode ty rt ri payload s]. done. Qed.
Lemma owes_for_collect {A B} (l : list A) (body : A → Prog Sys StoreError B) g :
  (∀ a, hands_over (body a) g) → hands_over (for_collect l body) (λ bs, concat (g <$> bs)).
Proof.
  intros Hb. induction l as [|a l IH]; cbn; [by apply owes_ret|].
  eapply owes_bind; [apply Hb|]. intros b. eapply owes_bind; [exact IH|]. intros bs.
  by apply owes_ret.
Qed.

(** What a value of an operation's body has to hand over. *)
Definition tail_of {A} (x : A * list ExecutionEvent) : list ExecutionEvent := x.2.
Definition itself (l : list ExecutionEvent) : list ExecutionEvent := l.

Lemma concat_itself l : concat (itself <$> l) = concat l.
Proof. induction l; cbn; [done|]. by f_equal. Qed.
Lemma concat_singletons (l : list ExecutionEvent) : concat ((λ e, [e]) <$> l) = l.
Proof. induction l; cbn; [done|]. by f_equal. Qed.
Lemma owes_collect_lists {A} (l : list A) body :
  (∀ a, hands_over (body a) itself) → hands_over (for_collect l body) (@concat _).
Proof.
  intros Hb s a s' (Hs & es & Ha & Hp)%(owes_for_collect l body itself); [|done].
  rewrite concat_itself in Hp. eauto.
Qed.
Lemma owes_collect_events {A} (l : list A) body :
  (∀ a, hands_over (body a) (λ e, [e])) → hands_over (for_collect l body) itself.
Proof.
  intros Hb s a s' (Hs & es & Ha & Hp)%(owes_for_collect l body (λ e, [e])); [|done].
  rewrite concat_singletons in Hp. eauto.
Qed.

(** [account]: the program hands over what it appends. *)
Ltac owes_part tac :=
  match goal with
  | |- @owes (list (list ExecutionEvent)) _ _ ?g => unify g (@concat ExecutionEvent)
  | |- @owes (list ExecutionEvent) _ _ ?g => unify g itself
  | |- @owes (option ExecutionEvent) _ _ ?g => unify g event_list
  | |- @owes ExecutionEvent _ _ ?g => unify g (λ e : ExecutionEvent, [e])
  | |- @owes (?A * list ExecutionEvent) _ _ ?g => unify g (@tail_of A)
  end; tac.
Ltac account_step :=
  match goal with
  | |- owes _ (mret _) _ => apply owes_ret; unfold tail_of, itself, event_list; cbn
  | |- owes _ (fail _) _ => apply owes_fail
  | |- owes _ (let _ := _ in _) _ => cbv zeta
  | |- owes _ (append_event _ _ _ _ _) _ => apply owes_append_event
  | |- owes _ (for_collect _ _) _ => first [apply owes_collect_lists | apply owes_collect_events]; intros ?
  | |- owes _ (_ ≫= _) _ => apply owes_mute_bind; [mutes; fail|intros ?]
  | |- owes _ (_ ≫= _) _ =>
      eapply owes_bind; [owes_part ltac:(first
        [ solve [auto with owes nocore] | idtac ])|intros ?; cbn]
  | |- owes _ (match ?x with _ => _ end) _ => destruct x
  | |- owes _ _ _ => solve [auto with owes nocore]
  end.
Ltac account := repeat account_step; try solve [solve_Permutation].
Create HintDb owes discriminated.

(** ** What an operation broadcasts is what it has appended *)

Definition balanced {A} (m : Prog Sys StoreError A) : Prop :=
  ∀ s, ∃ es es', appended s (m s).2 es ∧ sent (m s).2 = sent s ++ es' ∧ es' ≡ₚ es.

Lemma balanced_none s s' :
  outbox s' = outbox s → ∃ es es', appended s s' es ∧ sent s' = sent s ++ es' ∧ es' ≡ₚ es.
Proof.
  intros [= Es El En]. exists [], []. split; [by apply appended_nil|]. by rewrite app_nil_r.
Qed.
Lemma balanced_transaction {A} (body : Prog Sys StoreError (A * _)) :
  hands_over body tail_of → balanced (transaction body).
Proof.
  intros Hb s. unfold transaction. destruct (body s) as [[[a ev]|e|] s1] eqn:Hr.
  - apply Hb in Hr as (Hs & es & [] & Hp). exists es, ev. cbn. by rewrite Hs.
  - by apply balanced_none.
  - by apply balanced_none.
Qed.
Lemma balanced_mute {A} (m : Prog Sys StoreError A) : mute m → balanced m.
Proof. intros Hm s. apply balanced_none, Hm. Qed.
Lemma balanced_bind {A B} (m : Prog Sys StoreError A) (k : A → Prog Sys StoreError B) :
  balanced m → (∀ a, balanced (k a)) → balanced (m ≫= k).
Proof.
  intros Hm Hk s. destruct (Hm s) as (es1 & es1' & El1 & Es1 & Hp1). unfold mbind, prog_bind.
  destruct (m s) as [[a|e|] s1]; cbn in *; [|by exists es1, es1'..].
  destruct (Hk a s1) as (es2 & es2' & El2 & Es2 & Hp2). exists (es1 ++ es2), (es1' ++ es2').
  rewrite Es2, Es1, app_assoc. split_and!; [by eapply appended_app|done|].
  by apply Permutation_app.
Qed.
Lemma balanced_try {A} (m : Prog Sys StoreError A) :
  balanced m → balanced (try m : Prog Sys StoreError _).
Proof. intros Hm s. specialize (Hm s). unfold try. by destruct (m s) as [[]]. Qed.

(** [balance]: transactions that hand over what they append, between programs
    without events. *)
Ltac balance :=
  repeat match goal with
  | |- balanced (transaction _) => apply balanced_transaction
  | |- balanced (_ ≫= _) => apply balanced_bind; [|intros ?]
  | |- balanced (try _) => apply balanced_try
  | |- balanced (match ?x with _ => _ end) => destruct x
  | |- balanced _ => apply balanced_mute; mutes; fail
  end.

Section operations.
Context `{DL : DecimalLaws} `{Platform} `{Codec}.
Variable self : Store.

Lemma mute_insert_key a k op id b st r now : mute (insert_idempotency_record a k op id b st r now).
Proof. unfold insert_idempotency_record. mutes. Qed.
Lemma mute_insert_transition o a b ev now : mute (insert_transition o a b ev now).
Proof. unfold insert_transition. mutes. Qed.
Lemma mute_insert_order o r q : mute (insert_order o r q).
Proof. unfold insert_order. mutes. Qed.
Lemma mute_load_paper_order v : mute (load_paper_order v).
Proof. unfold load_paper_order. mutes. Qed.
Lemma mute_release row : mute (release_reservations row).
Proof. unfold release_reservations. mutes. Qed.
Lemma mute_load_balances t : mute (load_balances t).
Proof. unfold load_balances. mutes. Qed.
Lemma mute_store_balances t b now : mute (store_balances t b now).
Proof. unfold store_balances. mutes. Qed.
Lemma mute_current_positions : mute current_positions.
Proof. unfold current_positions. mutes. Qed.
Hint Resolve mute_insert_key mute_insert_transition mute_insert_order mute_load_paper_order mute_release mute_load_balances
  mute_store_balances mute_current_positions : mute.

Lemma owes_matched_fill o v q p ids now :
  hands_over (apply_matched_fill self o v q p ids now) event_list.
Proof.
  unfold apply_matched_fill. account.
  apply owes_mute_bind; [|intros ?; account].
  apply (mute_unless (λ s, existsb _ (trades (db s)))). mutes.
Qed.
Lemma owes_position_event c t p sh :
  hands_over (position_event self c t p sh) (λ e, [e]).
Proof. apply owes_append_event. Qed.
Hint Resolve owes_matched_fill owes_position_event : owes.
Lemma owes_observe current l : ∀ seen, hands_over (observe_positions self current seen l) tail_of.
Proof.
  induction l as [|[[c t] sh] l IH]; intros seen; cbn [observe_positions]; [account|].
  account. 
Qed.
Lemma owes_clear_position seen entry : hands_over (clear_position self seen entry) itself.
Proof. unfold clear_position. account. Qed.
Lemma owes_recover_one now row : hands_over (recover_one self now row) itself.
Proof. unfold recover_one, insert_transition, update_attempts. account. Qed.
Lemma owes_recover_pre_one now row : hands_over (recover_pre_one self now row) itself.
Proof. unfold recover_pre_one. account. Qed.
Lemma owes_reserve i r m pol now : hands_over (reserve self i r m pol now) (λ e, [e]).
Proof. unfold reserve. account. Qed.
Lemma owes_fill_core e tp vo vt state rem fq ev now :
  hands_over (fill_core_order self e tp vo vt state rem fq ev now) itself.
Proof. unfold fill_core_order. account. Qed.
Hint Resolve owes_observe owes_clear_position owes_recover_one owes_recover_pre_one owes_reserve
  owes_fill_core : owes.
Lemma owes_fill_resting e tp ts ob t row fq lp rq :
  hands_over (fill_resting self e tp ts ob t row fq lp rq) tail_of.
Proof. unfold fill_resting. account. Qed.
Hint Resolve owes_fill_resting : owes.
Lemma owes_through_loop e tp ts ob rows : ∀ t,
  hands_over (through_loop self e tp ts ob t rows) tail_of.
Proof. induction rows as [|row rows IH]; intros t; cbn [through_loop]; account. Qed.
Hint Resolve owes_through_loop : owes.

Lemma admit_intent_balanced a k r : balanced (admit_intent self a k r).
Proof. unfold_op; balance; account. Qed.
Lemma store_op_balanced d A (m : Prog Sys StoreError A) :
  store_op self d A m → is_prune self A m ∨ balanced m.
Proof.
  intros Hop. destruct Hop; try (left; constructor); right; unfold_op; balance; account.
Qed.

(** What was broadcast between two states: every event that was given a number,
    once; an event of it that is gone from the log is older than all that is
    left. *)
Record broadcast (s s' : Sys) (es : list ExecutionEvent) : Prop := {
  broadcast_sent : sent s' = sent s ++ es;
  broadcast_order : last_number s <= last_number s';
  broadcast_numbers : sequence <$> es ≡ₚ seqZ (last_number s + 1) (last_number s' - last_number s);
  broadcast_covers e : e ∈ log s' → e ∈ log s ∨ e ∈ es;
  broadcast_logged e : e ∈ es → e ∈ log s' ∨ ∀ e', e' ∈ log s' → sequence e < sequence e';
}.
Lemma broadcast_bound s s' es e :
  broadcast s s' es → e ∈ es → last_number s < sequence e ≤ last_number s'.
Proof.
  intros B He. apply (list_elem_of_fmap_2 sequence) in He.
  rewrite (broadcast_numbers _ _ _ B), elem_of_seqZ in He. lia.
Qed.
Lemma broadcast_quiet s s' :
  sent s' = sent s → last_number s' = last_number s → (∀ e, e ∈ log s' → e ∈ log s) →
  broadcast s s' [].
Proof.
  intros Es En El. split; [by rewrite app_nil_r|lia|by rewrite En, Z.sub_diag|auto|].
  by intros e He%elem_of_nil.
Qed.
Lemma broadcast_balanced s s' es es' :
  appended s s' es → sent s' = sent s ++ es' → es' ≡ₚ es → broadcast s s' es'.
Proof.
  intros [El En Eq] Es Hp. split; [done|lia| | |].
  - rewrite Hp, Eq. by replace (Z.of_nat (length es)) with (last_number s' - last_number s) by lia.
  - intros e He. rewrite El in He. apply elem_of_app in He as [|He]; [by left|right]. by rewrite Hp.
  - intros e He. left. rewrite El. apply elem_of_app. right. by rewrite <-Hp.
Qed.
(** The log was cut below a number. *)
Lemma broadcast_step s0 s s' es es' :
  broadcast s0 s es → broadcast s s' es' →
  (∀ e, e ∈ log s → e ∈ log s' ∨ ∀ e', e' ∈ log s' → sequence e < sequence e') →
  (∀ e, e ∈ log s' → e ∈ log s ∨ last_number s < sequence e) →
  broadcast s0 s' (es ++ es').
Proof.
  intros B B' Hcut Hnew. split.
  - by rewrite (broadcast_sent _ _ _ B'), (broadcast_sent _ _ _ B), app_assoc.
  - pose proof (broadcast_order _ _ _ B). pose proof (broadcast_order _ _ _ B'). lia.
  - pose proof (broadcast_order _ _ _ B). pose proof (broadcast_order _ _ _ B').
    rewrite fmap_app, (broadcast_numbers _ _ _ B), (broadcast_numbers _ _ _ B').
    replace (last_number s' - last_number s0) with
      ((last_number s - last_number s0) + (last_number s' - last_number s)) by lia.
    rewrite seqZ_app by lia. f_equiv. f_equiv. lia.
  - intros e [He|He]%(broadcast_covers _ _ _ B'); [|set_solver].
    apply (broadcast_covers _ _ _ B) in He. set_solver.
  - intros e [He|He]%elem_of_app; [|by apply (broadcast_logged _ _ _ B')].
    pose proof (broadcast_bound _ _ _ _ B He) as Hb.
    apply (broadcast_logged _ _ _ B) in He as [He|He]; [by apply Hcut|]. right.
    intros e' [He'|He']%Hnew; [by apply He|lia].
Qed.

(** [prune_events] broadcasts nothing and gives out no number. *)
Lemma prune_sends_nothing s : sent (prune_events self s).2 = sent s.
Proof.
  unfold prune_events, lift, mbind at 1, prog_bind. destruct (ok_or _ _); cbn; [|done..].
  unfold transaction, mbind, prog_bind, gets. cbn.
  destruct (_ <=? 0); cbn; [by rewrite app_nil_r|]. destruct (_ && _); cbn; by rewrite app_nil_r.
Qed.

Lemma broadcast_store_step s s' : store_step self s s' → ∀ s0 es,
  broadcast s0 s es → ∃ es', broadcast s0 s' (es ++ es').
Proof.
  intros [A m Hop] s0 es B.
  apply store_op_balanced in Hop as [[]|Hb].
  - exists []. destruct (prune_events_effect self s) as [E|(_ & _ & E)].
    + apply (broadcast_step s0 s); [done| |rewrite E; auto..].
      apply broadcast_quiet; [apply prune_sends_nothing|by rewrite E..].
    + apply (broadcast_step s0 s); [done| |rewrite E; cbn; intros e..].
      * apply broadcast_quiet; [apply prune_sends_nothing|by rewrite E|rewrite E].
        by intros e [_ ?]%elem_of_filter_b.
      * intros He.
        destruct (sequence e <=? saturating_sub_i64
          (default 0 (list_max (sequence <$> execution_events (db s)))) (event_retention self)) eqn:Ec.
        -- right. intros e' [Hc _]%elem_of_filter_b. lia.
        -- left. apply elem_of_filter_b. by rewrite Ec.
      * intros [_ He]%elem_of_filter_b. by left.
  - destruct (Hb s) as (new & es' & Ha & Es & Hp). exists es'.
    apply (broadcast_step s0 s); [done|by eapply broadcast_balanced|..]; rewrite (appended_log _ _ _ Ha).
    + intros e He. left. set_solver.
    + intros e [He|He]%elem_of_app; [by left|right]. apply (list_elem_of_fmap_2 sequence) in He.
      rewrite (appended_numbers _ _ _ Ha), elem_of_seqZ in He. lia.
Qed.

Lemma broadcast_steps s s' : rtc (store_step self) s s' → ∃ es, broadcast s s' es.
Proof.
  intros Hs. enough (∀ s0 es, broadcast s0 s es → ∃ es', broadcast s0 s' es') as He
    by (eapply He, broadcast_quiet; auto; lia).
  induction Hs as [|s s1 s2 Hs _ IH]; [eauto|]. intros s0 es B.
  destruct (broadcast_store_step s s1 Hs s0 es B) as [es' B']. by eapply IH.
Qed.

(** C5. The journal and the channel agree.  In every history of store operations
    - failures, panics and prunings included - each sequence number that is
    given out is broadcast once, in exactly one event; whatever the log holds
    that it did not hold before has been broadcast; and a broadcast event that
    the log no longer holds is older than everything the log still holds. *)
Theorem events_broadcast_once s s' :
  rtc (store_step self) s s' →
  ∃ es, sent s' = sent s ++ es ∧
    sequence <$> es ≡ₚ seqZ (last_number s + 1) (last_number s' - last_number s) ∧
    (∀ e, e ∈ log s' → e ∈ log s ∨ e ∈ es) ∧
    (∀ e, e ∈ es → e ∈ log s' ∨ ∀ e', e' ∈ log s' → sequence e < sequence e').
Proof. intros [es []]%broadcast_steps. by exists es. Qed.
End operations.

(** ** Witness *)
Section witness.
#[local] Existing Instance RefOps.
#[local] Existing Instance RefLaws.
#[local] Existing Instance RefPlatform.
#[local] Existing Instance RefCodec.

Lemma events_broadcast_once_witness :
  length (sent sys_live) = 12%nat ∧
  ∃ es, sent sys_live = sent sys_received ++ es ∧
    sequence <$> es ≡ₚ seqZ (last_number sys_received + 1)
      (last_number sys_live - last_number sys_received) ∧
    (∀ e, e ∈ log sys_live → e ∈ log sys_received ∨ e ∈ es) ∧
    (∀ e, e ∈ es → e ∈ log sys_live ∨ ∀ e', e' ∈ log sys_live → sequence e < sequence e').
Proof.
  split; [vm_compute; reflexivity|].
  apply (events_broadcast_once fix_store sys_received sys_live received_live).
Defined.
End witness.
