(* ===== verification/PaperLedger.v ===== *)
(** * PaperLedger: the paper account and the trades it has seen

    A market event is applied once, whatever happens in between; an order is
    booked once; and booking an order or a fill keeps the account solvent: what
    is reserved is covered by what is owned. *)
From S2P Require Import Prelude Text DecimalSpec RefDecimal Json Platform Domain Venue Fixtures Risk Schema StoreIntents StoreRisk StoreOrders StoreControl StorePaper StoreFixtures StoreLogic Lifecycle Events PaperFills.

(** ** Running a program forwards *)
Section running.
Context {S E : Type}.
Lemma run_bind {A B} (m : Prog S E A) (k : A → Prog S E B) s a s1 :
  m s = (Done a, s1) → (m ≫= k) s = k a s1.
Proof. intros Hm. unfold mbind, prog_bind. by rewrite Hm. Qed.
Lemma bind_ensure {B} b (e : E) (k : () → Prog S E B) s :
  b = true → (ensure b e ≫= k) s = k tt s.
Proof. by intros ->. Qed.
End running.
Lemma run_transaction {A} (body : Prog Sys StoreError (A * list ExecutionEvent)) s a ev s1 :
  body s = (Done (a, ev), s1) → transaction body s = (Done a, s1 <| sent := sent s1 ++ ev |>).
Proof. intros Hb. unfold transaction. by rewrite Hb. Qed.

(** ** Market events *)

Definition seen (event_id : string) (d : Db) : Prop :=
  event_id ∈ me_event_id <$> paper_market_events d.

Section events.
Context `{DL : DecimalLaws} `{Platform} `{Codec}.
Variable self : Store.
Variable event_id : string.
Notation I := (seen event_id).

Lemma keeps_market_events {A} (m : Prog Sys StoreError A) :
  frames paper_market_events m → keeps I m.
Proof. apply keeps_frames. intros d d' E. unfold seen. by rewrite E. Qed.
Lemma keeps_insert_market_event (r : MarketEventRow) : keeps I (insert_or_ignore r).
Proof.
  intros s Hs. unfold insert_or_ignore. cbn [rows market_events_table].
  destruct (existsb _ _); [done|]. unfold seen in *. cbn. rewrite fmap_app. set_solver.
Qed.

Ltac keep := keep_with ltac:(first
  [ apply keeps_insert_market_event | apply keeps_market_events; frame; fail ]).

Lemma matched_fill_keeps_seen o v q p ids now : keeps I (apply_matched_fill self o v q p ids now).
Proof.
  unfold apply_matched_fill. keep. intros s Hs. cbv beta. destruct (existsb _ _); [done|].
  revert s Hs. apply keeps_bind; [|intros ?]; keep.
Qed.
Lemma attempts_keeps_seen i st f : keeps I (update_attempts i st f).
Proof. apply keeps_market_events. intros s. reflexivity. Qed.
Lemma snapshot_keeps_seen c t : keeps I (risk_snapshot c t).
Proof. apply keeps_market_events. intros s. reflexivity. Qed.
Lemma delete_keeps_seen c : keeps I (delete_events c).
Proof. apply keeps_market_events. intros s. reflexivity. Qed.
Hint Resolve matched_fill_keeps_seen attempts_keeps_seen snapshot_keeps_seen delete_keeps_seen : keeps.
Lemma through_loop_keeps_seen eid tp ts ob rows :
  ∀ t, keeps I (through_loop self eid tp ts ob t rows).
Proof.
  induction rows as [|row rows IH]; intros t; cbn [through_loop]; [keep|].
  unfold fill_resting, fill_core_order, insert_transition. keep.
Qed.
Lemma observe_keeps_seen current l : ∀ seen0, keeps I (observe_positions self current seen0 l).
Proof.
  induction l as [|[[c t] sh] l IH]; intros seen0; cbn [observe_positions]; [keep|].
  unfold position_event. keep.
Qed.
Hint Resolve through_loop_keeps_seen observe_keeps_seen : keeps.

Lemma store_op_seen s A (m : Prog Sys StoreError A) : store_op self (db s) A m → keeps I m.
Proof. intros Hop. destruct Hop; first [ solve [auto with keeps nocore] | unfold_op; keep | unfold prune_events; keep ]. Qed.
Lemma steps_seen s s' : rtc (store_step self) s s' → I (db s) → I (db s').
Proof.
  induction 1 as [|s s1 s2 [A m Hop] _ IH]; [done|]. intros Hs. apply IH.
  by apply (store_op_seen s A m Hop).
Qed.

(** Two checks, and then the transaction. *)
Lemma trade_through_seen t p q ob s n s' :
  apply_paper_trade_through self event_id t p q ob s = (Done n, s') → I (db s').
Proof.
  unfold apply_paper_trade_through. intros Hr.
  apply bind_done in Hr as (u1 & s1 & Hp & Hr). apply ensure_done in Hp as [_ ->].
  apply bind_done in Hr as (u2 & s1 & Hp & Hr). apply ensure_done in Hp as [_ ->].
  apply transaction_done in Hr as (ev & s0 & Hr & ->). cbn.
  apply bind_done in Hr as (now & s1 & Ht & Hr). apply utc_now_done in Ht as [-> ->].
  apply bind_done in Hr as (k & s1 & Hi & Hr).
  assert (I (db s1)) as Hs1.
  { apply insert_or_ignore_done in Hi as [(Hc & _ & ->)|(_ & _ & _ & ->)].
    - apply existsb_true_elem in Hc as (r & Hr' & Hc). apply bool_decide_eq_true in Hc.
      apply list_elem_of_fmap. by exists r.
    - unfold seen. cbn. rewrite fmap_app. set_solver. }
  eapply (keeps_keeps_done I); [|exact Hs1|exact Hr].
  unfold load_balances, store_balances. keep.
Qed.
Lemma trade_through_paper t p q ob s n s' :
  apply_paper_trade_through self event_id t p q ob s = (Done n, s') → st_mode self = Paper.
Proof.
  unfold apply_paper_trade_through. intros Hr.
  apply bind_done in Hr as (u1 & s1 & Hp & _). apply ensure_done in Hp as [Hp _].
  by apply bool_decide_eq_true in Hp.
Qed.
Lemma trade_through_again t p q ob s :
  I (db s) → st_mode self = Paper →
  negb (is_empty event_id || is_empty t || dec_le p dec_ZERO || dec_ge p dec_ONE ||
        dec_le q dec_ZERO) = true →
  ∃ s', apply_paper_trade_through self event_id t p q ob s = (Done 0%nat, s') ∧
    db s' = db s ∧ sent s' = sent s.
Proof.
  intros (r & Hid & Hr)%list_elem_of_fmap Hm Hv. unfold apply_paper_trade_through, paper_only.
  rewrite Hv, Hm. rewrite !bind_ensure by done.
  set (s1 := s <| tick := S (tick s) |>).
  rewrite (run_transaction _ _ 0%nat [] s1).
  - eexists. split; [reflexivity|]. cbn. by rewrite app_nil_r.
  - rewrite (run_bind utc_now _ s (utc_clock (tick s)) s1) by done.
    rewrite (run_bind _ _ s1 0%nat s1); [done|]. unfold insert_or_ignore.
    rewrite (proj2 (existsb_true_elem _ _)); [done|]. exists r. split; [exact Hr|].
    by apply bool_decide_eq_true.
Qed.

(** A market event is applied once.  After the paper venue has applied a
    trade of the market under an event id, and any history of the store, a
    trade under that id fills nothing and changes nothing, whatever its price and
    size. *)
Theorem market_event_applied_once t p q ob s n s1 s2 t' p' q' ob' :
  apply_paper_trade_through self event_id t p q ob s = (Done n, s1) →
  rtc (store_step self) s1 s2 →
  negb (is_empty event_id || is_empty t' || dec_le p' dec_ZERO || dec_ge p' dec_ONE ||
        dec_le q' dec_ZERO) = true →
  ∃ s3, apply_paper_trade_through self event_id t' p' q' ob' s2 = (Done 0%nat, s3) ∧
    db s3 = db s2 ∧ sent s3 = sent s2.
Proof.
  intros Hr Hs Hv. apply trade_through_again; [|by eapply trade_through_paper|done].
  eapply steps_seen; [exact Hs|]. by eapply trade_through_seen.
Qed.
End events.

(** ** The account stays solvent *)
Section solvency.
Context `{DL : DecimalLaws}.

(** What is reserved is owned. *)
Record solvent (b : Balances) : Prop := {
  solvent_quote : (0 <= ⟦reserved_quote b⟧ <= ⟦quote_balance b⟧)%Q;
  solvent_shares : (0 <= ⟦reserved_shares b⟧ <= ⟦shares b⟧)%Q;
}.
Record balances_are (b : Balances) (q rq sh rs : Q) : Prop := {
  are_quote : ⟦quote_balance b⟧ == q;
  are_reserved_quote : ⟦reserved_quote b⟧ == rq;
  are_shares : ⟦shares b⟧ == sh;
  are_reserved_shares : ⟦reserved_shares b⟧ == rs;
}.

(** The amounts of an order that is booked. *)
Record amounts_ok (o : PaperOrderCommit) : Prop := {
  amounts_filled : (0 <= ⟦pc_filled_quantity o⟧)%Q;
  amounts_fee : (0 <= ⟦pc_fee_amount o⟧ <= ⟦pc_quote_amount o⟧)%Q;
  amounts_quote : (0 <= ⟦pc_reserved_quote o⟧)%Q;
  amounts_shares : (0 <= ⟦pc_reserved_shares o⟧)%Q;
}.

(** What is free covers what the order takes and what it holds. *)
Definition affordable (b : Balances) (o : PaperOrderCommit) : Prop :=
  match pc_side o with
  | Buy => ⟦pc_quote_amount o⟧ + ⟦pc_fee_amount o⟧ + ⟦pc_reserved_quote o⟧ <=
           ⟦quote_balance b⟧ - ⟦reserved_quote b⟧
  | Sell => ⟦pc_filled_quantity o⟧ + ⟦pc_reserved_shares o⟧ <= ⟦shares b⟧ - ⟦reserved_shares b⟧
  end%Q.
(** The account after it. *)
Definition booked (b : Balances) (o : PaperOrderCommit) (b' : Balances) : Prop :=
  match pc_side o with
  | Buy => balances_are b' (⟦quote_balance b⟧ - (⟦pc_quote_amount o⟧ + ⟦pc_fee_amount o⟧))
      (⟦reserved_quote b⟧ + ⟦pc_reserved_quote o⟧) (⟦shares b⟧ + ⟦pc_filled_quantity o⟧)
      ⟦reserved_shares b⟧
  | Sell => balances_are b' (⟦quote_balance b⟧ + (⟦pc_quote_amount o⟧ - ⟦pc_fee_amount o⟧))
      ⟦reserved_quote b⟧ (⟦shares b⟧ - ⟦pc_filled_quantity o⟧)
      (⟦reserved_shares b⟧ + ⟦pc_reserved_shares o⟧)
  end%Q.

(** The numbers on the way. *)
Definition settle_numbers (b : Balances) (o : PaperOrderCommit) : list Q :=
  match pc_side o with
  | Buy =>
      let debit := ⟦pc_quote_amount o⟧ + ⟦pc_fee_amount o⟧ in
      [debit; ⟦quote_balance b⟧ - ⟦reserved_quote b⟧; debit + ⟦pc_reserved_quote o⟧;
       ⟦quote_balance b⟧ - debit; ⟦reserved_quote b⟧ + ⟦pc_reserved_quote o⟧;
       ⟦shares b⟧ + ⟦pc_filled_quantity o⟧]
  | Sell =>
      let net := ⟦pc_quote_amount o⟧ - ⟦pc_fee_amount o⟧ in
      [⟦shares b⟧ - ⟦reserved_shares b⟧; ⟦pc_filled_quantity o⟧ + ⟦pc_reserved_shares o⟧;
       ⟦shares b⟧ - ⟦pc_filled_quantity o⟧; ⟦reserved_shares b⟧ + ⟦pc_reserved_shares o⟧;
       net; ⟦quote_balance b⟧ + net]
  end%Q.

Lemma booked_solvent b o b' :
  solvent b → amounts_ok o → affordable b o → booked b o b' → solvent b'.
Proof.
  intros [] [] Ha Hb. unfold affordable, booked in *.
  destruct (pc_side o); destruct Hb as [E1 E2 E3 E4]; split; rewrite ?E1, ?E2, ?E3, ?E4; lra.
Qed.

(** [or_panic] of an operation that succeeds. *)
Ltac exact_op L :=
  let c := fresh "c" in let Hc := fresh "Hc" in let Hv := fresh "Hv" in
  edestruct L as (c & Hc & Hv); [..|rewrite Hc; cbn [or_panic mbind outcome_bind]];
  [first [eassumption|reflexivity]..|].

(** C32. Booking an order keeps the paper account solvent.  From balances whose
    reservations are covered, [settle] books an order exactly when what is free
    covers what it takes and holds; the new balances are then the old ones with
    that order's quote, fee, shares and reservations, and again cover their
    reservations; otherwise it fails and says which balance is short. *)
Theorem settle_decides b o :
  solvent b → amounts_ok o → Forall representable (settle_numbers b o) →
  match settle b o with
  | Done b' => affordable b o ∧ booked b o b' ∧ solvent b'
  | Failed e => ¬ affordable b o ∧ e = IdentityMismatch
      (match pc_side o with
       | Buy => "paper quote balance is insufficient"
       | Sell => "paper share balance is insufficient"
       end)
  | Panicked => False
  end.
Proof.
  intros Hsol Ham HR. pose proof (booked_solvent b o) as Hbs.
  unfold settle, settle_numbers in *. unfold affordable, booked in *.
  destruct (pc_side o); cbv zeta in HR; rewrite !Forall_cons in HR;
    destruct HR as (R1 & R2 & R3 & R4 & R5 & R6 & _).
  - exact_op (add_is (pc_quote_amount o)). exact_op (sub_is (quote_balance b) (reserved_quote b)).
    exact_op (add_is c (pc_reserved_quote o)). unfold reject_if.
    destruct (dec_lt c0 c1) eqn:Hlt; dec_prop; cbn [outcome_bind mbind].
    { split; [|done]. rewrite Hv0, Hv1 in Hlt. lra. }
    exact_op (sub_is (quote_balance b) c). exact_op (add_is (reserved_quote b)).
    exact_op (add_is (shares b)).
    rewrite Hv0, Hv1 in Hlt. assert (Hbk : _) by (apply (Hbs (mkBalances c2 c3 c4 (reserved_shares b)));
      [done|done|exact Hlt|by split]). split; [exact Hlt|]. split; [by split|exact Hbk].
  - exact_op (sub_is (shares b) (reserved_shares b)).
    exact_op (add_is (pc_filled_quantity o) (pc_reserved_shares o)). unfold reject_if.
    destruct (dec_lt c c0) eqn:Hlt; dec_prop; cbn [outcome_bind mbind].
    { split; [|done]. rewrite Hv, Hv0 in Hlt. lra. }
    exact_op (sub_is (shares b) (pc_filled_quantity o)). exact_op (add_is (reserved_shares b)).
    exact_op (sub_is (pc_quote_amount o)). exact_op (add_is (quote_balance b) c3).
    rewrite Hv, Hv0 in Hlt. assert (Hbk : _) by (apply (Hbs (mkBalances c4 (reserved_quote b) c1 c2));
      [done|done|exact Hlt|by split]). split; [exact Hlt|]. split; [by split|exact Hbk].
Qed.

(** A fill of a resting order by a trade through its limit price. *)
Record fill_ok (b : Balances) (side : Side) (limit trade : Decimal) (a : RestingAmounts)
    (fill quote fee : Decimal) : Prop := {
  fill_crossed : crossed side trade limit = true;
  fill_price : (0 < ⟦trade⟧)%Q;
  fill_rate : (0 <= ⟦ra_fee_rate a⟧ <= 1)%Q;
  fill_some : (0 <= ⟦fill⟧)%Q;
  fill_cost : ⟦quote⟧ == ⟦fill⟧ * ⟦trade⟧;
  fill_charge : ⟦fee⟧ == ⟦quote⟧ * ⟦ra_fee_rate a⟧;
  (** the order and the account hold what the fill releases *)
  fill_held : match side with
    | Buy => (⟦fill⟧ * ⟦limit⟧ * (1 + ⟦ra_fee_rate a⟧) <= ⟦ra_reserved_quote a⟧)%Q ∧
             (⟦ra_reserved_quote a⟧ <= ⟦reserved_quote b⟧)%Q
    | Sell => (⟦fill⟧ <= ⟦ra_reserved_shares a⟧)%Q ∧
              (⟦ra_reserved_shares a⟧ <= ⟦reserved_shares b⟧)%Q
    end;
}.
(** What the fill releases of the reservation. *)
Definition released (side : Side) (limit : Decimal) (a : RestingAmounts) (fill : Decimal) : Q :=
  match side with
  | Buy => ⟦fill⟧ * ⟦limit⟧ * (1 + ⟦ra_fee_rate a⟧)
  | Sell => ⟦fill⟧
  end%Q.
Definition filled_balances (b : Balances) (side : Side) (rel : Q) (fill quote fee : Decimal)
    (b' : Balances) : Prop :=
  match side with
  | Buy => balances_are b' (⟦quote_balance b⟧ - (⟦quote⟧ + ⟦fee⟧)) (⟦reserved_quote b⟧ - rel)
      (⟦shares b⟧ + ⟦fill⟧) ⟦reserved_shares b⟧
  | Sell => balances_are b' (⟦quote_balance b⟧ + (⟦quote⟧ - ⟦fee⟧)) ⟦reserved_quote b⟧
      (⟦shares b⟧ - ⟦fill⟧) (⟦reserved_shares b⟧ - rel)
  end%Q.
Definition fill_numbers (b : Balances) (side : Side) (limit : Decimal) (a : RestingAmounts)
    (fill quote fee : Decimal) : list Q :=
  let rel := released side limit a fill in
  match side with
  | Buy => [⟦fill⟧ * ⟦limit⟧; 1 + ⟦ra_fee_rate a⟧; rel; ⟦reserved_quote b⟧ - rel;
      ⟦quote⟧ + ⟦fee⟧; ⟦quote_balance b⟧ - (⟦quote⟧ + ⟦fee⟧); ⟦shares b⟧ + ⟦fill⟧;
      ⟦ra_reserved_quote a⟧ - rel]
  | Sell => [⟦reserved_shares b⟧ - rel; ⟦shares b⟧ - ⟦fill⟧; ⟦quote⟧ - ⟦fee⟧;
      ⟦quote_balance b⟧ + (⟦quote⟧ - ⟦fee⟧); ⟦ra_reserved_shares a⟧ - rel]
  end%Q.

Lemma filled_solvent b side limit trade a fill quote fee b' :
  solvent b → fill_ok b side limit trade a fill quote fee →
  filled_balances b side (released side limit a fill) fill quote fee b' → solvent b'.
Proof.
  intros [Hq Hs] [Hc Hp Hr Hf Hcost Hfee Hheld] Hb.
  unfold filled_balances, released in *. destruct side; cbn in Hc; dec_prop;
    destruct Hheld as [Hh1 Hh2]; destruct Hb as [E1 E2 E3 E4]; split; rewrite ?E1, ?E2, ?E3, ?E4.
  - assert (⟦quote⟧ + ⟦fee⟧ <= ⟦fill⟧ * ⟦limit⟧ * (1 + ⟦ra_fee_rate a⟧))%Q; [|lra].
    rewrite Hfee, Hcost. set (q := ⟦fill⟧) in *. set (r := ⟦ra_fee_rate a⟧) in *.
    set (t := ⟦trade⟧) in *. set (l := ⟦limit⟧) in *.
    assert (0 <= q * (l - t))%Q by nra. nra.
  - lra.
  - rewrite Hfee. set (q := ⟦quote⟧) in *. set (r := ⟦ra_fee_rate a⟧) in *.
    assert (0 <= q)%Q by (rewrite Hcost; nra). nra.
  - lra.
Qed.
Lemma dec_max_zero c : (0 <= ⟦c⟧)%Q → ⟦dec_max c dec_ZERO⟧ == ⟦c⟧.
Proof.
  intros Hc. unfold dec_max. destruct (dec_lt c dec_ZERO) eqn:E; [|done].
  dec_prop. rewrite dec_ZERO_value in E. lra.
Qed.

(** A fill keeps the paper account solvent.  When a trade through the limit
    of a resting order fills part of it, [settle_fill] pays the trade's price
    and fee out of the order's reservation, releases exactly the part of the
    reservation that belongs to the fill, from the order and from the account,
    and leaves balances that still cover what is reserved. *)
Theorem fill_keeps_solvent b side limit trade a fill quote fee :
  solvent b → fill_ok b side limit trade a fill quote fee →
  Forall representable (fill_numbers b side limit a fill quote fee) →
  ∃ b' rq rs, settle_fill b side limit a fill quote fee = Done (b', rq, rs) ∧
    filled_balances b side (released side limit a fill) fill quote fee b' ∧ solvent b' ∧
    match side with
    | Buy => ⟦rq⟧ == ⟦ra_reserved_quote a⟧ - released side limit a fill ∧
             rs = ra_reserved_shares a
    | Sell => ⟦rs⟧ == ⟦ra_reserved_shares a⟧ - released side limit a fill ∧
              rq = ra_reserved_quote a
    end.
Proof.
  intros Hsol Hok HR. pose proof (filled_solvent b side limit trade a fill quote fee) as Hbs.
  pose proof Hok as [_ _ _ _ _ _ Hheld].
  unfold settle_fill, fill_numbers, filled_balances, released in *.
  destruct side; cbv zeta in HR; rewrite !Forall_cons in HR; destruct Hheld as [Hh1 Hh2].
  - destruct HR as (R1 & R2 & R3 & R4 & R5 & R6 & R7 & R8 & _).
    exact_op (mul_is fill limit).
    destruct (add_is dec_ONE (ra_fee_rate a) 1 ⟦ra_fee_rate a⟧ dec_ONE_value (reflexivity _) R2)
      as (fa & -> & Hfa). cbn [or_panic mbind outcome_bind].
    exact_op (mul_is c fa). exact_op (sub_is (reserved_quote b) c0). exact_op (add_is quote fee).
    exact_op (sub_is (quote_balance b) c2). exact_op (add_is (shares b)).
    exact_op (sub_is (ra_reserved_quote a) c0).
    assert (⟦dec_max c1 dec_ZERO⟧ == ⟦c1⟧) as Hm1 by (apply dec_max_zero; rewrite Hv1; lra).
    assert (⟦dec_max c5 dec_ZERO⟧ == ⟦c5⟧) as Hm5 by (apply dec_max_zero; rewrite Hv5; lra).
    do 3 eexists. split; [reflexivity|]. split; [|split; [apply Hbs; [done|done|]|]];
      [split; cbn; by rewrite ?Hm1|split; cbn; by rewrite ?Hm1|by rewrite Hm5].
  - destruct HR as (R1 & R2 & R3 & R4 & R5 & _).
    exact_op (sub_is (reserved_shares b) fill). exact_op (sub_is (shares b) fill).
    exact_op (sub_is quote fee). exact_op (add_is (quote_balance b) c1).
    exact_op (sub_is (ra_reserved_shares a) fill).
    assert (⟦dec_max c dec_ZERO⟧ == ⟦c⟧) as Hm1 by (apply dec_max_zero; rewrite Hv; lra).
    assert (⟦dec_max c3 dec_ZERO⟧ == ⟦c3⟧) as Hm5 by (apply dec_max_zero; rewrite Hv3; lra).
    do 3 eexists. split; [reflexivity|]. split; [|split; [apply Hbs; [done|done|]|]];
      [split; cbn; by rewrite ?Hm1|split; cbn; by rewrite ?Hm1|by rewrite Hm5].
Qed.
End solvency.

Section fixtures.
#[local] Existing Instance RefOps.
#[local] Existing Instance RefLaws.
#[local] Existing Instance RefPlatform.
#[local] Existing Instance RefCodec.

(** An account of one hundred, ten of it reserved; an immediate buy of four
    shares at 0.5 with a fee of 0.1. *)
Definition fix_balances : Balances :=
  mkBalances (RefDec 100 0) (RefDec 10 0) (RefDec 5 0) (RefDec 4 0).
Definition fix_commit : PaperOrderCommit :=
  mkPaperOrderCommit "order" "condition" "123" Buy OrderState.Filled (RefDec 5 1) (RefDec 5 2)
    (RefDec 4 0) (RefDec 0 0) (RefDec 4 0) (Some (RefDec 5 1)) (RefDec 2 0) (RefDec 1 1)
    (RefDec 0 0) (RefDec 0 0) ["trade"] JNull.
Lemma fix_solvent : solvent fix_balances.
Proof. split; vm_compute; split; discriminate. Qed.

Lemma settle_decides_witness :
  match settle fix_balances fix_commit with
  | Done b' => affordable fix_balances fix_commit ∧ booked fix_balances fix_commit b' ∧ solvent b'
  | Failed e => ¬ affordable fix_balances fix_commit ∧ e = IdentityMismatch
      "paper quote balance is insufficient"
  | Panicked => False
  end.
Proof.
  apply (settle_decides fix_balances fix_commit).
  - exact fix_solvent.
  - split; vm_compute; first [split; discriminate|discriminate].
  - apply Forall_representable_b. vm_compute. reflexivity.
Defined.

(** A resting buy of ten at 0.5 that holds 5.25; a trade of four at 0.4. *)
Definition fix_resting : RestingAmounts :=
  mkRestingAmounts (RefDec 5 2) (RefDec 0 0) (RefDec 0 0) (RefDec 0 0) (RefDec 525 2) (RefDec 0 0).
Lemma fill_keeps_solvent_witness :
  ∃ b' rq rs, settle_fill fix_balances Buy (RefDec 5 1) fix_resting (RefDec 4 0) (RefDec 16 1)
      (RefDec 8 2) = Done (b', rq, rs) ∧
    filled_balances fix_balances Buy (released Buy (RefDec 5 1) fix_resting (RefDec 4 0))
      (RefDec 4 0) (RefDec 16 1) (RefDec 8 2) b' ∧ solvent b' ∧
    ⟦rq⟧ == ⟦ra_reserved_quote fix_resting⟧ - released Buy (RefDec 5 1) fix_resting (RefDec 4 0) ∧
    rs = ra_reserved_shares fix_resting.
Proof.
  apply (fill_keeps_solvent fix_balances Buy (RefDec 5 1) (RefDec 4 1) fix_resting).
  - exact fix_solvent.
  - split; vm_compute; first [reflexivity|split; discriminate|discriminate].
  - apply Forall_representable_b. vm_compute. reflexivity.
Defined.

(** An account, a trade, a halt of the service, and the trade again. *)
Definition sys_account : Sys :=
  final (initialize_paper_account fix_store (mkPaperConfig "100" [])) sys_ready.
Definition sys_traded : Sys :=
  final (apply_paper_trade_through fix_store "event" "123" (RefDec 4 1) (RefDec 1 0) fix_now)
    sys_account.
Definition sys_traded_halted : Sys :=
  final (set_service_state fix_store "operator" Halted "pause") sys_traded.
Lemma market_event_applied_once_witness :
  ∃ s3, apply_paper_trade_through fix_store "event" "123" (RefDec 3 1) (RefDec 1 0) fix_now
      sys_traded_halted = (Done 0%nat, s3) ∧
    db s3 = db sys_traded_halted ∧ sent s3 = sent sys_traded_halted.
Proof.
  apply (market_event_applied_once (H := RefOps) fix_store "event" "123" (RefDec 4 1) (RefDec 1 0) fix_now
    sys_account 0%nat sys_traded sys_traded_halted "123" (RefDec 3 1) (RefDec 1 0) fix_now).
  - vm_compute. reflexivity.
  - apply rtc_once. apply (Store_step fix_store sys_traded). apply Op_service_state.
  - vm_compute. reflexivity.
Defined.
End fixtures.
