(* ===== verification/Submission.v ===== *)
(** * Submission: what the operations on orders do

    The evidence a venue must give, the start of a submission, the effect of a
    fill on trades and positions, and the reservation of an intent. *)
From S2P Require Import Prelude Text DecimalSpec RefDecimal Json Platform Domain Venue Fixtures Risk Schema StoreIntents StoreRisk StoreOrders StoreControl StorePaper StoreFixtures StoreLogic Lifecycle.

(** Decide the comparisons of constant states. *)
Ltac state_eq :=
  repeat match goal with |- context [?a ≟ ?b] =>
    first [ rewrite (bool_decide_true (a = b)) by done
          | rewrite (bool_decide_false (a = b)) by done ] end;
  rewrite ?andb_true_l, ?andb_false_l, ?orb_false_l, ?orb_false_r.

(** ** Venue evidence *)

(** The quantities and the price a venue may report for an order in a state. *)
Record evidence_ok `{DecimalOps} (original : Decimal) (state : OrderState)
    (remaining filled : Decimal) (price : option Decimal) : Prop := {
  ev_original : (0 < ⟦original⟧)%Q;
  ev_remaining : (0 <= ⟦remaining⟧ <= ⟦original⟧)%Q;
  ev_filled : (0 <= ⟦filled⟧ <= ⟦original⟧)%Q;
  ev_total : (⟦remaining⟧ + ⟦filled⟧ <= ⟦original⟧)%Q;
  ev_state : match state with
    | OrderState.Filled => ⟦remaining⟧ == 0
    | OrderState.Live => ¬ ⟦remaining⟧ == 0
    | OrderState.PartiallyFilled => ¬ ⟦remaining⟧ == 0 ∧ ¬ ⟦filled⟧ == 0
    | OrderState.Rejected => ⟦filled⟧ == 0
    | OrderState.Unknown => ⟦filled⟧ == 0 ∧ ⟦remaining⟧ == ⟦original⟧
    | OrderState.Cancelled | OrderState.Expired => True
    | OrderState.Prepared | OrderState.Submitting | OrderState.CancelPending => False
    end;
  ev_price : (0 < ⟦filled⟧)%Q → ∃ p, price = Some p ∧ (0 < ⟦p⟧ < 1)%Q;
}.

Section evidence.
Context `{DL : DecimalLaws}.
Implicit Types d : Decimal.

Lemma bounds_checked o r f :
  dec_le o dec_ZERO || dec_lt r dec_ZERO || dec_lt f dec_ZERO || dec_gt r o || dec_gt f o = false ↔
  (0 < ⟦o⟧)%Q ∧ (0 <= ⟦r⟧ <= ⟦o⟧)%Q ∧ (0 <= ⟦f⟧ <= ⟦o⟧)%Q.
Proof.
  rewrite !orb_false_iff, dec_le_false, !dec_lt_false, !dec_gt_false, dec_ZERO_value. tauto.
Qed.

(** The third check, state by state. *)
Definition state_fits (original : Decimal) (state : OrderState) (remaining filled : Decimal) : Prop :=
  match state with
  | OrderState.Filled => ⟦remaining⟧ == 0
  | OrderState.Live => ¬ ⟦remaining⟧ == 0
  | OrderState.PartiallyFilled => ¬ ⟦remaining⟧ == 0 ∧ ¬ ⟦filled⟧ == 0
  | OrderState.Rejected => ⟦filled⟧ == 0
  | OrderState.Unknown => ⟦filled⟧ == 0 ∧ ⟦remaining⟧ == ⟦original⟧
  | _ => True
  end.
Lemma state_checked o s r f :
  ((s ≟ OrderState.Filled) && dec_ne r dec_ZERO) ||
  ((s ≟ OrderState.Live) && dec_eq r dec_ZERO) ||
  ((s ≟ OrderState.PartiallyFilled) && (dec_eq r dec_ZERO || dec_eq f dec_ZERO)) ||
  ((s ≟ OrderState.Rejected) && dec_ne f dec_ZERO) ||
  ((s ≟ OrderState.Unknown) && (dec_ne f dec_ZERO || dec_ne r o)) = false ↔
  state_fits o s r f.
Proof.
  destruct s; unfold state_fits; state_eq;
    rewrite ?orb_false_iff, ?dec_ne_false, ?dec_eq_false, ?dec_ZERO_value; tauto.
Qed.

(** [validate_venue_order_evidence] accepts a venue's report exactly when the
    quantities are within the order's bounds, the state is one a venue can
    report and fits them, and a fill has a price between zero and one. *)
Theorem validate_venue_order_evidence_iff o s r f p :
  representable (⟦r⟧ + ⟦f⟧) →
  validate_venue_order_evidence o s r f p = Done tt ↔ evidence_ok o s r f p.
Proof.
  intros (total & Htotal & Hvalue)%dec_add_exact. unfold validate_venue_order_evidence.
  rewrite outcome_bind_done. setoid_rewrite reject_if_done. setoid_rewrite bounds_checked.
  rewrite Htotal. cbn. repeat setoid_rewrite outcome_bind_done. repeat setoid_rewrite reject_if_done.
  setoid_rewrite dec_gt_false. setoid_rewrite state_checked. split.
  - intros (_ & (Ho & Hr & Hf) & _ & Ht & _ & Hs & _ & Hfit & Hp). rewrite Hvalue in Ht.
    split; [done..| |].
    + destruct s; try done.
    + intros Hpos. destruct (dec_gt f dec_ZERO) eqn:Hgt;
        [|apply dec_gt_false in Hgt; rewrite dec_ZERO_value in Hgt; lra].
      apply outcome_bind_done in Hp as (price & Hprice & Hb). apply ok_or_done in Hprice as ->.
      apply reject_if_done, orb_false_iff in Hb as [H1 H2]. exists price. split; [done|]. dec_prop.
      rewrite dec_ZERO_value in H1. rewrite dec_ONE_value in H2. done.
  - intros []. exists tt. split; [done|]. exists tt. rewrite Hvalue. split; [done|].
    exists tt. split; [by destruct s|]. exists tt. split; [by destruct s|].
    destruct (dec_gt f dec_ZERO) eqn:Hgt; [|done]. apply dec_gt_spec in Hgt.
    rewrite dec_ZERO_value in Hgt. destruct (ev_price0 Hgt) as (price & -> & Hlo & Hhi).
    cbn. apply reject_if_done, orb_false_iff.
    by rewrite dec_le_false, dec_ge_false, dec_ZERO_value, dec_ONE_value.
Qed.
End evidence.

(** ** The start of a submission *)
Lemma existsb_none {A} (p : A → bool) l : (∀ a, p a = false) → existsb p l = false.
Proof. intros Hp. induction l as [|a l IH]; [done|]. cbn. by rewrite Hp. Qed.
Lemma has_order_update p f l id d :
  orders d = update_list p f l → (∀ o, oid (f o) = oid o) → (∃ o, o ∈ l ∧ oid o = id) →
  has_order d id = true.
Proof.
  intros Hd Hf (o & Ho & Hid). unfold has_order. rewrite Hd. apply existsb_true_elem.
  exists (upd p f o). split; [apply elem_of_upd; eauto|]. apply bool_decide_eq_true.
  unfold upd. case_match; [etrans; [apply Hf|done]|done].
Qed.
Section submission.
Context `{DL : DecimalLaws} `{Platform} `{Codec}.
Variable self : Store.

(** Exactly one intent and one order of it are PREPARED, and so is exactly one
    attempt. *)
Definition submittable (intent_id order_id : Uuid) (d : Db) : Prop :=
  length (List.filter (intent_in intent_id IntentState.Prepared) (intents d)) = 1%nat ∧
  length (List.filter (order_of order_id intent_id OrderState.Prepared) (orders d)) = 1%nat ∧
  length (List.filter (attempt_of d intent_id "PREPARED") (submission_attempts d)) = 1%nat.

(** C13. [begin_submission] takes the pair from PREPARED to SUBMITTING exactly
    when the service is READY and the pair and its attempt are still PREPARED;
    it journals the transition and publishes two events.  Otherwise it changes
    nothing, and says which of the two it was. *)
Theorem begin_submission_decides intent_id order_id s :
  let '(r, s') := begin_submission self intent_id order_id s in
  match r with
  | Done _ =>
      ct_state (control_state (db s)) = "READY" ∧ submittable intent_id order_id (db s) ∧
      ∃ now e1 e2,
        intents (db s') = update_list (intent_in intent_id IntentState.Prepared)
          (set_intent_state IntentState.Submitting now) (intents (db s)) ∧
        orders (db s') = update_list (order_of order_id intent_id OrderState.Prepared)
          (set_order_state OrderState.Submitting now) (orders (db s)) ∧
        order_transitions (db s') = order_transitions (db s) ++
          [mkTransitionRow order_id (Some OrderState.Prepared) OrderState.Submitting "{}" now] ∧
        execution_events (db s') = execution_events (db s) ++ [e1; e2] ∧
        sent s' = sent s ++ [e1; e2]
  | Failed (NewRiskDisabled state) =>
      state = ct_state (control_state (db s)) ∧ state ≠ "READY" ∧ db s' = db s
  | Failed (IdentityMismatch _) =>
      ct_state (control_state (db s)) = "READY" ∧ ¬ submittable intent_id order_id (db s) ∧
      db s' = db s
  | _ => False
  end.
Proof.
  unfold begin_submission, transaction, submittable.
  destruct (decide (ct_state (control_state (db s)) = "READY")) as [Hready|Hready].
  2: { unfold mbind, prog_bind, gets. cbn. unfold ensure. rewrite bool_decide_false by done. done. }
  unfold mbind, prog_bind, gets. cbn [fst snd]. unfold ensure at 1.
  rewrite bool_decide_true by done. cbn -[update_list List.filter length attempt_of].
  destruct (_ && _) eqn:Hpair; cbn -[update_list List.filter length attempt_of].
  2: { split_and!; [done| |done]. intros (Hn1 & Hn2 & _). by rewrite Hn1, Hn2 in Hpair. }
  apply andb_true_iff in Hpair as [Hi%bool_decide_eq_true Ho%bool_decide_eq_true].
  change (length (List.filter (attempt_of _ intent_id "PREPARED") (submission_attempts (db s))))
    with (length (List.filter (attempt_of (db s) intent_id "PREPARED") (submission_attempts (db s)))).
  destruct (decide (length (List.filter (attempt_of (db s) intent_id "PREPARED")
    (submission_attempts (db s))) = 1%nat)) as [Ha|Ha];
    [rewrite bool_decide_true by done|rewrite bool_decide_false by done];
    cbn -[update_list List.filter length attempt_of].
  2: { split_and!; [done| |done]. tauto. }
  unfold insert_transition, insert. cbn -[update_list List.filter length attempt_of has_order].
  rewrite existsb_none by done.
  erewrite has_order_update; [|reflexivity|done|].
  2: { apply length_filter_one in Ho as (o & Ho & Hp). apply order_of_iff in Hp as (Hp & _). eauto. }
  cbn -[update_list List.filter length attempt_of has_order].
  split; [done|]. split; [done|]. do 3 eexists. split_and!; [done..| |done].
  cbn. by rewrite <-app_assoc.
Qed.

(** ** Fills *)

Definition position_of (d : Db) (token_id : string) : outcome StoreError Decimal :=
  match List.find (λ p, pos_token_id p ≟ token_id) (positions d) with
  | None => Done dec_ZERO
  | Some p => parse_stored_decimal (pos_shares p)
  end.

(** The positions after a row was written over the one of its token. *)
Definition put_position (r : PositionRecord) (l : list PositionRecord) : list PositionRecord :=
  if existsb (λ p, pos_token_id r ≟ pos_token_id p) l
  then update_list (λ p, pos_token_id r ≟ pos_token_id p) (λ _, r) l else l ++ [r].

Lemma find_overwritten r l token_id :
  List.find (λ p, pos_token_id p ≟ token_id)
    (update_list (λ p, pos_token_id r ≟ pos_token_id p) (λ _, r) l) =
  if (pos_token_id r ≟ token_id) && existsb (λ p, pos_token_id r ≟ pos_token_id p) l
  then Some r else List.find (λ p, pos_token_id p ≟ token_id) l.
Proof.
  induction l as [|p l IH]; [by rewrite andb_false_r|].
  change (update_list ?P ?F (p :: l)) with ((if P p then F p else p) :: update_list P F l).
  cbn [List.find existsb]. rewrite IH. repeat case_bool_decide; cbn; congruence.
Qed.
Lemma find_put_position r l token_id :
  List.find (λ p, pos_token_id p ≟ token_id) (put_position r l) =
  if pos_token_id r ≟ token_id then Some r
  else List.find (λ p, pos_token_id p ≟ token_id) l.
Proof.
  unfold put_position. destruct (existsb _ l) eqn:Hex.
  - rewrite find_overwritten, Hex, andb_true_r. done.
  - revert Hex. induction l as [|p l IH]; cbn; intros Hex; [by destruct (_ ≟ _)|].
    apply orb_false_iff in Hex as [Hp Hex]. apply bool_decide_eq_false in Hp.
    rewrite (IH Hex). repeat case_bool_decide; congruence.
Qed.

Definition fill_name (order : OrderRecord) (venue_order_id : option string)
    (venue_trade_ids : list string) : string :=
  matched_trade_id (default (uuid_to_string (ord_id order)) venue_order_id) venue_trade_ids.

(** C20. A fill counts once.  [apply_matched_fill] changes nothing when the
    quantity is not positive or a trade of that name is known; otherwise it adds
    exactly one trade of that name and moves the position of the order's token,
    and no other, by the filled quantity, up for a buy and down for a sell. *)
Theorem apply_matched_fill_once order v q price ids now s r s' :
  apply_matched_fill self order v q price ids now s = (Done r, s') →
  match r with
  | None =>
      ((⟦q⟧ <= 0)%Q ∨ ∃ t, t ∈ trades (db s) ∧ venue_trade_id t = fill_name order v ids) ∧
      db s' = db s
  | Some _ =>
      (0 < ⟦q⟧)%Q ∧ (∀ t, t ∈ trades (db s) → venue_trade_id t ≠ fill_name order v ids) ∧
      (∃ t, trades (db s') = trades (db s) ++ [t] ∧ venue_trade_id t = fill_name order v ids ∧
        trd_order_id t = ord_id order ∧ trd_size t = dec_text q) ∧
      (∃ before after, position_of (db s) (ord_token_id order) = Done before ∧
        match ord_side order with Buy => dec_add before q | Sell => dec_sub before q end
          = Some after ∧
        position_of (db s') (ord_token_id order) = parse_stored_decimal (dec_text after)) ∧
      ∀ token, token ≠ ord_token_id order → position_of (db s') token = position_of (db s) token
  end.
Proof.
  intros Hr. destruct r as [e|];
    unfold apply_matched_fill in Hr; destruct (dec_le q dec_ZERO) eqn:Hq; db_inv; dec_prop;
    rewrite dec_ZERO_value in Hq; [done| |by split; [left|]|];
    match goal with Hx : (if existsb ?p ?l then _ else _) = _ |- _ =>
      destruct (existsb p l) eqn:Hknown end; db_inv;
    change (1%nat ≟ 0%nat) with false in *; change (0%nat ≟ 0%nat) with true in *; cbv iota in *;
    db_inv; try done.
  - split; [done|]. split.
    { intros t Ht Heq. eapply existsb_false_elem in Hknown; [|exact Ht].
      by apply bool_decide_eq_false in Hknown. }
    split; [by eexists|].
    match goal with
    | Hb : match List.find _ _ with _ => _ end = Done ?before, Ha : _ = Some ?after
      |- (∃ _ _, _ ∧ _ ∧ position_of (db ?f) _ = _) ∧ _ =>
        assert (∃ r, positions (db f) = put_position r (positions (db s)) ∧
          pos_token_id r = ord_token_id order ∧ pos_shares r = dec_text after) as (r & Hpos & Ht & Hsh)
          by (eexists; split_and!; reflexivity);
        split; [exists before, after; split_and!; [exact Hb|exact Ha|]|intros token Hne];
        unfold position_of at 1; rewrite Hpos, find_put_position, Ht
    end.
    + by rewrite bool_decide_true, Hsh.
    + by rewrite bool_decide_false.
  - split; [right|done]. apply existsb_true_elem in Hknown as (t & Ht & Hid).
    apply bool_decide_eq_true in Hid. eauto.
Qed.

(** The ids of a fill's venue trades can be read back from the name of the
    trade, so each of them finds it when the venue reports its finality. *)
Theorem trade_components_roundtrip reference ids :
  ids ≠ [] → Forall (λ i, comma ∉ list_ascii_of_string i) ids →
  (∀ i, ids = [i] → strip_prefix "submission:" i = None) →
  trade_component_ids (matched_trade_id reference ids) = ids.
Proof.
  intros Hne Hcomma Hsingle. unfold trade_component_ids, matched_trade_id.
  destruct ids as [|i [|j ids]]; [done| |].
  - by rewrite (Hsingle i).
  - rewrite (proj2 (strip_prefix_spec _ _ _) eq_refl). by apply split_join.
Qed.

(** ** Reservations *)

(** An intent is approved at most once: while the database holds a
    reservation of it, in whatever state, an evaluation that approves it again
    fails on the primary key and changes nothing. *)
Theorem approved_at_most_once intent_id request market book policy s snapshot decision :
  snapshot_of (db s) (utc_clock (tick s)) (req_condition_id request) (req_token_id request)
    = Done snapshot →
  evaluate policy request market book snapshot = Some decision → approved decision = true →
  (∃ r, r ∈ risk_reservations (db s) ∧ rs_intent_id r = intent_id) →
  let '(r, s') := evaluate_and_reserve_risk self intent_id request market book policy s in
  (∀ d, r ≠ Done d) ∧ db s' = db s.
Proof.
  intros Hsnap Heval Happ (r & Hr & Hid).
  destruct (evaluate_and_reserve_risk _ _ _ _ _ _ s) as [o s'] eqn:Hrun.
  assert (∀ d, o ≠ Done d) as Hno.
  2: { split; [done|]. unfold evaluate_and_reserve_risk in Hrun.
       by eapply transaction_rolls_back in Hrun as [? _]. }
  intros d ->. unfold evaluate_and_reserve_risk in Hrun.
  assert (∀ m s1, risk_snapshot (req_condition_id request) (req_token_id request) s = (m, s1) →
    s1 = s ∧ m = Done snapshot) as Hread by by intros m s1 [= <- <-].
  db_inv. 
  match goal with Hx : risk_snapshot _ _ _ = _ |- _ => apply Hread in Hx as [-> [= ->]] end.
  match goal with Hx : evaluate _ _ _ _ _ = Some _ |- _ => rewrite Heval in Hx; injection Hx as <- end.
  rewrite Happ in *. unfold reserve in *. db_inv.
  match goal with Hx : (let '(_, _) := ?x in _) _ = _ |- _ => destruct x end. db_inv.
  match goal with Hx : existsb (clash (reservation_row _ _ _ _ _ _ _)) _ = false |- _ =>
    eapply existsb_false_elem in Hx; [|exact Hr]; cbn in Hx; by apply bool_decide_eq_false in Hx end.
Qed.
End submission.

(** ** Witnesses *)
Section witnesses.
#[local] Existing Instance RefOps.
#[local] Existing Instance RefLaws.
#[local] Existing Instance RefPlatform.
#[local] Existing Instance RefCodec.

Definition fix_dec (m : Z) (s : N) : Decimal := RefDec m s.

Lemma validate_venue_order_evidence_iff_witness :
  evidence_ok (fix_dec 10 0) OrderState.PartiallyFilled (fix_dec 6 0) (fix_dec 4 0)
    (Some (fix_dec 5 1)).
Proof.
  apply (validate_venue_order_evidence_iff (fix_dec 10 0) OrderState.PartiallyFilled (fix_dec 6 0)
    (fix_dec 4 0) (Some (fix_dec 5 1))).
  - apply representable_b_sound. vm_compute. reflexivity.
  - vm_compute. reflexivity.
Defined.

(** A resting buy of ten shares. *)
Definition fix_resting : OrderRecord :=
  mkOrderRecord 7%N 8%N Paper (Some "venue-1") "condition" "123" Buy Gtc "0.5" "10" "10"
    OrderState.Live 0 0.
Definition sys_resting : Sys :=
  mkSys (fix_db "READY" <| orders := [mkOrderRow fix_resting "0" "5"] |>) [] 0.
Definition fill_of_four := apply_matched_fill fix_store fix_resting (Some "venue-1") (fix_dec 4 0)
  (Some (fix_dec 5 1)) ["trade-1"] 0.
Definition fix_fill_event : option ExecutionEvent :=
  match result fill_of_four sys_resting with Done e => e | _ => None end.

Lemma apply_matched_fill_once_witness :
  ∃ t, trades (db (final fill_of_four sys_resting)) = trades (db sys_resting) ++ [t] ∧
    venue_trade_id t = "trade-1" ∧ trd_order_id t = 7%N ∧ trd_size t = "4".
Proof.
  pose proof (apply_matched_fill_once fix_store fix_resting (Some "venue-1") (fix_dec 4 0)
    (Some (fix_dec 5 1)) ["trade-1"] 0 sys_resting fix_fill_event (final fill_of_four sys_resting))
    as Hfill.
  assert (is_Some fix_fill_event) as [e He] by (vm_compute; eexists; reflexivity).
  rewrite He in Hfill. destruct Hfill as (_ & _ & Ht & _); [rewrite <-He; vm_compute; reflexivity|].
  exact Ht.
Defined.

Lemma trade_components_roundtrip_witness :
  trade_component_ids (matched_trade_id "order" ["a"; "b"]) = ["a"; "b"].
Proof.
  apply (trade_components_roundtrip "order" ["a"; "b"]).
  - discriminate.
  - apply Forall_cons; split; [|apply Forall_cons; split; [|apply Forall_nil; exact I]];
      intros Hc%list_elem_of_In; vm_compute in Hc; destruct Hc as [Hc|[]]; discriminate Hc.
  - discriminate.
Defined.

(** The process stops after the approval; the intent is admitted again. *)
Definition sys_restarted : Sys :=
  final (transition_intent fix_store fix_id IntentState.Received IntentState.Validating None)
    (final (recover_pre_submission_work fix_store) sys_approved).
Definition restarted_snapshot : RiskSnapshot :=
  match snapshot_of (db sys_restarted) (utc_clock (tick sys_restarted)) "condition" "123" with
  | Done x => x
  | _ => fix_snapshot
  end.

Lemma approved_at_most_once_witness :
  result (evaluate_and_reserve_risk fix_store fix_id fix_request fix_market fix_book fix_policy)
    sys_restarted = Failed (Database UniqueViolation) ∧
  let '(r, s') :=
    evaluate_and_reserve_risk fix_store fix_id fix_request fix_market fix_book fix_policy
      sys_restarted in
  (∀ d, r ≠ Done d) ∧ db s' = db sys_restarted.
Proof.
  split; [vm_compute; reflexivity|].
  apply (approved_at_most_once fix_store fix_id fix_request fix_market fix_book fix_policy
    sys_restarted restarted_snapshot
    (default fix_decision (evaluate fix_policy fix_request fix_market fix_book restarted_snapshot))).
  - vm_compute. reflexivity.
  - vm_compute. reflexivity.
  - vm_compute. reflexivity.
  - eexists. split; [apply list_elem_of_In; vm_compute; left; reflexivity | vm_compute; reflexivity].
Defined.

(** Two observations of a resting order whose trades the venue does not name. *)
Definition sys_four_filled : Sys :=
  final (reconcile_order_projection fix_store fix_order_id OrderState.PartiallyFilled
    (fix_dec 6 0) (fix_dec 4 0) (Some (fix_dec 5 1)) [] (JObject [])) sys_live.
Definition sys_seven_filled : Sys :=
  final (reconcile_order_projection fix_store fix_order_id OrderState.PartiallyFilled
    (fix_dec 3 0) (fix_dec 7 0) (Some (fix_dec 5 1)) [] (JObject [])) sys_four_filled.

(** Fills without trade ids are all named after their order, so only the first
    one is recorded: the order says that seven shares are filled, the trades and
    the position stay at four. *)
Theorem unnamed_fills_collide :
  (λ o : OrderRow, Domain.remaining_quantity o) <$> orders (db sys_seven_filled) = ["3"] ∧
  trd_size <$> trades (db sys_seven_filled) = ["4"] ∧
  pos_shares <$> positions (db sys_seven_filled) = ["4"].
Proof. vm_compute. done. Qed.
End witnesses.
