(* ===== verification/Control.v ===== *)
(** * Control: admission, idempotency keys and the service state

    What the operations promise to clients that retry and to operators: a
    request is admitted once and answered the same way for ever after, and a
    resume that was checked against one control state never overwrites
    another. *)
From S2P Require Import Prelude Text DecimalSpec RefDecimal Json Platform Domain Venue Fixtures Risk Schema StoreIntents StoreRisk StoreOrders StoreControl StorePaper StoreFixtures StoreLogic Lifecycle History Events.

(** ** The text of a service state *)

(** Reading a stored service state accepts exactly the texts the store
    writes, and the older spelling of SHUTTING_DOWN. *)
Theorem parse_service_state_iff raw st :
  parse_service_state raw = Done st ↔
  raw = service_state_text st ∨ raw = "SHUTTINGDOWN" ∧ st = ShuttingDown.
Proof.
  unfold parse_service_state. split.
  - repeat case_bool_decide; subst; cbn; intros Hp; try discriminate Hp;
      injection Hp as <-; first [by left | by right].
  - intros [->|[-> ->]]; [by destruct st | reflexivity].
Qed.

(** ** The control row *)
Section control.
Context `{DL : DecimalLaws} `{Platform} `{Codec}.
Variable self : Store.

(** C25. [set_service_state_inner] writes the next state with the next revision,
    journals the operator's action and publishes one event.  With an expected
    revision it does so only from HALTED at exactly that revision; when it
    fails, nothing has changed. *)
Theorem set_service_state_decides actor next reason idem expected s :
  let row := control_state (db s) in
  let '(r, s') := set_service_state_inner self actor next reason idem expected s in
  match r with
  | Done _ =>
      (∀ e, expected = Some e → ct_state row = "HALTED" ∧ ct_revision row = e) ∧
      ct_revision row < i64_max ∧
      (∃ now, control_state (db s') =
        mkControlRow (service_state_text next) reason now (ct_revision row + 1)) ∧
      (∃ action, operator_actions (db s') = operator_actions (db s) ++ [action] ∧
        oa_actor_id action = actor ∧ oa_reason action = reason ∧
        oa_prior_state action = ct_state row ∧ oa_new_state action = service_state_text next) ∧
      ∃ e, execution_events (db s') = execution_events (db s) ++ [e] ∧ sent s' = sent s ++ [e]
  | _ => db s' = db s ∧ sent s' = sent s
  end.
Proof.
  cbv zeta. destruct (set_service_state_inner _ _ _ _ _ _ s) as [o s'] eqn:Hr.
  unfold set_service_state_inner in Hr.
  destruct o as [u|e|]; [|by apply (transaction_rolls_back _ _ _ _ Hr)..].
  destruct idem as [i|]; unfold insert_idempotency_record in Hr; db_inv;
    try match goal with Hi : insert_or_ignore _ _ = _, Hn : (_ ≟ 1%nat) = true |- _ =>
      apply bool_decide_eq_true in Hn as ->;
      apply insert_or_ignore_done in Hi as [(_ & Hz & _)|(_ & _ & _ & ->)]; [discriminate Hz|] end.
  all: match goal with Hc : checked_add_i64 _ _ = Some _ |- _ =>
    unfold checked_add_i64 in Hc; case_match; [discriminate Hc|]; injection Hc as <- end.
  all: split_and!; [|lia|by eexists|by eexists|by eexists].
  all: intros e ->; match goal with Hx : _ && _ = true |- _ =>
    apply andb_true_iff in Hx as [?%bool_decide_eq_true ?%Z.eqb_eq] end; done.
Qed.

(** The control row is the same, or has a later revision. *)
Definition control_later (d0 d : Db) : Prop :=
  control_state d = control_state d0 ∨ ct_revision (control_state d0) < ct_revision (control_state d).

Lemma control_later_stable d0 : stable (control_later d0).
Proof.
  split; try done.
  - intros d d' [= _ _ E _ _]. unfold control_later. by rewrite E.
  - intros c d Hc Hl. right. cbn. destruct Hl as [Hl|Hl]; [rewrite Hl in Hc|]; lia.
Qed.

(** A resume never overwrites a newer control state.  When
    [set_service_state_if_unchanged] succeeds with the revision that was read at
    an earlier point of the history, the control row has not changed since: no
    halt, by whomever, came in between. *)
Theorem resume_sees_no_newer_state s0 s actor next reason r s' :
  rtc (store_step self) s0 s →
  set_service_state_if_unchanged self actor next reason (ct_revision (control_state (db s0))) s
    = (Done r, s') →
  control_state (db s) = control_state (db s0) ∧ ct_state (control_state (db s)) = "HALTED".
Proof.
  intros Hs Hr.
  assert (control_later (db s0) (db s)) as Hl.
  { eapply (stable_steps self (control_later (db s0))); [apply control_later_stable|done|exact Hs|by left]. }
  unfold set_service_state_if_unchanged, set_service_state_inner in Hr.
  apply transaction_done in Hr as (ev & s1 & Hr & _).
  apply bind_done in Hr as (row & s2 & Hrow & Hr). apply gets_done in Hrow as [-> ->].
  apply bind_done in Hr as (v & s2 & Hv & Hr). apply ensure_done in Hv as [Hv _].
  apply andb_true_iff in Hv as [Hh%bool_decide_eq_true Hrev%Z.eqb_eq].
  destruct Hl as [Hl|Hl]; [done|lia].
Qed.
End control.

(** ** Admission *)

Definition client_key (i : IntentRow) : string * string := (int_actor_id i, int_idempotency_key i).
Definition response_key (k : IdempotencyRow) : string * string := (ik_actor_id k, ik_key k).

(** A client's key names one intent and one response. *)
Record keys_unique (d : Db) : Prop := {
  unique_intents : NoDup (client_key <$> intents d);
  unique_responses : NoDup (response_key <$> idempotency_keys d);
}.

(** The admission is on record: the intent with its request, and the response. *)
Definition on_record (key : Uuid * string * string * string) (response : IdempotencyRow)
    (d : Db) : Prop :=
  keys_unique d ∧ key ∈ intent_key <$> intents d ∧ response ∈ idempotency_keys d.

Lemma client_key_of d :
  client_key <$> intents d = (λ k, (k.1.1.2, k.1.2)) <$> (intent_key <$> intents d).
Proof. rewrite <-list_fmap_compose. by apply list_fmap_ext. Qed.

Lemma keys_unique_stable : stable keys_unique.
Proof.
  split; try by intros ??? [].
  - intros d d' [= _ _ _ E1 E2] []. split; [|by rewrite <-E2].
    by rewrite client_key_of, <-E1, <-client_key_of.
  - intros r d Hc []. split; [|done]. cbn. rewrite fmap_app. apply NoDup_app.
    split_and!; [done| |apply NoDup_singleton].
    intros k (i & -> & Hi)%list_elem_of_fmap Heq%list_elem_of_singleton.
    eapply existsb_false_elem in Hc; [|exact Hi]. cbn in Hc.
    apply orb_false_iff in Hc as [_ Hc]. injection Heq as E1 E2.
    by rewrite E1, E2, !bool_decide_true in Hc.
  - intros r d Hc []. split; [done|]. cbn. rewrite fmap_app. apply NoDup_app.
    split_and!; [done| |apply NoDup_singleton].
    intros k (i & -> & Hi)%list_elem_of_fmap Heq%list_elem_of_singleton.
    eapply existsb_false_elem in Hc; [|exact Hi]. cbn in Hc. injection Heq as E1 E2.
    by rewrite E1, E2, !bool_decide_true in Hc.
Qed.

Lemma on_record_stable key response : stable (on_record key response).
Proof.
  split.
  - intros d d' Hf (Hu & Hk & Hr). split_and!; [by eapply (stable_frame _ keys_unique_stable)|..].
    + by injection Hf as _ _ _ <- _.
    + by injection Hf as _ _ _ _ <-.
  - intros e d He (Hu & Hk & Hr). by split_and!; [eapply (stable_event _ keys_unique_stable)|..].
  - intros c d He (Hu & Hk & Hr). by split_and!; [eapply (stable_control _ keys_unique_stable)|..].
  - intros r d Hc (Hu & Hk & Hr). split_and!; [by apply (stable_intent _ keys_unique_stable)| |done].
    cbn. rewrite fmap_app. set_solver.
  - intros r d Hc (Hu & Hk & Hr). split_and!; [by apply (stable_key _ keys_unique_stable)|done|].
    cbn. set_solver.
Qed.

Section admission.
Context `{DL : DecimalLaws} `{Platform} `{Codec}.
Variable self : Store.
Variables (actor key : string).

Definition request_hash (request : OrderIntentRequest) : string :=
  sha256_hex (jcs_to_string (to_value request)).
(** The intent of a client's key. *)
Definition with_key (d : Db) : option IntentRow :=
  List.find (λ r : IntentRow, (int_actor_id r ≟ actor) && (int_idempotency_key r ≟ key)) (intents d).

Definition is_answer (k : IdempotencyRow) : bool := by_key actor key k && (ik_resource_type k ≟ "intent").

(** What an admission does, by the outcome. *)
Definition admission_spec (request : OrderIntentRequest) (s : Sys)
    (run : outcome StoreError Admission * Sys) : Prop :=
  let '(r, s') := run in
  match r with
  | Done (Created record) =>
      ct_state (control_state (db s)) = "READY" ∧ with_key (db s) = None ∧
      int_actor_id record = actor ∧ int_idempotency_key record = key ∧
      int_state record = IntentState.Received ∧ int_request_hash record = request_hash request ∧
      intents (db s') = intents (db s) ++ [mkIntentRow record None] ∧
      ∃ response, idempotency_keys (db s') = idempotency_keys (db s) ++ [response] ∧
        response_key response = (actor, key) ∧ ik_resource_type response = "intent" ∧
        ik_response_json response = json_to_string (to_value record)
  | Done (AlreadyAdmitted record) =>
      db s' = db s ∧ ∃ i response, with_key (db s) = Some i ∧
        int_request_hash i = request_hash request ∧ response ∈ idempotency_keys (db s) ∧
        response_key response = (actor, key) ∧
        intent_from_json (ik_response_json response) = Some record
  | Failed (NewRiskDisabled state) =>
      db s' = db s ∧ with_key (db s) = None ∧ state = ct_state (control_state (db s)) ∧
      state ≠ "READY"
  | Failed IdempotencyConflict =>
      db s' = db s ∧ ∃ i, with_key (db s) = Some i ∧ int_request_hash i ≠ request_hash request
  | _ => db s' = db s
  end.

(** The answer to a request whose key is known. *)
Lemma admit_known i request s :
  with_key (db s) = Some i →
  let '(r, s') := admit_intent self actor key request s in
  db s' = db s ∧
  r = if int_request_hash i ≟ request_hash request
      then match List.find is_answer (idempotency_keys (db s)) with
           | None => Failed (Database RowNotFound)
           | Some k => match intent_from_json (ik_response_json k) with
                       | None => Failed Serialization
                       | Some record => Done (AlreadyAdmitted record)
                       end
           end
      else Failed IdempotencyConflict.
Proof.
  intros Hk. unfold admit_intent, transaction, fetch_one, fetch_optional, mbind, prog_bind, gets,
    ensure, lift. cbn [fst snd rows intents_table idempotency_table].
  fold (with_key (db s)). rewrite Hk. fold (request_hash request).
  destruct (_ ≟ request_hash request); [|done].
  cbn -[by_key List.find]. fold is_answer.
  destruct (List.find is_answer _) as [k|]; [|done]. cbn. by destruct (intent_from_json _).
Qed.

(** The answer to a request whose key is not known: a database that refuses a row
    is the only thing that keeps a READY service from admitting it. *)
Lemma admit_unknown request s :
  with_key (db s) = None →
  admission_spec request s (admit_intent self actor key request s) ∧
  let r := (admit_intent self actor key request s).1 in
  if ct_state (control_state (db s)) ≟ "READY"
  then (∃ record, r = Done (Created record)) ∨ ∃ e, r = Failed (Database e)
  else r = Failed (NewRiskDisabled (ct_state (control_state (db s)))).
Proof.
  intros Hk. destruct (admit_intent _ _ _ _ s) as [o s'] eqn:Hr. cbv zeta. cbn [fst].
  unfold admit_intent, transaction, fetch_optional, append_event, mbind, prog_bind, gets, ensure,
    utc_now, now_v7, insert in Hr. cbn [fst snd rows intents_table] in Hr.
  fold (with_key (db s)) in Hr. rewrite Hk in Hr. cbn -[existsb clash refs] in Hr.
  case_bool_decide as Hready; cbn -[existsb clash refs] in Hr; [|injection Hr as <- <-; done].
  destruct (existsb _ (intents (db s))) eqn:Hi; cbn -[existsb clash refs] in Hr;
    [injection Hr as <- <-; split; [done|right; by eexists]|].
  destruct (refs _ _) in Hr; cbn -[existsb clash refs] in Hr;
    [|injection Hr as <- <-; split; [done|right; by eexists]].
  destruct (existsb _ (idempotency_keys (db s))) eqn:Hj; cbn -[existsb clash refs] in Hr;
    [injection Hr as <- <-; split; [done|right; by eexists]|].
  destruct (refs _ _) in Hr; cbn -[existsb clash refs] in Hr;
    [|injection Hr as <- <-; split; [done|right; by eexists]].
  injection Hr as <- <-. split; [|left; by eexists]. split_and!; try done. by eexists.
Qed.
Lemma admit_intent_effect request s :
  admission_spec request s (admit_intent self actor key request s).
Proof.
  destruct (with_key (db s)) as [i|] eqn:Hk.
  - pose proof (admit_known i request s Hk) as Hr.
    destruct (admit_intent _ _ _ _ s) as [o s'], Hr as [Hs ->]. unfold admission_spec.
    case_bool_decide as Hh; [|eauto].
    destruct (List.find is_answer _) as [k|] eqn:Hf; [|done].
    destruct (intent_from_json _) as [record|] eqn:Hj; [|done].
    apply List.find_some in Hf as [Hin [[Ha Hkey]%andb_true_iff Ht]%andb_true_iff].
    apply bool_decide_eq_true in Ha, Hkey. split; [done|]. exists i, k.
    split_and!; [done..|by apply list_elem_of_In|by unfold response_key; rewrite Ha, Hkey|done].
  - by apply admit_unknown.
Qed.

(** C14. [admit_intent] keeps its contract.  A new request is stored as RECEIVED,
    together with the response to repeat, and only while the service is READY; a
    request whose key is known is answered from the record in any service state
    and changes nothing; a different request under a known key is a conflict. *)
Theorem admit_intent_decides request s :
  admission_spec request s (admit_intent self actor key request s).
Proof. apply admit_intent_effect. Qed.

(** The intent and the response that are on record are the ones found. *)
Lemma on_record_found request record response d :
  response_key response = (actor, key) → ik_resource_type response = "intent" →
  on_record (int_id record, actor, key, request_hash request) response d →
  (∃ i, with_key d = Some i ∧ int_request_hash i = request_hash request) ∧
  List.find is_answer (idempotency_keys d) = Some response.
Proof.
  intros Hrk Hrt ([Hui Hur] & Hin & Hresp). split.
  - unfold with_key. apply list_elem_of_fmap in Hin as (i & Hi & Hin).
    injection Hi as Hid Ha Hk Hh.
    destruct (List.find _ (intents d)) as [j|] eqn:Hf.
    + exists j. split; [done|]. apply List.find_some in Hf as [Hj [Ha' Hk']%andb_true_iff].
      apply bool_decide_eq_true in Ha', Hk'. apply list_elem_of_In in Hj.
      assert (j = i) as -> by (by apply (nodup_key_eq client_key (intents d)); [..|unfold client_key; congruence]).
      done.
    + apply List.find_none with (x := i) in Hf; [|by apply list_elem_of_In].
      by rewrite <-Ha, <-Hk, !bool_decide_true in Hf.
  - injection Hrk as Ha Hk. destruct (List.find _ _) as [k|] eqn:Hf.
    + apply List.find_some in Hf as [Hin' [[Ha' Hk']%andb_true_iff _]%andb_true_iff].
      apply bool_decide_eq_true in Ha', Hk'. apply list_elem_of_In in Hin'. f_equal.
      apply (nodup_key_eq response_key (idempotency_keys d)); [done..|unfold response_key; congruence].
    + apply List.find_none with (x := response) in Hf; [|by apply list_elem_of_In].
      unfold is_answer, by_key in Hf. by rewrite Ha, Hk, Hrt, !bool_decide_true in Hf.
Qed.

(** C24. A request is admitted once.  After the admission, and after any history
    of store operations (crashes, recoveries and halts included), the same
    request under the same key is answered with the record of the first
    admission, another request under that key is a conflict, and neither
    changes anything. *)
Theorem admitted_once_for_ever request again record s0 s1 s2 :
  keys_unique (db s0) →
  admit_intent self actor key request s0 = (Done (Created record), s1) →
  rtc (store_step self) s1 s2 →
  intent_from_json (json_to_string (to_value record)) = Some record →
  let '(r, s3) := admit_intent self actor key again s2 in
  db s3 = db s2 ∧
  (request_hash again = request_hash request → r = Done (AlreadyAdmitted record)) ∧
  (request_hash again ≠ request_hash request → r = Failed IdempotencyConflict).
Proof.
  intros Hu Hr Hs Hcodec.
  pose proof (admit_intent_effect request s0) as Hd. rewrite Hr in Hd.
  destruct Hd as (_ & _ & Ha & Hkey & _ & Hhash & Hi & response & Hk & Hrk & Hrt & Hj).
  assert (on_record (int_id record, actor, key, request_hash request) response (db s1)) as Hon.
  { split_and!.
    - replace s1 with (admit_intent self actor key request s0).2 by by rewrite Hr.
      eapply (stable_steps self _ _ _ keys_unique_stable); [by intros ?? []| |exact Hu].
      apply rtc_once, Store_step, Op_admit.
    - rewrite Hi, fmap_app. apply elem_of_app. right. apply list_elem_of_singleton.
      unfold intent_key. cbn. congruence.
    - rewrite Hk. apply elem_of_app. right. by apply list_elem_of_singleton. }
  eapply (stable_steps self _ _ _ (on_record_stable _ _)) in Hon;
    [|by intros ?? ([] & ? & ?)|exact Hs].
  destruct (on_record_found request record response (db s2) Hrk Hrt Hon) as [(i & Hf & Hh) Hans].
  pose proof (admit_known i again s2 Hf) as Hd.
  destruct (admit_intent self actor key again s2) as [r s3], Hd as [Hs3 ->].
  split; [done|]. rewrite Hh, Hans, Hj, Hcodec.
  split; intros; [by rewrite bool_decide_true|by rewrite bool_decide_false].
Qed.
End admission.

(** ** Witnesses *)
Section witnesses.
#[local] Existing Instance RefOps.
#[local] Existing Instance RefLaws.
#[local] Existing Instance RefPlatform.

(** A codec that reads back the record of the fixtures. *)
Definition record_codec : Codec := {|
  intent_from_json s := if s ≟ json_to_string (to_value fix_intent) then Some fix_intent else None;
  request_from_json _ := None;
  strings_from_json s := Some [];
  uuids_from_json _ := None;
  json_extract _ _ := None;
  error_detail _ := "detail";
|}.
#[local] Existing Instance record_codec.

(** The service is halted after the admission. *)
Definition sys_halted : Sys :=
  final (set_service_state fix_store "operator" Halted "stop") sys_received.
Definition other_request : OrderIntentRequest := fix_immediate.

Lemma admitted_once_for_ever_witness :
  result (admit_intent fix_store "actor" "key" fix_request) sys_halted =
    Done (AlreadyAdmitted fix_intent) ∧
  result (admit_intent fix_store "actor" "key" other_request) sys_halted = Failed IdempotencyConflict.
Proof.
  assert (rtc (store_step fix_store) sys_received sys_halted) as Hs
    by (apply rtc_once, (Store_step fix_store sys_received _
          (set_service_state fix_store "operator" Halted "stop")), Op_service_state).
  assert (∀ again, let '(r, s3) := admit_intent fix_store "actor" "key" again sys_halted in
    db s3 = db sys_halted ∧
    (request_hash again = request_hash fix_request → r = Done (AlreadyAdmitted fix_intent)) ∧
    (request_hash again ≠ request_hash fix_request → r = Failed IdempotencyConflict)) as Hall.
  { intros again.
    apply (admitted_once_for_ever fix_store "actor" "key" fix_request again fix_intent sys_ready
      sys_received sys_halted); [|vm_compute; reflexivity|exact Hs|vm_compute; reflexivity].
    split; vm_compute; constructor. }
  split; unfold result.
  - pose proof (Hall fix_request) as Hr. destruct (admit_intent _ _ _ fix_request _).
    by apply Hr.
  - pose proof (Hall other_request) as Hr. destruct (admit_intent _ _ _ other_request _).
    apply Hr. vm_compute. discriminate.
Defined.

Lemma resume_sees_no_newer_state_witness :
  control_state (db sys_halted) = control_state (db sys_halted) ∧
  ct_state (control_state (db sys_halted)) = "HALTED".
Proof.
  eapply (resume_sees_no_newer_state fix_store sys_halted sys_halted "operator" Ready "resume");
    [apply rtc_refl|vm_compute; reflexivity].
Defined.
End witnesses.
