(* ===== verification/OrderHistory.v ===== *)
(** * OrderHistory: what the histories of the store do to orders

    An order is never deleted, an order the venue knows stays known, and the
    journal of its transitions only grows: stated, as in History, once for every
    invariant over the orders and the transitions. *)
From S2P Require Import Prelude Text DecimalSpec RefDecimal Json Platform Domain Venue Risk Schema StoreIntents StoreRisk StoreOrders StoreControl StorePaper StoreLogic Lifecycle.

(** An update of an order that keeps its id, and its id at the venue when it
    has one. *)
Definition keeps_identity (f : OrderRow → OrderRow) : Prop :=
  ∀ o, oid (f o) = oid o ∧ (venue_order_id o ≠ None → venue_order_id (f o) ≠ None).

Record order_stable (I : Db → Prop) : Prop := {
  os_frame d d' : orders d = orders d' → order_transitions d = order_transitions d' → I d → I d';
  os_insert r d : I d → I (d <| orders := orders d ++ [r] |>);
  os_update p f d : keeps_identity f → I d → I (d <| orders := update_list p f (orders d) |>);
  os_transition t d : I d → I (d <| order_transitions := order_transitions d ++ [t] |>);
}.

Lemma keeps_identity_remaining q f : keeps_identity f → keeps_identity (λ o, set_remaining q (f o)).
Proof. intros Hf o. apply Hf. Qed.
Lemma keeps_identity_state st now : keeps_identity (set_order_state st now).
Proof. by intros o. Qed.
Lemma keeps_identity_venue v f :
  keeps_identity f → keeps_identity (λ o, set_venue_order_id v (f o)).
Proof. intros Hf o. destruct (Hf o) as [Hid Hv]. split; [done|]. by destruct v. Qed.
#[export] Hint Resolve keeps_identity_remaining keeps_identity_state keeps_identity_venue : keeps.

Section order_history.
Context `{DL : DecimalLaws} `{Platform} `{Codec}.
Variable self : Store.
Context {I : Db → Prop} (HI : order_stable I).

Definition order_view (d : Db) := (orders d, order_transitions d).
Lemma keeps_order_view {A} (m : Prog Sys StoreError A) : frames order_view m → keeps I m.
Proof. apply keeps_frames. intros d d' [= Ho Ht]. by apply (os_frame _ HI). Qed.
Lemma keeps_insert_order (r : OrderRow) : keeps I (insert r).
Proof.
  intros s Hs. unfold insert. cbn [rows orders_table].
  destruct (existsb _ _); [done|]. destruct (refs _ _); [|done]. by apply (os_insert _ HI).
Qed.
Lemma keeps_insert_transition (r : TransitionRow) : keeps I (insert r).
Proof.
  intros s Hs. unfold insert. cbn [rows transitions_table].
  destruct (existsb _ _); [done|]. destruct (refs _ _); [|done]. by apply (os_transition _ HI).
Qed.
Lemma keeps_update_orders (p : OrderRow → bool) f : keeps_identity f → keeps I (update_where p f).
Proof. intros Hf s. by apply (os_update _ HI). Qed.

Ltac identity :=
  first [ solve [auto with keeps nocore]
        | intros ?; split; [reflexivity|]; unfold set_venue_order_id; cbn; by repeat case_match ].
Ltac keep := keep_with ltac:(first
  [ apply keeps_insert_order | apply keeps_insert_transition
  | apply keeps_update_orders; identity; fail
  | apply keeps_order_view; frame; fail ]).

Lemma apply_matched_fill_keeps_orders o v q p ids now :
  keeps I (apply_matched_fill self o v q p ids now).
Proof.
  unfold apply_matched_fill. keep. intros s Hs. cbv beta. destruct (existsb _ _); [done|].
  revert s Hs. apply keeps_bind; [|intros ?]; keep.
Qed.
Hint Resolve apply_matched_fill_keeps_orders : keeps.
Lemma update_attempts_keeps_orders i st f : keeps I (update_attempts i st f).
Proof. apply keeps_order_view. intros s. reflexivity. Qed.
Lemma risk_snapshot_keeps_orders c t : keeps I (risk_snapshot c t).
Proof. apply keeps_order_view. intros s. reflexivity. Qed.
Hint Resolve update_attempts_keeps_orders risk_snapshot_keeps_orders : keeps.

Lemma through_loop_keeps_orders eid tp ts ob rows :
  ∀ t, keeps I (through_loop self eid tp ts ob t rows).
Proof.
  induction rows as [|row rows IH]; intros t; cbn [through_loop]; [keep|].
  unfold fill_resting, fill_core_order, insert_transition. keep.
Qed.
Hint Resolve through_loop_keeps_orders : keeps.
Lemma observe_positions_keeps_orders current l :
  ∀ seen, keeps I (observe_positions self current seen l).
Proof.
  induction l as [|[[c t] sh] l IH]; intros seen; cbn [observe_positions]; [keep|].
  unfold position_event. keep.
Qed.
Hint Resolve observe_positions_keeps_orders : keeps.
Lemma delete_events_keeps_orders c : keeps I (delete_events c).
Proof. apply keeps_order_view. intros s. reflexivity. Qed.
Hint Resolve delete_events_keeps_orders : keeps.

Lemma store_op_orders s A (m : Prog Sys StoreError A) : store_op self (db s) A m → keeps I m.
Proof. intros Hop. destruct Hop; first [ solve [auto with keeps nocore] | unfold_op; keep | unfold prune_events; keep ]. Qed.
Lemma steps_orders s s' : rtc (store_step self) s s' → I (db s) → I (db s').
Proof.
  induction 1 as [|s s1 s2 [A m Hop] _ IH]; [done|]. intros Hs. apply IH.
  by apply (store_op_orders s A m Hop).
Qed.
End order_history.
