(* ===== verification/Coordinator.v ===== *)
(** * Coordinator: the execution coordinator (execution.rs)

    The coordinator drives an intent from RECEIVED to a venue's answer, cancels
    and reconciles orders, and switches the service on and off.  Its functions
    run on a [World]: the database, the venue, the queue and the other values
    the coordinator keeps in memory.

    A coordinator function is suspended at every [await], that is at every call
    of the store and of the venue.  What may happen there is left to a
    [Schedule], over which everything is quantified: other tasks run, the
    process stops, and a call of the venue may be cut off by its deadline after
    part of it was done.  A stop is a panic that nothing catches: the function
    ends there, with what it has done so far. *)
From S2P Require Import Prelude Text DecimalSpec Json Platform Domain Venue Risk Schema StoreIntents StoreRisk StoreOrders StoreControl.

Definition VENUE_CALL_TIMEOUT : Z := seconds 10.
Definition SUBMISSION_CALL_TIMEOUT : Z := seconds 35.
Definition RECONCILIATION_TIMEOUT : Z := seconds 30.
(** [mpsc::channel::<Uuid>(100)]. *)
Definition queue_capacity : nat := 100.

Module CoordinatorError.
Inductive t : Type :=
| Store (e : StoreError)
| Venue (e : VenueError)
| Json
| QueueFull
| Invalid (m : string).
End CoordinatorError.
Abbreviation CoordinatorError := CoordinatorError.t.

Definition CoordinatorError_to_string `{Codec} (e : CoordinatorError) : string :=
  match e with
  | CoordinatorError.Store e => StoreError_to_string e
  | CoordinatorError.Venue e => VenueError.to_string e
  | CoordinatorError.Json => error_detail Serialization
  | CoordinatorError.QueueFull => "execution queue is full"
  | CoordinatorError.Invalid m => "invalid request: " +:+ m
  end.

(** [now.signed_duration_since(t).num_seconds().max(0)]. *)
Definition age_seconds (now t : DateTime) : Z := Z.max 0 (Z.quot (now - t) (seconds 1)).

(** ** The checks of the market and the book *)
Section freshness.
Context `{DecimalOps} `{Platform}.
Variable policy : RiskPolicy.

Definition dec_multiple (d step : Decimal) : outcome (string * string) bool :=
  rest ← or_panic (dec_rem d step); Done (dec_eq rest dec_ZERO).

(** [levels.iter().all(..)] stops at the first level that fails. *)
Fixpoint valid_levels (step : Decimal) (levels : list PriceLevel)
    : outcome (string * string) bool :=
  match levels with
  | [] => Done true
  | level :: levels' =>
      if dec_gt (price level) dec_ZERO && dec_lt (price level) dec_ONE then
        on_tick ← dec_multiple (price level) step;
        if on_tick && dec_gt (size level) dec_ZERO then valid_levels step levels' else Done false
      else Done false
  end.

Definition crossed_book (book : OrderBook) : bool :=
  match best_bid book, best_ask book with
  | Some bid, Some ask => dec_ge bid ask
  | _, _ => false
  end.
Definition blank_hash (book : OrderBook) : bool :=
  match ob_hash book with Some hash => trim_is_empty hash | None => false end.

(** [!valid_levels(bids) || !valid_levels(asks) || crossed || blank hash]. *)
Definition valid_book (step : Decimal) (book : OrderBook) : outcome (string * string) bool :=
  bids_ok ← valid_levels step (bids book);
  if negb bids_ok then Done false
  else
    asks_ok ← valid_levels step (asks book);
    Done (asks_ok && negb (crossed_book book) && negb (blank_hash book)).

Definition valid_market_rules (request : OrderIntentRequest) (market : MarketRules) : bool :=
  negb (negb (mr_condition_id market ≟ req_condition_id request) ||
        negb (mr_token_id market ≟ req_token_id request) ||
        dec_le (tick_size market) dec_ZERO || dec_ge (tick_size market) dec_ONE ||
        dec_le (minimum_order_size market) dec_ZERO ||
        dec_lt (maker_fee_rate market) dec_ZERO || dec_gt (maker_fee_rate market) dec_ONE ||
        dec_lt (taker_fee_rate market) dec_ZERO || dec_gt (taker_fee_rate market) dec_ONE).

(** The number of shares an order asks for: an immediate buy names the quote. *)
Definition requested_shares (request : OrderIntentRequest) (quantity p : Decimal)
    : outcome (string * string) Decimal :=
  if (req_side request ≟ Buy) &&
     ((req_time_in_force request ≟ Fok) || (req_time_in_force request ≟ Fak))
  then or_panic (dec_div quantity p)
  else Done quantity.

Definition validate_freshness_and_increments (now : DateTime) (request : OrderIntentRequest)
    (market : MarketRules) (book : OrderBook) : outcome (string * string) () :=
  reject_if (negb (valid_market_rules request market))
    ("MARKET_RULES_INVALID",
     "venue market rules contain invalid identifiers, increments, or fees");;
  reject_if (now + seconds 5 <? mr_observed_at market)
    ("MARKET_METADATA_INVALID_TIME", "market metadata timestamp is in the future");;
  let market_age := age_seconds now (mr_observed_at market) in
  reject_if (max_market_metadata_age_seconds policy <? market_age)
    ("MARKET_METADATA_STALE",
     "market metadata is " +:+ nat_to_string (Z.to_N market_age) +:+ "s old");;
  reject_if (now + seconds 5 <? ob_observed_at book)
    ("ORDER_BOOK_INVALID_TIME", "order book timestamp is in the future");;
  let book_age := age_seconds now (ob_observed_at book) in
  reject_if (max_order_book_age_seconds policy <? book_age)
    ("ORDER_BOOK_STALE", "order book is " +:+ nat_to_string (Z.to_N book_age) +:+ "s old");;
  book_ok ← valid_book (tick_size market) book;
  reject_if (negb book_ok)
    ("ORDER_BOOK_INVALID", "order book failed structural consistency checks");;
  p ← map_err (λ e, ("ORDER_INVALID_PRICE", DomainError_to_string e)) (protection_price request);
  on_tick ← dec_multiple p (tick_size market);
  reject_if (negb on_tick)
    ("ORDER_INVALID_TICK", "price must be a multiple of " +:+ dec_to_string (tick_size market));;
  quantity ← map_err (λ e, ("ORDER_INVALID_QUANTITY", DomainError_to_string e))
    (quantity_decimal request);
  shares ← requested_shares request quantity p;
  reject_if (dec_lt shares (minimum_order_size market))
    ("ORDER_BELOW_MINIMUM_SIZE", "share quantity " +:+ dec_to_string shares +:+ " is below " +:+
     dec_to_string (minimum_order_size market)).
End freshness.

(** ** The world of the coordinator *)

(** A call that reaches the venue's matching: the order it is about. *)
Inductive VenueCall : Type :=
| CallSubmit (order_id : Uuid)
| CallCancel (venue_order_id : string).

(** The database and the venue, which is anything with the functions of
    [ExecutionVenue]; the coordinator's fields; the reasons of the protective
    cancellations that are spawned and have not run; the calls made so far; and
    the number of [await]s passed. *)
Record World (V : Type) : Type := mkWorld {
  w_sys : Sys;
  w_venue : V;
  w_queue : list Uuid;
  w_deferred_recovery : list Uuid;
  w_last_healthy_heartbeat : option Z;
  w_spawned : list string;
  w_stopped : bool;
  w_calls : list VenueCall;
  w_time : nat;
}.
Arguments mkWorld {V}.
Arguments w_sys {V}.
Arguments w_venue {V}.
Arguments w_queue {V}.
Arguments w_deferred_recovery {V}.
Arguments w_last_healthy_heartbeat {V}.
Arguments w_spawned {V}.
Arguments w_stopped {V}.
Arguments w_calls {V}.
Arguments w_time {V}.
#[export] Instance World_eta V : Eta (World V) := λ w,
  mkWorld (w_sys w) (w_venue w) (w_queue w) (w_deferred_recovery w)
    (w_last_healthy_heartbeat w) (w_spawned w) (w_stopped w) (w_calls w) (w_time w).

(** What happens at the [n]-th [await], whoever the other tasks are. *)
Class Schedule (V : Type) : Type := {
  (** the process stops *)
  stops : nat → bool;
  (** the other tasks run *)
  others : nat → Sys * V → Sys * V;
  (** the call of the venue does not end within the given time: what was done of it *)
  deadline : nat → Z → option (Sys * V → Sys * V);
  (** [Utc::now] and [Instant::now] *)
  wall_clock : nat → DateTime;
  instant_clock : nat → Z;
}.

Record ExecutionCoordinator : Type := mkExecutionCoordinator {
  store : Store;
  policy : RiskPolicy;
}.

Definition set_world {V} (sv : Sys * V) (w : World V) : World V :=
  w <| w_sys := sv.1 |> <| w_venue := sv.2 |>.

Section coordinator.
Context `{DecimalOps} `{Platform} `{Codec}.
Context {V : Type} `{Venue : !ExecutionVenue (Sys * V)} `{Sched : !Schedule V}.
Variable self : ExecutionCoordinator.
Notation Coord := (Prog (World V) CoordinatorError).
Notation st := (store self).

Definition await : Coord () := λ w,
  if stops (w_time w) then (Panicked, w)
  else (Done tt, set_world (others (w_time w) (w_sys w, w_venue w)) w <| w_time := S (w_time w) |>).

Definition run_store {A} (m : Prog Sys StoreError A) : Coord A := λ w,
  let '(r, s) := m (w_sys w) in (map_err CoordinatorError.Store r, w <| w_sys := s |>).
(** [self.store.m().await?]. *)
Definition call_store {A} (m : Prog Sys StoreError A) : Coord A := await;; run_store m.

Definition run_venue {A} (limit : Z) (m : Prog (Sys * V) VenueError A)
    : Coord (option (VenueError + A)) := λ w,
  match deadline (w_time w) limit with
  | Some cut => (Done None, set_world (cut (w_sys w, w_venue w)) w)
  | None =>
      let '(r, sv) := m (w_sys w, w_venue w) in
      (match r with
       | Done a => Done (Some (inr a))
       | Failed e => Done (Some (inl e))
       | Panicked => Panicked
       end, set_world sv w)
  end.
(** [timeout(limit, self.venue.m()).await]: [None] when the time is up. *)
Definition call_venue {A} (limit : Z) (m : Prog (Sys * V) VenueError A)
    : Coord (option (VenueError + A)) := await;; run_venue limit m.

Definition note_call (c : VenueCall) : Coord () :=
  modify (λ w, w <| w_calls := w_calls w ++ [c] |>).

Definition now_utc : Coord DateTime := gets (λ w, wall_clock (w_time w)).
Definition now_instant : Coord Z := gets (λ w, instant_clock (w_time w)).

(** ** The queue *)

(** [try_send] of the bounded channel. *)
Definition enqueue (intent_id : Uuid) : Coord () := λ w,
  if (length (w_queue w) <? queue_capacity)%nat
  then (Done tt, w <| w_queue := w_queue w ++ [intent_id] |>)
  else (Failed CoordinatorError.QueueFull, w).

(** [send().await]: the state after the channel has taken the value. *)
Definition send (intent_id : Uuid) : Coord () :=
  modify (λ w, w <| w_queue := w_queue w ++ [intent_id] |>).

Definition enqueue_recovered (intent_id : Uuid) : Coord () :=
  intent ← call_store (get_intent intent_id);
  let state := int_state intent in
  if negb ((state ≟ IntentState.Received) || (state ≟ IntentState.Prepared)) then mret tt
  else send intent_id.

Definition defer_recovery (intent_id : Uuid) : Coord () :=
  modify (λ w,
    if existsb (λ id, id ≟ intent_id) (w_deferred_recovery w) then w
    else w <| w_deferred_recovery := w_deferred_recovery w ++ [intent_id] |>).

(** [std::mem::take(&mut *deferred_recovery.lock().await)]. *)
Definition take_deferred_recovery : Coord (list Uuid) := λ w,
  (Done (w_deferred_recovery w), w <| w_deferred_recovery := [] |>).

(** ** Cancellation *)

Definition all_open (reason : string) : CancellationRequest :=
  mkCancellationRequest None None None true reason.

Definition spawn_protective_cancellation (reason : string) : Coord () :=
  if negb (cancel_on_halt (policy self)) then mret tt
  else modify (λ w, w <| w_spawned := w_spawned w ++ [reason] |>).

Definition set_halted (reason : string) : Coord () :=
  call_store (set_service_state st "system" Halted reason).

Definition or_elapsed {A} (e : VenueError) (r : option (VenueError + A)) : VenueError + A :=
  default (inl e) r.

(** [find_venue_order]: the error of the venue passes through [?]. *)
Definition find_venue_order (deterministic_order_id : string)
    : Coord (option ObservedVenueOrder) :=
  r ← call_venue VENUE_CALL_TIMEOUT (find_order deterministic_order_id);
  match r with
  | Some (inr found) => mret found
  | Some (inl e) => fail (CoordinatorError.Venue e)
  | None => fail (CoordinatorError.Invalid
      ("venue order lookup timed out for " +:+ deterministic_order_id))
  end.

(** ** Reconciliation *)

(** One order the venue shows and the journal does not know: the findings. *)
Definition protect_unexpected (venue_order_id : string) : Coord (list string) :=
  let unexpected := "unexpected venue order " +:+ venue_order_id +:+
    " has no local journal record" in
  if cancel_on_halt (policy self) then
    note_call (CallCancel venue_order_id);;
    cancellation ← call_venue VENUE_CALL_TIMEOUT (cancel venue_order_id);
    mret match cancellation with
    | Some (inr _) => [unexpected]
    | Some (inl e) => [unexpected; "protective cancellation of unexpected venue order " +:+
        venue_order_id +:+ " failed: " +:+ VenueError.to_string e]
    | None => [unexpected; "protective cancellation of unexpected venue order " +:+
        venue_order_id +:+ " timed out"]
    end
  else mret [unexpected].

(** One order of the journal that is open: its row follows the venue. *)
Definition project_local (observed_by_id : gmap string ObservedVenueOrder)
    (local : OrderRecord) : Coord (list string) :=
  venue_order_id ← lift (or_panic (venue_order_id local));
  observed ← match observed_by_id !! venue_order_id with
    | Some observed => mret (Some observed)
    | None => find_venue_order venue_order_id
    end;
  match observed with
  | Some observed =>
      if obs_state observed ≟ OrderState.Unknown then
        mret ["venue order " +:+ venue_order_id +:+ " has an unrecognized state"]
      else
        call_store (reconcile_order_projection st (ord_id local) (obs_state observed)
          (obs_remaining_quantity observed) (obs_filled_quantity observed)
          (obs_filled_price observed) (obs_venue_trade_ids observed) (obs_evidence observed));;
        mret []
  | None =>
      mret ["local open order " +:+ uuid_to_string (ord_id local) +:+ " (" +:+ venue_order_id +:+
        ") is missing at venue"]
  end.

(** One order whose submission has an unknown outcome. *)
Definition resolve_unknown (unknown : UnknownSubmission) : Coord (list string) :=
  let unresolved := "unresolved ambiguous order " +:+ uuid_to_string (us_order_id unknown) +:+
    " (" +:+ us_deterministic_order_id unknown +:+ ")" in
  found ← find_venue_order (us_deterministic_order_id unknown);
  match found with
  | Some observed =>
      if obs_state observed ≟ OrderState.Unknown then mret [unresolved]
      else
        call_store (resolve_unknown_submission st unknown (obs_venue_order_id observed)
          (obs_state observed) (obs_remaining_quantity observed) (obs_filled_quantity observed)
          (obs_filled_price observed) (obs_venue_trade_ids observed) (obs_evidence observed));;
        mret []
  | None => mret [unresolved]
  end.

(** One trade of the venue. *)
Definition settle_trade (observed_trade : ObservedVenueTrade) : Coord (list string) :=
  let trade := "venue trade " +:+ obt_venue_trade_id observed_trade in
  order_ids ← call_store (order_ids_for_venue_ids (obt_venue_order_ids observed_trade));
  match order_ids with
  | [order_id] =>
      linked ← call_store (record_venue_trade_finality st order_id
        (obt_venue_trade_id observed_trade) (obt_status observed_trade)
        (obt_evidence observed_trade));
      mret (if linked : bool then [] else [trade +:+ " is not linked to a local matched fill"])
  | [] => mret [trade +:+ " has no local order"]
  | _ => mret [trade +:+ " maps to multiple local orders"]
  end.

Definition add_findings (findings : list string) (r : ReconciliationResult)
    : ReconciliationResult :=
  mkReconciliationResult (orders_observed r) (trades_observed r) (observed_orders r)
    (observed_trades r) (observed_positions r) (critical_findings r ++ findings).

(** What a report of the venue does to the journal: the report with the findings. *)
Definition apply_report (result : ReconciliationResult) : Coord ReconciliationResult :=
  '(active_local_orders, known_venue_order_ids) ← call_store reconciliation_orders;
  let unexpected_order_ids := obs_venue_order_id <$> List.filter (λ observed,
    bool_decide (obs_venue_order_id observed ∉ known_venue_order_ids))
    (observed_orders result) in
  unexpected ← for_collect unexpected_order_ids protect_unexpected;
  let observed_by_id : gmap string ObservedVenueOrder :=
    list_to_map (reverse ((λ o, (obs_venue_order_id o, o)) <$> observed_orders result)) in
  missing ← for_collect active_local_orders (project_local observed_by_id);
  unknown_submissions ← call_store unknown_submissions;
  unresolved ← for_collect unknown_submissions resolve_unknown;
  unlinked ← for_collect (observed_trades result) settle_trade;
  let positions := (λ p, (obp_condition_id p, obp_token_id p, obp_shares p)) <$>
    observed_positions result in
  call_store (reconcile_venue_positions st positions);;
  mret (add_findings (concat (unexpected ++ missing ++ unresolved ++ unlinked)) result).

Definition reconcile_started_inner (id : Uuid) : Coord Uuid :=
  reconciliation ← call_venue RECONCILIATION_TIMEOUT venue_reconcile;
  match or_elapsed (VenueError.Unavailable "reconciliation deadline exceeded") reconciliation with
  | inr result =>
      result ← apply_report result;
      call_store (finish_reconciliation st id (to_value result));;
      call_store (prune_events st);;
      (if critical_findings result ≟ [] then mret tt
       else
         set_halted "critical reconciliation finding";;
         spawn_protective_cancellation "critical reconciliation finding");;
      mret id
  | inl error =>
      call_store (fail_reconciliation st id (VenueError.to_string error));;
      set_halted "reconciliation failed";;
      spawn_protective_cancellation "reconciliation failed";;
      fail (CoordinatorError.Venue error)
  end.

(** The result of a call that the caller handles itself. *)
Definition attempt {A} (m : Coord A) : Coord (CoordinatorError + A) := try m.

(** An error on the way closes the run and halts the service. *)
Definition close_unsafe_run (id : Uuid) (error : CoordinatorError) : Coord () :=
  record ← attempt (call_store (get_reconciliation id));
  (match record with
   | inr record =>
       if rr_state record ≟ "RUNNING" then
         attempt (call_store (fail_reconciliation st id (CoordinatorError_to_string error)));;
         mret tt
       else mret tt
   | inl _ => mret tt
   end);;
  state ← attempt (call_store service_state);
  match state with
  | inr (Halted, _, _) => mret tt
  | inr _ =>
      halted ← attempt (set_halted "reconciliation processing failed");
      match halted with
      | inr _ => spawn_protective_cancellation "reconciliation processing failed"
      | inl _ => mret tt
      end
  | inl _ => mret tt
  end.

Definition reconcile_started (id : Uuid) : Coord Uuid :=
  result ← attempt (reconcile_started_inner id);
  match result with
  | inr id => mret id
  | inl error => close_unsafe_run id error;; fail error
  end.

Definition reconcile_inner (trigger : string) : Coord Uuid :=
  id ← call_store (start_reconciliation st trigger);
  reconcile_started id.
Definition reconcile := reconcile_inner.
Definition admit_reconciliation (actor idempotency_key trigger : string) : Coord Uuid :=
  call_store (start_reconciliation_idempotent st actor idempotency_key trigger (JObject [])).

(** [let _ = self.reconcile_inner(..).await]. *)
Definition reconcile_ignored (trigger : string) : Coord () :=
  attempt (reconcile_inner trigger);; mret tt.

(** ** Cancellation and halting *)

(** The venue is asked to cancel; what it answers is the next state. *)
Definition cancel_at_venue (order_id : Uuid) (venue_order_id : string) : Coord (list Uuid) :=
  note_call (CallCancel venue_order_id);;
  cancellation ← call_venue VENUE_CALL_TIMEOUT (cancel venue_order_id);
  match or_elapsed (VenueError.Ambiguous "cancellation deadline exceeded") cancellation with
  | inr cancellation =>
      call_store (transition_order st order_id (vc_state cancellation) None
        (vc_evidence cancellation));;
      mret []
  | inl _ =>
      reconcile_ignored "cancellation_failure";;
      mret [order_id]
  end.

(** One target: the order when it could not be cancelled. *)
Definition cancel_target (cancellation_id order_id : Uuid) : Coord (list Uuid) :=
  order ← call_store (get_order order_id);
  if is_terminal (ord_state order) then mret []
  else if (ord_state order ≟ OrderState.Prepared) && (venue_order_id order ≟ None) then
    call_store (cancel_prepared_order st order_id
      (json_obj ["cancellation_id" ::= uuid_to_string cancellation_id;
                 "reason" ::= "cancelled_before_venue_submission"]));;
    mret []
  else
    closed ← (if ord_state order ≟ OrderState.Unknown then mret false
      else
        pending ← call_store (transition_order st order_id OrderState.CancelPending None
          (json_obj ["cancellation_id" ::= uuid_to_string cancellation_id]));
        mret (is_terminal (ord_state pending)));
    if closed : bool then mret []
    else match venue_order_id order with
    | Some venue_order_id => cancel_at_venue order_id venue_order_id
    | None =>
        reconcile_ignored "cancellation_missing_venue_id";;
        mret [order_id]
    end.

Definition execute_cancellation (cancellation_id : Uuid) (targets : list Uuid) : Coord () :=
  failed_order_ids ← for_collect targets (cancel_target cancellation_id);
  call_store (finish_cancellation st cancellation_id (concat failed_order_ids));;
  mret tt.

Definition check_cancellation (request : CancellationRequest) : Coord () :=
  lift (map_err (λ e, CoordinatorError.Invalid (DomainError_to_string e))
    (CancellationRequest_validate request)).
Definition cancel_inner (actor : string) (request : CancellationRequest)
    : Coord (Uuid * list Uuid) :=
  check_cancellation request;;
  '(cancellation_id, targets) ← call_store (create_cancellation st actor request);
  execute_cancellation cancellation_id targets;;
  mret (cancellation_id, targets).
Definition coordinator_cancel := cancel_inner.
Definition admit_cancellation (actor idempotency_key : string) (request : CancellationRequest)
    : Coord (Uuid * list Uuid) :=
  check_cancellation request;;
  call_store (create_cancellation_idempotent st actor idempotency_key request).

Definition cancel_on_halt_inner (reason : string) : Coord () :=
  if cancel_on_halt (policy self) then
    attempt (cancel_inner "system" (all_open ("automatic_cancel_on_halt:" +:+ reason)));;
    mret tt
  else mret tt.

(** The task that [spawn_protective_cancellation] spawns. *)
Definition protective_cancellation (reason : string) : Coord () :=
  attempt (coordinator_cancel "system" (all_open ("automatic_cancel_on_halt:" +:+ reason)));;
  mret tt.

Definition need_reason (reason : string) : Coord () :=
  ensure (negb (trim_is_empty reason)) (CoordinatorError.Invalid "reason is required").

Definition halt_inner (actor reason : string) : Coord () :=
  need_reason reason;;
  call_store (set_service_state st actor Halted reason);;
  cancel_on_halt_inner reason.
Definition halt := halt_inner.

Definition halt_idempotent (actor idempotency_key reason : string) : Coord () :=
  need_reason reason;;
  call_store (set_service_state_idempotent st actor Halted reason idempotency_key "control.halt"
    (json_obj ["reason" ::= reason])
    (json_obj ["state" ::= "HALTED"; "mode" ::= Mode_to_string (st_mode st)]));;
  spawn_protective_cancellation reason.

Definition halt_for_venue_error (error : VenueError) (reconciliation_trigger : string)
    : Coord () :=
  if VenueError.requires_halt error then
    halt_inner "system" (VenueError.to_string error);;
    reconcile_ignored reconciliation_trigger
  else mret tt.

(** ** Health *)

Definition supervised_heartbeat : Coord () :=
  r ← call_venue VENUE_CALL_TIMEOUT heartbeat;
  match r with
  | Some (inr _) =>
      now ← now_instant;
      modify (λ w, w <| w_last_healthy_heartbeat := Some now |>)
  | Some (inl e) => fail (CoordinatorError.Venue e)
  | None => fail (CoordinatorError.Invalid "venue heartbeat deadline exceeded")
  end.

(** [observed_at.elapsed() > from_secs(..)]: an elapsed time is not negative. *)
Definition heartbeat_stale (now : Z) (observed_at : option Z) : bool :=
  match observed_at with
  | None => true
  | Some t => seconds (max_user_stream_age_seconds (policy self)) <? Z.max 0 (now - t)
  end.

(** No reconciliation has completed, or the last one is too old. *)
Definition reconciliation_stale : Coord bool :=
  completed_at ← call_store latest_successful_reconciliation;
  match completed_at with
  | None => mret true
  | Some t =>
      now ← now_utc;
      mret (max_reconciliation_age_seconds (policy self) <? age_seconds now t)
  end.

Definition execution_health_failure : Coord (option string) :=
  stale ← reconciliation_stale;
  if stale : bool then mret (Some "latest successful reconciliation is missing or stale")
  else if requires_heartbeat then
    last ← gets w_last_healthy_heartbeat;
    now ← now_instant;
    mret (if heartbeat_stale now last then Some "venue heartbeat is missing or stale" else None)
  else mret None.

(** ** Intents *)

Definition intent_request (intent : IntentRecord) : Coord OrderIntentRequest :=
  lift (ok_or CoordinatorError.Json (request_from_json (int_request_json intent))).

Definition reject_received (intent_id : Uuid) (code message : string) : Coord () :=
  call_store (transition_intent st intent_id IntentState.Received IntentState.Rejected
    (Some (code, message)));;
  mret tt.

Definition reject_validating (intent_id : Uuid) (code message : string) : Coord () :=
  call_store (record_risk_decision st intent_id false code (json_obj ["error" ::= message])
    (version (policy self)));;
  call_store (transition_intent st intent_id IntentState.Validating IntentState.Rejected
    (Some (code, message)));;
  mret tt.

(** The venue accepted the order, or closed it. *)
Definition accept_submission (intent_id order_id : Uuid) (submission : VenueSubmission)
    : Coord () :=
  call_store (finish_submission st intent_id order_id IntentState.Submitted
    (sub_state submission) (Some (sub_venue_order_id submission)) "VENUE_RESPONSE"
    (sub_filled_quantity submission) (sub_filled_price submission)
    (sub_venue_trade_ids submission) (sub_evidence submission)).

(** The venue may or may not have the order. *)
Definition doubt_submission (intent_id order_id : Uuid) (prepared : PreparedVenueOrder)
    (error : VenueError) : Coord () :=
  call_store (finish_submission st intent_id order_id IntentState.Unknown OrderState.Unknown
    (Some (deterministic_order_id prepared)) "AMBIGUOUS" dec_ZERO None []
    (json_obj ["error" ::= VenueError.to_string error]));;
  halt_inner "system" "ambiguous venue submission";;
  reconcile_ignored "ambiguous_submission".

(** The venue refused the order. *)
Definition refuse_submission (intent_id order_id : Uuid) (error : VenueError) : Coord () :=
  call_store (finish_submission st intent_id order_id IntentState.Submitted OrderState.Rejected
    None "DEFINITIVE_REJECTION" dec_ZERO None []
    (json_obj ["error" ::= VenueError.to_string error]));;
  if VenueError.requires_halt error then
    halt_inner "system" (VenueError.to_string error);;
    reconcile_ignored "venue_safety_halt"
  else mret tt.

Definition submit_to_venue (intent_id order_id : Uuid) (prepared : PreparedVenueOrder)
    (request : OrderIntentRequest) : Coord () :=
  note_call (CallSubmit order_id);;
  submission ← call_venue SUBMISSION_CALL_TIMEOUT (submit prepared request);
  match or_elapsed (VenueError.Ambiguous
          "submission deadline exceeded after SUBMITTING commit") submission with
  | inr submission => accept_submission intent_id order_id submission
  | inl error =>
      if VenueError.is_ambiguous error then doubt_submission intent_id order_id prepared error
      else refuse_submission intent_id order_id error
  end.

Definition submit_prepared (intent_id order_id : Uuid) (prepared : PreparedVenueOrder)
    (request : OrderIntentRequest) : Coord () :=
  '(state, _, _) ← call_store service_state;
  if negb (state ≟ Ready) then
    intent ← call_store (get_intent intent_id);
    if int_state intent ≟ IntentState.Prepared then defer_recovery intent_id else mret tt
  else
    begun ← attempt (call_store (begin_submission st intent_id order_id));
    match begun with
    | inr _ => submit_to_venue intent_id order_id prepared request
    | inl (CoordinatorError.Store (NewRiskDisabled _)) => defer_recovery intent_id
    | inl error => fail error
    end.

(** The order of a PREPARED intent is submitted from its row. *)
Definition resume_prepared (intent_id : Uuid) (intent : IntentRecord) : Coord () :=
  persisted ← call_store (prepared_submission intent_id);
  request ← intent_request intent;
  submit_prepared intent_id (ps_order_id persisted)
    (mkPreparedVenueOrder (ps_deterministic_order_id persisted) (ps_normalized_json persisted)
      (ps_signed_payload_json persisted) (ps_signer_address persisted)
      (ps_funder_address persisted) (ps_protocol_version persisted) (ps_sdk_version persisted))
    request.

(** The venue's answer to a read, or the rejection of the intent. *)
Definition ask_venue {A} (m : Prog (Sys * V) VenueError A)
    (refuse : VenueError → Coord ()) (elapsed : Coord ()) (k : A → Coord ()) : Coord () :=
  r ← call_venue VENUE_CALL_TIMEOUT m;
  match r with
  | Some (inr a) => k a
  | Some (inl e) => refuse e
  | None => elapsed
  end.

(** From VALIDATING on: the market, the book, the risk policy, the order. *)
Definition place_order (intent_id : Uuid) (intent : IntentRecord) (request : OrderIntentRequest)
    (market : MarketRules) (book : OrderBook) : Coord () :=
  decision ← call_store (evaluate_and_reserve_risk st intent_id request market book (policy self));
  if negb (approved decision) then mret tt
  else
    call_store (transition_intent st intent_id IntentState.Approved IntentState.Preparing None);;
    ask_venue (prepare intent_id request)
      (λ error,
        call_store (reject_preparation st intent_id "ORDER_PREPARATION_FAILED"
          (VenueError.to_string error));;
        halt_for_venue_error error "order_preparation_safety_halt")
      (call_store (reject_preparation st intent_id "ORDER_PREPARATION_TIMEOUT"
         "order preparation deadline exceeded"))
      (λ prepared,
        order ← call_store (create_prepared_order st intent request (normalized_json prepared)
          (deterministic_order_id prepared) (signed_payload_json prepared)
          (signer_address prepared) (funder_address prepared) (protocol_version prepared)
          (sdk_version prepared) (version (policy self))
          (dec_max (maker_fee_rate market) (taker_fee_rate market)));
        submit_prepared intent_id (ord_id order) prepared request).

Definition check_and_place (intent_id : Uuid) (intent : IntentRecord)
    (request : OrderIntentRequest) (market : MarketRules) (book : OrderBook) : Coord () :=
  now ← now_utc;
  match validate_freshness_and_increments (policy self) now request market book with
  | Done _ => place_order intent_id intent request market book
  | Failed (code, message) => reject_validating intent_id code message
  | Panicked => lift Panicked
  end.

Definition validate_and_place (intent_id : Uuid) (intent : IntentRecord)
    (request : OrderIntentRequest) : Coord () :=
  now ← now_utc;
  match validate request now with
  | Failed error =>
      call_store (record_risk_decision st intent_id false "ORDER_INVALID"
        (json_obj ["error" ::= DomainError_to_string error]) (version (policy self)));;
      call_store (transition_intent st intent_id IntentState.Validating IntentState.Rejected
        (Some ("ORDER_INVALID", DomainError_to_string error)));;
      mret tt
  | Panicked => lift Panicked
  | Done _ =>
      ask_venue (market_rules (req_condition_id request) (req_token_id request))
        (λ error,
          reject_validating intent_id "MARKET_VALIDATION_FAILED" (VenueError.to_string error);;
          halt_for_venue_error error "market_validation_safety_halt")
        (reject_validating intent_id "MARKET_VALIDATION_TIMEOUT"
           "market validation deadline exceeded")
        (λ market,
          ask_venue (order_book (req_token_id request))
            (λ error,
              reject_validating intent_id "ORDER_BOOK_UNAVAILABLE" (VenueError.to_string error);;
              halt_for_venue_error error "order_book_safety_halt")
            (reject_validating intent_id "ORDER_BOOK_TIMEOUT" "order book deadline exceeded")
            (λ book, check_and_place intent_id intent request market book))
  end.

Definition process_ready (intent_id : Uuid) : Coord () :=
  intent ← call_store (get_intent intent_id);
  if int_state intent ≟ IntentState.Prepared then resume_prepared intent_id intent
  else if negb (int_state intent ≟ IntentState.Received) then
    fail (CoordinatorError.Invalid ("intent " +:+ uuid_to_string intent_id +:+
      " is not recoverable from state " +:+ IntentState_debug (int_state intent)))
  else
    request ← intent_request intent;
    call_store (transition_intent st intent_id IntentState.Received IntentState.Validating None);;
    validate_and_place intent_id intent request.

Definition process_intent_inner (intent_id : Uuid) : Coord () :=
  required ← gets (λ w, reconciliation_required (w_sys w, w_venue w));
  (if required : bool then reconcile_ignored "pre_intent_user_stream_event" else mret tt);;
  unhealthy ← execution_health_failure;
  match unhealthy with
  | Some reason =>
      halt_inner "system" reason;;
      reject_received intent_id "EXECUTION_HEALTH_STALE" reason
  | None =>
      '(state, _, _) ← call_store service_state;
      if negb (state ≟ Ready) then
        reject_received intent_id "SERVICE_NOT_READY" "service is not ready for new risk"
      else process_ready intent_id
  end.
Definition process_intent := process_intent_inner.

(** ** Resuming, starting and stopping *)

(** The service is HALTED, the venue agrees with the journal and answers, and
    nothing critical is open: the revision of the control row before the checks. *)
Definition resume_checks (reason : string) : Coord Z :=
  need_reason reason;;
  '(initial_state, _, _, initial_revision) ← call_store service_state_with_revision;
  ensure (initial_state ≟ Halted)
    (CoordinatorError.Invalid "resume requires the service to be halted");;
  reconcile_inner "pre_resume";;
  supervised_heartbeat;;
  findings ← call_store unresolved_critical_findings;
  ensure (negb (0 <? findings)%nat)
    (CoordinatorError.Invalid "unresolved critical reconciliation finding prevents resume");;
  mret initial_revision.

Definition requeue_deferred : Coord () :=
  recoverable ← take_deferred_recovery;
  for_each recoverable enqueue_recovered.

Definition resume (actor reason : string) : Coord () :=
  initial_revision ← resume_checks reason;
  call_store (set_service_state_if_unchanged st actor Ready reason initial_revision);;
  requeue_deferred.

Definition resume_idempotent (actor idempotency_key reason : string) : Coord () :=
  initial_revision ← resume_checks reason;
  call_store (set_service_state_idempotent_if_unchanged st actor Ready reason idempotency_key
    "control.resume" (json_obj ["reason" ::= reason])
    (json_obj ["state" ::= "READY"; "mode" ::= Mode_to_string (st_mode st)]) initial_revision);;
  requeue_deferred.

(** The state the service starts from: a shutdown that did not end is a halt. *)
Definition startup_state : Coord ServiceState :=
  '(prior_state, _, _) ← call_store service_state;
  prior_state ← (if prior_state ≟ ShuttingDown then
      set_halted "previous shutdown did not reach its durable completion marker";;
      mret Halted
    else mret prior_state);
  (if negb (prior_state ≟ Halted)
   then call_store (set_service_state st "system" Reconciling "startup reconciliation")
   else mret tt);;
  mret prior_state.

(** What the last process left behind: the intents to take up again. *)
Definition startup_recovery : Coord (list Uuid) :=
  call_store (fail_interrupted_reconciliations st);;
  call_store (fail_interrupted_backups st);;
  interrupted ← call_store (recover_interrupted_submissions st);
  (if (0 <? interrupted)%nat
   then set_halted "interrupted submission requires positive venue reconciliation"
   else mret tt);;
  recoverable ← call_store (recover_pre_submission_work st);
  cancellations ← call_store pending_cancellations;
  for_each cancellations (λ cancellation,
    targets ← lift (ok_or CoordinatorError.Json
      (uuids_from_json (cn_target_order_ids_json cancellation)));
    execute_cancellation (cn_id cancellation) targets);;
  mret recoverable.

Definition startup_checks (prior_state : ServiceState) : Coord () :=
  (if (prior_state ≟ Halted) && cancel_on_halt (policy self)
   then cancel_inner "system" (all_open "startup_recovery_for_latched_halt");; mret tt
   else mret tt);;
  reconcile_inner "startup";;
  if requires_heartbeat then
    alive ← attempt supervised_heartbeat;
    match alive with
    | inr _ => mret tt
    | inl _ => halt_inner "system" "startup heartbeat failed"
    end
  else mret tt.

Definition startup : Coord () :=
  prior_state ← startup_state;
  recoverable ← startup_recovery;
  startup_checks prior_state;;
  '(state, _, _) ← call_store service_state;
  if state ≟ Halted then modify (λ w, w <| w_deferred_recovery := recoverable |>)
  else
    call_store (set_service_state st "system" Ready "startup checks passed");;
    for_each recoverable enqueue_recovered.

Definition shutdown (cancel : bool) : Coord () :=
  call_store (set_service_state st "system" ShuttingDown "signal received");;
  (if cancel then coordinator_cancel "system" (all_open "graceful_shutdown");; mret tt
   else mret tt);;
  reconcile "shutdown";;
  set_halted "graceful shutdown completed; explicit resume is required";;
  call_store checkpoint;;
  modify (λ w, w <| w_stopped := true |>).

(** ** The tasks *)

(** The worker takes one intent from the queue; an error is only logged. *)
Definition worker_turn : Coord () := λ w,
  match w_queue w with
  | [] => (Done tt, w)
  | intent_id :: rest =>
      (attempt (process_intent intent_id);; mret tt) (w <| w_queue := rest |>)
  end.

Definition reconciliation_turn : Coord () :=
  attempt (reconcile "scheduled");; mret tt.

Definition heartbeat_lost (reason trigger : string) : Coord () :=
  attempt (halt "system" reason);;
  attempt (reconcile trigger);;
  mret tt.
Definition heartbeat_turn (heartbeat_interval : Z) : Coord () :=
  r ← call_venue heartbeat_interval heartbeat;
  match r with
  | Some (inr _) =>
      now ← now_instant;
      modify (λ w, w <| w_last_healthy_heartbeat := Some now |>);;
      required ← gets (λ w, reconciliation_required (w_sys w, w_venue w));
      if required : bool then attempt (reconcile "user_stream_event");; mret tt else mret tt
  | Some (inl _) => heartbeat_lost "venue heartbeat failed" "heartbeat_failure"
  | None => heartbeat_lost "venue heartbeat deadline exceeded" "heartbeat_timeout"
  end.
End coordinator.
