(* ===== verification/ApiCore.v ===== *)
(** * ApiCore: what the handlers of the HTTP API are made of (api.rs)

    Errors and responses, the admission rate, the idempotency key, strict JSON,
    the cursors and pages of the listings, and the event stream. *)
From Stdlib Require Import SpecFloat.
From S2P Require Import Prelude Text DecimalSpec Json Platform Domain Venue Risk Schema StoreIntents StoreRisk StoreOrders StoreControl Coordinator.

(** ** Errors *)

(** [status]: the number of the HTTP status code. *)
Record ApiError : Type := mkApiError {
  err_status : Z;
  err_code : string;
  err_message : string;
  err_retryable : bool;
  retry_after_seconds : option Z;
}.
Definition ApiError_new (status : Z) (code message : string) (retryable : bool) : ApiError :=
  mkApiError status code message retryable None.
Definition with_retry_after (self : ApiError) (seconds : Z) : ApiError :=
  mkApiError (err_status self) (err_code self) (err_message self) (err_retryable self)
    (Some seconds).
Definition ApiError_serialization (error : string) : ApiError :=
  ApiError_new 500 "INTERNAL_SERIALIZATION_ERROR" error false.

Definition ApiError_of_store `{Codec} (error : StoreError) : ApiError :=
  match error with
  | NotFound => ApiError_new 404 "RESOURCE_NOT_FOUND" (StoreError_to_string error) false
  | IdempotencyConflict =>
      ApiError_new 409 "IDEMPOTENCY_KEY_CONFLICT" (StoreError_to_string error) false
  | NewRiskDisabled _ => ApiError_new 503 "NEW_RISK_DISABLED" (StoreError_to_string error) true
  | _ => ApiError_new 500 "INTERNAL_STORAGE_ERROR" "storage operation failed" true
  end.
Definition ApiError_of_coordinator `{Codec} (error : CoordinatorError) : ApiError :=
  match error with
  | CoordinatorError.QueueFull => with_retry_after
      (ApiError_new 429 "EXECUTION_QUEUE_FULL" (CoordinatorError_to_string error) true) 1
  | CoordinatorError.Invalid _ =>
      ApiError_new 400 "REQUEST_INVALID" (CoordinatorError_to_string error) false
  | _ => ApiError_new 503 "EXECUTION_UNAVAILABLE" (CoordinatorError_to_string error) true
  end.

(** A response: the status, the Retry-After header, the body. *)
Record Response : Type := mkResponse {
  resp_status : Z;
  resp_retry_after : option string;
  resp_body : Value;
}.
Definition ApiError_into_response `{Platform} (correlation_id : Uuid) (self : ApiError) : Response :=
  mkResponse (err_status self)
    ((λ s, nat_to_string (Z.to_N s)) <$> retry_after_seconds self)
    (json_obj ["error" ::= json_obj ["code" ::= err_code self; "message" ::= err_message self;
      "retryable" ::= err_retryable self; "correlation_id" ::= uuid_to_string correlation_id;
      "details" ::= json_obj []]]).
Definition response (status : Z) (body : Value) : Response := mkResponse status None body.

(** ** The admission rate: a token bucket of [f64] numbers *)

Abbreviation f64 := spec_float.
Definition f64_add : f64 → f64 → f64 := SFadd 53 1024.
Definition f64_sub : f64 → f64 → f64 := SFsub 53 1024.
Definition f64_mul : f64 → f64 → f64 := SFmul 53 1024.
Definition f64_div : f64 → f64 → f64 := SFdiv 53 1024.
(** [n as f64]. *)
Definition f64_of_Z (n : Z) : f64 := binary_normalize 53 1024 n 0 false.
Definition f64_ge (a b : f64) : bool :=
  match SFcompare a b with Some Eq | Some Gt => true | _ => false end.
(** [f64::min]: a number when one of the two is not a number. *)
Definition f64_min (a b : f64) : f64 :=
  match SFcompare a b with
  | Some Gt => b
  | Some _ => a
  | None => match a with S754_nan => b | _ => a end
  end.
(** [Duration::as_secs_f64] of a number of nanoseconds. *)
Definition as_secs_f64 (nanos : Z) : f64 :=
  f64_add (f64_of_Z (nanos / 1000000000))
    (f64_div (f64_of_Z (nanos mod 1000000000)) (f64_of_Z 1000000000)).

Record TokenBucket : Type := mkTokenBucket {
  tokens : f64;
  rate : f64;
  capacity : f64;
  tb_last : Z;
}.
Definition TokenBucket_new (now : Z) (rate capacity : f64) : TokenBucket :=
  mkTokenBucket capacity rate capacity now.
(** [duration_since] is zero for an earlier instant. *)
Definition TokenBucket_take (now : Z) (self : TokenBucket) : bool * TokenBucket :=
  let refilled := f64_min
    (f64_add (tokens self) (f64_mul (as_secs_f64 (Z.max 0 (now - tb_last self))) (rate self)))
    (capacity self) in
  if f64_ge refilled (f64_of_Z 1)
  then (true, mkTokenBucket (f64_sub refilled (f64_of_Z 1)) (rate self) (capacity self) now)
  else (false, mkTokenBucket refilled (rate self) (capacity self) now).

(** ** Headers and bodies *)

Definition printable (b : N) : bool := is_ascii_graphic b || (b =? 32)%N.
(** [header]: the header's value, when it is text. *)
Definition idempotency_key (header : option string) : outcome ApiError string :=
  key ← ok_or (ApiError_new 400 "IDEMPOTENCY_KEY_REQUIRED" "Idempotency-Key header is required"
    false) header;
  reject_if (negb ((16 <=? string_length key)%nat && (string_length key <=? 128)%nat) ||
             negb (all_bytes printable key))
    (ApiError_new 400 "IDEMPOTENCY_KEY_INVALID"
      "Idempotency-Key must contain 16 to 128 printable ASCII characters" false);;
  mret key.
Definition validate_reason (reason : string) : outcome ApiError () :=
  reject_if (trim_is_empty reason || (512 <? string_length reason)%nat)
    (ApiError_new 400 "REASON_INVALID" "reason must contain 1 to 512 characters" false).

(** [UniqueJson]: the visitor fails at the first member whose name was seen in
    the same object. *)
Fixpoint unique_json (v : Value) : outcome string () :=
  match v with
  | JArray l =>
      (fix seq l := match l with [] => mret tt | x :: l' => unique_json x;; seq l' end) l
  | JObject members =>
      (fix map (keys : list string) (l : list (string * Value)) :=
         match l with
         | [] => mret tt
         | (key, x) :: l' =>
             reject_if (bool_decide (key ∈ keys)) ("duplicate JSON field `" +:+ key +:+ "`");;
             unique_json x;; map (key :: keys) l'
         end) [] members
  | _ => mret tt
  end.

(** What the body of a request can be: it could not be read, it is not JSON,
    or the parser's value with its members as written. *)
Inductive RequestBody : Type :=
| BodyUnreadable (status : Z)
| BodyNotJson (error : string)
| BodyJson (v : Value).
(** [StrictJson::from_request]; [decode] is the derived [Deserialize]. *)
Definition strict_json {A} (decode : Value → string + A) (body : RequestBody)
    : outcome ApiError A :=
  match body with
  | BodyUnreadable status => Failed (ApiError_new status
      (if status =? 413 then "REQUEST_BODY_TOO_LARGE" else "REQUEST_BODY_INVALID")
      "request body could not be read" false)
  | BodyNotJson e => Failed (ApiError_new 400 "REQUEST_JSON_INVALID" e false)
  | BodyJson v =>
      map_err (λ e, ApiError_new 400 "REQUEST_JSON_INVALID" e false) (unique_json v);;
      match decode v with
      | inr a => mret a
      | inl e => Failed (ApiError_new 422 "REQUEST_SCHEMA_INVALID" e false)
      end
  end.

(** ** Pages *)

Record ResourceCursor : Type := mkResourceCursor { rc_created_at : DateTime; rc_id : Uuid }.
(** The base64 crate, and [serde_json::from_slice] on a cursor. *)
Class CursorCodec : Type := {
  base64_encode : string → string;
  base64_decode : string → option string;
  cursor_from_json : string → option ResourceCursor;
}.
#[export] Instance ResourceCursor_value `{Platform} : ToValue ResourceCursor := λ c,
  json_obj ["created_at" ::= to_rfc3339 (rc_created_at c); "id" ::= uuid_to_string (rc_id c)].

Record ListPage (T : Type) : Type := mkListPage { items : list T; next_cursor : option string }.
Arguments mkListPage {T}.
Arguments items {T}.
Arguments next_cursor {T}.

Definition default_limit : Z := 100.
Definition invalid_limit (message : string) : ApiError :=
  ApiError_new 400 "PAGINATION_LIMIT_INVALID" message false.
Definition validate_limit (limit : Z) : outcome ApiError Z :=
  reject_if (negb ((1 <=? limit) && (limit <=? 500)))
    (invalid_limit "pagination limit must be between 1 and 500");;
  mret limit.

Section pages.
Context `{Platform} `{CursorCodec}.

Definition invalid_cursor : ApiError :=
  ApiError_new 400 "PAGINATION_CURSOR_INVALID" "pagination cursor is invalid" false.
Definition decode_cursor (raw : option string) : outcome ApiError (option ResourceCursor) :=
  match raw with
  | None => mret None
  | Some raw =>
      bytes ← ok_or invalid_cursor (base64_decode raw);
      cursor ← ok_or invalid_cursor (cursor_from_json bytes);
      mret (Some cursor)
  end.
Definition encode_cursor (cursor : ResourceCursor) : string :=
  base64_encode (json_to_string (to_value cursor)).

(** A [u32] limit is a [usize]; the [expect] holds for a positive limit. *)
Definition page {T} (items : list T) (requested_limit : Z) (cursor_for : T → ResourceCursor)
    : outcome ApiError (ListPage T) :=
  let limit := Z.to_nat requested_limit in
  let has_more := (limit <? length items)%nat in
  let items := take limit items in
  next_cursor ← (if has_more
    then last_item ← or_panic (last items);
         mret (Some (encode_cursor (cursor_for last_item)))
    else mret None);
  mret (mkListPage items next_cursor).
End pages.

(** ** The event stream *)

Definition saturating_pred (n : Z) : Z := Z.max (- 2 ^ 63) (n - 1).
Definition event_cursor_outside_retention (after : Z) (minimum maximum : option Z) : bool :=
  (0 <? after) &&
  (match minimum with Some minimum => after <? saturating_pred minimum | None => false end ||
   match maximum with Some maximum => maximum <? after | None => true end).
Definition event_replay_truncated (cursor_outside_retention : bool) (maximum : option Z)
    (replay_watermark : Z) : bool :=
  negb cursor_outside_retention &&
  match maximum with Some maximum => replay_watermark <? maximum | None => false end.

(** One message of the stream: an event, or the request to start over. *)
Inductive Message : Type :=
| Event (e : ExecutionEvent)
| Reset (reason : string).
Definition sse_event `{Platform} (event : ExecutionEvent) : Z * string * Value :=
  (sequence event, event_type event,
   json_obj ["sequence" ::= sequence event; "mode" ::= Mode_to_string (ev_mode event);
     "resource_type" ::= resource_type event; "resource_id" ::= resource_id event;
     "created_at" ::= to_rfc3339 (ev_created_at event);
     "payload" ::= default (JString (payload_json event)) (json_from_str (payload_json event))]).

(** [Last-Event-ID]; [parse_i64] is [str::parse::<i64>]. *)
Definition event_cursor (parse_i64 : string → option Z) (header : option (option string))
    : outcome ApiError Z :=
  match header with
  | None => mret 0
  | Some value =>
      ok_or (ApiError_new 400 "INVALID_EVENT_CURSOR"
          "Last-Event-ID must be a non-negative integer" false)
        (text ← value; n ← parse_i64 text; if 0 <=? n then Some n else None)
  end.

(** What is replayed after a cursor, and the sequence number up to which the
    live events are dropped. *)
Record Replay : Type := mkReplay {
  reset_reason : option string;
  replayed : list ExecutionEvent;
  live_watermark : Z;
}.
Definition plan_replay (after : Z) (minimum maximum : option Z) (replay : list ExecutionEvent)
    : Replay :=
  let cursor_outside_retention := event_cursor_outside_retention after minimum maximum in
  let replay := if cursor_outside_retention then [] else replay in
  let replay_watermark := default after (sequence <$> last replay) in
  let replay_truncated := event_replay_truncated cursor_outside_retention maximum replay_watermark in
  let replay := if replay_truncated then [] else replay in
  let reset_reason :=
    if cursor_outside_retention then Some "cursor_outside_retention"
    else if replay_truncated then Some "replay_limit_exceeded" else None in
  mkReplay reset_reason replay
    (if reset_reason ≟ None then replay_watermark else default after maximum).
(** The messages: the reset, the replay, and then what the channel delivers,
    [None] where the subscriber lagged behind. *)
Definition stream_messages (r : Replay) (live : list (option ExecutionEvent)) : list Message :=
  match reset_reason r with Some reason => [Reset reason] | None => [] end ++
  (Event <$> replayed r) ++
  omap (λ result, match result with
    | Some e => if live_watermark r <? sequence e then Some (Event e) else None
    | None => Some (Reset "client_lagged")
    end) live.
