(* ===== verification/Api.v ===== *)
(** * Api: the handlers of the HTTP API (api.rs)

    A handler runs on the coordinator's world, the admission limiter and the
    operations that were admitted and run in the background, each in one of the
    64 operation slots.  What axum does around a handler - routing, the parsing
    of the query and the path, the timeout - is left to it; the routes are a
    table. *)
From S2P Require Import Prelude Text DecimalSpec Json Platform Domain Venue Risk Schema StoreIntents StoreRisk StoreOrders StoreControl StorePaper StoreQueries PaperVenue Config Auth Coordinator ApiCore.

Inductive Operation : Type :=
| RunCancellation (id : Uuid) (targets : list Uuid)
| RunReconciliation (id : Uuid)
| RunBackup (id : Uuid).

Record ApiWorld (V : Type) : Type := mkApiWorld {
  aw_world : World V;
  admission_limiter : TokenBucket;
  aw_operations : list Operation;
}.
Arguments mkApiWorld {V}.
Arguments aw_world {V}.
Arguments admission_limiter {V}.
Arguments aw_operations {V}.
#[export] Instance ApiWorld_eta V : Eta (ApiWorld V) := λ w,
  mkApiWorld (aw_world w) (admission_limiter w) (aw_operations w).

(** [TokenBucket::new(25.0, 100.0)]. *)
Definition ApiState_new {V} (now : Z) (w : World V) : ApiWorld V :=
  mkApiWorld w (TokenBucket_new now (f64_of_Z 25) (f64_of_Z 100)) [].
(** [Semaphore::new(64)]. *)
Definition operation_slots : nat := 64.

(** The parsed queries. *)
Record IntentListQuery : Type := mkIntentListQuery {
  iq_limit : Z;
  iq_state : option IntentState;
  iq_condition_id : option string;
  iq_created_after : option DateTime;
  iq_cursor : option string;
}.
Record OrderListQuery : Type := mkOrderListQuery {
  oq_limit : Z;
  oq_state : option OrderState;
  oq_condition_id : option string;
  oq_token_id : option string;
  oq_cursor : option string;
}.
Record TradeListQuery : Type := mkTradeListQuery {
  tq_limit : Z;
  tq_status : option TradeState;
  tq_condition_id : option string;
  tq_token_id : option string;
  tq_cursor : option string;
}.
Definition ReasonRequest : Type := string.
Definition ReasonRequest_value (reason : ReasonRequest) : Value := json_obj ["reason" ::= reason].


(** ** The handlers *)
Section api.
Context `{DecimalOps} `{Platform} `{Codec} `{CursorCodec}.
Context {V : Type} `{Venue : !ExecutionVenue (Sys * V)} `{Sched : !Schedule V}.
Variable coordinator : ExecutionCoordinator.
Notation st := (store coordinator).
Notation Handler := (Prog (ApiWorld V) ApiError).

Definition on_world {E A} (f : E → ApiError) (m : Prog (World V) E A) : Handler A := λ w,
  let '(r, world) := m (aw_world w) in (map_err f r, w <| aw_world := world |>).
(** [state.coordinator.m().await?]. *)
Definition call_coordinator {A} (m : Prog (World V) CoordinatorError A) : Handler A :=
  on_world ApiError_of_coordinator m.
(** [state.store.m().await?]: the error is the store's own. *)
Definition ApiError_of_call (e : CoordinatorError) : ApiError :=
  match e with
  | CoordinatorError.Store e => ApiError_of_store e
  | e => ApiError_of_coordinator e
  end.
Definition api_store {A} (m : Prog Sys StoreError A) : Handler A :=
  on_world ApiError_of_call (call_store m).

(** The locks of the two gates: waiting for one is an [await], and what other
    handlers do before and after it is left to the schedule. *)
Definition lock_gate : Handler () := on_world ApiError_of_coordinator await.

Definition enforce_admission_rate : Handler () := λ w,
  let '(taken, bucket) := TokenBucket_take (instant_clock (w_time (aw_world w)))
    (admission_limiter w) in
  (if taken then Done tt
   else Failed (with_retry_after
     (ApiError_new 429 "RATE_LIMITED" "mutation admission rate exceeded" true) 1),
   w <| admission_limiter := bucket |>).

(** A permit is the right to put one value in the queue. *)
Definition reserve_queue : Handler () := λ w,
  (if (length (w_queue (aw_world w)) <? queue_capacity)%nat then Done tt
   else Failed (ApiError_of_coordinator CoordinatorError.QueueFull), w).
Definition permit_send (intent_id : Uuid) : Handler () :=
  on_world ApiError_of_coordinator (send intent_id).

(** A permit of an operation lives until the operation has ended. *)
Definition reserve_operation : Handler () := λ w,
  (if (length (aw_operations w) <? operation_slots)%nat then Done tt
   else Failed (ApiError_of_coordinator CoordinatorError.QueueFull), w).
Definition spawn_operation (o : Operation) : Handler () :=
  modify (λ w, w <| aw_operations := aw_operations w ++ [o] |>).
Definition spawn_cancellation (id : Uuid) (targets : list Uuid) : Handler () :=
  spawn_operation (RunCancellation id targets).
Definition spawn_reconciliation (id : Uuid) : Handler () :=
  spawn_operation (RunReconciliation id).

(** [StatusCode::from_u16]. *)
Definition valid_status (status : Z) : bool := (100 <=? status) && (status <=? 999).
Definition replay_operation (actor : Actor) (key operation : string) (body : Value)
    : Handler (option Response) :=
  replay ← api_store (idempotent_response (act_id actor) key operation body);
  match replay with
  | None => mret None
  | Some replay =>
      ensure (valid_status (status replay)) (ApiError_new 500 "INTERNAL_STORAGE_ERROR"
        "stored idempotent response has an invalid status" false);;
      mret (Some (response (status replay) (StoreIntents.body replay)))
  end.
(** [if let Some(response) = replay_operation(..)? { return Ok(response) }]. *)
Definition unless_replayed (actor : Actor) (key operation : string) (body : Value)
    (run : Handler Response) : Handler Response :=
  replayed ← replay_operation actor key operation body;
  match replayed with
  | Some response => mret response
  | None => run
  end.

Definition submit_intent (actor : Actor) (header : option string)
    (request : OrderIntentRequest) : Handler (Z * IntentRecord) :=
  key ← lift (idempotency_key header);
  replayed ← api_store (replay_intent (act_id actor) key request);
  match replayed with
  | Some record => mret (202, record)
  | None =>
      enforce_admission_rate;;
      reserve_queue;;
      admission ← api_store (admit_intent st (act_id actor) key request);
      match admission with
      | Created record => permit_send (int_id record);; mret (202, record)
      | AlreadyAdmitted record => mret (202, record)
      end
  end.

Definition cursor_of_intent (record : IntentRecord) : ResourceCursor :=
  mkResourceCursor (int_created_at record) (int_id record).
Definition cursor_of_order (record : OrderRecord) : ResourceCursor :=
  mkResourceCursor (ord_created_at record) (ord_id record).
Definition cursor_of_trade (record : TradeRecord) : ResourceCursor :=
  mkResourceCursor (trd_created_at record) (trd_id record).
Definition cursor_pair (cursor : ResourceCursor) : DateTime * Uuid :=
  (rc_created_at cursor, rc_id cursor).

Definition api_list_intents (query : IntentListQuery) : Handler (ListPage IntentRecord) :=
  limit ← lift (validate_limit (iq_limit query));
  cursor ← lift (decode_cursor (iq_cursor query));
  rows ← api_store (list_intents_page limit (iq_state query) (iq_condition_id query)
    (iq_created_after query) (cursor_pair <$> cursor));
  lift (page rows limit cursor_of_intent).
Definition api_list_orders (query : OrderListQuery) : Handler (ListPage OrderRecord) :=
  limit ← lift (validate_limit (oq_limit query));
  cursor ← lift (decode_cursor (oq_cursor query));
  rows ← api_store (list_orders_page limit (oq_state query) (oq_condition_id query)
    (oq_token_id query) (cursor_pair <$> cursor));
  lift (page rows limit cursor_of_order).
Definition api_list_trades (query : TradeListQuery) : Handler (ListPage TradeRecord) :=
  limit ← lift (validate_limit (tq_limit query));
  cursor ← lift (decode_cursor (tq_cursor query));
  rows ← api_store (list_trades_page limit (tq_status query) (tq_condition_id query)
    (tq_token_id query) (cursor_pair <$> cursor));
  lift (page rows limit cursor_of_trade).

Definition api_get_intent (id : Uuid) : Handler IntentRecord := api_store (get_intent id).
Definition api_get_order (id : Uuid) : Handler OrderRecord := api_store (get_order id).
Definition api_list_positions : Handler (list PositionRecord) := api_store list_positions.
Definition api_get_reconciliation (id : Uuid) : Handler ReconciliationRecord :=
  api_store (get_reconciliation id).
Definition api_get_backup (id : Uuid) : Handler BackupRecord := api_store (get_backup id).
Definition api_get_cancellation (id : Uuid) : Handler CancellationRecord :=
  api_store (get_cancellation id).

Definition liveness : Response := response 200 (json_obj ["status" ::= "live"]).
Definition readiness : Handler Response := λ w,
  match api_store service_state w with
  | (Done (Ready, _, _), w) => (Done (response 200 (json_obj ["status" ::= "ready"])), w)
  | (Done _, w) | (Failed _, w) =>
      (Done (response 503 (json_obj ["status" ::= "not_ready"])), w)
  | (Panicked, w) => (Panicked, w)
  end.
Definition control_state_response : Handler Value :=
  '(state, reason, updated_at) ← api_store service_state;
  mret (json_obj ["state" ::= ServiceState_name state; "reason" ::= reason;
    "updated_at" ::= to_rfc3339 updated_at; "mode" ::= Mode_to_string (st_mode st)]).

Definition api_cancel (actor : Actor) (header : option string) (request : CancellationRequest)
    : Handler Response :=
  key ← lift (idempotency_key header);
  let body := to_value request in
  lock_gate;;
  unless_replayed actor key "cancellation" body (
    enforce_admission_rate;;
    reserve_operation;;
    '(id, targets) ← call_coordinator (admit_cancellation coordinator (act_id actor) key request);
    let answer := json_obj ["id" ::= uuid_to_string id;
      "target_order_ids" ::= (uuid_to_string <$> targets);
      "mode" ::= Mode_to_string (st_mode st)] in
    spawn_cancellation id targets;;
    mret (response 202 answer)).

Definition api_halt (actor : Actor) (header : option string) (request : ReasonRequest)
    : Handler Response :=
  key ← lift (idempotency_key header);
  lift (validate_reason request);;
  lock_gate;;
  unless_replayed actor key "control.halt" (ReasonRequest_value request) (
    enforce_admission_rate;;
    call_coordinator (halt_idempotent coordinator (act_id actor) key request);;
    mret (response 202
      (json_obj ["state" ::= "HALTED"; "mode" ::= Mode_to_string (st_mode st)]))).

Definition api_resume (actor : Actor) (header : option string) (request : ReasonRequest)
    : Handler Response :=
  key ← lift (idempotency_key header);
  lift (validate_reason request);;
  lock_gate;;
  unless_replayed actor key "control.resume" (ReasonRequest_value request) (
    enforce_admission_rate;;
    call_coordinator (resume_idempotent coordinator (act_id actor) key request);;
    mret (response 202
      (json_obj ["state" ::= "READY"; "mode" ::= Mode_to_string (st_mode st)]))).

Definition api_reconcile (actor : Actor) (header : option string) : Handler Response :=
  key ← lift (idempotency_key header);
  lock_gate;;
  unless_replayed actor key "reconciliation" (json_obj []) (
    enforce_admission_rate;;
    reserve_operation;;
    id ← call_coordinator (admit_reconciliation coordinator (act_id actor) key "operator");
    let answer := json_obj ["id" ::= uuid_to_string id;
      "mode" ::= Mode_to_string (st_mode st)] in
    spawn_reconciliation id;;
    mret (response 202 answer)).

(** [directory] is the outcome of creating the backup directory. *)
Definition api_create_backup (directory : outcome StoreError ()) (actor : Actor)
    (header : option string) : Handler Response :=
  key ← lift (idempotency_key header);
  lock_gate;;
  unless_replayed actor key "backup" (json_obj []) (
    enforce_admission_rate;;
    reserve_operation;;
    backup ← api_store
      (start_backup_idempotent st directory (act_id actor) key (json_obj []));
    let answer := json_obj ["id" ::= uuid_to_string (bk_id backup); "state" ::= "RUNNING";
      "mode" ::= Mode_to_string (st_mode st)] in
    spawn_operation (RunBackup (bk_id backup));;
    mret (response 202 answer)).

(** The replay of the event stream; the subscription is older than it. *)
Definition events (parse_i64 : string → option Z) (header : option (option string))
    : Handler Replay :=
  after ← lift (event_cursor parse_i64 header);
  '(minimum, maximum) ← api_store event_sequence_bounds;
  replay ← (if event_cursor_outside_retention after minimum maximum then mret []
            else api_store (replay_events after 10000));
  mret (plan_replay after minimum maximum replay).

(** An admitted operation runs to its end and gives its slot back; its error is
    only logged.  [files] is the outcome of writing the files of a backup. *)
Definition run_operation (files : outcome StoreError BackupFiles) (o : Operation)
    : Prog (World V) CoordinatorError () :=
  match o with
  | RunCancellation id targets =>
      attempt (execute_cancellation coordinator id targets);; mret tt
  | RunReconciliation id => attempt (reconcile_started coordinator id);; mret tt
  | RunBackup id => attempt (call_store (run_backup st files id));; mret tt
  end.
Definition operation_turn (files : outcome StoreError BackupFiles) (n : nat) : Handler () := λ w,
  match aw_operations w !! n with
  | None => (Done tt, w)
  | Some o => call_coordinator (run_operation files o)
      (w <| aw_operations := delete n (aw_operations w) |>)
  end.
End api.
