(* ===== verification/CoordinatorSteps.v ===== *)
(** * CoordinatorSteps: what the coordinator does to the world

    Every coordinator function, wherever it is stopped and whatever the other
    tasks and the venue do meanwhile, takes the database along store operations,
    calls [submit] only for an order it has just taken from PREPARED to
    SUBMITTING, and takes the service to no state but those its code names. *)
From S2P Require Import Prelude Text DecimalSpec RefDecimal Json Platform Domain Venue Risk Schema StoreIntents StoreRisk StoreOrders StoreControl StorePaper StoreLogic Lifecycle OrderHistory Coordinator.

(** ** Orders through the histories of the store *)

Definition journal (d : Db) (id : Uuid) : nat := submissions (order_transitions d) id.
Definition known_at_venue (id : Uuid) (d : Db) : Prop :=
  ∃ o, o ∈ orders d ∧ oid o = id ∧ venue_order_id o ≠ None.

Lemma update_list_elem {R} (p : R → bool) f (l : list R) r :
  r ∈ l → (if p r then f r else r) ∈ update_list p f l.
Proof. intros Hr. apply list_elem_of_fmap. eauto. Qed.

Lemma journal_stable d0 id : order_stable (λ d, (journal d0 id ≤ journal d id)%nat).
Proof.
  split.
  - intros d d' _ E. unfold journal. by rewrite E.
  - done.
  - done.
  - intros t d Hle. unfold journal, submissions. cbn. rewrite List.filter_app, length_app.
    unfold journal, submissions in Hle. lia.
Qed.
Lemma known_stable id : order_stable (known_at_venue id).
Proof.
  split; try done.
  - intros d d' E _. unfold known_at_venue. by rewrite E.
  - intros r d (o & Ho & ?). exists o. split; [|done]. cbn. set_solver.
  - intros p f d Hf (o & Ho & <- & Hv). exists (if p o then f o else o).
    split; [by apply update_list_elem|]. case_match; [|done].
    destruct (Hf o) as [-> ?]. auto.
Qed.

Lemma known_placed id d : NoDup (oid <$> orders d) → known_at_venue id d → placed id d.
Proof.
  intros Hnd (o & Ho & Hid & Hv) o' Ho' Hid'. by rewrite (nodup_key_eq oid _ o' o Hnd); [..|congruence].
Qed.

Definition is_submit (id : Uuid) (c : VenueCall) : bool :=
  match c with CallSubmit order_id => order_id ≟ id | CallCancel _ => false end.
Definition submits (id : Uuid) (l : list VenueCall) : nat := length (List.filter (is_submit id) l).

(** A query of the store. *)
Definition reads {A} (m : Prog Sys StoreError A) : Prop := ∀ s, (m s).2 = s.
Lemma reads_bind {A B} (m : Prog Sys StoreError A) (k : A → Prog Sys StoreError B) :
  reads m → (∀ a, reads (k a)) → reads (m ≫= k).
Proof.
  intros Hm Hk s. specialize (Hm s). unfold mbind, prog_bind.
  destruct (m s) as [[a|e|] s1]; cbn in *; subst; [apply Hk|done..].
Qed.

(** Helpers of the operations that leave the control row alone. *)
Section control_frames.
Context `{DecimalOps} `{Platform} `{Codec}.
Variable st : Store.

Lemma matched_fill_control o v q p ids now :
  frames control_state (apply_matched_fill st o v q p ids now).
Proof.
  unfold apply_matched_fill. frame. intros s. cbv beta. destruct (existsb _ _); [done|].
  revert s. apply frames_bind; [|intros ?]; frame.
Qed.
Lemma attempts_control i state f : frames control_state (update_attempts i state f).
Proof. intros s. reflexivity. Qed.
Lemma snapshot_control c t : frames control_state (risk_snapshot c t).
Proof. intros s. reflexivity. Qed.
Lemma delete_control c : frames control_state (delete_events c).
Proof. intros s. reflexivity. Qed.
Lemma observe_control current seen l : frames control_state (observe_positions st current seen l).
Proof. apply frames_observe_positions; intros; reflexivity. Qed.
End control_frames.
#[export] Hint Resolve matched_fill_control attempts_control snapshot_control delete_control
  observe_control : frames.

Section steps.
Context `{DL : DecimalLaws} `{Platform} `{Codec}.
Context {V : Type} `{Venue : !ExecutionVenue (Sys * V)} `{Sched : !Schedule V}.
Variable self : ExecutionCoordinator.
Notation Coord := (Prog (World V) CoordinatorError).
Notation st := (store self).

(** What the other tasks and the venue do to the database is done by
    operations of the store. *)
Definition store_path (f : Sys * V → Sys * V) : Prop :=
  ∀ sv, rtc (store_step st) sv.1 (f sv).1.
Record lawful : Prop := {
  lawful_others n : store_path (others n);
  lawful_deadline n limit cut : deadline n limit = Some cut → store_path cut;
  lawful_market_rules c t : store_path (λ sv, (market_rules c t sv).2);
  lawful_order_book t : store_path (λ sv, (order_book t sv).2);
  lawful_prepare i r : store_path (λ sv, (prepare i r sv).2);
  lawful_submit p r : store_path (λ sv, (submit p r sv).2);
  lawful_cancel v : store_path (λ sv, (cancel v sv).2);
  lawful_find_order d : store_path (λ sv, (find_order d sv).2);
  lawful_reconcile : store_path (λ sv, (venue_reconcile sv).2);
  lawful_heartbeat : store_path (λ sv, (heartbeat sv).2);
}.

(** Meanwhile nobody else takes the service out of the states [K]. *)
Definition control_text (s : Sys) : string := ct_state (control_state (db s)).
Definition stays (K : string → Prop) (f : Sys * V → Sys * V) : Prop :=
  ∀ sv, K (control_text sv.1) → K (control_text (f sv).1).
Record calm (K : string → Prop) : Prop := {
  calm_others n : stays K (others n);
  calm_deadline n limit cut : deadline n limit = Some cut → stays K cut;
  calm_market_rules c t : stays K (λ sv, (market_rules c t sv).2);
  calm_order_book t : stays K (λ sv, (order_book t sv).2);
  calm_prepare i r : stays K (λ sv, (prepare i r sv).2);
  calm_submit p r : stays K (λ sv, (submit p r sv).2);
  calm_cancel v : stays K (λ sv, (cancel v sv).2);
  calm_find_order d : stays K (λ sv, (find_order d sv).2);
  calm_reconcile : stays K (λ sv, (venue_reconcile sv).2);
  calm_heartbeat : stays K (λ sv, (heartbeat sv).2);
}.

(** What a stretch of the coordinator's work may do to the world.  When nobody
    else leaves the states [K], the service does not leave them; and unless
    READY is one of them, no order is submitted. *)
Record advance (K : string → Prop) (w w' : World V) : Prop := {
  advance_steps : rtc (store_step st) (w_sys w) (w_sys w');
  advance_calls : ∃ new, w_calls w' = w_calls w ++ new ∧
    (∀ id, (submits id new + journal (db (w_sys w)) id ≤ journal (db (w_sys w')) id)%nat) ∧
    (calm K → K (control_text (w_sys w)) →
      K (control_text (w_sys w')) ∧ (¬ K "READY" → ∀ id, submits id new = 0%nat));
}.

Lemma journal_grows s s' id : rtc (store_step st) s s' → (journal (db s) id ≤ journal (db s') id)%nat.
Proof. intros Hs. by apply (steps_orders st (journal_stable (db s) id) s s' Hs). Qed.

#[global] Instance advance_preorder K : PreOrder (advance K).
Proof.
  split.
  - intros w. split; [done|]. exists []. rewrite app_nil_r. done.
  - intros w1 w2 w3 [S12 (n12 & E12 & J12 & C12)] [S23 (n23 & E23 & J23 & C23)].
    split; [by etrans|]. exists (n12 ++ n23). rewrite app_assoc, <-E12, E23.
    assert (∀ id, submits id (n12 ++ n23) = submits id n12 + submits id n23)%nat as Happ
      by (intros id; unfold submits; by rewrite List.filter_app, length_app).
    split_and!; [done| |].
    + intros id. rewrite Happ. specialize (J12 id). specialize (J23 id). lia.
    + intros Hc Hd. destruct (C12 Hc Hd) as [Hd2 H12], (C23 Hc Hd2) as [Hd3 H23].
      split; [done|]. intros Hr id. by rewrite Happ, H12, H23.
Qed.

(** A stretch without calls. *)
Lemma advance_silent K w w' :
  rtc (store_step st) (w_sys w) (w_sys w') → w_calls w' = w_calls w →
  (calm K → K (control_text (w_sys w)) → K (control_text (w_sys w'))) →
  advance K w w'.
Proof.
  intros Hs Hc Hd. split; [done|]. exists []. rewrite app_nil_r. split; [done|]. split.
  - intros id. by apply journal_grows.
  - intros Hcalm Hw. split; [by apply Hd|done].
Qed.

(** ** The calculus *)

(** What is known of the database and stays so. *)
Definition persistent (P : Sys → Prop) : Prop :=
  ∀ s s', rtc (store_step st) s s' → P s → P s'.
Definition runs {A} (K : string → Prop) (P : Sys → Prop) (m : Coord A) : Prop :=
  ∀ w, P (w_sys w) → advance K w (m w).2.

Section calculus.
Context (HL : lawful) (K : string → Prop) {P : Sys → Prop} (HP : persistent P).
Notation Runs := (runs K P).

Lemma runs_bind {A B} (m : Coord A) (k : A → Coord B) :
  Runs m → (∀ a, Runs (k a)) → Runs (m ≫= k).
Proof.
  intros Hm Hk w Hw. specialize (Hm w Hw). unfold mbind, prog_bind.
  destruct (m w) as [[a|e|] w1]; cbn in *; [|done..].
  etrans; [exact Hm|]. apply Hk. eapply HP; [apply Hm|done].
Qed.
(** What [m] returns is known to be so in the rest. *)
Lemma runs_bind_post {A B} (Q : A → Sys → Prop) (m : Coord A) (k : A → Coord B) :
  Runs m → (∀ w a w', P (w_sys w) → m w = (Done a, w') → Q a (w_sys w')) →
  (∀ a, runs K (λ s, P s ∧ Q a s) (k a)) → Runs (m ≫= k).
Proof.
  intros Hm HQ Hk w Hw. specialize (Hm w Hw). specialize (HQ w). unfold mbind, prog_bind.
  destruct (m w) as [[a|e|] w1]; cbn in *; [|done..].
  etrans; [exact Hm|]. apply Hk. split; [eapply HP; [apply Hm|done]|by apply HQ].
Qed.
Lemma runs_ret {A} (a : A) : Runs (mret a).
Proof. intros w _. done. Qed.
Lemma runs_fail {A} e : Runs (fail e : Coord A).
Proof. intros w _. done. Qed.
Lemma runs_lift {A} o : Runs (lift o : Coord A).
Proof. intros w _. done. Qed.
Lemma runs_gets {A} f : Runs (gets f : Coord A).
Proof. intros w _. done. Qed.
Lemma runs_ensure b e : Runs (ensure b e).
Proof. intros w _. by destruct b. Qed.
(** Work on what the coordinator keeps in memory. *)
Lemma runs_memory {A} (m : Coord A) :
  (∀ w, w_sys (m w).2 = w_sys w ∧ w_calls (m w).2 = w_calls w) → Runs m.
Proof. intros Hm w _. destruct (Hm w) as [Es Ec]. by apply advance_silent; rewrite ?Es. Qed.
Lemma runs_attempt {A} (m : Coord A) : Runs m → Runs (attempt m).
Proof. intros Hm w Hw. specialize (Hm w Hw). unfold attempt, try. by destruct (m w) as [[]]. Qed.
Lemma runs_for_each {A} (l : list A) body : (∀ a, Runs (body a)) → Runs (for_each l body).
Proof. intros Hb. induction l; cbn; [apply runs_ret|]. by apply runs_bind. Qed.
Lemma runs_for_collect {A B} (l : list A) (body : A → Coord B) :
  (∀ a, a ∈ l → Runs (body a)) → Runs (for_collect l body).
Proof.
  induction l as [|a l IH]; intros Hb; cbn; [apply runs_ret|].
  apply runs_bind; [apply Hb; set_solver|]. intros b.
  apply runs_bind; [apply IH; set_solver|]. intros bs. apply runs_ret.
Qed.
Lemma runs_await : Runs await.
Proof.
  intros w _. unfold await. destruct (stops _); [done|]. apply advance_silent; [|done|].
  - apply (lawful_others HL (w_time w) (w_sys w, w_venue w)).
  - intros Hc. apply (calm_others _ Hc (w_time w) (w_sys w, w_venue w)).
Qed.

(** A store operation at a call site. *)
Lemma runs_run_store {A} (m : Prog Sys StoreError A) :
  (∀ s, P s → store_op st (db s) A m) →
  keeps (λ d, K (ct_state (control_state d))) m → Runs (run_store m).
Proof.
  intros Hop Hk w Hw. unfold run_store.
  destruct (m (w_sys w)) as [r s] eqn:Hm. apply advance_silent; [|done|]; cbn.
  - apply rtc_once. replace s with (m (w_sys w)).2 by by rewrite Hm. constructor. by apply Hop.
  - intros _ Hd. specialize (Hk (w_sys w) Hd). by rewrite Hm in Hk.
Qed.
Lemma runs_store {A} (m : Prog Sys StoreError A) :
  (∀ s, P s → store_op st (db s) A m) →
  keeps (λ d, K (ct_state (control_state d))) m → Runs (call_store m).
Proof. intros Hop Hk. apply runs_bind; [apply runs_await|]. intros _. by apply runs_run_store. Qed.
(** A query. *)
Lemma runs_query {A} (m : Prog Sys StoreError A) : reads m → Runs (call_store m).
Proof.
  intros Hm. apply runs_bind; [apply runs_await|]. intros _. apply runs_memory. intros w.
  unfold run_store. specialize (Hm (w_sys w)). destruct (m (w_sys w)) as [r s]. cbn in *.
  by rewrite Hm.
Qed.
Lemma runs_venue {A} limit (m : Prog (Sys * V) VenueError A) :
  store_path (λ sv, (m sv).2) → (calm K → stays K (λ sv, (m sv).2)) →
  Runs (call_venue limit m).
Proof.
  intros Hm Hc. apply runs_bind; [apply runs_await|]. intros _ w _. unfold run_venue.
  destruct (deadline _ _) as [cut|] eqn:Hcut.
  - apply advance_silent; [|done|]; cbn.
    + apply (lawful_deadline HL _ _ _ Hcut (w_sys w, w_venue w)).
    + intros Hcalm. apply (calm_deadline _ Hcalm _ _ _ Hcut (w_sys w, w_venue w)).
  - specialize (Hm (w_sys w, w_venue w)). cbv beta in Hm. assert (calm K → K (control_text (w_sys w)) → K (control_text (m (w_sys w, w_venue w)).2.1)) as Hd
      by (intros Hcalm; apply (Hc Hcalm (w_sys w, w_venue w))).
    destruct (m _) as [r sv]. apply advance_silent; [exact Hm|done|]. exact Hd.
Qed.
End calculus.

(** ** The store operations at the call sites *)

Notation control_in K := (λ d, K (ct_state (control_state d))).

Lemma keeps_control {A} (K : string → Prop) (m : Prog Sys StoreError A) :
  frames control_state m → keeps (control_in K) m.
Proof. apply keeps_frames. intros d d' E. by rewrite E. Qed.

Lemma service_state_sets a next r i e s u s' :
  set_service_state_inner st a next r i e s = (Done u, s') →
  ct_state (control_state (db s')) = service_state_text next.
Proof.
  intros (ev & s0 & Hr & Hs)%transaction_done. subst s'.
  change (ct_state (control_state (db s0)) = service_state_text next).
  apply bind_done in Hr as (row & s1 & Hrow & Hr). apply gets_done in Hrow as [-> ->].
  apply bind_done in Hr as (v & s1 & Hv & Hr). apply ensure_done in Hv as [_ ->].
  apply bind_done in Hr as (rev & s1 & Hv & Hr). apply lift_done in Hv as [Hv ->].
  apply bind_done in Hr as (now & s1 & Ht & Hr). apply utc_now_done in Ht as [-> ->].
  apply bind_done in Hr as (w & s1 & Hw & Hr). apply update_control_done in Hw as ->.
  eapply (keeps_keeps_done (control_in (λ t, t = service_state_text next))); [| |exact Hr]; [|done].
  apply (keeps_control (λ t, t = service_state_text next)). unfold insert_idempotency_record. frame.
Qed.
Lemma service_state_control (K : string → Prop) a next r i e :
  K (service_state_text next) → keeps (control_in K) (set_service_state_inner st a next r i e).
Proof.
  intros Hn s Hs. destruct (set_service_state_inner st a next r i e s) as [o s'] eqn:Hr. cbn.
  destruct o as [u|f|]; [by rewrite (service_state_sets _ _ _ _ _ _ _ _ Hr)|..];
    unfold set_service_state_inner in Hr;
    by apply transaction_rolls_back in Hr as [-> _].
Qed.

(** An order that reconciliation finds open is known at the venue. *)
Lemma call_store_query {A} (m : Prog Sys StoreError A) w a w' :
  reads m → call_store m w = (Done a, w') → m (w_sys w') = (Done a, w_sys w').
Proof.
  intros Hm (u & w1 & _ & Hr)%bind_done. unfold run_store in Hr.
  specialize (Hm (w_sys w1)). destruct (m (w_sys w1)) as [r s] eqn:E. cbn in Hm. subst s.
  injection Hr as Hr <-. cbn. rewrite E. by destruct r; simplify_eq/=.
Qed.
Lemma open_orders_known w active ids w' o :
  call_store reconciliation_orders w = (Done (active, ids), w') →
  o ∈ active → known_at_venue (ord_id o) (db (w_sys w')).
Proof.
  intros [= Ha _]%call_store_query Ho; [|done]. subst active.
  apply list_elem_of_fmap in Ho as (r & -> & Hr).
  apply list_elem_of_In, filter_In in Hr as [[Hr Hv]%filter_In _].
  apply bool_decide_eq_true in Hv. exists r. split_and!; [by apply list_elem_of_In|done|].
  intros Hn. rewrite Hn in Hv. by destruct Hv.
Qed.

End steps.

Ltac unfold_call :=
  unfold set_service_state, set_service_state_idempotent, set_service_state_if_unchanged,
    set_service_state_idempotent_if_unchanged, create_cancellation,
    create_cancellation_idempotent, start_reconciliation, start_reconciliation_idempotent.
(** The operation of a call site is one of the store's, and takes the service to
    no other state than the code says. *)
Ltac store_call :=
  unfold_call; intros; lazymatch goal with
  | |- store_op _ _ _ (transition_intent _ _ _ _ _) => apply Op_transition_intent; constructor
  | |- store_op _ _ _ (record_risk_decision _ _ _ _ _ _) => apply Op_risk_decision
  | |- store_op _ _ _ (evaluate_and_reserve_risk _ _ _ _ _ _) => apply Op_risk
  | |- store_op _ _ _ (create_prepared_order _ _ _ _ _ _ _ _ _ _ _ _) => apply Op_prepare
  | |- store_op _ _ _ (reject_preparation _ _ _ _) => apply Op_reject_preparation
  | |- store_op _ _ _ (finish_submission _ _ _ _ _ _ _ _ _ _ _) => apply Op_finish_submission
  | |- store_op _ _ _ (recover_interrupted_submissions _) => apply Op_recover_interrupted
  | |- store_op _ _ _ (recover_pre_submission_work _) => apply Op_recover_pre
  | |- store_op _ _ _ (resolve_unknown_submission _ _ _ _ _ _ _ _ _) => apply Op_resolve
  | |- store_op _ _ _ (transition_order _ _ _ _ _) => apply Op_transition_order
  | |- store_op _ _ _ (cancel_prepared_order _ _ _) => apply Op_cancel_prepared
  | |- store_op _ _ _ (record_venue_trade_finality _ _ _ _ _) => apply Op_finality
  | |- store_op _ _ _ (reconcile_venue_positions _ _) => apply Op_positions
  | |- store_op _ _ _ (create_cancellation_inner _ _ _ _) => apply Op_cancellation
  | |- store_op _ _ _ (finish_cancellation _ _ _) => apply Op_finish_cancellation
  | |- store_op _ _ _ (prune_events _) => apply Op_prune
  | |- store_op _ _ _ (start_reconciliation_inner _ _ _) => apply Op_start_reconciliation
  | |- store_op _ _ _ (finish_reconciliation _ _ _) => apply Op_finish_reconciliation
  | |- store_op _ _ _ (fail_reconciliation _ _ _) => apply Op_fail_reconciliation
  | |- store_op _ _ _ (fail_interrupted_reconciliations _) =>
      apply Op_fail_interrupted_reconciliations
  | |- store_op _ _ _ (fail_interrupted_backups _) => apply Op_fail_interrupted_backups
  | |- store_op _ _ _ (set_service_state_inner _ _ _ _ _ _) => apply Op_service_state
  end.
Ltac control_call :=
  unfold_call;
  lazymatch goal with
  | |- keeps _ (set_service_state_inner _ _ _ _ _ _) => by apply service_state_control
  | |- keeps _ (prune_events _) => apply keeps_control; unfold prune_events; frame
  | |- _ => apply keeps_control; unfold_op; frame
  end.
Ltac reading :=
  unfold fetch_optional, count;
  repeat lazymatch goal with
  | |- reads (_ ≫= _) => apply reads_bind; [|intros ?]
  | |- reads (match ?x with _ => _ end) => destruct x
  | |- reads (ensure ?b _) => destruct b; intros ?; reflexivity
  | |- reads _ => intros ?; reflexivity
  end.
Ltac query :=
  lazymatch goal with
  | |- reads (get_intent _) => unfold get_intent; reading
  | |- reads (get_order _) => unfold get_order; reading
  | |- reads (get_reconciliation _) => unfold get_reconciliation; reading
  | |- reads checkpoint => intros ?; reflexivity
  | |- reads service_state => unfold service_state, service_state_with_revision; reading
  | |- reads service_state_with_revision => unfold service_state_with_revision; reading
  | |- reads (prepared_submission _) => unfold prepared_submission; reading
  | |- reads unknown_submissions => unfold unknown_submissions; reading
  | |- reads reconciliation_orders => unfold reconciliation_orders; reading
  | |- reads (order_ids_for_venue_ids _) => unfold order_ids_for_venue_ids; reading
  | |- reads pending_cancellations => unfold pending_cancellations; reading
  | |- reads unresolved_critical_findings => unfold unresolved_critical_findings; reading
  | |- reads latest_successful_reconciliation =>
      unfold latest_successful_reconciliation; reading
  end.

Ltac run_with tac :=
  repeat lazymatch goal with
  | |- runs _ _ _ (_ ≫= _) =>
      first [ solve [auto with runs nocore] | eapply runs_bind; [eassumption..| |intros ?] ]
  | |- runs _ _ _ (mret _) => apply runs_ret
  | |- runs _ _ _ (fail _) => apply runs_fail
  | |- runs _ _ _ (lift _) => apply runs_lift
  | |- runs _ _ _ (gets _) => apply runs_gets
  | |- runs _ _ _ (ensure _ _) => apply runs_ensure
  | |- runs _ _ _ (attempt _) => apply runs_attempt
  | |- runs _ _ _ (for_each _ _) => eapply runs_for_each; [eassumption..|]; intros ?
  | |- runs _ _ _ (for_collect _ _) => eapply runs_for_collect; [eassumption..|]; intros ? ?
  | |- runs _ _ _ (modify _) => apply runs_memory; intros w; cbn; by repeat case_match
  | |- runs _ _ _ (let _ := _ in _) => cbv zeta
  | |- runs _ _ _ (match ?x with _ => _ end) => destruct x
  | |- runs _ _ _ _ =>
      first [ solve [auto with runs nocore]
            | eapply runs_query; [eassumption..|]; solve [query]
            | eapply runs_store; [eassumption..|solve [store_call] | solve [control_call]]
            | tac ]
  end.
Ltac run := run_with idtac.
Ltac venue_call :=
  eapply runs_venue; [eassumption..
    | match goal with HL : lawful _ |- _ => apply HL end
    | let Hc := fresh in intros Hc; apply Hc ].

Section functions.
Context `{DL : DecimalLaws} `{Platform} `{Codec}.
Context {V : Type} `{Venue : !ExecutionVenue (Sys * V)} `{Sched : !Schedule V}.
Variable self : ExecutionCoordinator.
Notation st := (store self).
Context (HL : lawful self) (K : string → Prop) (Kh : K "HALTED") {P : Sys → Prop} (HP : persistent self P).
Notation Runs := (runs self K P).

Lemma runs_find_venue_order d : Runs (find_venue_order d).
Proof.
  unfold find_venue_order. apply (runs_bind self _ HP); [|intros ?; run].
  venue_call.
Qed.
Hint Resolve runs_find_venue_order : runs.

Lemma runs_set_halted r : Runs (set_halted self r).
Proof. unfold set_halted. run. Qed.
Lemma runs_spawn r : Runs (spawn_protective_cancellation self r).
Proof. unfold spawn_protective_cancellation. run. Qed.
Hint Resolve runs_set_halted runs_spawn : runs.
Lemma runs_resolve_unknown u : Runs (resolve_unknown self u).
Proof. unfold resolve_unknown. run. Qed.
Lemma runs_settle_trade t : Runs (settle_trade self t).
Proof. unfold settle_trade. run. Qed.
Hint Resolve runs_resolve_unknown runs_settle_trade : runs.

Lemma runs_note_cancel v : Runs (note_call (CallCancel v)).
Proof. intros w _. split; [done|]. exists [CallCancel v]. done. Qed.
Hint Resolve runs_note_cancel : runs.
Lemma runs_cancel_call v : Runs (call_venue VENUE_CALL_TIMEOUT (cancel v)).
Proof. venue_call. Qed.
Hint Resolve runs_cancel_call : runs.
Lemma runs_protect_unexpected v : Runs (protect_unexpected self v).
Proof. unfold protect_unexpected. run. Qed.
Hint Resolve runs_protect_unexpected : runs.
Lemma runs_project_local observed local :
  (∀ s, P s → placed (ord_id local) (db s)) → Runs (project_local self observed local).
Proof.
  intros Hplaced. unfold project_local. run.
  apply (runs_store self HL _ HP); [|control_call]. intros s Hs. apply Op_reconcile_order. by apply Hplaced.
Qed.
End functions.

Section functions_2.
Context `{DL : DecimalLaws} `{Platform} `{Codec}.
Context {V : Type} `{Venue : !ExecutionVenue (Sys * V)} `{Sched : !Schedule V}.
Variable self : ExecutionCoordinator.
Notation st := (store self).
Context (HL : lawful self) (K : string → Prop) (Kh : K "HALTED") {P : Sys → Prop} (HP : persistent self P).
Context (HU : ∀ s, P s → NoDup (oid <$> orders (db s))).
Notation Runs := (runs self K P).
Hint Resolve runs_find_venue_order runs_set_halted runs_spawn runs_resolve_unknown runs_settle_trade
  runs_note_cancel runs_cancel_call runs_protect_unexpected : runs.

Lemma runs_apply_report result : Runs (apply_report self result).
Proof.
  unfold apply_report.
  eapply (runs_bind_post self _ HP (λ a s, ∀ o, o ∈ a.1 → known_at_venue (ord_id o) (db s))).
  - run.
  - intros w [active ids] w' _ Hr o. by apply (open_orders_known _ _ _ _ _ Hr).
  - intros [active ids]. cbn [fst].
    assert (persistent self (λ s, P s ∧ ∀ o, o ∈ active → known_at_venue (ord_id o) (db s))) as HP'.
    { intros s s' Hs [Hp Hk]. split; [by eapply HP|]. intros o Ho.
      eapply (steps_orders st (known_stable (ord_id o))); [exact Hs|]. by apply Hk. }
    run. apply runs_project_local; [done..|].
    intros s [Hp Hk]. apply known_placed; [by apply HU|by apply Hk].
Qed.
Hint Resolve runs_apply_report : runs.

Lemma runs_venue_reconcile limit : Runs (call_venue limit venue_reconcile).
Proof. venue_call. Qed.
Hint Resolve runs_venue_reconcile : runs.
Lemma runs_reconcile_started_inner id : Runs (reconcile_started_inner self id).
Proof. unfold reconcile_started_inner. run. Qed.
Hint Resolve runs_reconcile_started_inner : runs.
Lemma runs_close_unsafe_run id e : Runs (close_unsafe_run self id e).
Proof. unfold close_unsafe_run. run. Qed.
Hint Resolve runs_close_unsafe_run : runs.
Lemma runs_reconcile_inner trigger : Runs (reconcile_inner self trigger).
Proof. unfold reconcile_inner, reconcile_started. run. Qed.
Hint Resolve runs_reconcile_inner : runs.
Lemma runs_reconcile_ignored trigger : Runs (reconcile_ignored self trigger).
Proof. unfold reconcile_ignored. run. Qed.
Hint Resolve runs_reconcile_ignored : runs.

Lemma runs_cancel_target c o : Runs (cancel_target self c o).
Proof. unfold cancel_target, cancel_at_venue. run. Qed.
Hint Resolve runs_cancel_target : runs.
Lemma runs_execute_cancellation c l : Runs (execute_cancellation self c l).
Proof. unfold execute_cancellation. run. Qed.
Hint Resolve runs_execute_cancellation : runs.
Lemma runs_cancel_inner a r : Runs (cancel_inner self a r).
Proof. unfold cancel_inner, check_cancellation. run. Qed.
Hint Resolve runs_cancel_inner : runs.
Lemma runs_halt_inner a r : Runs (halt_inner self a r).
Proof. unfold halt_inner, need_reason, cancel_on_halt_inner. run. Qed.
Hint Resolve runs_halt_inner : runs.
Lemma runs_halt_for_venue_error e t : Runs (halt_for_venue_error self e t).
Proof. unfold halt_for_venue_error. run. Qed.
Hint Resolve runs_halt_for_venue_error : runs.
Lemma runs_supervised_heartbeat : Runs supervised_heartbeat.
Proof.
  unfold supervised_heartbeat, now_instant. eapply runs_bind; [eassumption..| |intros ?; run].
  venue_call.
Qed.
Lemma runs_health : Runs (execution_health_failure self).
Proof. unfold execution_health_failure, reconciliation_stale, now_utc, now_instant. run. Qed.
Hint Resolve runs_supervised_heartbeat runs_health : runs.

(** ** Submissions *)

(** A submission that has begun is in the journal once more. *)
Lemma begin_submission_journal i o s u s' :
  begin_submission st i o s = (Done u, s') →
  ct_state (control_state (db s)) = "READY" ∧
  (journal (db s') o = S (journal (db s) o))%nat.
Proof.
  intros Hr. unfold begin_submission, insert_transition in Hr. db_inv.
  match goal with
  | Hready : (_ ≟ "READY") = true, Hatt : update_attempts _ _ _ _ = (_, ?s1)
    |- _ ∧ (journal (db ?f) _ = _)%nat =>
      apply bool_decide_eq_true in Hready; split; [exact Hready|];
      unfold update_attempts in Hatt; injection Hatt as _ Hatt;
      assert (order_transitions (db f) = order_transitions (db s) ++
        [mkTransitionRow o (Some OrderState.Prepared) OrderState.Submitting "{}" (utc_clock (tick s))])
        as Ht by (rewrite <-Hatt; reflexivity)
  end.
  unfold journal, submissions. rewrite Ht, List.filter_app, length_app. cbn [List.filter].
  assert (is_submission o (mkTransitionRow o (Some OrderState.Prepared) OrderState.Submitting "{}"
    (utc_clock (tick s))) = true) as -> by (unfold is_submission; cbn; by rewrite !bool_decide_true).
  cbn [length]. lia.
Qed.

Lemma runs_submit_call p r : Runs (call_venue SUBMISSION_CALL_TIMEOUT (submit p r)).
Proof. venue_call. Qed.
Hint Resolve runs_submit_call : runs.
Lemma runs_after_submission i o p r :
  Runs (submission ← call_venue SUBMISSION_CALL_TIMEOUT (submit p r);
    match or_elapsed (VenueError.Ambiguous
            "submission deadline exceeded after SUBMITTING commit") submission with
    | inr submission => accept_submission self i o submission
    | inl error =>
        if VenueError.is_ambiguous error then doubt_submission self i o p error
        else refuse_submission self i o error
    end).
Proof. unfold accept_submission, doubt_submission, refuse_submission. run. Qed.

(** [submit] is called for an order that has just been taken to SUBMITTING. *)
Lemma advance_begun i o w s :
  begin_submission st i o (w_sys w) = (Done tt, s) →
  advance self K w (w <| w_sys := s |> <| w_calls := w_calls w ++ [CallSubmit o] |>).
Proof.
  intros Hb. destruct (begin_submission_journal _ _ _ _ _ Hb) as [Hready Hj].
  assert (rtc (store_step st) (w_sys w) s) as Hs.
  { apply rtc_once. replace s with (begin_submission st i o (w_sys w)).2 by by rewrite Hb.
    constructor. apply Op_begin_submission. }
  assert (control_text s = control_text (w_sys w)) as Hc.
  { replace s with (begin_submission st i o (w_sys w)).2 by by rewrite Hb.
    assert (frames control_state (begin_submission st i o)) as Hf by (unfold_op; frame).
    unfold control_text. by rewrite Hf. }
  split; [exact Hs|]. exists [CallSubmit o]. split_and!; [done| |].
  2: { cbn. rewrite Hc. unfold control_text. intros _ HK. split; [done|]. by rewrite Hready in HK. }
  intros id. unfold submits. cbn. case_bool_decide as Hid; [subst; cbn; lia|].
  by apply (journal_grows self).
Qed.

Lemma runs_defer_recovery i : Runs (defer_recovery i).
Proof. unfold defer_recovery. run. Qed.
Hint Resolve runs_defer_recovery : runs.
Lemma runs_begun i o p r :
  Runs (begun ← attempt (call_store (begin_submission st i o));
    match begun with
    | inr _ => submit_to_venue self i o p r
    | inl (CoordinatorError.Store (NewRiskDisabled _)) => defer_recovery i
    | inl error => fail error
    end).
Proof.
  intros w Hw. unfold attempt, try, call_store, mbind, prog_bind.
  pose proof (runs_await self HL K w Hw) as Ha.
  destruct (await w) as [[u|e|] w1] eqn:Hawait; [|by unfold await in Hawait; case_match|done].
  cbn in Ha. assert (P (w_sys w1)) as Hw1 by (eapply HP; [apply Ha|done]).
  etrans; [exact Ha|].
  assert (advance self K w1 (run_store (begin_submission st i o) w1).2) as Hbegin.
  { eapply (runs_run_store self K); [intros; apply Op_begin_submission|control_call|exact Hw1]. }
  unfold run_store in *.
  destruct (begin_submission st i o (w_sys w1)) as [[[]|e|] s] eqn:Hb; cbn [map_err].
  - pose proof (advance_begun i o w1 s Hb) as Hadv. etrans; [exact Hadv|].
    apply (runs_after_submission i o p r). eapply HP; [apply Hadv|done].
  - etrans; [exact Hbegin|]. destruct e; try done. apply (runs_defer_recovery i).
    eapply HP; [apply Hbegin|done].
  - exact Hbegin.
Qed.
Hint Resolve runs_begun : runs.

Lemma runs_submit_prepared i o p r : Runs (submit_prepared self i o p r).
Proof. unfold submit_prepared. run. Qed.
Hint Resolve runs_submit_prepared : runs.

(** ** Intents *)

Lemma runs_resume_prepared i intent : Runs (resume_prepared self i intent).
Proof. unfold resume_prepared, intent_request. run. Qed.
Lemma runs_reject_received i c m : Runs (reject_received self i c m).
Proof. unfold reject_received. run. Qed.
Lemma runs_reject_validating i c m : Runs (reject_validating self i c m).
Proof. unfold reject_validating. run. Qed.
Hint Resolve runs_resume_prepared runs_reject_received runs_reject_validating : runs.

Lemma runs_ask_venue {A} (m : Prog (Sys * V) VenueError A) refuse elapsed k :
  Runs (call_venue VENUE_CALL_TIMEOUT m) →
  (∀ e, Runs (refuse e)) → Runs elapsed → (∀ a, Runs (k a)) → Runs (ask_venue m refuse elapsed k).
Proof. intros Hm Hr He Hk. unfold ask_venue. run; auto. Qed.
Ltac ask := apply runs_ask_venue; [venue_call|intros ?| |intros ?]; run.

Lemma runs_place_order i intent r market book : Runs (place_order self i intent r market book).
Proof. unfold place_order. run. ask. Qed.
Hint Resolve runs_place_order : runs.
Lemma runs_validate_and_place i intent r : Runs (validate_and_place self i intent r).
Proof.
  unfold validate_and_place, now_utc. run. ask. ask. unfold check_and_place, now_utc. run.
Qed.
Hint Resolve runs_validate_and_place : runs.
Lemma runs_process_intent i : Runs (process_intent self i).
Proof.
  unfold process_intent, process_intent_inner, process_ready, intent_request. run.
Qed.
Hint Resolve runs_process_intent : runs.

(** ** Resuming, starting and stopping *)

Lemma runs_enqueue_recovered i : Runs (enqueue_recovered i).
Proof. unfold enqueue_recovered, send. run. Qed.
Hint Resolve runs_enqueue_recovered : runs.
Lemma runs_resume_checks reason : Runs (resume_checks self reason).
Proof. unfold resume_checks, need_reason. run. Qed.
Lemma runs_requeue_deferred : Runs requeue_deferred.
Proof. unfold requeue_deferred. run. apply runs_memory. by intros w. Qed.
Hint Resolve runs_resume_checks runs_requeue_deferred : runs.
Lemma runs_startup_state : K "RECONCILING" → Runs (startup_state self).
Proof. intros. unfold startup_state. run. Qed.
Lemma runs_startup_recovery : Runs (startup_recovery self).
Proof. unfold startup_recovery. run. Qed.
Lemma runs_startup_checks prior : Runs (startup_checks self prior).
Proof. unfold startup_checks. run. Qed.
Hint Resolve runs_startup_state runs_startup_recovery runs_startup_checks : runs.
Lemma runs_shutdown c : K "SHUTTING_DOWN" → Runs (shutdown self c).
Proof. intros. unfold shutdown, coordinator_cancel, reconcile. run. Qed.

(** ** The tasks *)

Lemma runs_take_up i : Runs (attempt (process_intent self i);; mret tt).
Proof. run. Qed.
Lemma runs_worker_turn : Runs (worker_turn self).
Proof.
  intros w Hw. unfold worker_turn. destruct (w_queue w) as [|i rest]; [done|].
  etrans; [|apply (runs_take_up i); exact Hw]. by apply advance_silent.
Qed.
Lemma runs_heartbeat_lost reason trigger : Runs (heartbeat_lost self reason trigger).
Proof. unfold heartbeat_lost, halt, reconcile. run. Qed.
Hint Resolve runs_heartbeat_lost : runs.
Lemma runs_heartbeat_turn interval : Runs (heartbeat_turn self interval).
Proof.
  unfold heartbeat_turn, now_instant, reconcile. eapply runs_bind; [eassumption..|venue_call|].
  intros ?. run.
Qed.
End functions_2.
#[export] Hint Resolve runs_reconcile_inner runs_close_unsafe_run runs_reconcile_started_inner
  runs_execute_cancellation runs_cancel_inner runs_halt_inner runs_spawn runs_set_halted
  runs_resume_checks runs_requeue_deferred runs_startup_state runs_startup_recovery
  runs_startup_checks runs_enqueue_recovered runs_shutdown runs_worker_turn
  runs_heartbeat_turn : runs.
