(* ===== verification/CoordinatorHistory.v ===== *)
(** * CoordinatorHistory: the histories of the coordinator

    The tasks of the coordinator, restarts of the process and the work of the
    other tasks are the steps of a world; what holds after every sequence of
    them follows from what each function may do to the world. *)
From S2P Require Import Prelude Text DecimalSpec RefDecimal Json Platform Domain Venue Fixtures Risk Schema StoreIntents StoreRisk StoreOrders StoreControl StorePaper StoreFixtures StoreLogic Lifecycle OrderHistory Coordinator CoordinatorSteps.

Section histories.
Context `{DL : DecimalLaws} `{Platform} `{Codec}.
Context {V : Type} `{Venue : !ExecutionVenue (Sys * V)} `{Sched : !Schedule V}.
Variable self : ExecutionCoordinator.
Notation Coord := (Prog (World V) CoordinatorError).
Notation st := (store self).

(** What runs in the coordinator, with the service states it may set. *)
Inductive task : list ServiceState → ∀ A, Coord A → Prop :=
| Task_worker : task [Halted] _ (worker_turn self)
| Task_reconciliation : task [Halted] _ (reconciliation_turn self)
| Task_heartbeat interval : task [Halted] _ (heartbeat_turn self interval)
| Task_enqueue intent_id : task [Halted] _ (enqueue intent_id)
| Task_cancel actor request : task [Halted] _ (coordinator_cancel self actor request)
| Task_cancellation id targets : task [Halted] _ (execute_cancellation self id targets)
| Task_protective reason : task [Halted] _ (protective_cancellation self reason)
| Task_reconcile trigger : task [Halted] _ (reconcile self trigger)
| Task_started_reconciliation id : task [Halted] _ (reconcile_started self id)
| Task_halt actor reason : task [Halted] _ (halt self actor reason)
| Task_halt_idempotent actor key reason : task [Halted] _ (halt_idempotent self actor key reason)
| Task_shutdown c : task [Halted; ShuttingDown] _ (shutdown self c)
| Task_startup : task [Halted; Reconciling; Ready] _ (startup self)
| Task_resume actor reason : task [Halted; Ready] _ (resume self actor reason)
| Task_resume_idempotent actor key reason :
    task [Halted; Ready] _ (resume_idempotent self actor key reason).

(** The process starts again, later: what was in memory is gone. *)
Definition restarted (w : World V) : World V :=
  w <| w_queue := [] |> <| w_deferred_recovery := [] |> <| w_last_healthy_heartbeat := None |>
    <| w_spawned := [] |> <| w_stopped := false |> <| w_time := S (w_time w) |>.

(** The steps of a world whose service stays in the states [K]. *)
Inductive world_step (K : string → Prop) (w : World V) : World V → Prop :=
| Step_task states A (m : Coord A) :
    task states A m → (∀ state, state ∈ states → K (service_state_text state)) →
    world_step K w (m w).2
| Step_restart : world_step K w (restarted w)
| Step_others n : world_step K w (set_world (others n (w_sys w, w_venue w)) w).

Lemma reachable_persistent : persistent self (reachable st).
Proof. intros s s' Hs (s0 & Hf & H0s). exists s0. split; [done|]. by etrans. Qed.
Lemma reachable_unique s : reachable st s → NoDup (oid <$> orders (db s)).
Proof. intros []%reachable_inv. done. Qed.

(** What the histories need of a database: that it is reachable, or only sound. *)
Record kept (P : Sys → Prop) : Prop := {
  kept_persistent : persistent self P;
  kept_unique s : P s → NoDup (oid <$> orders (db s));
}.
Lemma reachable_kept : kept (reachable st).
Proof. split; [apply reachable_persistent|apply reachable_unique]. Qed.
Definition sound (s : Sys) : Prop := Inv (db s).
Lemma sound_kept : kept sound.
Proof.
  split; [|by intros s []]. intros s s' Hs Hi. eapply (steps_good st (db s)); [exact Hs|by split].
Qed.

Section kept.
Context {P : Sys → Prop} (HK : kept P).

Lemma task_runs (HL : lawful self) K states A (m : Coord A) :
  task states A m → (∀ state, state ∈ states → K (service_state_text state)) →
  runs self K P m.
Proof.
  destruct HK as [HP HU]. intros Htask Hin. assert (K "HALTED") as Kh by (apply (Hin Halted); destruct Htask; constructor).
  destruct Htask;
    try (assert (K "SHUTTING_DOWN") by (apply (Hin ShuttingDown); repeat constructor; fail));
    try (assert (K "RECONCILING") by (apply (Hin Reconciling); repeat constructor; fail));
    try (assert (K "READY") by (apply (Hin Ready); repeat constructor; fail));
    unfold reconciliation_turn, reconcile, enqueue, coordinator_cancel, protective_cancellation,
      coordinator_cancel, reconcile_started, halt, halt_idempotent, need_reason, startup, resume,
      resume_idempotent; run.
  apply runs_memory. intros w. unfold enqueue. by case_match.
Qed.

(** Every step of a world, and so every history, is an advance of the world. *)
Lemma world_step_advance (HL : lawful self) K w w' :
  world_step K w w' → P (w_sys w) → advance self K w w'.
Proof.
  intros Hstep Hw. destruct Hstep as [states A m Htask Ha| |n].
  - by apply (task_runs HL K states A m).
  - by apply advance_silent.
  - apply advance_silent; [|done|].
    + apply (lawful_others _ HL n (w_sys w, w_venue w)).
    + intros Hc. apply (calm_others _ Hc n (w_sys w, w_venue w)).
Qed.
Lemma history_advance (HL : lawful self) K w w' :
  rtc (world_step K) w w' → P (w_sys w) → advance self K w w'.
Proof.
  induction 1 as [w|w w1 w2 Hstep _ IH]; intros Hw; [done|].
  pose proof (world_step_advance HL K w w1 Hstep Hw) as Hadv. etrans; [exact Hadv|].
  apply IH. eapply (kept_persistent _ HK); [apply Hadv|done].
Qed.
End kept.

Lemma journal_at_most_once s id : sound s → (journal (db s) id ≤ 1)%nat.
Proof.
  intros Hr. unfold journal.
  destruct (decide (id ∈ oid <$> orders (db s))) as [(o & -> & Ho)%list_elem_of_fmap|Hn].
  - etrans; [by apply (inv_submissions _ Hr)|]. unfold submissions_allowed. case_match; lia.
  - unfold submissions. destruct (List.filter _ _) as [|t l] eqn:Hf; [cbn; lia|].
    assert (t ∈ List.filter (is_submission id) (order_transitions (db s))) as Ht
      by (rewrite Hf; set_solver).
    apply list_elem_of_In, filter_In in Ht as [Ht Hp]. destruct Hn.
    apply list_elem_of_In in Ht. destruct (inv_transitions _ Hr t Ht) as (o & Ho & Hid).
    unfold is_submission in Hp. apply andb_true_iff in Hp as [[Hp _]%andb_true_iff _].
    apply bool_decide_eq_true in Hp. apply list_elem_of_fmap. exists o. by rewrite Hid.
Qed.

(** The venue is asked to place an order at most once.  Start from a
    database without orders and let the tasks of the coordinator run in any
    order, be stopped at any [await], time out, fail, and be started again, with
    other tasks at work between any two of their calls: [submit] is called at
    most once for each order. *)
Theorem venue_submit_at_most_once w w' id :
  lawful self → fresh (w_sys w) → w_calls w = [] → rtc (world_step (λ _, True)) w w' →
  (submits id (w_calls w') ≤ 1)%nat.
Proof.
  intros HL Hf Hc Hs.
  assert (reachable st (w_sys w)) as Hr by (by exists (w_sys w)).
  destruct (history_advance reachable_kept HL _ w w' Hs Hr) as [Hsteps (new & E & J & _)].
  rewrite Hc in E. cbn in E. subst new. specialize (J id).
  pose proof (journal_at_most_once (w_sys w') id) as Hj.
  specialize (Hj ltac:(by eapply reachable_inv, reachable_persistent)). lia.
Qed.

(** C15. A service that is not READY places no order and does not arm itself.
    Whatever the worker, the reconciliations, the heartbeats, the cancellations,
    the halts and the shutdown do, and however often the process is restarted,
    the state does not become READY and [submit] is not called, as long as
    neither [startup] nor [resume] runs. *)
Theorem disarmed_service_submits_nothing w w' :
  lawful self → calm (λ t, t ≠ "READY") → reachable st (w_sys w) →
  control_text (w_sys w) ≠ "READY" → rtc (world_step (λ t, t ≠ "READY")) w w' →
  control_text (w_sys w') ≠ "READY" ∧ ∀ id, submits id (w_calls w') = submits id (w_calls w).
Proof.
  intros HL Hcalm Hr Hd Hs.
  destruct (history_advance reachable_kept HL _ w w' Hs Hr) as [_ (new & E & _ & C)].
  destruct (C Hcalm Hd) as [Hd' Hn]. split; [done|]. intros id.
  rewrite E. unfold submits in *. rewrite List.filter_app, length_app, Hn by tauto. lia.
Qed.

(** A sound database whose service is in a state of [K]. *)
Definition held (K : string → Prop) (w : World V) : Prop :=
  sound (w_sys w) ∧ K (control_text (w_sys w)).
Lemma advance_held K w w' : calm K → advance self K w w' → held K w → held K w'.
Proof.
  intros Hc [Hs (new & _ & _ & C)] [Hr Hk]. split; [by eapply (kept_persistent _ sound_kept)|by apply C].
Qed.
(** One step after the other, with what the first one returned. *)
Lemma held_bind K {A B} (m : Coord A) (k : A → Coord B) w :
  calm K → held K w → advance self K w (m w).2 →
  (∀ a w1, m w = (Done a, w1) → held K w1 → advance self K w1 (k a w1).2) →
  advance self K w ((m ≫= k) w).2.
Proof.
  intros Hc Hw Hm Hk. unfold mbind, prog_bind. destruct (m w) as [[a|e|] w1]; cbn in *; [|done..].
  etrans; [exact Hm|]. apply Hk; [done|]. by eapply advance_held.
Qed.
Notation latched := (λ t, t = "HALTED").

Lemma advance_query K {A} (m : Prog Sys StoreError A) w :
  lawful self → reads m → advance self K w (call_store m w).2.
Proof.
  intros HL Hm. eapply (runs_query self HL K (P := λ _, True)); [by intros ????|exact Hm|done].
Qed.

(** Whoever reads the state of a halted service reads HALTED. *)
Lemma read_latched w a w1 :
  held latched w1 → call_store service_state w = (Done a, w1) → a.1.1 = Halted.
Proof.
  intros [_ Hc] Hread. apply call_store_query in Hread; [|query].
  unfold service_state, service_state_with_revision in Hread. run_inv. cbn.
  match goal with Hp : parse_service_state _ = Done _ |- _ =>
    unfold control_text in Hc; rewrite Hc in Hp; by injection Hp as <- end.
Qed.
Lemma held_read {B} (k : ServiceState * string * DateTime → Coord B) w :
  lawful self → calm latched → held latched w →
  (∀ reason now w1, held latched w1 → advance self latched w1 (k (Halted, reason, now) w1).2) →
  advance self latched w ((call_store service_state ≫= k) w).2.
Proof.
  intros HL Hc Hw Hk. apply held_bind; [done..|apply advance_query; [done|query]|].
  intros [[state r] t] w1 Hread Hw1. apply read_latched in Hread as Hst; [|done].
  cbn in Hst. rewrite Hst. by apply Hk.
Qed.

(** [startup] from its second part on. *)
Definition startup_tail (prior_state : ServiceState) : Coord () :=
  recoverable ← startup_recovery self;
  startup_checks self prior_state;;
  '(state, _, _) ← call_store service_state;
  if state ≟ Halted then modify (λ w, w <| w_deferred_recovery := recoverable |>)
  else
    call_store (set_service_state st "system" Ready "startup checks passed");;
    for_each recoverable enqueue_recovered.
Lemma startup_tail_halted w :
  lawful self → calm latched → held latched w → advance self latched w (startup_tail Halted w).2.
Proof.
  intros HL Hc Hw. destruct sound_kept as [HP HU].
  assert (latched "HALTED") as Kh by done. unfold startup_tail.
  apply held_bind; [done..|by apply (runs_startup_recovery self HL latched Kh HP HU), Hw|].
  intros recoverable w2 _ Hw2.
  apply held_bind; [done..|by apply (runs_startup_checks self HL latched Kh HP HU), Hw2|].
  intros [] w3 _ Hw3. apply held_read; [done..|]. intros r' t' w4 _. by apply advance_silent.
Qed.
(** What a latched service may do, it may do in any states with HALTED. *)
Lemma advance_latched (K : string → Prop) w w' :
  calm latched → control_text (w_sys w) = "HALTED" → K "HALTED" →
  advance self latched w w' → advance self K w w'.
Proof.
  intros Hc Hw Kh [Hs (new & E & J & C)]. split; [done|]. exists new. split; [done|]. split; [done|].
  intros _ _. destruct (C Hc Hw) as [-> Hn]. split; [done|]. intros _. by apply Hn.
Qed.

(** [startup] of a service that is halted. *)
Lemma startup_halted w :
  lawful self → calm latched → held latched w → advance self latched w (startup self w).2.
Proof.
  intros HL Hcalm Hw. change (startup self) with (startup_state self ≫= startup_tail).
  unfold startup_state. rewrite bind_bind. apply held_read; [done..|].
  intros r t w0 Hw0. apply held_bind; [done..|]. intros prior w1 Hp Hw1.
  cbn in Hp. injection Hp as <- <-. by apply startup_tail_halted.
Qed.
Lemma latched_advance w w' :
  calm latched → control_text (w_sys w) = "HALTED" → advance self latched w w' →
  control_text (w_sys w') = "HALTED" ∧ ∀ id, submits id (w_calls w') = submits id (w_calls w).
Proof.
  intros Hcalm Hc [_ (new & E & _ & C)]. destruct (C Hcalm Hc) as [Hc' Hn]. split; [done|].
  intros id. rewrite E. unfold submits in *. rewrite List.filter_app, length_app, Hn by done. lia.
Qed.

(** A halt is latched.  The process may stop and start as often as it wants:
    when the database says HALTED, [startup] runs its recoveries and its
    reconciliation, and leaves the service HALTED, whatever its outcome. *)
Theorem startup_keeps_halt w :
  lawful self → calm latched → reachable st (w_sys w) → control_text (w_sys w) = "HALTED" →
  let w' := (startup self w).2 in
  control_text (w_sys w') = "HALTED" ∧ ∀ id, submits id (w_calls w') = submits id (w_calls w).
Proof.
  intros HL Hcalm Hr%reachable_inv Hc. apply latched_advance; [done..|]. by apply startup_halted.
Qed.

(** *** A shutdown *)
Notation stopping := (λ t, t = "HALTED" ∨ t = "SHUTTING_DOWN").

Lemma call_store_done {A} (m : Prog Sys StoreError A) w a w' :
  call_store m w = (Done a, w') → ∃ s, m s = (Done a, w_sys w').
Proof.
  intros (u & w1 & _ & Hr)%bind_done. unfold run_store in Hr. exists (w_sys w1).
  destruct (m (w_sys w1)) as [r s]. injection Hr as Hr <-. by destruct r; simplify_eq/=.
Qed.
Lemma set_state_done actor state reason w w' :
  call_store (set_service_state st actor state reason) w = (Done tt, w') →
  control_text (w_sys w') = service_state_text state.
Proof.
  intros Hset. apply call_store_done in Hset as [s Hset]. unfold set_service_state in Hset.
  unfold control_text. by rewrite (service_state_sets _ _ _ _ _ _ _ _ _ Hset).
Qed.
(** Whoever reads the state of a service that was shut down. *)
Lemma read_stopping w a w1 :
  held stopping w1 → call_store service_state w = (Done a, w1) →
  service_state_text a.1.1 = control_text (w_sys w1) ∧ (a.1.1 = Halted ∨ a.1.1 = ShuttingDown).
Proof.
  intros [_ Hc] Hread. apply call_store_query in Hread; [|query].
  unfold service_state, service_state_with_revision in Hread. run_inv. cbn.
  match goal with Hp : parse_service_state _ = Done _ |- _ => unfold control_text in *;
    destruct Hc as [Hc|Hc]; rewrite Hc in Hp |- *; injection Hp as <-; split; tauto end.
Qed.

Lemma done_advance {A} K (m : Coord A) w a w' :
  runs self K sound m → sound (w_sys w) → m w = (Done a, w') → advance self K w w'.
Proof. intros Hm Hr Hd. specialize (Hm w Hr). by rewrite Hd in Hm. Qed.
(** What comes of a sequence: its second part, or the failure of the first. *)
Lemma bind_cases {A B} (m : Coord A) (k : A → Coord B) (P : outcome CoordinatorError B * World V → Prop) w :
  (∀ a w1, m w = (Done a, w1) → P (k a w1)) →
  (∀ r w1, (∀ b, r ≠ Done b) → (m w).2 = w1 → P (r, w1)) →
  P ((m ≫= k) w).
Proof.
  intros Hk Hf. unfold mbind, prog_bind. destruct (m w) as [[a|e|] w1]; [by apply Hk|by apply Hf..].
Qed.
(** A startup after a shutdown that may not have come to its end. *)
Definition started (w : World V) (p : outcome CoordinatorError () * World V) : Prop :=
  advance self stopping w p.2 ∧ (p.1 = Done tt → control_text (w_sys p.2) = "HALTED").
Lemma started_halted w w1 :
  lawful self → calm latched → advance self stopping w w1 → held latched w1 →
  started w (startup_tail Halted w1).
Proof.
  intros HL Hl H01 Hw1. pose proof (startup_tail_halted w1 HL Hl Hw1) as Hadv. split.
  - etrans; [exact H01|]. apply advance_latched; [done|apply Hw1|by left|done].
  - intros _. by apply (advance_held latched w1).
Qed.
Lemma startup_stopping w :
  lawful self → calm latched → calm stopping → held stopping w → started w (startup self w).
Proof.
  intros HL Hl Hs Hw. change (startup self) with (startup_state self ≫= startup_tail).
  unfold startup_state. rewrite !bind_bind. destruct sound_kept as [HP HU]. assert (stopping "HALTED") as Kh by by left.
  assert (advance self stopping w (call_store service_state w).2) as H01
    by (apply advance_query; [done|query]).
  apply bind_cases.
  2: { intros r w1 Hr <-. split; [exact H01|]. intros Hd. by apply Hr in Hd. }
  intros [[state reason] now] w1 Hread. rewrite Hread in H01. cbn [snd] in H01.
  assert (held stopping w1) as Hw1 by (by apply (advance_held stopping w)).
  apply read_stopping in Hread as [Htext Hstate]; [|done]. cbn in Htext, Hstate.
  destruct Hstate as [->| ->]; cbn beta iota zeta; rewrite !bind_bind.
  - apply started_halted; [done..|]. by split; [apply Hw1|].
  - apply bind_cases.
    + intros prior w2 Hset. apply bind_done in Hset as ([] & w2' & Hset & [= <- <-]).
      assert (advance self stopping w1 w2') as H12.
      { eapply done_advance; [|exact (proj1 Hw1)|exact Hset]. run. }
      apply started_halted; [done..|by etrans|].
      split; [by apply (advance_held stopping w1)|by apply set_state_done in Hset].
    + intros r w2 Hr <-. split; [|intros Hd; by apply Hr in Hd]. etrans; [exact H01|].
      assert (runs self stopping sound (set_halted self
        "previous shutdown did not reach its durable completion marker" ≫= λ _ : (), mret Halted)) as Hrun by run.
      apply Hrun, Hw1.
Qed.

(** C16. After a shutdown nothing trades until somebody resumes.  Once [shutdown] has
    written SHUTTING_DOWN, it may fail, panic or be stopped anywhere: the next
    [startup] of the process submits nothing, and when it succeeds it leaves the
    service HALTED; when it fails the service is HALTED or still SHUTTING_DOWN. *)
Theorem shutdown_needs_resume cancel w w1 :
  lawful self → calm latched → calm stopping → reachable st (w_sys w) →
  call_store (set_service_state st "system" ShuttingDown "signal received") w = (Done tt, w1) →
  let w2 := restarted (shutdown self cancel w).2 in
  let '(r, w3) := startup self w2 in
  (control_text (w_sys w3) = "HALTED" ∨
   r ≠ Done tt ∧ control_text (w_sys w3) = "SHUTTING_DOWN") ∧
  ∀ id, submits id (w_calls w3) = submits id (w_calls w1).
Proof.
  intros HL Hl Hs Hr%reachable_inv Hset. cbv zeta. destruct sound_kept as [HP HU]. set (K := stopping) in *.
  assert (K "HALTED") as Kh by by left. assert (K "SHUTTING_DOWN") as Ks by by right.
  assert (held K w1) as Hw1.
  { split; [|right; by apply set_state_done in Hset].
    eapply HP; [|exact Hr]. assert (advance self K w w1) as [Hsteps _]; [|done].
    eapply done_advance; [|done|exact Hset]. run. }
  assert (advance self K w1 (shutdown self cancel w).2) as Hdown.
  { unfold shutdown. apply (bind_cases _ _ (λ p, advance self K w1 p.2)).
    2: { intros r w1' _ <-. by rewrite Hset. }
    intros [] w1' Hset'. rewrite Hset in Hset'. injection Hset' as <-.
    match goal with |- advance _ _ _ (?m w1).2 => assert (runs self K sound m) as Hm end.
    { unfold reconcile, coordinator_cancel. run. by apply runs_memory. }
    apply Hm, Hw1. }
  assert (held K (restarted (shutdown self cancel w).2)) as Hw2.
  { apply (advance_held K w1) in Hdown; done. }
  destruct (startup_stopping _ HL Hl Hs Hw2) as [Hup Hend].
  destruct (startup self _) as [r w3]; cbn in Hup, Hend.
  assert (advance self K w1 w3) as [_ (new & E & _ & C)].
  { etrans; [exact Hdown|]. etrans; [|exact Hup]. by apply advance_silent. }
  destruct (C Hs (proj2 Hw1)) as [Hc Hn]. split.
  - destruct (decide (control_text (w_sys w3) = "HALTED")) as [|Hx]; [by left|right].
    split; [|by destruct Hc]. intros Hd. by apply Hx, Hend.
  - intros id. rewrite E. unfold submits in *. rewrite List.filter_app, length_app, Hn by by intros [?|?]. lia.
Qed.

(** ** Doubt *)

Lemma transition_kept t : order_stable (λ d, t ∈ order_transitions d).
Proof. split; [by intros d d' _ <-|done..|]. intros t' d Ht. cbn. set_solver. Qed.
Lemma finish_unknown i o v c q p ids ev s u s' :
  finish_submission st i o IntentState.Unknown OrderState.Unknown v c q p ids ev s = (Done u, s') →
  ∃ t, t ∈ order_transitions (db s') ∧ tr_order_id t = o ∧
    tr_prior_state t = Some OrderState.Submitting ∧ tr_new_state t = OrderState.Unknown.
Proof.
  intros Hr. unfold finish_submission, insert_transition in Hr. db_inv.
  eexists. split; [apply elem_of_app; right; by apply list_elem_of_singleton|done].
Qed.

(** The answer to a submission that is not a definite one. *)
Definition doubtful (r : outcome VenueError VenueSubmission) : Prop :=
  match r with Failed e => VenueError.is_ambiguous e = true | _ => False end.
Lemma doubtful_call p r w a w' :
  (∀ sv, doubtful (submit p r sv).1) →
  call_venue SUBMISSION_CALL_TIMEOUT (submit p r) w = (Done a, w') →
  ∃ e, VenueError.is_ambiguous e = true ∧
    or_elapsed (VenueError.Ambiguous "submission deadline exceeded after SUBMITTING commit") a
      = inl e.
Proof.
  intros Hd (u & w1 & _ & Hr)%bind_done. unfold run_venue in Hr.
  destruct (deadline _ _); [simplify_eq/=; by eexists (VenueError.Ambiguous _)|].
  specialize (Hd (w_sys w1, w_venue w1)). destruct (submit p r _) as [[|e|]]; try done.
  simplify_eq/=. by exists e.
Qed.

(** C26. A submission of unknown outcome stops the trading.  When the venue's
    answer is ambiguous, or does not come in time, and the coordinator gets to
    the end of [submit_to_venue], the journal says that the order went from
    SUBMITTING to UNKNOWN and the service is not READY. *)
Theorem ambiguous_submission_disarms i o p r w w' :
  lawful self → calm (λ t, t ≠ "READY") → reachable st (w_sys w) →
  (∀ sv, doubtful (submit p r sv).1) →
  submit_to_venue self i o p r w = (Done tt, w') →
  control_text (w_sys w') ≠ "READY" ∧
  ∃ t, t ∈ order_transitions (db (w_sys w')) ∧ tr_order_id t = o ∧
    tr_prior_state t = Some OrderState.Submitting ∧ tr_new_state t = OrderState.Unknown.
Proof.
  intros HL Hcalm Hr%reachable_inv Hd Hrun. destruct sound_kept as [HP HU].
  set (K := λ t, t ≠ "READY") in *. assert (K "HALTED") as Kh by done.
  unfold submit_to_venue, doubt_submission in Hrun.
  apply bind_done in Hrun as ([] & w1 & Hnote & Hrun).
  apply bind_done in Hrun as (answer & w2 & Hcall & Hrun).
  destruct (doubtful_call p r w1 answer w2 Hd Hcall) as (e & He & Ha). rewrite Ha, He in Hrun.
  apply bind_done in Hrun as ([] & w3 & Hfinish & Hrun).
  apply bind_done in Hrun as ([] & w6 & Hhalt & Hrun). unfold halt_inner in Hhalt.
  apply bind_done in Hhalt as ([] & w4 & Hreason & Hhalt).
  apply bind_done in Hhalt as ([] & w5 & Hset & Hhalt).
  assert (sound (w_sys w1)) as Hr1 by (by injection Hnote as <-).
  assert (advance self K w1 w2) as A12.
  { eapply done_advance; [|done|exact Hcall]. eapply runs_submit_call; eassumption. }
  assert (advance self K w2 w3) as A23.
  { eapply done_advance; [|by eapply HP; [apply A12|]|exact Hfinish]. run. }
  assert (sound (w_sys w3)) as Hr3 by (eapply HP; [apply A23|]; by eapply HP; [apply A12|]).
  apply ensure_done in Hreason as [_ ->].
  assert (advance self K w3 w5) as A35 by (eapply done_advance; [|done|exact Hset]; run).
  assert (sound (w_sys w5)) as Hr5 by by eapply HP; [apply A35|].
  assert (advance self K w5 w6) as A56.
  { eapply done_advance; [|done|exact Hhalt]. unfold cancel_on_halt_inner. run. }
  assert (advance self K w6 w') as A67.
  { eapply done_advance; [|by eapply HP; [apply A56|]|exact Hrun]. unfold reconcile_ignored. run. }
  assert (held K w5) as Hw5.
  { split; [done|]. apply set_state_done in Hset. by rewrite Hset. }
  split.
  - apply (advance_held K w6); [done..|]. by apply (advance_held K w5).
  - apply call_store_done in Hfinish as [s (t & Ht & Hspec)%finish_unknown]. exists t.
    split; [|done]. eapply (steps_orders st (transition_kept t)); [|exact Ht].
    etrans; [apply A35|]. etrans; [apply A56|apply A67].
Qed.
End histories.
