(* ===== verification/Moves.v ===== *)
(** * Moves: programs that take the database along the store's operations

    What the handlers of the API and the functions of the coordinator have in
    common: from a reachable database they reach databases by operations of the
    store only. *)
From S2P Require Import Prelude Text DecimalSpec RefDecimal Json Platform Domain Venue Risk Schema StoreIntents StoreRisk StoreOrders StoreControl StoreLogic Lifecycle OrderHistory Coordinator CoordinatorSteps CoordinatorHistory.

Section moves.
Context `{DL : DecimalLaws} `{Platform} `{Codec}.
Context {V : Type} `{Venue : !ExecutionVenue (Sys * V)} `{Sched : !Schedule V}.
Variable coordinator : ExecutionCoordinator.
Notation st := (store coordinator).

Section programs.
Context {W E : Type} (π : W → Sys).
Definition moves {A} (m : Prog W E A) : Prop :=
  ∀ w, reachable st (π w) → rtc (store_step st) (π w) (π (m w).2).

Lemma moves_done {A} (m : Prog W E A) w a w' :
  moves m → reachable st (π w) → m w = (Done a, w') →
  rtc (store_step st) (π w) (π w') ∧ reachable st (π w').
Proof.
  intros Hm Hw Hr. specialize (Hm w Hw). rewrite Hr in Hm. cbn in Hm.
  split; [done|]. by eapply reachable_persistent.
Qed.
Lemma moves_bind {A B} (m : Prog W E A) (k : A → Prog W E B) :
  moves m → (∀ a, moves (k a)) → moves (m ≫= k).
Proof.
  intros Hm Hk w Hw. specialize (Hm w Hw). unfold mbind, prog_bind.
  destruct (m w) as [[a|e|] w1]; cbn in *; [|done..].
  etrans; [exact Hm|]. apply Hk. by eapply reachable_persistent.
Qed.
Lemma moves_still {A} (m : Prog W E A) : (∀ w, π (m w).2 = π w) → moves m.
Proof. intros Hm w _. rewrite Hm. apply rtc_refl. Qed.
End programs.

Lemma moves_runs {A} (m : Prog (World V) CoordinatorError A) :
  runs coordinator (λ _, True) (reachable st) m → moves w_sys m.
Proof. intros Hm w Hw. apply (Hm w Hw). Qed.
Lemma moves_call_store {A} (m : Prog Sys StoreError A) :
  lawful coordinator → (∀ d, store_op st d A m) →
  moves w_sys (call_store m : Prog (World V) CoordinatorError A).
Proof.
  intros HL Hop. apply moves_bind.
  { apply moves_runs, runs_await. exact HL. }
  intros _ w _. unfold run_store. destruct (m (w_sys w)) as [r s] eqn:E. cbn.
  apply rtc_once. replace s with (m (w_sys w)).2 by by rewrite E. constructor. apply Hop.
Qed.
End moves.
