(* ===== verification/CoordinatorFixtures.v ===== *)
(** * CoordinatorFixtures: a venue, a schedule and a run of the coordinator

    The venue of the tests of execution.rs, with an answer to [submit] that can
    be chosen, and a schedule in which a client's request is admitted. *)
From S2P Require Import Prelude Text DecimalSpec RefDecimal Json Platform Domain Venue Fixtures Risk Schema StoreIntents StoreRisk StoreOrders StoreControl StorePaper StoreFixtures StoreLogic Lifecycle OrderHistory Coordinator CoordinatorSteps CoordinatorHistory.

Section fixtures.
#[local] Existing Instance RefOps.
#[local] Existing Instance RefLaws.
#[local] Existing Instance RefPlatform.

(** A codec that knows the one request. *)
Definition CoordinatorCodec : Codec := {|
  intent_from_json _ := None;
  request_from_json _ := Some fix_request;
  strings_from_json _ := Some [];
  uuids_from_json _ := Some [];
  json_extract _ _ := None;
  error_detail _ := "detail";
|}.
#[local] Existing Instance CoordinatorCodec.

Definition fake_submission : VenueSubmission :=
  mkVenueSubmission "venue-1" OrderState.Live dec_ZERO None [] (JObject []).
Definition fake_prepared : PreparedVenueOrder :=
  mkPreparedVenueOrder "fake-1" "payload" None None None 2 "fake-v1".

(** The venue counts the submissions; [answer] is what it answers. *)
Definition FakeVenue (answer : outcome VenueError VenueSubmission)
    : ExecutionVenue (Sys * nat) := {|
  market_rules _ _ := mret fix_market;
  order_book _ := mret fix_book;
  prepare _ _ := mret fake_prepared;
  submit _ _ := λ sv, (answer, (sv.1, S sv.2));
  cancel _ := mret (mkVenueCancellation OrderState.Cancelled (JObject []));
  find_order _ := mret None;
  venue_reconcile := mret (mkReconciliationResult 0 0 [] [] [] []);
  heartbeat := mret tt;
  requires_heartbeat := true;
  reconciliation_required _ := false;
|}.

(** At the step 1000 a client's request is admitted; nothing else happens, unless
    the process stops. *)
Definition FixSchedule (stop : option nat) : Schedule nat := {|
  stops n := bool_decide (stop = Some n);
  others n sv := if (n =? 1000)%nat
    then ((admit_intent fix_store "actor" "key" fix_request sv.1).2, sv.2) else sv;
  deadline _ _ := None;
  wall_clock _ := fix_now;
  instant_clock _ := 0;
|}.
Definition QuietSchedule : Schedule nat := FixSchedule None.
#[local] Existing Instance QuietSchedule.

Definition fix_coordinator : ExecutionCoordinator := mkExecutionCoordinator fix_store fix_policy.
Definition new_world (s : Sys) : World nat := mkWorld s 0%nat [] [] None [] false [] 0.

Section run.
Variable answer : outcome VenueError VenueSubmission.
#[local] Instance venue_instance : ExecutionVenue (Sys * nat) := FakeVenue answer.

(** The service starts, a request is admitted and queued, the worker takes it. *)
Definition world_started : World nat := (startup fix_coordinator (new_world sys_ready)).2.
Definition world_admitted : World nat :=
  set_world (others 1000 (w_sys world_started, w_venue world_started)) world_started.
Definition admitted_id : Uuid :=
  match intents (db (w_sys world_admitted)) with r :: _ => int_id r | [] => 0%N end.
Definition world_queued : World nat := (enqueue admitted_id world_admitted).2.
Definition world_worked : World nat := (worker_turn fix_coordinator world_queued).2.

Lemma fake_lawful stop : lawful (Sched := FixSchedule stop) fix_coordinator.
Proof.
  split; try (intros; intros sv; apply rtc_refl).
  - intros n sv. cbn [others FixSchedule]. destruct (n =? 1000)%nat; [|apply rtc_refl].
    apply rtc_once, Store_step, Op_admit.
  - done.
Qed.
Lemma fake_calm stop K : calm (Sched := FixSchedule stop) K.
Proof.
  split; try (intros; intros sv Hd; exact Hd).
  - intros n sv Hd. cbn [others FixSchedule]. destruct (n =? 1000)%nat; [|done].
    apply (keeps_control K (admit_intent fix_store "actor" "key" fix_request)); [|exact Hd].
    unfold_op. frame.
  - done.
Qed.

Lemma queued_steps :
  rtc (world_step fix_coordinator (λ _, True)) (new_world sys_ready) world_queued.
Proof.
  apply (rtc_l _ _ world_started).
  { apply (Step_task _ _ _ _ _ _ (Task_startup fix_coordinator)). done. }
  apply (rtc_l _ _ world_admitted); [apply (Step_others fix_coordinator _ _ 1000)|].
  apply rtc_once.
  by apply (Step_task _ _ _ _ _ _ (Task_enqueue fix_coordinator admitted_id)).
Qed.
Lemma run_steps : rtc (world_step fix_coordinator (λ _, True)) (new_world sys_ready) world_worked.
Proof.
  eapply rtc_r; [apply queued_steps|].
  by apply (Step_task _ _ _ _ _ _ (Task_worker fix_coordinator)).
Qed.
End run.

Definition ambiguous : outcome VenueError VenueSubmission := Failed (VenueError.Ambiguous "lost").

Definition summary (w : World nat) : list IntentState * list OrderState * string * list VenueCall :=
  ((λ i : IntentRow, int_state i) <$> intents (db (w_sys w)),
   (λ o : OrderRow, ord_state o) <$> orders (db (w_sys w)),
   ct_state (control_state (db (w_sys w))), w_calls w).
Example run_accepted : summary (world_worked (Done fake_submission)) =
  ([IntentState.Submitted], [OrderState.Live], "READY", [CallSubmit 33%N]).
Proof. vm_compute. reflexivity. Qed.
(** The doubt halts the service, and the halt cancels the order it doubts. *)
Example run_ambiguous : summary (world_worked ambiguous) =
  ([IntentState.Submitted], [OrderState.Cancelled], "HALTED",
   [CallSubmit 33%N; CallCancel "fake-1"]).
Proof. vm_compute. reflexivity. Qed.


(** The venue was asked for one order, once. *)
Lemma venue_submit_at_most_once_witness :
  submits 33%N (w_calls (world_worked (Done fake_submission))) = 1%nat ∧
  (submits 33%N (w_calls (world_worked (Done fake_submission))) ≤ 1)%nat.
Proof.
  split; [vm_compute; reflexivity|].
  apply (@venue_submit_at_most_once RefOps RefLaws RefPlatform CoordinatorCodec nat
    (venue_instance (Done fake_submission)) QuietSchedule fix_coordinator (new_world sys_ready)).
  - apply (fake_lawful (Done fake_submission) None).
  - vm_compute. reflexivity.
  - reflexivity.
  - apply run_steps.
Defined.

(** The service is halted with an intent in its queue. *)
#[local] Instance accepting : ExecutionVenue (Sys * nat) := venue_instance (Done fake_submission).
Definition world_halted : World nat :=
  (halt fix_coordinator "operator" "stop" (world_queued (Done fake_submission))).2.
Definition world_turned : World nat := (worker_turn fix_coordinator world_halted).2.

Lemma queued_reachable : reachable fix_store (w_sys (world_queued (Done fake_submission))).
Proof.
  exists sys_ready. split; [vm_compute; reflexivity|].
  apply (advance_steps fix_coordinator (λ _, True) (new_world sys_ready)).
  apply (history_advance fix_coordinator (reachable_kept _) (fake_lawful (Done fake_submission) None));
    [apply queued_steps|exists sys_ready; split; [vm_compute; reflexivity|apply rtc_refl]].
Qed.
Lemma halted_reachable : reachable fix_store (w_sys world_halted).
Proof.
  pose proof (fake_lawful (Done fake_submission) None) as HL.
  apply (reachable_persistent fix_coordinator (w_sys (world_queued (Done fake_submission))));
    [|apply queued_reachable].
  apply (advance_steps fix_coordinator (λ _, True)).
  apply (history_advance fix_coordinator (reachable_kept _) HL); [|apply queued_reachable]. apply rtc_once.
  by apply (Step_task _ _ _ _ _ _ (Task_halt fix_coordinator "operator" "stop")).
Qed.

Lemma disarmed_service_submits_nothing_witness :
  summary world_turned = ([IntentState.Rejected], [], "HALTED", []) ∧
  control_text (w_sys world_turned) ≠ "READY" ∧
  ∀ id, submits id (w_calls world_turned) = submits id (w_calls world_halted).
Proof.
  split; [vm_compute; reflexivity|].
  apply (disarmed_service_submits_nothing fix_coordinator world_halted world_turned).
  - apply (fake_lawful (Done fake_submission) None).
  - apply (fake_calm (Done fake_submission) None).
  - apply halted_reachable.
  - vm_compute. discriminate.
  - apply rtc_once.
    apply (Step_task _ _ _ _ _ _ (Task_worker fix_coordinator)).
    by intros state ->%list_elem_of_singleton.
Defined.

(** The process stops in the middle of a submission. *)
Definition world_stopped (n : nat) : World nat :=
  (worker_turn (Sched := FixSchedule (Some n)) fix_coordinator (world_queued (Done fake_submission))).2.
Definition world_submitting : World nat := world_stopped 29.
Definition world_prepared : World nat := world_stopped 28.
Example stopped_states : summary <$> [world_submitting; world_prepared] =
  [([IntentState.Submitting], [OrderState.Submitting], "READY", [CallSubmit 33%N]);
   ([IntentState.Prepared], [OrderState.Prepared], "READY", [])].
Proof. vm_compute. reflexivity. Qed.

Lemma stopped_reachable n : reachable fix_store (w_sys (world_stopped n)).
Proof.
  apply (reachable_persistent fix_coordinator (w_sys (world_queued (Done fake_submission))));
    [|apply queued_reachable].
  apply (advance_steps (Sched := FixSchedule (Some n)) fix_coordinator (λ _, True)).
  apply (history_advance (Sched := FixSchedule (Some n)) fix_coordinator
    (reachable_kept _) (fake_lawful (Done fake_submission) (Some n))); [|apply queued_reachable].
  apply rtc_once. by apply (Step_task _ _ _ _ _ _ (Task_worker fix_coordinator)).
Qed.

(** The venue answers that it does not know. *)
Definition world_doubted : World nat :=
  (submit_to_venue (Venue := venue_instance ambiguous) fix_coordinator
    (admitted_id (Done fake_submission)) 33%N fake_prepared fix_request world_submitting).2.

Lemma ambiguous_submission_disarms_witness :
  control_text (w_sys world_doubted) ≠ "READY" ∧
  ∃ t, t ∈ order_transitions (db (w_sys world_doubted)) ∧ tr_order_id t = 33%N ∧
    tr_prior_state t = Some OrderState.Submitting ∧ tr_new_state t = OrderState.Unknown.
Proof.
  apply (ambiguous_submission_disarms (Venue := venue_instance ambiguous) fix_coordinator
    (admitted_id (Done fake_submission)) 33%N fake_prepared fix_request world_submitting).
  - apply (fake_lawful ambiguous None).
  - apply (fake_calm ambiguous None).
  - apply stopped_reachable.
  - intros sv. vm_compute. reflexivity.
  - vm_compute. reflexivity.
Defined.

(** A halted service is started again. *)
Lemma restarted_sys (w : World nat) : w_sys (restarted w) = w_sys w.
Proof. reflexivity. Qed.
Definition world_restarted : World nat := (startup fix_coordinator (restarted world_halted)).2.
Lemma startup_keeps_halt_witness :
  control_text (w_sys world_restarted) = "HALTED" ∧
  ∀ id, submits id (w_calls world_restarted) = submits id (w_calls (restarted world_halted)).
Proof.
  apply (startup_keeps_halt fix_coordinator (restarted world_halted)).
  - apply (fake_lawful (Done fake_submission) None).
  - apply (fake_calm (Done fake_submission) None).
  - rewrite restarted_sys. apply halted_reachable.
  - vm_compute. reflexivity.
Defined.

(** The process stops in the middle of a shutdown, and is started again. *)
Section shutdown_cut_short.
#[local] Instance cut_short : Schedule nat := FixSchedule (Some 20)%nat.
Definition world_signalled : World nat :=
  (call_store (set_service_state fix_store "system" ShuttingDown "signal received")
    (world_queued (Done fake_submission))).2.
Definition world_cut : World nat :=
  (shutdown fix_coordinator true (world_queued (Done fake_submission))).2.
Definition restart_after_cut : outcome CoordinatorError () * World nat :=
  startup fix_coordinator (restarted world_cut).

Lemma shutdown_needs_resume_witness :
  control_text (w_sys world_cut) = "SHUTTING_DOWN" ∧ restart_after_cut.1 = Done tt ∧
  let '(r, w3) := restart_after_cut in
  (control_text (w_sys w3) = "HALTED" ∨
   r ≠ Done tt ∧ control_text (w_sys w3) = "SHUTTING_DOWN") ∧
  ∀ id, submits id (w_calls w3) = submits id (w_calls world_signalled).
Proof.
  split; [vm_compute; reflexivity|]. split; [vm_compute; reflexivity|].
  apply (shutdown_needs_resume fix_coordinator true (world_queued (Done fake_submission))
    world_signalled).
  - apply (fake_lawful (Done fake_submission) (Some 20)%nat).
  - apply (fake_calm (Done fake_submission) (Some 20)%nat).
  - apply (fake_calm (Done fake_submission) (Some 20)%nat).
  - apply queued_reachable.
  - vm_compute. reflexivity.
Defined.
End shutdown_cut_short.

(** A policy that leaves the orders alone when the service halts. *)
Definition lenient_coordinator : ExecutionCoordinator :=
  mkExecutionCoordinator fix_store (mkRiskPolicy "v1" (allowed_condition_ids fix_policy)
    (allowed_token_ids fix_policy) (allowed_sides fix_policy) (allowed_time_in_force fix_policy)
    (max_quote_per_order fix_policy) (max_shares_per_order fix_policy) (max_open_orders fix_policy)
    (max_open_notional_per_market fix_policy) (max_net_position_per_token fix_policy)
    (max_gross_exposure fix_policy) (max_daily_matched_notional fix_policy)
    (max_worst_price_distance fix_policy) (min_visible_depth fix_policy)
    (max_market_metadata_age_seconds fix_policy) (max_order_book_age_seconds fix_policy)
    (max_user_stream_age_seconds fix_policy) (max_reconciliation_age_seconds fix_policy) false).
(** A PREPARED order survives a crash and is queued again; the service is halted
    before the worker gets to it, and resumed afterwards. *)
Definition world_recovered : World nat :=
  (startup lenient_coordinator (restarted world_prepared)).2.
Definition world_halted_again : World nat :=
  (halt lenient_coordinator "operator" "pause" world_recovered).2.
Definition world_resumed : World nat :=
  (resume lenient_coordinator "operator" "go on"
    (worker_turn lenient_coordinator world_halted_again).2).2.

(** A PREPARED order can be forgotten.  When the worker takes up a PREPARED
    intent while the service is not READY, it tries to reject the intent as if it
    were RECEIVED; that fails, and the intent is neither in the queue nor among
    those that [resume] takes up again: after the resume the order stays PREPARED. *)
Theorem prepared_order_forgotten :
  w_queue world_recovered = [admitted_id (Done fake_submission)] ∧
  summary world_resumed = ([IntentState.Prepared], [OrderState.Prepared], "READY", []) ∧
  w_queue world_resumed = [] ∧ w_deferred_recovery world_resumed = [].
Proof. vm_compute. done. Qed.
End fixtures.
