(* ===== verification/Freshness.v ===== *)
(** * Freshness: the checks of the market and the book before an order

    [validate_freshness_and_increments] accepts exactly the orders whose market
    and book are usable: the checks, one by one, as a specification. *)
From S2P Require Import Prelude Text DecimalSpec RefDecimal Json Platform Domain Venue Fixtures Risk Schema StoreIntents StoreRisk StoreOrders StoreControl Coordinator.

(** [d] is a whole number of steps. *)
Definition whole_steps `{DecimalOps} (d step : Decimal) : Prop :=
  ∃ k : Z, ⟦d⟧ == ⟦step⟧ * inject_Z k.

Lemma Qtrunc_inject q k : (q == inject_Z k)%Q → Qtrunc q = k.
Proof.
  unfold Qeq, Qtrunc, inject_Z. cbn. intros Hq. rewrite Z.mul_1_r in Hq. rewrite Hq.
  apply Z.quot_mul. lia.
Qed.

Section freshness.
Context `{DL : DecimalLaws} `{Platform}.
Implicit Types d step : Decimal.

Lemma dec_multiple_spec d step :
  (0 < ⟦step⟧)%Q → ∃ b, dec_multiple d step = Done b ∧ (b = true ↔ whole_steps d step).
Proof.
  intros Hstep. assert (¬ ⟦step⟧ == 0) as Hne by lra.
  destruct (dec_rem_exact d step Hne) as (c & Hc & Hv).
  unfold dec_multiple. rewrite Hc. cbn. eexists. split; [done|].
  rewrite dec_eq_spec, dec_ZERO_value, Hv. unfold whole_steps. split.
  - intros He. exists (Qtrunc (⟦d⟧ / ⟦step⟧)). lra.
  - intros (k & Hk). rewrite (Qtrunc_inject _ k); [rewrite Hk; ring|].
    rewrite Hk. field. exact Hne.
Qed.

(** A level of the book. *)
Definition level_ok step (level : PriceLevel) : Prop :=
  (0 < ⟦price level⟧ < 1)%Q ∧ whole_steps (price level) step ∧ (0 < ⟦size level⟧)%Q.
Lemma valid_levels_spec step levels :
  (0 < ⟦step⟧)%Q →
  ∃ b, valid_levels step levels = Done b ∧ (b = true ↔ Forall (level_ok step) levels).
Proof.
  intros Hstep. induction levels as [|level levels (b & Hb & IH)]; [by exists true|].
  cbn [valid_levels]. destruct (dec_gt _ _ && dec_lt _ _) eqn:Hprice.
  - destruct (dec_multiple_spec (price level) step Hstep) as (on_tick & -> & Hon). cbn.
    apply andb_true_iff in Hprice as [Hlo%dec_gt_spec Hhi%dec_lt_spec].
    rewrite dec_ZERO_value in Hlo. rewrite dec_ONE_value in Hhi.
    destruct (on_tick && dec_gt (size level) dec_ZERO) eqn:Hsize.
    + apply andb_true_iff in Hsize as [Ht%Hon Hpos%dec_gt_spec].
      rewrite dec_ZERO_value in Hpos. exists b. split; [done|]. rewrite IH, Forall_cons.
      unfold level_ok. tauto.
    + exists false. split; [done|]. split; [done|]. rewrite Forall_cons.
      intros [(_ & Hw & Hpos) _]. apply Hon in Hw as ->. cbn in Hsize.
      apply dec_gt_false in Hsize. rewrite dec_ZERO_value in Hsize. lra.
  - exists false. split; [done|]. split; [done|]. rewrite Forall_cons.
    intros [([Hlo Hhi] & _) _]. apply andb_false_iff in Hprice as [Hp|Hp]; dec_prop;
      rewrite ?dec_ZERO_value, ?dec_ONE_value in Hp; lra.
Qed.

Lemma crossed_book_spec book :
  crossed_book book = false ↔
  ∀ bid ask, bid ∈ bids book → ask ∈ asks book → (⟦price bid⟧ < ⟦price ask⟧)%Q.
Proof.
  unfold crossed_book. destruct (best_bid book) as [b|] eqn:Hb; [destruct (best_ask book) as [a|] eqn:Ha|].
  - apply best_bid_spec in Hb as [(lb & Hlb & <-) Hmax].
    apply best_ask_spec in Ha as [(la & Hla & <-) Hmin]. rewrite dec_ge_false. split.
    + intros Hlt bid ask Hbid%Hmax Hask%Hmin. lra.
    + intros Hall. by apply Hall.
  - split; [|done]. intros _ bid ask _ Hask. unfold best_ask in Ha.
    apply dec_iter_min_None, fmap_nil_inv in Ha. rewrite Ha in Hask. by apply not_elem_of_nil in Hask.
  - split; [|done]. intros _ bid ask Hbid. unfold best_bid in Hb.
    apply dec_iter_max_None, fmap_nil_inv in Hb. rewrite Hb in Hbid. by apply not_elem_of_nil in Hbid.
Qed.

(** The book can be traded on. *)
Record book_ok step (book : OrderBook) : Prop := {
  bk_bids : Forall (level_ok step) (bids book);
  bk_asks : Forall (level_ok step) (asks book);
  bk_uncrossed bid ask :
    bid ∈ bids book → ask ∈ asks book → (⟦price bid⟧ < ⟦price ask⟧)%Q;
  bk_hash hash : ob_hash book = Some hash → trim_is_empty hash = false;
}.
Lemma valid_book_spec step book :
  (0 < ⟦step⟧)%Q → ∃ b, valid_book step book = Done b ∧ (b = true ↔ book_ok step book).
Proof.
  intros Hstep. unfold valid_book.
  destruct (valid_levels_spec step (bids book) Hstep) as (b1 & -> & Hbids).
  destruct (valid_levels_spec step (asks book) Hstep) as (b2 & Hasks_eq & Hasks). cbn.
  destruct b1; cbn.
  - rewrite Hasks_eq. cbn. eexists. split; [done|].
    rewrite !andb_true_iff, !negb_true_iff, Hasks, crossed_book_spec.
    unfold blank_hash. split.
    + intros [[? ?] Hh]. split; [by apply Hbids|done..|]. intros hash Heq. by rewrite Heq in Hh.
    + intros []. split_and!; [done..|]. destruct (ob_hash book); [by apply bk_hash0|done].
  - exists false. split; [done|]. split; [done|]. intros []. by apply Hbids.
Qed.

(** The rules of the market are those of the order's token, and make sense. *)
Record rules_ok (request : OrderIntentRequest) (market : MarketRules) : Prop := {
  mk_condition : mr_condition_id market = req_condition_id request;
  mk_token : mr_token_id market = req_token_id request;
  mk_tick : (0 < ⟦tick_size market⟧ < 1)%Q;
  mk_minimum : (0 < ⟦minimum_order_size market⟧)%Q;
  mk_maker : (0 <= ⟦maker_fee_rate market⟧ <= 1)%Q;
  mk_taker : (0 <= ⟦taker_fee_rate market⟧ <= 1)%Q;
}.
Lemma valid_market_rules_spec request market :
  valid_market_rules request market = true ↔ rules_ok request market.
Proof.
  unfold valid_market_rules. rewrite negb_true_iff, !orb_false_iff, !negb_false_iff, !bool_decide_eq_true,
    !dec_le_false, dec_ge_false, !dec_lt_false, !dec_gt_false, dec_ZERO_value, dec_ONE_value.
  split; [intros ((((((((? & ?) & ?) & ?) & ?) & ?) & ?) & ?) & ?); by split|intros []; tauto].
Qed.

(** An observation that is neither from the future nor too old. *)
Definition fresh_at (now : DateTime) (max_age : Z) (observed_at : DateTime) : Prop :=
  observed_at <= now + seconds 5 ∧ age_seconds now observed_at <= max_age.

Record placeable (policy : RiskPolicy) (now : DateTime) (request : OrderIntentRequest)
    (market : MarketRules) (book : OrderBook) : Prop := {
  place_rules : rules_ok request market;
  place_market : fresh_at now (max_market_metadata_age_seconds policy) (mr_observed_at market);
  place_book_time : fresh_at now (max_order_book_age_seconds policy) (ob_observed_at book);
  place_book : book_ok (tick_size market) book;
  place_order_fits : ∃ p quantity shares,
    protection_price request = Done p ∧ whole_steps p (tick_size market) ∧
    quantity_decimal request = Done quantity ∧ requested_shares request quantity p = Done shares ∧
    (⟦minimum_order_size market⟧ <= ⟦shares⟧)%Q;
}.

#[local] Opaque valid_book dec_multiple requested_shares.
(** [validate_freshness_and_increments] accepts an order exactly when the
    market's rules are those of its token and make sense, the rules and the book
    are fresh, every level of the book is a positive size at a price on the tick
    between zero and one, no bid reaches an ask, and the order's own price is on
    the tick and its shares reach the minimum. *)
Theorem validate_freshness_iff policy now request market book :
  validate_freshness_and_increments policy now request market book = Done tt ↔
  placeable policy now request market book.
Proof.
  unfold validate_freshness_and_increments. cbv zeta.
  repeat setoid_rewrite outcome_bind_done. repeat setoid_rewrite reject_if_done.
  setoid_rewrite negb_false_iff. setoid_rewrite valid_market_rules_spec.
  setoid_rewrite Z.ltb_ge. setoid_rewrite map_err_done. setoid_rewrite dec_lt_false. split.
  - intros (_ & Hrules & _ & Hm1 & _ & Hm2 & _ & Hb1 & _ & Hb2 & ok & Hbook & _ & -> &
      p & Hp & on_tick & Htick & _ & -> & q & Hq & shares & Hshares & Hmin).
    assert (0 < ⟦tick_size market⟧)%Q as Hstep by apply Hrules.
    destruct (valid_book_spec _ book Hstep) as (b & Hb & Hok). rewrite Hbook in Hb. injection Hb as <-.
    destruct (dec_multiple_spec p _ Hstep) as (b & Hb & Hon). rewrite Htick in Hb. injection Hb as <-.
    split; [done|done|done|by apply Hok|]. exists p, q, shares. naive_solver.
  - intros [Hrules [Hm1 Hm2] [Hb1 Hb2] Hbook (p & q & shares & Hp & Hw & Hq & Hshares & Hmin)].
    assert (0 < ⟦tick_size market⟧)%Q as Hstep by apply Hrules.
    destruct (valid_book_spec _ book Hstep) as (b & Hb & Hok).
    destruct (dec_multiple_spec p _ Hstep) as (b' & Hb' & Hon).
    apply Hok in Hbook. apply Hon in Hw. subst. do 5 (exists tt; split; [done|]).
    exists true. split; [done|]. exists tt. split; [done|]. exists p. split; [done|].
    exists true. split; [done|]. exists tt. split; [done|]. exists q. split; [done|].
    by exists shares.
Qed.
End freshness.

Section fixtures.
#[local] Existing Instance RefOps.
#[local] Existing Instance RefLaws.
#[local] Existing Instance RefPlatform.

Lemma validate_freshness_iff_witness :
  placeable fix_policy (fix_now + seconds 10) fix_request fix_market fix_book.
Proof. apply validate_freshness_iff. vm_compute. reflexivity. Defined.
End fixtures.
