(* ===== verification/PaperInterface.v ===== *)
(** * PaperInterface: the paper venue keeps the contract of a venue

    The coordinator's theorems ask of a venue that it changes the database only
    through operations of the store and leaves the service state alone.  The
    paper venue, whose ledger is that database, does so. *)
From S2P Require Import Prelude Text DecimalSpec RefDecimal Json Platform Domain Venue Fixtures Risk Schema StoreIntents StoreRisk StoreOrders StoreControl StorePaper StoreFixtures StoreLogic Lifecycle OrderHistory Coordinator CoordinatorSteps CoordinatorFixtures PaperVenue.

Section interface.
Context `{DL : DecimalLaws} `{Platform} `{Codec} `{PaperMarket}.
Variable st : Store.
Variable clob_url : string.
Notation V := (Sys * PaperState)%type.

(** The database changes by operations of the store, the control row does not. *)
Definition tame {A} (m : Prog V VenueError A) : Prop := ∀ sv,
  rtc (store_step st) sv.1 (m sv).2.1 ∧
  control_state (db (m sv).2.1) = control_state (db sv.1).

Lemma tame_bind {A B} (m : Prog V VenueError A) (k : A → Prog V VenueError B) :
  tame m → (∀ a, tame (k a)) → tame (m ≫= k).
Proof.
  intros Hm Hk sv. destruct (Hm sv) as [Hs Hc]. unfold mbind, prog_bind.
  destruct (m sv) as [[a|e|] sv1]; cbn in *; [|done..].
  destruct (Hk a sv1) as [Hs' Hc']. split; [by etrans|congruence].
Qed.
Lemma tame_pure {A} (m : Prog V VenueError A) : (∀ sv, (m sv).2.1 = sv.1) → tame m.
Proof. intros Hm sv. by rewrite Hm. Qed.
Lemma tame_ret {A} (a : A) : tame (mret a).
Proof. by apply tame_pure. Qed.
Lemma tame_fail {A} e : tame (fail e : Prog V VenueError A).
Proof. by apply tame_pure. Qed.
Lemma tame_lift {A} (o : outcome VenueError A) : tame (lift o).
Proof. by apply tame_pure. Qed.
Lemma tame_gets {A} (f : V → A) : tame (gets f).
Proof. by apply tame_pure. Qed.
Lemma tame_ensure b e : tame (ensure b e).
Proof. apply tame_pure. intros sv. by destruct b. Qed.
Lemma tame_set_paper f : tame (set_paper f).
Proof. by apply tame_pure. Qed.
Lemma tame_next_call : tame next_call.
Proof. by apply tame_pure. Qed.
Lemma tame_venue_now : tame venue_now.
Proof. by apply tame_pure. Qed.
Lemma tame_for_each {A} (l : list A) body : (∀ a, tame (body a)) → tame (for_each l body).
Proof. intros Hb. induction l; cbn; [by apply tame_pure|]. by apply tame_bind. Qed.
Lemma tame_try {A} (m : Prog V VenueError A) : tame m → tame (try m).
Proof. intros Hm sv. destruct (Hm sv). unfold try. by destruct (m sv) as [[]]. Qed.

Lemma tame_query {A} (m : Prog Sys StoreError A) : reads m → tame (ledger m).
Proof.
  intros Hm. apply tame_pure. intros sv. unfold ledger. specialize (Hm sv.1).
  by destruct (m sv.1).
Qed.
Lemma tame_operation {A} (m : Prog Sys StoreError A) :
  (∀ d, store_op st d A m) → frames control_state m → tame (ledger m).
Proof.
  intros Hop Hf sv. unfold ledger. specialize (Hf sv.1). destruct (m sv.1) as [r s] eqn:E.
  cbn in *. split; [|done]. apply rtc_once. replace s with (m sv.1).2 by by rewrite E.
  by constructor.
Qed.

Lemma through_loop_control e tp ts ob rows :
  ∀ t, frames control_state (through_loop st e tp ts ob t rows).
Proof.
  induction rows as [|row rows IH]; intros t; cbn [through_loop]; [frame|].
  unfold fill_resting, fill_core_order, insert_transition. frame.
Qed.
Hint Resolve through_loop_control : frames.
Lemma trade_through_control e t p q ob :
  frames control_state (apply_paper_trade_through st e t p q ob).
Proof.
  unfold apply_paper_trade_through, paper_only, load_balances, store_balances. frame.
Qed.
Lemma commit_paper_control o : frames control_state (commit_paper_order st o).
Proof. unfold commit_paper_order, paper_only, load_paper_order, load_balances, store_balances. frame. Qed.
Lemma cancel_paper_control v : frames control_state (cancel_paper_order st v).
Proof.
  unfold cancel_paper_order, paper_only, load_paper_order, release_reservations, set_account. frame.
Qed.

(** The functions that leave the database as it is. *)
Definition silent {A} (m : Prog V VenueError A) : Prop := ∀ sv, (m sv).2.1 = sv.1.
Lemma silent_then {A B} (m : Prog V VenueError A) (k : A → Prog V VenueError B) :
  silent m → (∀ a, silent (k a)) → silent (m ≫= k).
Proof.
  intros Hm Hk sv. specialize (Hm sv). unfold mbind, prog_bind.
  destruct (m sv) as [[a|e|] sv1]; cbn in *; [by rewrite Hk|done..].
Qed.
Lemma silent_for_each {A} (l : list A) body : (∀ a, silent (body a)) → silent (for_each l body).
Proof. intros Hb. induction l; cbn; [by intros ?|]. by apply silent_then. Qed.
Lemma silent_check b e : silent (ensure b e).
Proof. intros sv. by destruct b. Qed.
Ltac silent :=
  repeat first [ apply silent_then; [|intros ?] | apply silent_check | apply silent_for_each; intros ?
    | intros ?; reflexivity | case_match ].
Lemma ensure_subscription_silent token : silent (ensure_trade_subscription token).
Proof. unfold ensure_trade_subscription, healthy_subscription. silent. Qed.
Lemma subscribe_active_silent : silent subscribe_active.
Proof. unfold subscribe_active. silent. Qed.
Lemma order_book_silent token : silent (paper_order_book clob_url token).
Proof. unfold paper_order_book. silent. Qed.
Lemma market_rules_silent c t : silent (paper_market_rules clob_url c t).
Proof. unfold paper_market_rules, market_json. silent. Qed.

Create HintDb tame discriminated.
(** What a function of the venue is made of. *)
Ltac tame_step :=
  match goal with
  | |- tame (_ ≫= _) => apply tame_bind; [|intros ?]
  | |- tame (for_each _ _) => apply tame_for_each; intros ?
  | |- tame (try _) => apply tame_try
  | |- tame (ledger (commit_paper_order _ _)) =>
      apply tame_operation; [intros; apply Op_commit_paper|apply commit_paper_control]
  | |- tame (ledger (cancel_paper_order _ _)) =>
      apply tame_operation; [intros; apply Op_cancel_paper|apply cancel_paper_control]
  | |- tame (ledger (apply_paper_trade_through _ _ _ _ _ _)) =>
      apply tame_operation; [intros; apply Op_trade_through|apply trade_through_control]
  | |- tame (ensure _ _) => apply tame_ensure
  | |- tame (mret _) => apply tame_ret
  | |- tame (fail _) => apply tame_fail
  | |- tame (lift _) => apply tame_lift
  | |- tame (gets _) => apply tame_gets
  | |- tame (set_paper _) => apply tame_set_paper
  | |- tame next_call => apply tame_next_call
  | |- tame venue_now => apply tame_venue_now
  | |- tame (match ?x with _ => _ end) => destruct x
  | |- tame _ => solve [auto with tame nocore]
  end.
Ltac tame := repeat tame_step.

Lemma reads_load_paper_order v : reads (load_paper_order v).
Proof. unfold load_paper_order. reading. Qed.
Lemma reads_for_collect {A B} (l : list A) (body : A → Prog Sys StoreError B) :
  (∀ a, reads (body a)) → reads (for_collect l body).
Proof.
  intros Hb. induction l as [|a l IH]; cbn; [by intros s|].
  apply reads_bind; [done|]. intros b. apply reads_bind; [done|]. by intros bs s.
Qed.
Lemma reads_list_paper_orders : reads list_paper_orders.
Proof.
  unfold list_paper_orders. apply reads_bind; [by intros s|]. intros ids.
  apply reads_bind; [apply reads_for_collect, reads_load_paper_order|by intros l s].
Qed.
Lemma reads_paper_venue_positions : reads paper_venue_positions.
Proof.
  unfold paper_venue_positions. apply reads_bind; [by intros s|]. intros rows.
  apply reads_for_collect. intros r. reading.
Qed.

Lemma ensure_subscription_tame token : tame (ensure_trade_subscription token).
Proof. unfold ensure_trade_subscription, healthy_subscription. tame. Qed.
Hint Resolve ensure_subscription_tame : tame.
Lemma subscribe_active_tame : tame subscribe_active.
Proof.
  unfold subscribe_active. apply tame_bind; [by apply tame_query; intros s|]. intros tokens.
  apply tame_for_each, ensure_subscription_tame.
Qed.
Lemma market_rules_tame c t : tame (paper_market_rules clob_url c t).
Proof. unfold paper_market_rules, market_json. tame. Qed.
Lemma order_book_tame t : tame (paper_order_book clob_url t).
Proof. unfold paper_order_book. tame. Qed.
Hint Resolve market_rules_tame order_book_tame subscribe_active_tame : tame.
Lemma submit_tame p r : tame (paper_submit st clob_url p r).
Proof. unfold paper_submit. tame. Qed.
Lemma cancel_tame v : tame (paper_cancel st v).
Proof. unfold paper_cancel. tame. Qed.
Lemma check_streams_tame : tame check_streams.
Proof. unfold check_streams. tame. Qed.
Hint Resolve check_streams_tame : tame.
Lemma find_order_tame d : tame (paper_find_order d).
Proof.
  unfold paper_find_order, find_paper_order.
  apply tame_bind; [apply tame_query, reads_load_paper_order|]. intros o. tame.
Qed.
Lemma reconcile_tame : tame paper_reconcile.
Proof.
  unfold paper_reconcile. apply tame_bind; [tame|]. intros _.
  apply tame_bind; [by apply tame_query|]. intros [n m].
  apply tame_bind; [apply tame_query, reads_list_paper_orders|]. intros l.
  apply tame_bind; [apply tame_query, reads_paper_venue_positions|]. intros ps. tame.
Qed.
Lemma heartbeat_tame : tame paper_heartbeat.
Proof. unfold paper_heartbeat. tame. Qed.
(** The stream's task keeps the contract too: it may be one of the others. *)
Lemma stream_turn_tame token message : tame (stream_turn st token message).
Proof. unfold stream_turn, apply_stream_trade. tame. Qed.
End interface.

Section contract.
Context `{DL : DecimalLaws} `{Platform} `{Codec} `{PaperMarket}.
Variable self : ExecutionCoordinator.
Variable clob_url : string.
Notation st := (store self).
#[local] Instance paper : ExecutionVenue (Sys * PaperState) := PaperVenue st clob_url.
Context `{Sched : !Schedule PaperState}.

Lemma tame_path {A} (m : Prog (Sys * PaperState) VenueError A) :
  tame st m → store_path self (λ sv, (m sv).2).
Proof. intros Hm sv. apply Hm. Qed.
Lemma tame_stays {A} (m : Prog (Sys * PaperState) VenueError A) K :
  tame st m → stays K (λ sv, (m sv).2).
Proof. intros Hm sv Hk. unfold control_text in *. by destruct (Hm sv) as [_ ->]. Qed.

(** C30. The paper venue is a venue the coordinator can rely on.  Whatever its
    clients answer, each of its functions, and each turn of its trade streams,
    changes the database only by operations of the store and never touches the
    service state; so a coordinator over the paper venue is [lawful], and [calm],
    as soon as the tasks beside it are. *)
Theorem paper_venue_lawful :
  (∀ n, store_path self (others n)) →
  (∀ n limit cut, deadline n limit = Some cut → store_path self cut) →
  lawful self ∧
  (∀ K, (∀ n, stays K (others n)) →
    (∀ n limit cut, deadline n limit = Some cut → stays K cut) → calm K) ∧
  (∀ token message, store_path self (λ sv, (stream_turn st token message sv).2) ∧
    ∀ K, stays K (λ sv, (stream_turn st token message sv).2)).
Proof.
  intros Ho Hd. split; [|split].
  - split; [done|done|intros; apply tame_path..].
    + apply market_rules_tame.
    + apply order_book_tame.
    + by apply tame_ret.
    + apply submit_tame.
    + apply cancel_tame.
    + apply find_order_tame.
    + apply reconcile_tame.
    + apply heartbeat_tame.
  - intros K Hco Hcd. split; [done|done|intros; apply tame_stays..].
    + apply market_rules_tame.
    + apply order_book_tame.
    + by apply tame_ret.
    + apply submit_tame.
    + apply cancel_tame.
    + apply find_order_tame.
    + apply reconcile_tame.
    + apply heartbeat_tame.
  - intros token message. split; [apply tame_path|intros K; apply tame_stays]; apply stream_turn_tame.
Qed.
End contract.

Section fixtures.
#[local] Existing Instance RefOps.
#[local] Existing Instance RefLaws.
#[local] Existing Instance RefPlatform.
#[local] Existing Instance CoordinatorCodec.

(** A market of one token at a tick of 0.01, a book with one ask. *)
Definition fix_market_json : Value :=
  json_obj ["tokens" ::= [json_obj ["token_id" ::= "123"]]; "active" ::= true;
    "closed" ::= false; "accepting_orders" ::= true; "minimum_tick_size" ::= "0.01";
    "minimum_order_size" ::= "1"].
Definition fix_book_json : Value :=
  json_obj ["bids" ::= ([] : list Value);
    "asks" ::= [json_obj ["price" ::= "0.55"; "size" ::= "100"]]].
Definition FixMarket : PaperMarket := {|
  http_get _ url _ := Body (if url ≟ "http://clob/book" then fix_book_json else fix_market_json);
  ws_connected _ := true;
  ws_subscribe _ _ := None;
  u256_error _ := None;
  decimal_error _ := "invalid decimal";
  from_timestamp_millis ms := Some (milliseconds ms);
  venue_clock _ := fix_now;
  hash_order s := elements s;
|}.
#[local] Existing Instance FixMarket.

(** The stream of one token at work beside the coordinator. *)
Definition StreamSchedule : Schedule PaperState := {|
  stops _ := false;
  others n sv := (stream_turn fix_store "123" (if (n =? 3)%nat then StreamEnd else StreamError) sv).2;
  deadline _ _ := None;
  wall_clock _ := fix_now;
  instant_clock _ := 0;
|}.
#[local] Existing Instance StreamSchedule.
#[local] Instance fix_paper : ExecutionVenue (Sys * PaperState) :=
  PaperVenue fix_store "http://clob".

Lemma paper_venue_lawful_witness : lawful fix_coordinator.
Proof.
  apply (paper_venue_lawful fix_coordinator "http://clob").
  - intros n sv. apply (stream_turn_tame fix_store).
  - intros n limit cut Hc. discriminate Hc.
Defined.
End fixtures.
