(* ===== verification/Streams.v ===== *)
(** * Streams: what a client of the event stream receives (api.rs)

    A subscriber that asks for the events after a cursor receives, unless it is
    told to start over, every event after the cursor that the log holds or that
    is committed later, each once: the retained ones in the order of their
    sequence, the later ones in the order of their broadcast, which is another. *)
From Stdlib Require Import Sorted.
From stdpp Require Import sorting.
From S2P Require Import Prelude Text DecimalSpec RefDecimal Json Platform Domain Venue Fixtures Risk Schema StoreIntents StoreRisk StoreOrders StoreControl StorePaper StoreFixtures StoreLogic Lifecycle OrderHistory History Events Outbox Coordinator CoordinatorSteps CoordinatorHistory CoordinatorFixtures ApiCore Api.

(** ** Bounds and replays *)

Lemma fold_max_spec l : ∀ z, (∀ x, x ∈ l → x <= fold_left Z.max l z) ∧ z <= fold_left Z.max l z.
Proof.
  induction l as [|y l IH]; intros z; cbn; [by split; [intros x Hx%elem_of_nil|]|].
  destruct (IH (Z.max z y)) as [Hl Hz]. split; [|lia].
  intros x [->|Hx]%elem_of_cons; [lia|by apply Hl].
Qed.
Lemma list_max_bound l m x : list_max l = Some m → x ∈ l → x <= m.
Proof.
  destruct l as [|z l]; [done|]. intros [= <-]. destruct (fold_max_spec l z) as [Hl Hz].
  intros [->|Hx]%elem_of_cons; [done|by apply Hl].
Qed.
Lemma list_max_none l x : list_max l = None → x ∉ l.
Proof. destruct l; [|done]. intros _. apply not_elem_of_nil. Qed.

#[local] Instance seq_le_total : Total sequence_le.
Proof. intros a b. unfold sequence_le. lia. Qed.
#[local] Instance seq_le_trans : Transitive sequence_le.
Proof. intros a b c. unfold sequence_le. lia. Qed.

Lemma sorted_strictly l :
  StronglySorted sequence_le l → NoDup (sequence <$> l) → StronglySorted Z.lt (sequence <$> l).
Proof.
  induction 1 as [|e l Hl IH Hf]; cbn; [constructor|]. intros [Hn Hnd]%NoDup_cons.
  constructor; [by apply IH|]. apply Forall_fmap, Forall_forall. intros e' He'. cbn.
  rewrite Forall_forall in Hf. specialize (Hf e' He'). unfold sequence_le in Hf.
  assert (sequence e ≠ sequence e'); [|lia]. intros E. apply Hn. rewrite E.
  by apply list_elem_of_fmap_2.
Qed.
Lemma sorted_lt_nodup (l : list Z) : StronglySorted Z.lt l → NoDup l.
Proof.
  induction 1 as [|z l _ IH Hf]; constructor; [|done]. intros Hz.
  rewrite Forall_forall in Hf. apply Hf in Hz. lia.
Qed.

(** The events that a replay reads: the first ones after the cursor. *)
Record replays (after : Z) (l r : list ExecutionEvent) : Prop := {
  replays_from e : e ∈ r → e ∈ l ∧ after < sequence e;
  replays_sorted : StronglySorted Z.lt (sequence <$> r);
  replays_prefix e : e ∈ l → after < sequence e →
    e ∈ r ∨ ∀ e', e' ∈ r → sequence e' < sequence e;
}.
Lemma replay_events_replays after limit s r s' :
  log_ok (db s) → replay_events after limit s = (Done r, s') → replays after (log s) r.
Proof.
  intros [Hs _] [-> ->]%gets_done. set (n := Z.to_nat _).
  set (f := List.filter _ _). set (l := merge_sort sequence_le f).
  assert (l ≡ₚ f) as Hp by apply merge_sort_Permutation.
  assert (StronglySorted Z.lt (sequence <$> l)) as Hl.
  { apply sorted_strictly.
    - apply Sorted_StronglySorted, (Sorted_merge_sort sequence_le); apply _.
    - rewrite Hp. apply nodup_key_filter, sorted_lt_nodup, Hs. }
  assert (∀ e, e ∈ l ↔ e ∈ log s ∧ after < sequence e) as Hin.
  { intros e. rewrite Hp. unfold f. rewrite elem_of_filter_b, Z.ltb_lt. tauto. }
  rewrite <-(take_drop n l) in Hl. rewrite fmap_app in Hl.
  apply StronglySorted_app in Hl as (Hlt & Hl & _). split.
  - intros e He%elem_of_take. destruct He as (i & Hi & _). apply Hin. by eapply list_elem_of_lookup_2.
  - done.
  - intros e He Ha. assert (e ∈ take n l ++ drop n l) as Hx by (rewrite take_drop; by apply Hin).
    apply elem_of_app in Hx as [Hx|Hx]; [by left|right]. intros e' He'.
    apply Hlt; by apply list_elem_of_fmap_2.
Qed.

(** ** The stream *)

Definition delivered (messages : list Message) : list ExecutionEvent :=
  omap (λ message, match message with Event e => Some e | Reset _ => None end) messages.
(** What the channel gives a subscriber between two states. *)
Definition received (s s' : Sys) : list ExecutionEvent := drop (length (sent s)) (sent s').

Lemma delivered_app l l' : delivered (l ++ l') = delivered l ++ delivered l'.
Proof. apply omap_app. Qed.
Lemma delivered_events l : delivered (Event <$> l) = l.
Proof. induction l; cbn; [done|]. by f_equal. Qed.
Lemma delivered_stream r l :
  delivered (stream_messages r (Some <$> l)) =
  replayed r ++ List.filter (λ e, live_watermark r <? sequence e) l.
Proof.
  unfold stream_messages. rewrite !delivered_app, delivered_events.
  assert (delivered match reset_reason r with Some reason => [Reset reason] | None => [] end = [])
    as -> by by destruct (reset_reason r).
  cbn [app]. f_equal. unfold delivered.
  induction l as [|e l IH]; [done|]. cbn. destruct (_ <? _); cbn; by rewrite IH.
Qed.

Lemma plan_replay_none after minimum maximum replay :
  let w := default after (sequence <$> last replay) in
  reset_reason (plan_replay after minimum maximum replay) = None →
  event_replay_truncated false maximum w = false ∧
  plan_replay after minimum maximum replay = mkReplay None replay w.
Proof.
  unfold plan_replay. cbv zeta.
  destruct (event_cursor_outside_retention _ _ _); [discriminate|].
  by destruct (event_replay_truncated false maximum _).
Qed.

Lemma filter_sublist {A} (p : A → bool) l : List.filter p l `sublist_of` l.
Proof.
  induction l as [|a l IH]; cbn; [constructor|].
  destruct (p a); [by apply sublist_skip|by apply sublist_cons].
Qed.
(** A client receives first the retained events, in the order of their sequence,
    and then, newer than these, events as they are broadcast. *)
Definition retained_then_live (client broadcast : list ExecutionEvent) : Prop :=
  ∃ retained live, client = retained ++ live ∧ StronglySorted Z.lt (sequence <$> retained) ∧
    live `sublist_of` broadcast ∧ ∀ e e', e ∈ retained → e' ∈ live → sequence e < sequence e'.

Section stream.
Context `{DL : DecimalLaws} `{Platform} `{Codec}.
Variable self : Store.

Lemma received_broadcast s0 s es : sent s = sent s0 ++ es → received s0 s = es.
Proof. intros E. unfold received. by rewrite E, drop_app_length. Qed.

(** The watermark covers the replay, and nothing but the replay up to it. *)
Lemma watermark_spec after l r :
  replays after l r →
  let w := default after (sequence <$> last r) in
  after <= w ∧ (∀ e, e ∈ r → sequence e <= w) ∧
  (∀ e, e ∈ l → after < sequence e → sequence e <= w → e ∈ r).
Proof.
  intros [Hf Hs Hp] w. destruct (last r) as [e0|] eqn:E.
  - apply last_Some in E as [r' ->]. cbn in w. subst w.
    assert (∀ e, e ∈ r' ++ [e0] → sequence e <= sequence e0) as Hle.
    { intros e [He|He%list_elem_of_singleton]%elem_of_app; [|by subst].
      rewrite fmap_app in Hs. apply StronglySorted_app in Hs as (Hs & _ & _).
      apply Z.lt_le_incl, Hs; [by apply list_elem_of_fmap_2|]. cbn. by left. }
    split_and!; [|done|].
    + assert (after < sequence e0) by (apply Hf; set_solver). lia.
    + intros e He Ha Hw. destruct (Hp e He Ha) as [|Hx]; [done|].
      specialize (Hx e0). assert (sequence e0 < sequence e) by (apply Hx; set_solver). lia.
  - apply last_None in E as ->. cbn in w. subst w. split_and!; [lia|by intros e He%elem_of_nil|].
    intros. lia.
Qed.

(** The subscription at [s0], the bounds read at [s1], the replay at [s2]. *)
Lemma stream_events s0 s1 s2 s3 after replay :
  rtc (store_step self) s0 s1 → rtc (store_step self) s1 s2 → rtc (store_step self) s2 s3 →
  log_ok (db s0) → replays after (log s2) replay →
  let maximum := list_max (sequence <$> log s1) in
  let r := plan_replay after (list_min (sequence <$> log s1)) maximum replay in
  reset_reason r = None →
  let client := delivered (stream_messages r (Some <$> received s0 s3)) in
  retained_then_live client (received s0 s3) ∧
  NoDup (sequence <$> client) ∧ (∀ e, e ∈ client → after < sequence e) ∧
  ∀ e, e ∈ log s3 → after < sequence e → e ∈ client.
Proof.
  intros H01 H12 H23 Hok Hr maximum r Hreset client.
  destruct (broadcast_steps self s0 s3) as [es03 B03]; [by repeat (etrans; [eassumption|])|].
  destruct (broadcast_steps self s0 s1) as [es01 B01]; [done|].
  destruct (broadcast_steps self s1 s2) as [es12 B12]; [done|].
  destruct (broadcast_steps self s2 s3) as [es23 B23]; [done|].
  assert (es03 = es01 ++ es12 ++ es23) as Ees.
  { apply (app_inv_head (sent s0)). rewrite <-(broadcast_sent _ _ _ B03), (broadcast_sent _ _ _ B23),
      (broadcast_sent _ _ _ B12), (broadcast_sent _ _ _ B01). by rewrite <-!app_assoc. }
  assert (log_ok (db s2)) as Hok2
    by (eapply (event_log_ok self); [|exact Hok]; by etrans).
  destruct (watermark_spec after (log s2) replay Hr) as (Haw & Hrw & Hwr).
  set (w := default after (sequence <$> last replay)) in *.
  assert (event_replay_truncated false maximum w = false ∧ r = mkReplay None replay w) as [Hmax Er].
  { by apply plan_replay_none. }
  unfold client. rewrite delivered_stream, (received_broadcast s0 s3 es03 (broadcast_sent _ _ _ B03)), Er.
  cbn [replayed live_watermark].
  assert (NoDup (sequence <$> es03)) as Hnd.
  { rewrite (broadcast_numbers _ _ _ B03). apply NoDup_seqZ. }
  split_and!.
  - exists replay, (List.filter (λ e, w <? sequence e) es03). split_and!; [done|apply Hr|apply filter_sublist|].
    intros e e' He%Hrw [? _]%elem_of_filter_b. lia.
  - rewrite fmap_app. apply NoDup_app. split_and!.
    + apply sorted_lt_nodup, Hr.
    + intros z (e & -> & He)%list_elem_of_fmap (e' & E & [Hw _]%elem_of_filter_b)%list_elem_of_fmap.
      apply Hrw in He. lia.
    + by apply nodup_key_filter.
  - intros e [He|[He _]%elem_of_filter_b]%elem_of_app; [by apply (replays_from _ _ _ Hr)|lia].
  - intros e He Ha. apply elem_of_app.
    apply (broadcast_covers _ _ _ B23) in He as [He|He].
    + destruct (decide (sequence e <= w)) as [Hw|Hw]; [left; by apply Hwr|right].
      apply elem_of_filter_b. split; [lia|]. rewrite Ees.
      apply (broadcast_covers _ _ _ B12) in He as [He|He]; [|set_solver]. exfalso.
      apply (list_elem_of_fmap_2 sequence) in He. unfold event_replay_truncated in Hmax.
      destruct maximum as [m|] eqn:Em; cbn in Hmax.
      * pose proof (list_max_bound _ _ _ Em He). lia.
      * by apply (list_max_none _ _ Em) in He.
    + right. apply elem_of_filter_b. rewrite Ees. split; [|set_solver].
      apply (broadcast_bound _ _ _ _ B23) in He as [He _].
      destruct (last replay) as [e0|] eqn:E0; [|cbn in w; lia]. cbn in w.
      apply last_Some in E0 as [r' E0].
      assert (e0 ∈ log s2) as Hin by (apply (replays_from _ _ _ Hr); rewrite E0; set_solver).
      apply (log_bound _ Hok2) in Hin. lia.
Qed.
End stream.

(** ** The handler *)
Section handler.
Context `{DL : DecimalLaws} `{Platform} `{Codec} `{CursorCodec}.
Context {V : Type} `{Venue : !ExecutionVenue (Sys * V)} `{Sched : !Schedule V}.
Variable coordinator : ExecutionCoordinator.
Notation st := (store coordinator).
Notation sys w := (w_sys (aw_world w)).

Lemma api_query_done {A} (m : Prog Sys StoreError A) (w : ApiWorld V) a w' :
  lawful coordinator → reads m → api_store m w = (Done a, w') →
  rtc (store_step st) (sys w) (sys w') ∧ m (sys w') = (Done a, sys w').
Proof.
  intros HL Hm. unfold api_store, on_world. destruct (call_store m (aw_world w)) as [r w1] eqn:E.
  intros [= Hr <-]. cbn. apply map_err_done in Hr as ->. split; [|by eapply call_store_query].
  pose proof (runs_query coordinator HL (λ _, True) (P := λ _, True) (λ _ _ _ _, I) m Hm
    (aw_world w) I) as [Hs _].
  by rewrite E in Hs.
Qed.

(** C6. The event stream is complete.  Let a client connect with a cursor, not be
    told to start over, and not lag behind the channel.  It receives the retained
    events first, in the order of their sequence, and then events that are newer
    than these, in the order in which they are broadcast.  It receives no event
    twice, none that is not newer than its cursor, and every newer event that the
    log holds at any later time - no matter what is committed, pruned or restarted
    while the handler runs. *)
Theorem event_stream_complete parse_i64 header (w w' : ApiWorld V) r s :
  lawful coordinator → log_ok (db (sys w)) →
  events parse_i64 header w = (Done r, w') → rtc (store_step st) (sys w') s →
  reset_reason r = None →
  let client := delivered (stream_messages r (Some <$> received (sys w) s)) in
  ∃ after, event_cursor parse_i64 header = Done after ∧
    retained_then_live client (received (sys w) s) ∧ NoDup (sequence <$> client) ∧ (∀ e, e ∈ client → after < sequence e) ∧
    ∀ e, e ∈ log s → after < sequence e → e ∈ client.
Proof.
  intros HL Hok Hr Hs Hreset client. unfold events in Hr.
  apply bind_done in Hr as (after & w0 & Hc & Hr). apply lift_done in Hc as [Hc ->].
  exists after. split; [done|].
  apply bind_done in Hr as ([mi ma] & w1 & Hb & Hr).
  apply api_query_done in Hb as [H01 Hb]; [|done..]. injection Hb as <- <-.
  apply bind_done in Hr as (replay & w2 & Hp & Hr). apply ret_done in Hr as [Hr ->]. subst r.
  apply (stream_events st (sys w) (sys w1) (sys w2) s); try done.
  - destruct (event_cursor_outside_retention _ _ _).
    + apply ret_done in Hp as [_ ->]. apply rtc_refl.
    + by apply api_query_done in Hp as [? _].
  - assert (log_ok (db (sys w1))) as Hok1 by by eapply (event_log_ok st).
    destruct (event_cursor_outside_retention _ _ _) eqn:Eo.
    + unfold plan_replay in Hreset. rewrite Eo in Hreset. discriminate Hreset.
    + apply api_query_done in Hp as [H12 Hp]; [|done..].
      eapply (replay_events_replays _ 10000); [|exact Hp]. by eapply (event_log_ok st).
Qed.
End handler.

(** A client whose cursor is from another database: the log is empty, so the
    stream starts with a reset, and then keeps back every event up to the cursor,
    which it has just declared void. *)
Theorem stale_cursor_drops_events after e :
  0 < after → sequence e <= after →
  stream_messages (plan_replay after None None []) [Some e] = [Reset "cursor_outside_retention"].
Proof.
  intros Ha He. unfold plan_replay, event_cursor_outside_retention.
  rewrite (proj2 (Z.ltb_lt 0 after)) by done. unfold stream_messages. cbn.
  by rewrite (proj2 (Z.ltb_ge after (sequence e))).
Qed.

(** ** Witness *)
Section witness.
#[local] Existing Instance RefOps.
#[local] Existing Instance RefLaws.
#[local] Existing Instance RefPlatform.
#[local] Existing Instance CoordinatorCodec.
#[local] Existing Instance QuietSchedule.
#[local] Existing Instance accepting.

Definition stream_world : ApiWorld nat := ApiState_new 0 (new_world sys_received).
Definition stream_replay : outcome ApiError Replay * ApiWorld nat :=
  events (λ _, Some 0) (Some (Some "0")) stream_world.
Definition stream_later : Sys :=
  (set_service_state fix_store "operator" Halted "stop" (w_sys (aw_world stream_replay.2))).2.

Lemma event_stream_complete_witness :
  sequence <$> delivered (stream_messages (mkReplay None (execution_events (db sys_received)) 1)
    (Some <$> received (w_sys (aw_world stream_world)) stream_later)) = [1; 2] ∧
  ∃ after, event_cursor (λ _, Some 0) (Some (Some "0")) = Done after ∧
    retained_then_live (delivered (stream_messages
      (mkReplay None (execution_events (db sys_received)) 1)
      (Some <$> received (w_sys (aw_world stream_world)) stream_later)))
      (received (w_sys (aw_world stream_world)) stream_later) ∧
    NoDup (sequence <$> delivered (stream_messages
      (mkReplay None (execution_events (db sys_received)) 1)
      (Some <$> received (w_sys (aw_world stream_world)) stream_later))) ∧
    (∀ e, e ∈ delivered (stream_messages (mkReplay None (execution_events (db sys_received)) 1)
        (Some <$> received (w_sys (aw_world stream_world)) stream_later)) → after < sequence e) ∧
    ∀ e, e ∈ log stream_later → after < sequence e →
      e ∈ delivered (stream_messages (mkReplay None (execution_events (db sys_received)) 1)
        (Some <$> received (w_sys (aw_world stream_world)) stream_later)).
Proof.
  split; [vm_compute; reflexivity|].
  apply (event_stream_complete fix_coordinator (λ _, Some 0) (Some (Some "0")) stream_world
    stream_replay.2).
  - apply (fake_lawful (Done fake_submission) None).
  - split; [vm_compute; repeat constructor|].
    intros e He. vm_compute in He. apply list_elem_of_singleton in He as ->. vm_compute. discriminate.
  - vm_compute. reflexivity.
  - apply rtc_once, (Store_step fix_store _ _ (set_service_state fix_store "operator" Halted "stop")),
      Op_service_state.
  - reflexivity.
Defined.
End witness.

(** A submission that is matched at once: its trade has an earlier number than its
    state changes and is broadcast after them.  A client that was cut off
    before it and resumes from the last event it received, number 13, is not sent
    the trade, number 11. *)
Section broadcast_order.
#[local] Existing Instance RefOps.
#[local] Existing Instance RefPlatform.
#[local] Existing Instance CoordinatorCodec.
Definition sys_filled : Sys :=
  (finish_submission fix_store fix_id fix_order_id IntentState.Submitted OrderState.Filled
    (Some "venue-1") "ACCEPTED" (RefDec 10 0) (Some (RefDec 5 1)) [] (JObject []) sys_submitting).2.
Example broadcast_out_of_order :
  sequence <$> received sys_submitting sys_filled = [12; 13; 11] ∧
  sequence <$> List.filter (λ e, 13 <? sequence e) (log sys_filled) = [].
Proof. vm_compute. by split. Qed.
End broadcast_order.
