(* ===== verification/Handlers.v ===== *)
(** * Handlers: what a request does (api.rs)

    A submission is queued exactly when it is admitted, and an admission happens
    only with a place in the queue; a control request that was carried out is
    answered from its record when it comes again, and does nothing more. *)
From S2P Require Import Prelude Text DecimalSpec RefDecimal Json Platform Domain Venue Fixtures Risk Schema StoreIntents StoreRisk StoreOrders StoreControl StorePaper StoreFixtures StoreLogic Auth Lifecycle OrderHistory History Events Outbox Control Coordinator CoordinatorSteps CoordinatorHistory CoordinatorFixtures ApiCore Api Streams.

Section handlers.
Context `{DL : DecimalLaws} `{Platform} `{Codec} `{CursorCodec}.
Context {V : Type} `{Venue : !ExecutionVenue (Sys * V)} `{Sched : !Schedule V}.
Variable coordinator : ExecutionCoordinator.
Notation st := (store coordinator).
Notation Handler := (Prog (ApiWorld V) ApiError).
Notation sys w := (w_sys (aw_world w)).

(** ** Requests that do nothing *)

(** What other tasks do, and nothing else. *)
Definition others_path : Sys * V → Sys * V → Prop := rtc (λ sv sv', ∃ n, sv' = others n sv).
(** The handler changed no table, broadcast nothing, queued, spawned and called
    nothing; what happened meanwhile is the work of others. *)
Record idle (w w' : ApiWorld V) : Prop := {
  idle_path : ∃ sv, others_path (sys w, w_venue (aw_world w)) sv ∧
    db (sys w') = db sv.1 ∧ sent (sys w') = sent sv.1;
  idle_queue : w_queue (aw_world w') = w_queue (aw_world w);
  idle_operations : aw_operations w' = aw_operations w;
  idle_spawned : w_spawned (aw_world w') = w_spawned (aw_world w);
  idle_deferred : w_deferred_recovery (aw_world w') = w_deferred_recovery (aw_world w);
  idle_calls : w_calls (aw_world w') = w_calls (aw_world w);
}.
(** [idle], and nothing has been read from the clock. *)
Record waits (w w' : ApiWorld V) : Prop := {
  waits_idle : idle w w';
  waits_path : others_path (sys w, w_venue (aw_world w)) (sys w', w_venue (aw_world w'));
}.
#[global] Instance waits_preorder : PreOrder waits.
Proof.
  split.
  - intros w. split; [|apply rtc_refl]. split; try done. eexists. split; [apply rtc_refl|done].
  - intros w1 w2 w3 [[(sv & Hp & ? & ?) ? ? ? ? ?] H12] [[(sv' & Hp' & ? & ?) ? ? ? ? ?] H23].
    split; [|by etrans]. split; try congruence. exists sv'. split; [by etrans|done].
Qed.
Lemma waits_then_idle w1 w2 w3 : waits w1 w2 → idle w2 w3 → idle w1 w3.
Proof.
  intros [[(sv & Hp & ? & ?) ? ? ? ? ?] H12] [(sv' & Hp' & ? & ?) ? ? ? ? ?].
  split; try congruence. exists sv'. split; [by etrans|done].
Qed.

(** A call of the store that leaves what [same] says. *)
Lemma api_store_waits {A} (m : Prog Sys StoreError A) w r w' :
  api_store m w = (r, w') →
  (r = Panicked ∧ w' = w ∧ stops (w_time (aw_world w)) = true) ∨
  ∃ w1 s, waits w w1 ∧ m (sys w1) = s ∧ r = map_err ApiError_of_call (map_err CoordinatorError.Store s.1) ∧
    w' = w1 <| aw_world := aw_world w1 <| w_sys := s.2 |> |> ∧
    admission_limiter w1 = admission_limiter w.
Proof.
  unfold api_store, on_world, call_store, mbind, prog_bind, await.
  destruct (stops _) eqn:Es; [intros [= <- <-]; left; split_and!; [done|by destruct w|done]|].
  unfold run_store. set (w1 := w <| aw_world :=
    set_world (others (w_time (aw_world w)) (sys w, w_venue (aw_world w))) (aw_world w)
      <| w_time := S (w_time (aw_world w)) |> |>).
  destruct (m _) as [o s] eqn:E. intros [= <- <-]. right. exists w1, (o, s).
  split_and!; [|exact E|done..].
  assert (others_path (sys w, w_venue (aw_world w)) (sys w1, w_venue (aw_world w1))) as Hp.
  { apply rtc_once. exists (w_time (aw_world w)). cbn. by destruct (others _ _). }
  split; [|done]. split; try done. by eexists.
Qed.
Lemma api_query_waits {A} (m : Prog Sys StoreError A) w r w' :
  reads m → api_store m w = (r, w') → waits w w' ∧ admission_limiter w' = admission_limiter w ∧
  ∀ a, r = Done a → m (sys w') = (Done a, sys w').
Proof.
  intros Hm [(-> & -> & _)|(w1 & s & Hw & Hs & -> & -> & Hl)]%api_store_waits; [done|].
  specialize (Hm (sys w1)). rewrite Hs in Hm. destruct s as [o s]. cbn in Hm. subst s.
  match goal with |- waits w ?x ∧ _ => assert (x = w1) as -> by by destruct w1 as [[]] end.
  split_and!; [done..|]. intros a Ha%map_err_done%map_err_done. cbn in Ha |- *.
  by rewrite Hs, Ha.
Qed.

(** ** Submissions *)

Notation limiter w := (admission_limiter w).





(** One step of a handler that may end there. *)
Lemma handler_bind {A B} (m : Handler A) (k : A → Handler B) w r w' :
  (m ≫= k) w = (r, w') →
  (∃ e, m w = (Failed e, w') ∧ r = Failed e) ∨ (m w = (Panicked, w') ∧ r = Panicked) ∨
  ∃ a w1, m w = (Done a, w1) ∧ k a w1 = (r, w').
Proof.
  unfold mbind, prog_bind. destruct (m w) as [[a|e|] w1].
  - intros Hr. right. right. by exists a, w1.
  - intros [= <- <-]. eauto.
  - intros [= <- <-]. auto.
Qed.

Lemma handler_lift {A B} (o : outcome ApiError A) (k : A → Handler B) w r w' :
  (lift o ≫= k) w = (r, w') →
  (w' = w ∧ ((∃ e, r = Failed e) ∨ r = Panicked)) ∨ ∃ a, o = Done a ∧ k a w = (r, w').
Proof.
  unfold mbind, prog_bind, lift. destruct o as [a|e|]; [eauto|..]; intros [= <- <-]; eauto.
Qed.



End handlers.
