(* ===== verification/Repeats.v ===== *)
(** * Repeats: a control request is carried out once (api.rs, store.rs)

    The operations behind the control requests write the response of a request
    with what they do, so that the request is answered from that record when it
    comes again. *)
From S2P Require Import Prelude Text DecimalSpec RefDecimal Json Platform Domain Venue Fixtures Risk Schema StoreIntents StoreRisk StoreOrders StoreControl StorePaper StoreFixtures StoreLogic Auth Lifecycle OrderHistory History Events Outbox Control Coordinator CoordinatorSteps CoordinatorHistory Moves CoordinatorFixtures ApiCore Api Streams Handlers.

(** ** The record of a response *)

(** The row answers the request [body] of [operation] under the client's key. *)
Record answers `{Platform} (actor key operation : string) (body answer : Value)
    (row : IdempotencyRow) : Prop := {
  answers_actor : ik_actor_id row = actor;
  answers_key : ik_key row = key;
  answers_hash : ik_request_hash row = operation_hash operation body;
  answers_type : ik_resource_type row = operation;
  answers_status : ik_response_status row = 202;
  answers_json : ik_response_json row = jcs_to_string answer;
}.
Definition on_file (row : IdempotencyRow) (d : Db) : Prop :=
  keys_unique d ∧ row ∈ idempotency_keys d.

Lemma on_file_stable row : stable (on_file row).
Proof.
  split.
  - intros d d' Hf [Hu Hr]. split; [by eapply (stable_frame _ keys_unique_stable)|].
    by injection Hf as _ _ _ _ <-.
  - intros e d He [Hu Hr]. by split; [eapply (stable_event _ keys_unique_stable)|].
  - intros c d He [Hu Hr]. by split; [eapply (stable_control _ keys_unique_stable)|].
  - intros r d Hc [Hu Hr]. by split; [apply (stable_intent _ keys_unique_stable)|].
  - intros r d Hc [Hu Hr]. split; [by apply (stable_key _ keys_unique_stable)|]. cbn. set_solver.
Qed.

(** ** Operations that write it *)

(** [m] leaves a response that is right for its result. *)
Definition writes {A} (m : Prog Sys StoreError A) (Q : A → IdempotencyRow → Prop) : Prop :=
  ∀ s a s', m s = (Done a, s') → ∃ row, row ∈ idempotency_keys (db s') ∧ Q a row.

Lemma writes_later {A B} (m : Prog Sys StoreError A) (k : A → Prog Sys StoreError B) Q :
  (∀ a, writes (k a) Q) → writes (m ≫= k) Q.
Proof. intros Hk s b s' (a & s1 & _ & Hr)%bind_done. by eapply Hk. Qed.
Lemma writes_here {A B} (P : IdempotencyRow → Prop) (Q : B → IdempotencyRow → Prop)
    (m : Prog Sys StoreError A) (k : A → Prog Sys StoreError B) :
  writes m (λ _, P) → (∀ a, frames idempotency_keys (k a)) →
  (∀ a s b s' row, k a s = (Done b, s') → P row → Q b row) → writes (m ≫= k) Q.
Proof.
  intros Hm Hk HQ s b s' (a & s1 & Ha & Hr)%bind_done. apply Hm in Ha as (row & Hrow & HP).
  exists row. split; [|by eapply HQ]. specialize (Hk a s1). rewrite Hr in Hk. cbn in Hk.
  by rewrite Hk.
Qed.
Lemma writes_transaction {A} (body : Prog Sys StoreError (A * _)) Q :
  writes body (λ x, Q x.1) → writes (transaction body) Q.
Proof.
  intros Hb s a s' (ev & s1 & Hr & ->)%transaction_done. by apply Hb in Hr.
Qed.

Section store.
Context `{DecimalOps} `{Platform} `{Codec}.
Variable self : Store.

Lemma writes_record actor key operation id body answer now :
  writes (insert_idempotency_record actor key operation id body 202 answer now)
    (λ _, answers actor key operation body answer).
Proof.
  intros s a s' Hr. unfold insert_idempotency_record in Hr.
  apply bind_done in Hr as (n & s1 & Hi & Hr). apply ensure_done in Hr as [Hn ->].
  apply insert_or_ignore_done in Hi as [(_ & -> & ->)|(_ & _ & _ & ->)]; [done|].
  eexists. cbn. split; [apply elem_of_app; right; by apply list_elem_of_singleton|done].
Qed.

Ltac written :=
  repeat match goal with
  | |- writes (insert_idempotency_record _ _ _ _ _ _ _ _ ≫= _) _ =>
      eapply writes_here; [apply writes_record|intros ?; frame|]
  | |- writes (_ ≫= _) _ => apply writes_later; intros ?
  | |- writes (transaction _) _ => apply writes_transaction
  | |- writes (match ?x with _ => _ end) _ => destruct x
  end.

Lemma set_service_state_writes actor next reason i expected :
  writes (set_service_state_inner self actor next reason (Some i) expected)
    (λ _, answers actor (idem_key i) (idem_operation i) (idem_request i) (idem_response i)).
Proof. unfold set_service_state_inner. written. by intros. Qed.
Lemma create_cancellation_writes actor key request body :
  writes (create_cancellation_inner self actor request (Some (key, body)))
    (λ r, answers actor key "cancellation" body
      (json_obj ["id" ::= uuid_to_string r.1; "target_order_ids" ::= (uuid_to_string <$> r.2);
        "mode" ::= Mode_to_string (st_mode self)])).
Proof. unfold create_cancellation_inner. written. intros. by run_inv. Qed.
Lemma start_reconciliation_writes trigger actor key body :
  writes (start_reconciliation_inner self trigger (Some (actor, key, body)))
    (λ id, answers actor key "reconciliation" body
      (json_obj ["id" ::= uuid_to_string id; "mode" ::= Mode_to_string (st_mode self)])).
Proof. unfold start_reconciliation_inner. written. intros. by run_inv. Qed.
Lemma start_backup_writes directory actor key body :
  writes (start_backup_inner self directory (Some (actor, key, body)))
    (λ b, answers actor key "backup" body
      (json_obj ["id" ::= uuid_to_string (bk_id b); "state" ::= "RUNNING";
        "mode" ::= Mode_to_string (st_mode self)])).
Proof.
  unfold start_backup_inner. apply writes_later. intros _. apply writes_later. intros id.
  apply writes_later. intros now.
  apply (writes_here (answers actor key "backup" body (json_obj ["id" ::= uuid_to_string id;
    "state" ::= "RUNNING"; "mode" ::= Mode_to_string (st_mode self)]))).
  - written. by intros.
  - intros ?. unfold get_backup. frame.
  - intros _ s b s' row Hb Ha. unfold get_backup in Hb. run_inv. db_inv. subst.
    match goal with E : List.find _ _ = Some b |- _ => apply List.find_some in E as [_ E] end.
    by match goal with E : backup_is id b = true |- _ => apply bool_decide_eq_true in E as -> end.
Qed.
End store.

(** ** Handlers that file a response *)
Section files.
Context `{DL : DecimalLaws} `{Platform} `{Codec} `{CursorCodec}.
Context {V : Type} `{Venue : !ExecutionVenue (Sys * V)} `{Sched : !Schedule V}.
Variable coordinator : ExecutionCoordinator.
Notation st := (store coordinator).
Notation Handler := (Prog (ApiWorld V) ApiError).
Notation sys w := (w_sys (aw_world w)).
Context (HL : lawful coordinator).
Notation moves := (moves coordinator).

Section programs.
Context {W E : Type} (π : W → Sys).
Definition files {A} (m : Prog W E A) (Q : A → IdempotencyRow → Prop) : Prop :=
  ∀ w a w', reachable st (π w) → m w = (Done a, w') →
  ∃ s row, rtc (store_step st) (π w) s ∧ row ∈ idempotency_keys (db s) ∧ Q a row ∧
    rtc (store_step st) s (π w').

Lemma files_after {A B} (m : Prog W E A) (k : A → Prog W E B) Q :
  moves π m → (∀ a, files (k a) Q) → files (m ≫= k) Q.
Proof.
  intros Hm Hk w b w' Hw (a & w1 & Ha & Hr)%bind_done.
  destruct (moves_done coordinator π m w a w1 Hm Hw Ha) as [Hs1 Hw1].
  destruct (Hk a w1 b w' Hw1 Hr) as (s & row & Hs & ? & ? & ?). exists s, row.
  split; [by etrans|done].
Qed.
Lemma files_before {A B} (m : Prog W E A) (k : A → Prog W E B) P (Q : B → _ → Prop) :
  files m P → (∀ a, moves π (k a)) →
  (∀ a w b w' row, k a w = (Done b, w') → P a row → Q b row) → files (m ≫= k) Q.
Proof.
  intros Hm Hk HQ w b w' Hw (a & w1 & Ha & Hr)%bind_done.
  destruct (Hm w a w1 Hw Ha) as (s & row & Hs & Hrow & HP & Hs1). exists s, row.
  split_and!; [done..|by eapply HQ|]. etrans; [exact Hs1|].
  assert (reachable st (π w1)) as Hw1
    by (eapply (reachable_persistent coordinator (π w)); [by etrans|done]).
  by destruct (moves_done coordinator π (k a) w1 b w' (Hk a) Hw1 Hr).
Qed.
End programs.

Lemma files_call_store {A} (m : Prog Sys StoreError A) Q :
  (∀ d, store_op st d A m) → writes m Q → files w_sys (call_store m) Q.
Proof.
  intros Hop Hm w a w' Hw (u & w1 & Hu & Hr)%bind_done.
  destruct (moves_done coordinator w_sys await w u w1) as [Hs1 _]; [|done..|].
  { apply moves_runs, runs_await. done. }
  unfold run_store in Hr. destruct (m (w_sys w1)) as [o s] eqn:Em. injection Hr as Ho <-.
  apply map_err_done in Ho as ->. destruct (Hm _ _ _ Em) as (row & Hrow & HQ).
  exists s, row. split_and!; [|done..|apply rtc_refl]. eapply rtc_r; [exact Hs1|].
  replace s with (m (w_sys w1)).2 by by rewrite Em. constructor. apply Hop.
Qed.
Lemma files_on_world {E A} (f : E → ApiError) (m : Prog (World V) E A) Q :
  files w_sys m Q → files (λ w : ApiWorld V, sys w) (on_world f m) Q.
Proof.
  intros Hm w a w' Hw. unfold on_world. destruct (m (aw_world w)) as [r w1] eqn:Em.
  intros [= Hr <-]. apply map_err_done in Hr as ->. by apply (Hm _ _ _ Hw Em).
Qed.

Lemma moves_resume_checks reason : moves w_sys (resume_checks coordinator reason).
Proof.
  apply moves_runs, (runs_resume_checks coordinator HL (λ _, True) I (reachable_persistent coordinator)).
  apply (reachable_unique coordinator).
Qed.
Lemma moves_requeue : moves w_sys (requeue_deferred (V := V)).
Proof.
  apply moves_runs, (runs_requeue_deferred coordinator HL (λ _, True) (reachable_persistent coordinator)).
Qed.

Lemma admit_cancellation_files actor key request :
  files w_sys (admit_cancellation coordinator actor key request) (λ r, answers actor key
    "cancellation" (to_value request) (json_obj ["id" ::= uuid_to_string r.1;
      "target_order_ids" ::= (uuid_to_string <$> r.2); "mode" ::= Mode_to_string (st_mode st)])).
Proof.
  unfold admit_cancellation. apply files_after; [by apply moves_still|]. intros _.
  apply files_call_store; [intros; apply Op_cancellation|apply create_cancellation_writes].
Qed.
Lemma admit_reconciliation_files actor key trigger :
  files w_sys (admit_reconciliation coordinator actor key trigger) (λ id, answers actor key
    "reconciliation" (json_obj []) (json_obj ["id" ::= uuid_to_string id;
      "mode" ::= Mode_to_string (st_mode st)])).
Proof. apply files_call_store; [intros; apply Op_start_reconciliation|apply start_reconciliation_writes]. Qed.
Lemma halt_idempotent_files actor key reason :
  files w_sys (halt_idempotent coordinator actor key reason) (λ _, answers actor key
    "control.halt" (ReasonRequest_value reason)
    (json_obj ["state" ::= "HALTED"; "mode" ::= Mode_to_string (st_mode st)])).
Proof.
  unfold halt_idempotent. apply files_after.
  { apply moves_still. intros w. unfold need_reason, ensure. by destruct (negb _). }
  intros _. eapply files_before.
  - apply files_call_store; [intros; apply Op_service_state|apply set_service_state_writes].
  - intros _. apply moves_still. intros w. unfold spawn_protective_cancellation.
    by destruct (cancel_on_halt _).
  - intros ? ? ? ? row _ Ha. exact Ha.
Qed.
Lemma resume_idempotent_files actor key reason :
  files w_sys (resume_idempotent coordinator actor key reason) (λ _, answers actor key
    "control.resume" (ReasonRequest_value reason)
    (json_obj ["state" ::= "READY"; "mode" ::= Mode_to_string (st_mode st)])).
Proof.
  unfold resume_idempotent. apply files_after; [apply moves_resume_checks|]. intros revision. eapply files_before.
  - apply files_call_store; [intros; apply Op_service_state|apply set_service_state_writes].
  - intros _. apply moves_requeue.
  - intros ? ? ? ? row _ Ha. exact Ha.
Qed.

(** ** The control requests *)

(** The handlers that go through [replay_operation]: the operation, the body and
    what is left to do when it was not answered from a record. *)
Inductive control_request (actor : Actor) (header : option string)
    : string → Value → Handler Response → Prop :=
| Request_cancel request :
    control_request actor header "cancellation" (to_value request)
      (api_cancel coordinator actor header request)
| Request_halt request :
    control_request actor header "control.halt" (ReasonRequest_value request)
      (api_halt coordinator actor header request)
| Request_resume request :
    control_request actor header "control.resume" (ReasonRequest_value request)
      (api_resume coordinator actor header request)
| Request_reconcile :
    control_request actor header "reconciliation" (json_obj [])
      (api_reconcile coordinator actor header)
| Request_backup directory :
    control_request actor header "backup" (json_obj [])
      (api_create_backup coordinator directory actor header).

Lemma enforce_keeps_sys (w : ApiWorld V) : sys (enforce_admission_rate w).2 = sys w.
Proof. unfold enforce_admission_rate. by destruct (TokenBucket_take _ _). Qed.
(** Each of them reads the key, may refuse the body, waits for its gate and looks
    for a record; the rest files the response that it gives. *)
Lemma control_request_shape actor header operation body m :
  control_request actor header operation body m →
  ∃ (check : outcome ApiError ()) run,
    (∀ w, m w = (key ← lift (idempotency_key header); lift check;; lock_gate;;
      unless_replayed actor key operation body (run key)) w) ∧
    ∀ key, files (λ w : ApiWorld V, sys w) (run key) (λ r row, resp_status r = 202 ∧
      answers (act_id actor) key operation body (resp_body r) row).
Proof.
  intros [request|reason|reason| |directory];
    [exists (Done tt)|exists (validate_reason reason)|exists (validate_reason reason)|
     exists (Done tt)|exists (Done tt)]; eexists;
    (split; [intros w; unfold api_cancel, api_halt, api_resume, api_reconcile, api_create_backup;
             by destruct (idempotency_key header)|]);
    intros key; cbv beta;
    (apply files_after; [apply moves_still; intros w; apply enforce_keeps_sys|intros _]).
  - apply files_after; [by apply moves_still|intros _].
    eapply files_before; [apply files_on_world, admit_cancellation_files| |].
    + intros [id targets]. by apply moves_still.
    + intros [id targets] ? ? ? row [= <- _] Ha. done.
  - eapply files_before; [apply files_on_world, halt_idempotent_files| |].
    + intros _. by apply moves_still.
    + intros ? ? ? ? row [= <- _] Ha. done.
  - eapply files_before; [apply files_on_world, resume_idempotent_files| |].
    + intros _. by apply moves_still.
    + intros ? ? ? ? row [= <- _] Ha. done.
  - apply files_after; [by apply moves_still|intros _].
    eapply files_before; [apply files_on_world, admit_reconciliation_files| |].
    + intros id. by apply moves_still.
    + intros id ? ? ? row [= <- _] Ha. done.
  - apply files_after; [by apply moves_still|intros _].
    eapply files_before; [apply files_on_world, files_call_store| |].
    + intros d. apply Op_start_backup.
    + apply start_backup_writes.
    + intros b. by apply moves_still.
    + intros b ? ? ? row [= <- _] Ha. done.
Qed.

(** ** Answers from the record *)

Lemma waits_steps (w w' : ApiWorld V) : waits w w' → rtc (store_step st) (sys w) (sys w').
Proof.
  intros [_ Hp]. unfold others_path in Hp.
  change (sys w) with (sys w, w_venue (aw_world w)).1.
  change (sys w') with (sys w', w_venue (aw_world w')).1.
  induction Hp as [|sv sv1 sv2 [n ->] _ IH]; [apply rtc_refl|].
  etrans; [|exact IH]. apply (lawful_others _ HL).
Qed.
Lemma on_file_steps row s s' :
  rtc (store_step st) s s' → on_file row (db s) → on_file row (db s').
Proof.
  intros Hs. eapply (stable_steps st (on_file row)); [apply on_file_stable| |exact Hs].
  by intros p d [[] ?].
Qed.
Lemma on_file_found actor key row d :
  on_file row d → ik_actor_id row = actor → ik_key row = key →
  List.find (by_key actor key) (idempotency_keys d) = Some row.
Proof.
  intros [[_ Hu] Hin] Ha Hk. destruct (List.find _ _) as [row'|] eqn:E.
  - apply List.find_some in E as [Hin' [Ha' Hk']%andb_true_iff].
    apply bool_decide_eq_true in Ha', Hk'. apply list_elem_of_In in Hin'. f_equal.
    apply (nodup_key_eq response_key (idempotency_keys d)); [done..|unfold response_key; congruence].
  - eapply find_None_elem in E; [|exact Hin]. unfold by_key in E.
    by rewrite Ha, Hk, !bool_decide_true in E.
Qed.

(** What the record of a request answers. *)
Definition recall (row : IdempotencyRow) : outcome ApiError Response :=
  if (0 <=? ik_response_status row) && (ik_response_status row <? 2 ^ 16) then
    match json_from_str (ik_response_json row) with
    | None => Failed (ApiError_of_store Serialization)
    | Some v =>
        if valid_status (ik_response_status row) then Done (response (ik_response_status row) v)
        else Failed (ApiError_new 500 "INTERNAL_STORAGE_ERROR"
          "stored idempotent response has an invalid status" false)
    end
  else Failed (ApiError_of_store (IdentityMismatch "stored HTTP response status is invalid")).

Lemma idempotent_response_reads a k op b : reads (idempotent_response a k op b).
Proof.
  intros s. unfold idempotent_response, mbind, prog_bind, fetch_optional, gets. cbn.
  destruct (List.find _ _); [|done]. unfold ensure, lift, fail.
  destruct (_ && _); [|done]. cbn. destruct (_ && _); [|done]. by destruct (json_from_str _).
Qed.
Lemma lock_gate_waits (w : ApiWorld V) r w' :
  lock_gate w = (r, w') → waits w w' ∧ admission_limiter w' = admission_limiter w.
Proof.
  unfold lock_gate, on_world, await. destruct (stops _); intros [= _ <-].
  - by match goal with |- waits w ?x ∧ _ => assert (x = w) as -> by by destruct w end.
  - split; [|done]. match goal with |- waits w ?x => set (w' := x) end.
    assert (others_path (sys w, w_venue (aw_world w)) (sys w', w_venue (aw_world w'))) as Hp.
    { apply rtc_once. exists (w_time (aw_world w)). cbn. by destruct (others _ _). }
    split; [|done]. split; try done. by eexists.
Qed.

Section row.
Context (actor : Actor) (key operation : string) (body : Value) (row : IdempotencyRow).
Context (Ha : ik_actor_id row = act_id actor) (Hk : ik_key row = key)
  (Hh : ik_request_hash row = operation_hash operation body) (Ht : ik_resource_type row = operation).

Lemma idempotent_response_on_file s :
  on_file row (db s) →
  idempotent_response (act_id actor) key operation body s =
  (if (0 <=? ik_response_status row) && (ik_response_status row <? 2 ^ 16) then
     match json_from_str (ik_response_json row) with
     | None => Failed Serialization
     | Some v => Done (Some (mkIdempotentResponse (ik_response_status row) v))
     end
   else Failed (IdentityMismatch "stored HTTP response status is invalid"), s).
Proof.
  intros Hrow. pose proof (on_file_found (act_id actor) key row _ Hrow Ha Hk) as Hf.
  unfold idempotent_response, mbind, prog_bind, fetch_optional, gets. cbn [rows idempotency_table].
  rewrite Hf. cbn -[operation_hash]. rewrite Hh, Ht, !bool_decide_true by done. cbn.
  destruct (_ && _); [|done]. cbn. by destruct (json_from_str _).
Qed.

(** A request whose record is on file is answered from it, whatever else the
    handler would have done. *)
Lemma replay_operation_on_file w r w' :
  on_file row (db (sys w)) → replay_operation actor key operation body w = (r, w') →
  waits w w' ∧ admission_limiter w' = admission_limiter w ∧
  (r = Panicked ∨ r = match recall row with
    | Done a => Done (Some a) | Failed e => Failed e | Panicked => Panicked end).
Proof.
  intros Hrow Hr. unfold replay_operation in Hr. unfold recall. apply handler_bind in Hr.
  assert (∀ x w1, api_store (idempotent_response (act_id actor) key operation body) w = (x, w1) →
    waits w w1 ∧ admission_limiter w1 = admission_limiter w ∧ (x = Panicked ∨
    x = map_err ApiError_of_call (map_err CoordinatorError.Store
      (idempotent_response (act_id actor) key operation body (sys w1)).1) ∧
      on_file row (db (sys w1)))) as Hstore.
  { intros x w1 Hx. pose proof Hx as Hq. apply api_query_waits in Hq as (Hw & Hl & _);
      [|apply idempotent_response_reads]. split_and!; [done..|].
    apply api_store_waits in Hx as [(-> & _)|(w3 & s & Hw3 & Hs & -> & -> & _)]; [by left|right].
    assert (on_file row (db (sys w3))) as Hf by (by eapply on_file_steps; [apply waits_steps|]).
    rewrite (idempotent_response_on_file _ Hf) in Hs. subst s. cbn [sys aw_world].
    split; [|exact Hf]. cbn. by rewrite (idempotent_response_on_file _ Hf). }
  destruct Hr as [(e & Hm & ->)|[(Hm & ->)|(replay & w1 & Hm & Hr)]];
    apply Hstore in Hm as (Hw & Hl & Hx); [|by auto|].
  - split_and!; [done..|]. right. destruct Hx as [|[Hx Hf]]; [done|].
    rewrite (idempotent_response_on_file _ Hf) in Hx. cbn in Hx.
    destruct (_ && _); [|by injection Hx as ->]. destruct (json_from_str _); [done|]. by injection Hx as ->.
  - destruct Hx as [|[Hx Hf]]; [done|]. rewrite (idempotent_response_on_file _ Hf) in Hx. cbn in Hx.
    destruct (_ && _); [|done]. destruct (json_from_str _) as [v|]; [|done]. injection Hx as ->.
    cbn in Hr. unfold ensure in Hr. destruct (valid_status _); injection Hr as <- <-; auto.
Qed.
Lemma unless_replayed_on_file run w :
  on_file row (db (sys w)) →
  let '(o, w') := unless_replayed actor key operation body run w in
  waits w w' ∧ admission_limiter w' = admission_limiter w ∧ (o = Panicked ∨ o = recall row).
Proof.
  intros Hrow. destruct (unless_replayed _ _ _ _ _ w) as [o w'] eqn:Hr.
  unfold unless_replayed in Hr. apply handler_bind in Hr.
  destruct Hr as [(e & Hm & ->)|[(Hm & ->)|(replay & w1 & Hm & Hr)]];
    apply replay_operation_on_file in Hm as (Hw & Hl & Hx); try done.
  - split_and!; [done..|right]. destruct Hx as [|Hx]; [done|]. by destruct (recall row); simplify_eq.
  - split_and!; [done..|by left].
  - destruct Hx as [|Hx]; [done|]. destruct (recall row) as [a| |]; [|done..].
    injection Hx as ->. injection Hr as <- <-. auto.
Qed.
End row.

Lemma gated_request_on_file actor header key operation body (check : outcome ApiError ()) run row w :
  idempotency_key header = Done key → check = Done tt →
  on_file row (db (sys w)) → ik_actor_id row = act_id actor → ik_key row = key →
  ik_request_hash row = operation_hash operation body → ik_resource_type row = operation →
  let '(o, w') := (key ← lift (idempotency_key header); lift check;; lock_gate;;
    unless_replayed actor key operation body (run key)) w in
  waits w w' ∧ admission_limiter w' = admission_limiter w ∧ (o = Panicked ∨ o = recall row).
Proof.
  intros -> -> Hrow Ha Hk Hh Ht.
  change (let '(o, w') := (lock_gate;; unless_replayed actor key operation body (run key)) w in
    waits w w' ∧ admission_limiter w' = admission_limiter w ∧ (o = Panicked ∨ o = recall row)).
  destruct ((lock_gate;; _) w) as [o w'] eqn:Hr. apply handler_bind in Hr.
  destruct Hr as [(e & Hm & ->)|[(Hm & ->)|(u & w1 & Hm & Hr)]].
  - unfold lock_gate, on_world, await in Hm. by destruct (stops _).
  - apply lock_gate_waits in Hm as [Hw Hl]. auto.
  - apply lock_gate_waits in Hm as [Hw Hl].
    pose proof (unless_replayed_on_file actor key operation body row Ha Hk Hh Ht (run key) w1) as Hx.
    rewrite Hr in Hx. destruct Hx as (Hw' & Hl' & Ho).
    { eapply on_file_steps; [by apply waits_steps|done]. }
    split_and!; [by etrans|congruence|done].
Qed.

(** The response of a replay is on record. *)
Lemma replay_operation_done actor key operation body (w : ApiWorld V) r w' :
  replay_operation actor key operation body w = (Done (Some r), w') →
  ∃ row, row ∈ idempotency_keys (db (sys w')) ∧ ik_actor_id row = act_id actor ∧ ik_key row = key ∧
    ik_request_hash row = operation_hash operation body ∧ ik_resource_type row = operation ∧
    recall row = Done r.
Proof.
  intros (replay & w1 & Hm & Hr)%bind_done.
  apply (api_query_done coordinator) in Hm as [_ Hm]; [|done|apply idempotent_response_reads].
  destruct replay as [replay|]; [|run_inv; discriminate]. run_inv.
  unfold idempotent_response, mbind, prog_bind, fetch_optional, gets in Hm.
  cbn [rows idempotency_table] in Hm.
  destruct (List.find _ _) as [row|] eqn:E; [|done].
  apply List.find_some in E as [Hin [Ha Hk]%andb_true_iff].
  apply bool_decide_eq_true in Ha, Hk. apply list_elem_of_In in Hin.
  cbn -[operation_hash] in Hm. destruct (_ && _) eqn:Eh in Hm; [|done].
  apply andb_true_iff in Eh as [Eh%bool_decide_eq_true Et%bool_decide_eq_true].
  cbn in Hm. destruct (_ && _) eqn:Es in Hm; [|done]. cbn in Hm.
  destruct (json_from_str _) as [v|] eqn:Ej in Hm; [|done]. injection Hm as <-.
  exists row. split_and!; try done. unfold recall. rewrite Es, Ej. cbn in *.
  by case_match; simplify_eq/=.
Qed.

(** C3. A control request is carried out once.  When a cancellation, a halt, a
    resume, a reconciliation or a backup has been answered, the same request
    under the same key - after any history, and whatever the other tasks do while
    it is handled - changes no table, queues, spawns and asks nothing and takes no
    token of the admission rate: it is cut short by a stop of the process, or it
    gets the same response again, read back from the canonical text that was
    recorded. *)
Theorem control_request_carried_out_once actor header operation body m (w0 w1 w2 : ApiWorld V) r :
  control_request actor header operation body m →
  reachable st (sys w0) → keys_unique (db (sys w0)) →
  m w0 = (Done r, w1) → rtc (store_step st) (sys w1) (sys w2) →
  let '(o, w3) := m w2 in
  idle w2 w3 ∧ admission_limiter w3 = admission_limiter w2 ∧
  (o = Panicked ∨ o = Done r ∨ resp_status r = 202 ∧
    o = match json_from_str (jcs_to_string (resp_body r)) with
        | Some v => Done (response 202 v)
        | None => Failed (ApiError_of_store Serialization)
        end).
Proof.
  intros Hreq Hreach Hu Hr Hs.
  destruct (control_request_shape _ _ _ _ _ Hreq) as (check & run & Heq & Hfiles).
  rewrite Heq in Hr.
  apply bind_done in Hr as (key & w & Hkey & Hr). apply lift_done in Hkey as [Hkey ->].
  apply bind_done in Hr as ([] & w & Hcheck & Hr). apply lift_done in Hcheck as [Hcheck ->].
  apply bind_done in Hr as (u & wl & Hl & Hr).
  apply lock_gate_waits in Hl as [Hl _]. apply waits_steps in Hl.
  apply bind_done in Hr as (replay & wr & Hq & Hr). pose proof Hq as Hsteps.
  assert (rtc (store_step st) (sys wl) (sys wr)) as Hlr.
  { clear -HL Hq. apply bind_done in Hq as (x & w & Hx & Hq).
    apply (api_query_done coordinator) in Hx as [Hx _]; [|done|apply idempotent_response_reads].
    destruct x; run_inv; done. }
  assert (∃ row, on_file row (db (sys w1)) ∧ ik_actor_id row = act_id actor ∧ ik_key row = key ∧
    ik_request_hash row = operation_hash operation body ∧ ik_resource_type row = operation ∧
    (recall row = Done r ∨ resp_status r = 202 ∧ recall row =
      match json_from_str (jcs_to_string (resp_body r)) with
      | Some v => Done (response 202 v)
      | None => Failed (ApiError_of_store Serialization)
      end)) as (row & Hrow & Ha & Hk & Hh & Ht & Hrecall).
  { destruct replay as [r'|].
    - injection Hr as -> <-. apply replay_operation_done in Hq as (row & Hin & ? & ? & ? & ? & ?).
      exists row. split_and!; try done; [|by left]. split; [|done].
      eapply (stable_steps st keys_unique); [apply keys_unique_stable|by intros ?? []| |exact Hu].
      by etrans.
    - apply (Hfiles key) in Hr as (s & row & Hs1 & Hin & (Hst & []) & Hs2).
      + exists row. split_and!; try done.
        * eapply on_file_steps; [exact Hs2|]. split; [|done].
          eapply (stable_steps st keys_unique); [apply keys_unique_stable|by intros ?? []| |exact Hu].
          etrans; [exact Hl|]. etrans; [exact Hlr|exact Hs1].
        * right. split; [done|]. unfold recall. rewrite answers_status0, answers_json0. cbn.
          by destruct (json_from_str _).
      + eapply reachable_persistent; [|exact Hreach]. by etrans. }
  assert (on_file row (db (sys w2))) as Hrow2 by (by eapply on_file_steps).
  pose proof (gated_request_on_file actor header key operation body check run row w2
    Hkey Hcheck Hrow2 Ha Hk Hh Ht) as Hx.
  rewrite <-Heq in Hx. destruct (m w2) as [o w3]. destruct Hx as (Hw & Hlim & Ho).
  split_and!; [apply Hw|done|]. destruct Ho as [->| ->]; [by left|right].
  destruct Hrecall as [->|[? ->]]; auto.
Qed.
End files.

(** ** Witness *)
Section witness.
#[local] Existing Instance RefOps.
#[local] Existing Instance RefLaws.
#[local] Existing Instance RefPlatform.
#[local] Existing Instance CoordinatorCodec.
#[local] Existing Instance QuietSchedule.
#[local] Existing Instance accepting.

Definition operator : Actor := mkActor "operator" ∅.
Definition halt_key : option string := Some "halt-key-0123456789".
Definition calm_world : ApiWorld nat := ApiState_new 0 (world_queued (Done fake_submission)).
Definition answered (run : outcome ApiError Response * ApiWorld nat) : option Z :=
  match run.1 with Done r => Some (resp_status r) | _ => None end.
Definition first_halt : outcome ApiError Response * ApiWorld nat :=
  api_halt fix_coordinator operator halt_key "stop" calm_world.
Definition halt_response : Response :=
  response 202 (json_obj ["state" ::= "HALTED"; "mode" ::= Mode_to_string Paper]).
Definition second_halt : outcome ApiError Response * ApiWorld nat :=
  api_halt fix_coordinator operator halt_key "stop" first_halt.2.

Lemma control_request_carried_out_once_witness :
  (first_halt.1 = Done halt_response ∧ w_spawned (aw_world first_halt.2) = ["stop"] ∧
   w_spawned (aw_world second_halt.2) = ["stop"]) ∧
  let '(o, w3) := api_halt fix_coordinator operator halt_key "stop" first_halt.2 in
  idle first_halt.2 w3 ∧ admission_limiter w3 = admission_limiter first_halt.2 ∧
  (o = Panicked ∨ o = Done halt_response ∨ resp_status halt_response = 202 ∧
    o = match json_from_str (jcs_to_string (resp_body halt_response)) with
        | Some v => Done (response 202 v)
        | None => Failed (ApiError_of_store Serialization)
        end).
Proof.
  split; [split_and!; vm_compute; reflexivity|].
  apply (control_request_carried_out_once fix_coordinator
    (fake_lawful (Done fake_submission) None) operator halt_key "control.halt"
    (ReasonRequest_value "stop") (api_halt fix_coordinator operator halt_key "stop")
    calm_world first_halt.2 first_halt.2 halt_response).
  - constructor.
  - apply queued_reachable.
  - split; vm_compute; repeat constructor; set_solver.
  - vm_compute. reflexivity.
  - apply rtc_refl.
Defined.
End witness.
