(* ===== verification/Listings.v ===== *)
(** * Listings: a client that follows the cursors (api.rs)

    A client reads a listing page by page, with the cursor of the last page,
    until there is none.  It sees every row that stays in the listing exactly
    once, in order, even while other rows come and go, and it gets to the end
    unless there are always new rows. *)
From stdpp Require Import sorting.
From S2P Require Import Prelude Text DecimalSpec RefDecimal Json Platform Domain Venue Fixtures Risk Schema StoreIntents StoreRisk StoreOrders StoreControl StoreQueries StoreFixtures StoreLogic Paging Lifecycle Coordinator CoordinatorSteps CoordinatorFixtures ApiCore Api Streams Handlers.

(** ** One page *)
Section one_page.
Context {R : Type} (key : R → DateTime * Uuid).

(** Strictly after, in the order of the listings. *)
Definition before (a b : DateTime * Uuid) : Prop := after_cursor (Some a) b = true.
Lemma before_trans a b c : before a b → before b c → before a c.
Proof.
  unfold before. rewrite !after_cursor_spec. intros [Hab Hne] [Hbc Hne']. split; [by etrans|].
  intros ->. by apply Hne, (anti_symm page_le).
Qed.
#[global] Instance before_transitive : Transitive before.
Proof. intros a b c. apply before_trans. Qed.
Lemma before_irrefl a : ¬ before a a.
Proof. unfold before. rewrite after_cursor_spec. by intros []. Qed.

Lemma rest_strict cursor l :
  NoDup (key <$> l) → StronglySorted before (key <$> rest key cursor l).
Proof.
  intros Hnd. assert (NoDup (key <$> rest key cursor l)) as Hr
    by (rewrite rest_perm; by apply nodup_key_filter).
  pose proof (order_by_sorted key (List.filter (λ r, after_cursor cursor (key r)) l)) as Hs.
  fold (rest key cursor l) in Hs. revert Hr. induction Hs as [|r l' _ IH Hf]; [constructor|].
  cbn. intros [Hn Hnd']%NoDup_cons. constructor; [by apply IH|].
  apply Forall_fmap, Forall_forall. intros r' Hr'. cbn. rewrite Forall_forall in Hf.
  unfold before. apply after_cursor_spec. split; [by apply Hf|]. intros E. apply Hn. rewrite E.
  by apply list_elem_of_fmap_2.
Qed.

(** The rows of a page come after the cursor; a row of the listing after the
    cursor is on the page or comes after its last row. *)
Lemma page_rows cursor l n rows x :
  NoDup (key <$> l) → take n (rest key cursor l) = rows ++ [x] →
  StronglySorted before (key <$> rows ++ [x]) ∧
  (∀ r, r ∈ rows ++ [x] → r ∈ l ∧ after_cursor cursor (key r) = true) ∧
  ∀ r, r ∈ l → after_cursor cursor (key r) = true → r ∈ rows ++ [x] ∨ before (key x) (key r).
Proof.
  intros Hnd E. pose proof (rest_strict cursor l Hnd) as Hs.
  rewrite <-(take_drop n (rest key cursor l)), E, fmap_app in Hs.
  apply StronglySorted_app in Hs as (Hb & Hs & _).
  assert (∀ r, r ∈ rest key cursor l ↔ r ∈ l ∧ after_cursor cursor (key r) = true) as Hin.
  { intros r. rewrite rest_perm, elem_of_filter_b. tauto. }
  split_and!; [done|..].
  - intros r Hr. apply Hin. rewrite <-(take_drop n), E. set_solver.
  - intros r Hr Ha. assert (r ∈ rest key cursor l) as Hx by by apply Hin.
    rewrite <-(take_drop n), E in Hx. apply elem_of_app in Hx as [Hx|Hx]; [by left|right].
    apply Hb; apply list_elem_of_fmap_2; [set_solver|done].
Qed.
End one_page.

(** ** The walk of a client *)
Section listings.
Context `{DL : DecimalLaws} `{Platform} `{Codec} `{CursorCodec}.
Context {V : Type} `{Venue : !ExecutionVenue (Sys * V)} `{Sched : !Schedule V}.
Notation Handler := (Prog (ApiWorld V) ApiError).
Notation sys w := (w_sys (aw_world w)).

(** A client that reads at most [fuel] pages: the rows, or nothing when the last
    page it read still had a cursor. *)
Fixpoint follow {T} (pages : option string → Handler (ListPage T)) (fuel : nat)
    (c : option string) : Handler (option (list T)) :=
  match fuel with
  | O => mret None
  | S fuel =>
      p ← pages c;
      match next_cursor p with
      | None => mret (Some (items p))
      | Some next =>
          rest ← follow pages fuel (Some next);
          mret (match rest with Some l => Some (items p ++ l) | None => None end)
      end
  end.

Definition key_of_cursor (c : option ResourceCursor) : option (DateTime * Uuid) :=
  cursor_pair <$> c.
(** The cursor text of a client can be read back. *)
Definition cursors_read_back : Prop :=
  ∀ c, decode_cursor (Some (encode_cursor c)) = Done (Some c).

(** What [pages] answers: the first rows after the cursor, of those that [shown]
    has when the page is read, and the cursor of the last one if there are more. *)
Record serves {R T} (f : R → T) (key : R → DateTime * Uuid) (cursor_for : T → ResourceCursor)
    (shown : Db → list R) (pages : option string → Handler (ListPage T)) : Prop := {
  serves_key r : cursor_pair (cursor_for (f r)) = key r;
  serves_page c w p w' : pages c w = (Done p, w') →
    waits w w' ∧ ∃ cursor limit, decode_cursor c = Done cursor ∧ 0 < limit ∧
      page (f <$> take (S (Z.to_nat limit)) (rest key (key_of_cursor cursor) (shown (db (sys w')))))
        limit cursor_for = Done p;
  serves_runs c w cursor : decode_cursor c = Done cursor →
    (∃ p w', pages c w = (Done p, w')) ∨
    ((∃ n, stops n = true) ∧ ∃ w', pages c w = (Panicked, w'));
}.

Lemma page_done {T} (l : list T) limit cursor_for p :
  page l limit cursor_for = Done p →
  items p = take (Z.to_nat limit) l ∧
  match next_cursor p with
  | None => (length l ≤ Z.to_nat limit)%nat
  | Some next => ∃ x, last (items p) = Some x ∧ next = encode_cursor (cursor_for x)
  end.
Proof.
  unfold page. cbv zeta. destruct (_ <? _)%nat eqn:E; cbn.
  - destruct (last _) as [x|] eqn:El; [|done]. intros [= <-]. cbn. eauto.
  - intros [= <-]. by apply Nat.ltb_ge in E.
Qed.

(** A page can always be made, and a query answers unless the process stops. *)
Lemma page_total {T} (l : list T) limit (cursor_for : T → ResourceCursor) :
  0 < limit → ∃ p, page l limit cursor_for = Done p.
Proof.
  intros Hl. unfold page. cbv zeta. destruct (_ <? _)%nat eqn:E; [|by eexists].
  apply Nat.ltb_lt in E. destruct (last (take (Z.to_nat limit) l)) as [x|] eqn:El; [by eexists|].
  apply last_None in El. apply (f_equal length) in El. rewrite length_take in El. cbn in El. lia.
Qed.
Lemma api_query_runs {A} (m : Prog Sys StoreError A) (w : ApiWorld V) :
  (∀ s, ∃ a, m s = (Done a, s)) →
  (∃ a w', api_store m w = (Done a, w')) ∨
  ((∃ n, stops n = true) ∧ ∃ w', api_store m w = (Panicked, w')).
Proof.
  intros Hm. unfold api_store, on_world, call_store, mbind, prog_bind, await.
  destruct (stops (w_time (aw_world w))) eqn:Es; [right; split; by eexists|left].
  unfold run_store. match goal with |- context [m ?s] => destruct (Hm s) as [a ->] end. by do 2 eexists.
Qed.
Lemma listing_runs {R} limit raw cursor (q : Z → option ResourceCursor → Prog Sys StoreError (list R))
    (cursor_for : R → ResourceCursor) (w : ApiWorld V) :
  1 <= limit <= 500 → decode_cursor raw = Done cursor → (∀ n c s, ∃ l, q n c s = (Done l, s)) →
  let handler : Handler (ListPage R) :=
    n ← lift (validate_limit limit); c ← lift (decode_cursor raw); rows ← api_store (q n c);
    lift (page rows n cursor_for) in
  (∃ p w', handler w = (Done p, w')) ∨
  ((∃ n, stops n = true) ∧ ∃ w', handler w = (Panicked, w')).
Proof.
  intros Hl Hc Hq handler. unfold handler, lift, mbind, prog_bind.
  assert (validate_limit limit = Done limit) as ->.
  { unfold validate_limit. by replace ((1 <=? limit) && (limit <=? 500)) with true by lia. }
  rewrite Hc.
  destruct (api_query_runs (q limit cursor) w (Hq limit cursor)) as [(rows & w1 & ->)|(Hs & w1 & ->)].
  - left. destruct (page_total rows limit cursor_for) as [p ->]; [lia|]. by do 2 eexists.
  - right. split; [done|by eexists].
Qed.

Section client.
Context {R T : Type} (f : R → T) (key : R → DateTime * Uuid) (cursor_for : T → ResourceCursor)
  (shown : Db → list R) (pages : option string → Handler (ListPage T)).
Context (Hserves : serves f key cursor_for shown pages) (Hcodec : cursors_read_back).
Notation tkey := (λ x, cursor_pair (cursor_for x)).
Notation keys w := (key <$> shown (db (sys w))).
Context (Hunique : ∀ n (sv : Sys * V), NoDup (key <$> shown (db sv.1)) →
  NoDup (key <$> shown (db (others n sv).1))).
(** A row that no other task takes out of the listing. *)
Definition stays (k : DateTime * Uuid) : Prop := ∀ n (sv : Sys * V),
  k ∈ key <$> shown (db sv.1) → k ∈ key <$> shown (db (others n sv).1).
(** Other tasks put no row into the listing but those of [K]. *)
Definition confined (K : list (DateTime * Uuid)) : Prop := ∀ n (sv : Sys * V),
  key <$> shown (db sv.1) ⊆ K → key <$> shown (db (others n sv).1) ⊆ K.

Lemma waits_keeps (P : Db → Prop) w w' :
  (∀ n (sv : Sys * V), P (db sv.1) → P (db (others n sv).1)) → waits w w' →
  P (db (sys w)) → P (db (sys w')).
Proof.
  intros HP [_ Hp]. unfold others_path in Hp.
  change (sys w) with (sys w, w_venue (aw_world w)).1.
  change (sys w') with (sys w', w_venue (aw_world w')).1.
  induction Hp as [|sv sv1 sv2 [n ->] _ IH]; [done|]. intros Hw. by apply IH, HP.
Qed.

Lemma fmap_tkey (l : list R) : tkey <$> (f <$> l) = key <$> l.
Proof.
  rewrite <-list_fmap_compose. apply list_fmap_ext. intros _ r _. apply (serves_key _ _ _ _ _ Hserves).
Qed.

(** One page of the walk. *)
Lemma client_page c w p w' :
  NoDup (keys w) → pages c w = (Done p, w') →
  NoDup (keys w') ∧ (∀ k, stays k → k ∈ keys w → k ∈ keys w') ∧
  (∀ K, confined K → keys w ⊆ K → keys w' ⊆ K) ∧
  ∃ cursor, decode_cursor c = Done cursor ∧
    StronglySorted before (tkey <$> items p) ∧
    (∀ b, b ∈ tkey <$> items p → after_cursor (key_of_cursor cursor) b = true) ∧
    match next_cursor p with
    | None => ∀ k, stays k → k ∈ keys w → after_cursor (key_of_cursor cursor) k = true →
        k ∈ tkey <$> items p
    | Some next => ∃ b, decode_cursor (Some next) = Done (Some b) ∧ cursor_pair b ∈ keys w' ∧
        (∀ b', b' ∈ tkey <$> items p → b' = cursor_pair b ∨ before b' (cursor_pair b)) ∧
        after_cursor (key_of_cursor cursor) (cursor_pair b) = true ∧
        ∀ k, stays k → k ∈ keys w → after_cursor (key_of_cursor cursor) k = true →
          k ∈ tkey <$> items p ∨ before (cursor_pair b) k
    end.
Proof.
  intros Hnd Hp. apply (serves_page _ _ _ _ _ Hserves) in Hp as (Hw & cursor & limit & Hc & Hl & Hp).
  assert (NoDup (keys w')) as Hnd'
    by (by apply (waits_keeps (λ d, NoDup (key <$> shown d)) w)).
  assert (∀ k, stays k → k ∈ keys w → k ∈ keys w') as Hk
    by (intros k Hk; by apply (waits_keeps (λ d, k ∈ key <$> shown d))).
  assert (∀ K, confined K → keys w ⊆ K → keys w' ⊆ K) as HK
    by (intros K HK; by apply (waits_keeps (λ d, key <$> shown d ⊆ K))).
  split_and!; [done..|]. exists cursor. split; [done|].
  apply page_done in Hp as [Ei Hn]. rewrite <-fmap_take, take_take in Ei.
  replace (Z.to_nat limit `min` S (Z.to_nat limit))%nat with (Z.to_nat limit) in Ei by lia.
  rewrite Ei, fmap_tkey. set (l := shown (db (sys w'))) in *.
  set (full := rest key (key_of_cursor cursor) l) in *.
  assert (∀ r, r ∈ full ↔ r ∈ l ∧ after_cursor (key_of_cursor cursor) (key r) = true) as Hin.
  { intros r. unfold full. rewrite rest_perm, elem_of_filter_b. tauto. }
  assert (StronglySorted before (key <$> take (Z.to_nat limit) full)) as Hsort.
  { pose proof (rest_strict key (key_of_cursor cursor) l Hnd') as Hs. fold full in Hs.
    rewrite <-(take_drop (Z.to_nat limit) full), fmap_app in Hs.
    by apply StronglySorted_app in Hs as (_ & Hs & _). }
  assert (∀ b, b ∈ key <$> take (Z.to_nat limit) full →
    after_cursor (key_of_cursor cursor) b = true) as Hafter.
  { intros b (r & -> & Hr)%list_elem_of_fmap. apply Hin.
    rewrite <-(take_drop (Z.to_nat limit) full). set_solver. }
  split_and!; [done..|]. destruct (next_cursor p) as [next|].
  - destruct Hn as (x & Hx & ->). rewrite Ei in Hx.
    destruct (last (take (Z.to_nat limit) full)) as [r0|] eqn:El;
      rewrite fmap_last, El in Hx; [|done]. injection Hx as <-.
    apply last_Some in El as [rows El]. exists (cursor_for (f r0)). split; [apply Hcodec|].
    rewrite (serves_key _ _ _ _ _ Hserves).
    destruct (page_rows key (key_of_cursor cursor) l (Z.to_nat limit) rows r0 Hnd' El)
      as (Hs & _ & Hrest). split_and!.
    + apply list_elem_of_fmap_2. apply Hin. rewrite <-(take_drop (Z.to_nat limit) full), El. set_solver.
    + intros b' Hb'. rewrite El, fmap_app in Hb'. rewrite fmap_app in Hs.
      apply StronglySorted_app in Hs as (Hb & _ & _).
      apply elem_of_app in Hb' as [Hb'|Hb'%list_elem_of_singleton]; [right|by left].
      apply Hb; [done|]. by left.
    + apply Hafter. rewrite El, fmap_app. set_solver.
    + intros k Hst Hkw Ha. apply (Hk k Hst) in Hkw as (r & -> & Hr)%list_elem_of_fmap. rewrite El.
      destruct (Hrest r Hr Ha) as [Hx|Hx]; [left; by apply list_elem_of_fmap_2|by right].
  - rewrite length_fmap, length_take in Hn. intros k Hst Hkw Ha.
    apply (Hk k Hst) in Hkw as (r & -> & Hr)%list_elem_of_fmap. apply list_elem_of_fmap_2.
    rewrite take_ge by lia. by apply Hin.
Qed.

Lemma after_before cursor a b : after_cursor cursor a = true → before a b → after_cursor cursor b = true.
Proof.
  destruct cursor as [c|]; [|done]. intros Ha Hb. by apply (before_trans c a b).
Qed.
(** The rows of [K] after the cursor; each page takes one of them at least. *)
Definition ahead (K : list (DateTime * Uuid)) (cursor : option ResourceCursor) : nat :=
  length (List.filter (after_cursor (key_of_cursor cursor)) K).
Lemma ahead_shrinks K cursor b :
  cursor_pair b ∈ K → after_cursor (key_of_cursor cursor) (cursor_pair b) = true →
  (ahead K (Some b) < ahead K cursor)%nat.
Proof.
  intros Hb Ha. unfold ahead. apply elem_of_Permutation in Hb as [K' EK].
  assert (∀ p : DateTime * Uuid → bool, length (List.filter p K) = length (List.filter p (cursor_pair b :: K')))
    as Hlen by (intros p; by rewrite EK).
  rewrite !Hlen. cbn [List.filter]. rewrite Ha.
  assert (after_cursor (key_of_cursor (Some b)) (cursor_pair b) = false) as ->
    by (apply not_true_iff_false, before_irrefl).
  cbn [length]. apply Nat.lt_succ_r. clear -Ha.
  induction K' as [|a K' IH]; cbn [List.filter]; [done|].
  destruct (after_cursor (key_of_cursor (Some b)) a) eqn:E.
  - rewrite (after_before _ _ _ Ha E). cbn [length]. by apply le_n_S.
  - destruct (after_cursor (key_of_cursor cursor) a); cbn [length]; [by apply Nat.le_le_succ_r|done].
Qed.

(** What a client has read from a cursor on. *)
Definition read_from (cursor : option ResourceCursor) (w : ApiWorld V) (l : list T) : Prop :=
  StronglySorted before (tkey <$> l) ∧
  (∀ b, b ∈ tkey <$> l → after_cursor (key_of_cursor cursor) b = true) ∧
  ∀ k, stays k → k ∈ keys w → after_cursor (key_of_cursor cursor) k = true → k ∈ tkey <$> l.
Lemma follow_reads fuel : ∀ c w cursor,
  decode_cursor c = Done cursor → NoDup (keys w) →
  match (follow pages fuel c w).1 with
  | Done (Some l) => read_from cursor w l
  | Done None => ∀ K, confined K → keys w ⊆ K → (fuel <= ahead K cursor)%nat
  | Failed _ => False
  | Panicked => ∃ n, stops n = true
  end.
Proof.
  induction fuel as [|fuel IH]; intros c w cursor Hc Hnd; cbn [follow]; [intros K _ _; apply Nat.le_0_l|].
  unfold mbind, prog_bind.
  destruct (serves_runs _ _ _ _ _ Hserves c w cursor Hc) as [(p & w1 & Hp)|[Hstop [w1 Hp]]];
    rewrite Hp; [|done].
  destruct (client_page c w p w1 Hnd Hp) as (Hnd1 & Hk & HK & cursor' & Hc' & Hs & Ha & Hx).
  rewrite Hc in Hc'. injection Hc' as <-. destruct (next_cursor p) as [next|]; [|done].
  destruct Hx as (b & Hb & Hbk & Hle & Hab & Hin). specialize (IH (Some next) w1 (Some b) Hb Hnd1).
  destruct (follow pages fuel (Some next) w1) as [[[l|]|e|] w2]; cbn in IH |- *; [|..|done|done].
  - destruct IH as (Hs' & Ha' & Hk'). unfold read_from. rewrite fmap_app. split_and!.
    + apply StronglySorted_app. split_and!; [|done..]. intros b1 b2 Hb1 Hb2.
      apply Ha' in Hb2. destruct (Hle b1 Hb1) as [->|Hlt]; [done|].
      by apply (before_trans _ (cursor_pair b)).
    + intros b' [Hb'|Hb']%elem_of_app; [by apply Ha|]. apply Ha' in Hb'. by eapply after_before.
    + intros k Hst Hkw Hak. apply elem_of_app. destruct (Hin k Hst Hkw Hak) as [|Hbk']; [by left|right].
      apply Hk'; [done|by apply Hk|done].
  - intros K HKc HKw. specialize (HK K HKc HKw). specialize (IH K HKc HK).
    pose proof (ahead_shrinks K cursor b (HK _ Hbk) Hab). lia.
Qed.
End client.

(** ** The three listings *)

Definition matches_intent (q : IntentListQuery) (r : IntentRow) : bool :=
  matches_filter (iq_state q) (int_state r) &&
  match iq_condition_id q with
  | None => true
  | Some c => json_extract (int_request_json r) "$.condition_id" ≟ Some c
  end &&
  match iq_created_after q with None => true | Some t => t <=? int_created_at r end.
Definition intents_from (q : IntentListQuery) (c : option string) : IntentListQuery :=
  mkIntentListQuery (iq_limit q) (iq_state q) (iq_condition_id q) (iq_created_after q) c.
Definition orders_from (q : OrderListQuery) (c : option string) : OrderListQuery :=
  mkOrderListQuery (oq_limit q) (oq_state q) (oq_condition_id q) (oq_token_id q) c.
Definition trades_from (q : TradeListQuery) (c : option string) : TradeListQuery :=
  mkTradeListQuery (tq_limit q) (tq_status q) (tq_condition_id q) (tq_token_id q) c.

Lemma page_limit_valid limit n :
  validate_limit limit = Done n → n = limit ∧ 0 < limit ∧
  Z.to_nat (page_limit limit + 1) = S (Z.to_nat limit).
Proof.
  unfold validate_limit, page_limit. intros Hv. destruct (negb _) eqn:E in Hv; [done|].
  injection Hv as <-. apply negb_false_iff, andb_true_iff in E as [E1 E2]. lia.
Qed.
(** What is shown to a client, row by row. *)
Definition intents_shown (q : IntentListQuery) (d : Db) : list IntentRow :=
  List.filter (matches_intent q) (intents d).
Definition orders_shown (q : OrderListQuery) (d : Db) : list OrderRow :=
  List.filter (matches_order (oq_state q) (oq_condition_id q) (oq_token_id q)) (orders d).
Definition trades_shown (q : TradeListQuery) (d : Db) : list TradeRecord :=
  List.filter (matches_trade d (tq_status q) (tq_condition_id q) (tq_token_id q)) (trades d).

(** The steps of a listing's handler, up to the query. *)
Ltac serve :=
  lazymatch goal with H : (_ ≫= _) _ = (Done _, _) |- _ =>
    let n := fresh "n" in let w1 := fresh "w" in let Hn := fresh in
    apply bind_done in H as (n & w1 & Hn & H); apply lift_done in Hn as [Hn ->];
    apply page_limit_valid in Hn as (-> & ? & ?);
    let cursor := fresh "cursor" in let Hc := fresh in
    apply bind_done in H as (cursor & w1 & Hc & H); apply lift_done in Hc as [Hc ->];
    let rows := fresh "rows" in let Hr := fresh in
    apply bind_done in H as (rows & w1 & Hr & H); apply lift_done in H as [H ->];
    apply api_query_waits in Hr as (? & _ & Hr); [|done]; specialize (Hr rows eq_refl);
    split; [done|]; exists cursor; eexists; split_and!; [done|eassumption|]; rewrite <-H; f_equal
  end.

Lemma intents_serve q :
  1 <= iq_limit q <= 500 →
  serves intent (λ r : IntentRow, (int_created_at r, int_id r)) cursor_of_intent
    (intents_shown q) (λ c, api_list_intents (intents_from q c)).
Proof.
  intros Hlimit. split; [done| |]; [|intros; unfold api_list_intents; by eapply listing_runs; [..|intros; by eexists]].
  intros c w p w' Hp. unfold api_list_intents in Hp. serve.
  unfold list_intents_page in *. run_inv. db_inv. subst. do 2 f_equal; [done|].
  unfold rest, intents_shown. by rewrite filter_filter.
Qed.
Lemma orders_serve q :
  1 <= oq_limit q <= 500 →
  serves order order_key cursor_of_order (orders_shown q) (λ c, api_list_orders (orders_from q c)).
Proof.
  intros Hlimit. split; [done| |]; [|intros; unfold api_list_orders; by eapply listing_runs; [..|intros; by eexists]].
  intros c w p w' Hp. unfold api_list_orders in Hp. serve.
  unfold list_orders_page in *. run_inv. db_inv. subst. do 2 f_equal; [done|].
  unfold rest, orders_shown. by rewrite filter_filter.
Qed.
Lemma trades_serve q :
  1 <= tq_limit q <= 500 →
  serves id trade_key cursor_of_trade (trades_shown q) (λ c, api_list_trades (trades_from q c)).
Proof.
  intros Hlimit. split; [done| |]; [|intros; unfold api_list_trades; by eapply listing_runs; [..|intros; by eexists]].
  intros c w p w' Hp. unfold api_list_trades in Hp. serve.
  unfold list_trades_page in *. run_inv. db_inv. subst. rewrite list_fmap_id. f_equal; [done|].
  unfold rest, trades_shown. by rewrite filter_filter.
Qed.

(** The listings of the API: the key of an item, the keys that are listed, and
    the handler, with a limit that is allowed. *)
Inductive listing : ∀ T, (T → DateTime * Uuid) → (Db → list (DateTime * Uuid)) →
    (option string → Handler (ListPage T)) → Prop :=
| Listing_intents q :
    1 <= iq_limit q <= 500 →
    listing IntentRecord (λ r, (int_created_at r, int_id r))
      (λ d, (λ r : IntentRow, (int_created_at r, int_id r)) <$> intents_shown q d)
      (λ c, api_list_intents (intents_from q c))
| Listing_orders q :
    1 <= oq_limit q <= 500 →
    listing OrderRecord (λ r, (ord_created_at r, ord_id r)) (λ d, order_key <$> orders_shown q d)
      (λ c, api_list_orders (orders_from q c))
| Listing_trades q :
    1 <= tq_limit q <= 500 →
    listing TradeRecord trade_key (λ d, trade_key <$> trades_shown q d)
      (λ c, api_list_trades (trades_from q c)).

Lemma sorted_once {A} (f : A → DateTime * Uuid) l : StronglySorted before (f <$> l) → NoDup (f <$> l).
Proof.
  induction 1 as [|a l' _ IH Hf]; constructor; [|done].
  intros Ha. rewrite Forall_forall in Hf. by apply (before_irrefl a), Hf.
Qed.

(** C10. Following the cursors visits every row once and comes to an end.  Let a
    client read a listing page by page from the start, [fuel] pages at most.  No
    page fails, unless the process stops.  When the client gets to a page without
    a cursor, it has the rows in the order of their creation and none twice; and a
    row that is in the listing when the client starts and that no other task takes
    out of it is among them - whatever other rows are added, changed or removed
    between the pages, as long as no two rows of the listing have the same key.
    And it does get there: it can only be left with a cursor when more rows than
    it read pages, [fuel], were ever in the listing. *)
Theorem listing_visits_once T key listed pages fuel (w : ApiWorld V) :
  listing T key listed pages → cursors_read_back →
  (∀ n (sv : Sys * V), NoDup (listed (db sv.1)) → NoDup (listed (db (others n sv).1))) →
  NoDup (listed (db (sys w))) →
  match (follow pages fuel None w).1 with
  | Done (Some l) =>
      StronglySorted before (key <$> l) ∧ NoDup (key <$> l) ∧
      ∀ k, (∀ n (sv : Sys * V), k ∈ listed (db sv.1) → k ∈ listed (db (others n sv).1)) →
        k ∈ listed (db (sys w)) → k ∈ key <$> l
  | Done None =>
      ∀ K, (∀ n (sv : Sys * V), listed (db sv.1) ⊆ K → listed (db (others n sv).1) ⊆ K) →
        listed (db (sys w)) ⊆ K → (fuel <= length K)%nat
  | Failed _ => False
  | Panicked => ∃ n, stops n = true
  end.
Proof.
  intros Hl Hcodec Hu Hnd.
  assert (∀ K, ahead K None = length K) as HK.
  { intros K. unfold ahead. cbn. induction K; cbn; congruence. }
  destruct Hl as [q Hq|q Hq|q Hq].
  - pose proof (follow_reads _ _ _ _ _ (intents_serve q Hq) Hcodec Hu fuel None w None eq_refl Hnd) as Hr.
    destruct (follow _ _ _ _) as [[[l|]|e|] w']; cbn in *; [|intros K; rewrite <-HK; apply Hr|done..].
    destruct Hr as (Hs & _ & Hk). split_and!; [done|by apply sorted_once|]. intros k Hst Hw. by apply Hk.
  - pose proof (follow_reads _ _ _ _ _ (orders_serve q Hq) Hcodec Hu fuel None w None eq_refl Hnd) as Hr.
    destruct (follow _ _ _ _) as [[[l|]|e|] w']; cbn in *; [|intros K; rewrite <-HK; apply Hr|done..].
    destruct Hr as (Hs & _ & Hk). split_and!; [done|by apply sorted_once|]. intros k Hst Hw. by apply Hk.
  - pose proof (follow_reads _ _ _ _ _ (trades_serve q Hq) Hcodec Hu fuel None w None eq_refl Hnd) as Hr.
    destruct (follow _ _ _ _) as [[[l|]|e|] w']; cbn in *; [|intros K; rewrite <-HK; apply Hr|done..].
    destruct Hr as (Hs & _ & Hk). split_and!; [done|by apply sorted_once|]. intros k Hst Hw. by apply Hk.
Qed.
End listings.

(** ** Witness *)
Section witness.
#[local] Existing Instance RefOps.
#[local] Existing Instance RefLaws.
#[local] Existing Instance CoordinatorCodec.
#[local] Existing Instance accepting.

(** A platform whose times can be read back, and a codec that does. *)
Definition zigzag (z : Z) : N := if 0 <=? z then Z.to_N (2 * z) else Z.to_N (- 2 * z - 1).
Definition unzigzag (n : N) : Z :=
  if N.even n then Z.of_N (n / 2) else - Z.of_N ((n + 1) / 2).
Lemma unzigzag_zigzag z : unzigzag (zigzag z) = z.
Proof.
  unfold unzigzag, zigzag. destruct (0 <=? z) eqn:E.
  - replace (Z.to_N (2 * z)) with (2 * Z.to_N z)%N by lia.
    rewrite N.even_mul. cbn. rewrite N.mul_comm, N.div_mul by done. lia.
  - replace (Z.to_N (-2 * z - 1)) with (2 * Z.to_N (- z - 1) + 1)%N by lia.
    rewrite N.even_add, N.even_mul. cbn.
    replace (2 * Z.to_N (- z - 1) + 1 + 1)%N with (Z.to_N (- z) * 2)%N by lia.
    rewrite N.div_mul by done. lia.
Qed.
Definition PagePlatform : Platform := {|
  utc_clock := utc_clock (Platform := RefPlatform);
  uuid_v7 := uuid_v7 (Platform := RefPlatform);
  uuid_to_string := uuid_to_string (Platform := RefPlatform);
  uuid_parse_str := uuid_parse_str (Platform := RefPlatform);
  to_rfc3339 t := ref_nat_to_string (zigzag t);
  sha256_hex := sha256_hex (Platform := RefPlatform);
  json_to_string := json_to_string (Platform := RefPlatform);
  json_from_str := json_from_str (Platform := RefPlatform);
  jcs_to_string := jcs_to_string (Platform := RefPlatform);
  nat_to_string := ref_nat_to_string;
|}.
#[local] Existing Instance PagePlatform.
Definition comma : Ascii.ascii := Ascii.ascii_of_N 44.
Definition read_digits (s : string) : option N := digits_value (list_ascii_of_string s).
Definition PageCodec : CursorCodec := {|
  base64_encode s := s;
  base64_decode := Some;
  cursor_from_json s :=
    t ← strip_prefix "{created_at:" s;
    match split_at comma t with
    | [a; b; _] =>
        b ← strip_prefix "id:" b; a ← read_digits a; id ← read_digits b;
        Some (mkResourceCursor (unzigzag a) id)
    | _ => None
    end;
|}.
#[local] Existing Instance PageCodec.
Lemma page_codec_reads_back : cursors_read_back.
Proof.
  intros [t id].
  assert (∀ n, comma ∉ list_ascii_of_string (ref_nat_to_string n)) as Hn.
  { intros n. unfold ref_nat_to_string, digits_of.
    rewrite Stdlib.Strings.String.list_ascii_of_string_of_list_ascii. induction (N.to_uint n); cbn; set_solver. }
  assert (∀ n, read_digits (ref_nat_to_string n) = Some n) as Hr.
  { intros n. unfold read_digits, ref_nat_to_string.
    rewrite Stdlib.Strings.String.list_ascii_of_string_of_list_ascii. apply (digits_value_padded 0). }
  set (a := ref_nat_to_string (zigzag t)). set (b := ref_nat_to_string id).
  assert (encode_cursor (mkResourceCursor t id) =
    "{created_at:" +:+ a +:+ String comma ("id:" +:+ b +:+ String comma "}")) as E.
  { done. }
  unfold decode_cursor. rewrite E. cbn [base64_decode cursor_from_json PageCodec].
  assert (∀ p x, strip_prefix p (p +:+ x) = Some x) as Hp by (intros; by apply strip_prefix_spec).
  change (ok_or invalid_cursor (Some ?x) ≫= ?k) with (k x). cbv beta. rewrite Hp.
  change (Some ?x ≫= ?k) with (k x). cbv beta.
  rewrite split_at_app_sep by apply Hn. rewrite <-string_app_assoc, split_at_app_sep.
  - cbn [split_at]. rewrite Hp. cbn -[read_digits]. unfold a, b. rewrite !Hr. cbn.
    by rewrite unzigzag_zigzag.
  - cbn. intros [|[|[|Hc]%elem_of_cons]%elem_of_cons]%elem_of_cons; try done. by apply (Hn id).
Qed.

(** Two intents, one to a page, and nobody else at work. *)
#[local] Instance StillSchedule : Schedule nat := {|
  stops _ := false;
  others _ sv := sv;
  deadline _ _ := None;
  wall_clock _ := 0;
  instant_clock _ := 0;
|}.
Definition two_intents : Sys :=
  (admit_intent (H := RefPlatform) fix_store "actor" "key-2" fix_request sys_received).2.
Definition listing_world : ApiWorld nat := ApiState_new 0 (new_world two_intents).
Definition one_by_one : IntentListQuery := mkIntentListQuery 1 None None None None.
Notation one_by_one_pages := (λ c, api_list_intents (intents_from one_by_one c)).
Notation intent_keys l := ((λ r : IntentRecord, (int_created_at r, int_id r)) <$> l).
Definition walked : list IntentRecord :=
  match (follow one_by_one_pages 2 None listing_world).1 with Done (Some l) => l | _ => [] end.
Lemma walked_all : (follow one_by_one_pages 2 None listing_world).1 = Done (Some walked).
Proof. vm_compute. reflexivity. Qed.
Lemma one_page_left : (follow one_by_one_pages 1 None listing_world).1 = Done None.
Proof. vm_compute. reflexivity. Qed.

Lemma listing_visits_once_witness :
  int_idempotency_key <$> walked = ["key"; "key-2"] ∧
  StronglySorted before (intent_keys walked) ∧ NoDup (intent_keys walked) ∧
  (int_created_at fix_intent, int_id fix_intent) ∈ intent_keys walked.
Proof.
  split; [vm_compute; reflexivity|].
  pose proof (listing_visits_once IntentRecord (λ r, (int_created_at r, int_id r))
    (λ d, (λ r : IntentRow, (int_created_at r, int_id r)) <$> intents_shown one_by_one d)
    one_by_one_pages 2 listing_world) as Hv.
  rewrite walked_all in Hv. destruct Hv as (Hs & Hnd & Hk).
  - apply Listing_intents. split; discriminate.
  - apply page_codec_reads_back.
  - done.
  - apply (bool_decide_unpack _). vm_compute. exact I.
  - split_and!; [exact Hs|exact Hnd|]. apply Hk; [done|].
    apply (bool_decide_unpack _). vm_compute. exact I.
Defined.
End witness.
