(* ===== verification/Progress.v ===== *)
(** * Progress: no intent is left half way (execution.rs)

    When the worker's turn on an intent ends without an error, the intent has
    left the states before its submission, or it is PREPARED and waits among the
    intents that a resume takes up again. *)
From S2P Require Import Prelude Text DecimalSpec RefDecimal Json Platform Domain Venue Fixtures Risk Schema StoreIntents StoreRisk StoreOrders StoreControl StorePaper StoreFixtures StoreLogic Lifecycle OrderHistory Coordinator CoordinatorSteps CoordinatorHistory Moves CoordinatorFixtures.

(** ** Operations that leave an intent in a state *)

Definition intent_at (id : Uuid) (P : IntentState → Prop) (d : Db) : Prop :=
  ∃ i, i ∈ intents d ∧ iid i = id ∧ P (ist i).
(** Rejected, or submitted with whatever outcome. *)
Definition settled (s : IntentState) : Prop :=
  s = IntentState.Rejected ∨ s = IntentState.Submitting ∨ s = IntentState.Submitted ∨
  s = IntentState.Unknown.

(** The operation takes the intent to a state in [P]. *)
Definition takes {A} (m : Prog Sys StoreError A) (id : Uuid) (P : A → IntentState → Prop) : Prop :=
  ∀ s a s', m s = (Done a, s') → intent_at id (P a) (db s').

Lemma takes_later {A B} (m : Prog Sys StoreError A) (k : A → Prog Sys StoreError B) id P :
  (∀ a, takes (k a) id P) → takes (m ≫= k) id P.
Proof. intros Hk s b s' (a & s1 & _ & Hr)%bind_done. by eapply Hk. Qed.
Lemma takes_transaction {A} (body : Prog Sys StoreError (A * _)) id P :
  takes body id (λ x, P x.1) → takes (transaction body) id P.
Proof. intros Hb s a s' (ev & s1 & Hr & ->)%transaction_done. by apply Hb in Hr. Qed.
(** An update that has to find the intent. *)
Lemma takes_update {B} (p : IntentRow → bool) f id st (k : nat → Prog Sys StoreError B)
    (P : B → IntentState → Prop) :
  (∀ r, p r = true → iid (f r) = id ∧ ist (f r) = st) →
  (∀ n, frames intents (k n)) → (∀ s b s', k 0%nat s ≠ (Done b, s')) →
  (∀ n s b s', k n s = (Done b, s') → P b st) → takes (update_where p f ≫= k) id P.
Proof.
  intros Hf Hk H0 HP s b s' (n & s1 & Hu & Hr)%bind_done.
  apply update_where_done in Hu as [-> ->].
  destruct (List.filter p (rows (db s))) as [|r l] eqn:E; [by apply H0 in Hr|].
  assert (r ∈ List.filter p (intents (db s))) as Hin by (change (rows (db s)) with (intents (db s)) in E; rewrite E; left).
  apply elem_of_filter_b in Hin as [Hp Hin]. destruct (Hf r Hp) as [Hid Hst].
  exists (f r). split_and!; [|done|rewrite Hst; by eapply HP].
  match type of Hr with k ?n ?s1 = _ => specialize (Hk n s1) end. rewrite Hr in Hk. cbn in Hk.
  rewrite Hk. by apply elem_upd_hit.
Qed.

Section store.
Context `{DL : DecimalLaws} `{Platform} `{Codec}.
Variable self : Store.

Lemma attempts_intents i state f : frames intents (update_attempts i state f).
Proof. intros s. reflexivity. Qed.
Hint Resolve attempts_intents : frames.
Ltac taken st :=
  apply takes_transaction;
  repeat match goal with
  | |- takes (update_where (intent_in _ _) _ ≫= _) _ _ =>
      apply (takes_update _ _ _ st); [|intros ?; frame|by intros; intros ?; run_inv|]
  | |- takes (_ ≫= _) _ _ => apply takes_later; intros ?
  | |- takes (let _ := _ in _) _ _ => cbv zeta
  end.

Lemma transition_intent_takes id expected next r :
  takes (transition_intent self id expected next r) id (λ _ s, s = next).
Proof.
  unfold transition_intent. taken next.
  - intros i [Hid _]%intent_in_iff. split; [exact Hid|reflexivity].
  - done.
Qed.
Lemma reject_preparation_takes id code message :
  takes (reject_preparation self id code message) id (λ _ s, s = IntentState.Rejected).
Proof.
  unfold reject_preparation. taken IntentState.Rejected.
  - intros i [Hid _]%intent_in_iff. split; [exact Hid|reflexivity].
  - done.
Qed.
Lemma begin_submission_takes id order_id :
  takes (begin_submission self id order_id) id (λ _ s, s = IntentState.Submitting).
Proof.
  unfold begin_submission, insert_transition. taken IntentState.Submitting.
  - intros i [Hid _]%intent_in_iff. split; [exact Hid|reflexivity].
  - done.
Qed.
Lemma create_prepared_order_takes id intent request n det sp sa fa pv sv polv fee :
  int_id intent = id →
  takes (create_prepared_order self intent request n det sp sa fa pv sv polv fee) id
    (λ _ s, s = IntentState.Prepared).
Proof.
  intros <-. unfold create_prepared_order, insert_order. taken IntentState.Prepared.
  - intros i [Hid _]%intent_in_iff. split; [exact Hid|reflexivity].
  - done.
Qed.
Lemma evaluate_takes id request market book policy :
  takes (evaluate_and_reserve_risk self id request market book policy) id
    (λ d s, approved d = false → s = IntentState.Rejected).
Proof.
  unfold evaluate_and_reserve_risk. apply takes_transaction.
  repeat (apply takes_later; intros ?; cbv zeta; lazymatch goal with
    | |- takes (update_where _ _ ≫= _) _ _ => fail | _ => idtac end).
  lazymatch goal with d : RiskDecision |- _ =>
    destruct (approved d) eqn:Ea; apply takes_later; intros ?;
      [apply (takes_update _ _ _ IntentState.Approved)|apply (takes_update _ _ _ IntentState.Rejected)]
  end.
  all: try (intros ?; frame; fail).
  all: try (intros i [Hid _]%intent_in_iff; split; [exact Hid|reflexivity]).
  all: try (intros ??? Hr; run_inv; done).
  intros n s d s' Hr. run_inv. db_inv. subst. cbn. congruence.
Qed.
End store.

(** ** Turns of the worker *)
Section progress.
Context `{DL : DecimalLaws} `{Platform} `{Codec}.
Context {V : Type} `{Venue : !ExecutionVenue (Sys * V)} `{Sched : !Schedule V}.
Variable self : ExecutionCoordinator.
Notation Coord := (Prog (World V) CoordinatorError).
Notation st := (store self).
Context (HL : lawful self) (id : Uuid).

Definition closed (P : IntentState → Prop) : Prop :=
  ∀ a b, intent_edge a b → P a → P b.
Definition on_its_way (s : IntentState) : Prop := s = IntentState.Prepared ∨ settled s.
Lemma settled_closed : closed settled.
Proof. unfold settled. intros a b [] Ha; naive_solver. Qed.
Lemma on_its_way_closed : closed on_its_way.
Proof. unfold on_its_way, settled. intros a b [] Ha; naive_solver. Qed.

Lemma intent_at_persists P s s' :
  closed P → reachable st s → rtc (store_step st) s s' → intent_at id P (db s) → intent_at id P (db s').
Proof.
  intros HP Hr Hs (i & Hi & Hid & HPi).
  destruct (reachable_evolves st s s' Hr Hs i Hi) as (i' & Hi' & Hid' & He).
  exists i'. split_and!; [done|congruence|]. clear -HP He HPi.
  induction He; [done|]. eauto.
Qed.

(** The intent is out of the way: settled, or prepared and deferred for a resume. *)
Definition concluded (w : World V) : Prop :=
  intent_at id settled (db (w_sys w)) ∨
  (intent_at id on_its_way (db (w_sys w)) ∧ id ∈ w_deferred_recovery w).
(** Once [F] is known, [m] does not return before the intent is out of the way. *)
Definition ends (F : Sys → Prop) (m : Coord ()) : Prop :=
  ∀ w u w', reachable st (w_sys w) → F (w_sys w) → m w = (Done u, w') → concluded w'.
Definition kept (F : Sys → Prop) : Prop :=
  ∀ s s', reachable st s → rtc (store_step st) s s' → F s → F s'.

Lemma kept_true : kept (λ _, True).
Proof. done. Qed.
Lemma kept_at P : closed P → kept (λ s, intent_at id P (db s)).
Proof. intros HP s s' Hr Hs. by apply intent_at_persists. Qed.

Lemma ends_after {A} F (m : Coord A) (k : A → Coord ()) :
  kept F → moves self w_sys m → (∀ a, ends F (k a)) → ends F (m ≫= k).
Proof.
  intros HF Hm Hk w u w' Hw Hf (a & w1 & Ha & Hr)%bind_done.
  destruct (moves_done self w_sys m w a w1 Hm Hw Ha) as [Hs Hw1].
  eapply Hk; [exact Hw1| |exact Hr]. exact (HF _ _ Hw Hs Hf).
Qed.
(** A step after which the intent is settled. *)
Lemma ends_settled {A} F (m : Coord A) (k : A → Coord ()) :
  moves self w_sys m → (∀ a, moves self w_sys (k a)) →
  (∀ w a w', m w = (Done a, w') → intent_at id settled (db (w_sys w'))) → ends F (m ≫= k).
Proof.
  intros Hm Hk HQ w u w' Hw _ (a & w1 & Ha & Hr)%bind_done.
  destruct (moves_done self w_sys m w a w1 Hm Hw Ha) as [_ Hw1].
  destruct (moves_done self w_sys (k a) w1 u w' (Hk a) Hw1 Hr) as [Hs _].
  left. eapply intent_at_persists; [apply settled_closed|exact Hw1|exact Hs|]. by eapply HQ.
Qed.
Lemma ends_lift F (o : outcome CoordinatorError ()) :
  (∀ u, o ≠ Done u) → ends F (lift o).
Proof. intros Ho w u w' _ _ [-> ->]%lift_done. by destruct (Ho u). Qed.
Lemma ends_fail F e : ends F (fail e).
Proof. by intros w u w' _ _ ?%fail_done. Qed.

(** A store operation that settles the intent. *)
Lemma call_takes {A} (m : Prog Sys StoreError A) P (w : World V) a w' :
  takes m id P → call_store m w = (Done a, w') → intent_at id (P a) (db (w_sys w')).
Proof. intros Hm [s Hs]%call_store_done. by apply Hm in Hs. Qed.
Lemma intent_at_mono (P Q : IntentState → Prop) d :
  (∀ s, P s → Q s) → intent_at id P d → intent_at id Q d.
Proof. intros HPQ (i & ? & ? & ?). exists i. auto. Qed.

Ltac moving :=
  first
  [ apply moves_call_store; [exact HL|solve [store_call]]
  | apply moves_runs; pose proof (reachable_persistent self) as HP;
    pose proof (reachable_unique self) as HU;
    assert ((λ _ : string, True) "HALTED") as Kh by exact I;
    assert ((λ _ : string, True) "READY") as Kr by exact I; run ].

Lemma moves_submit_to_venue o p r : moves self w_sys (submit_to_venue self id o p r).
Proof.
  unfold submit_to_venue. apply moves_bind; [by apply moves_still|intros _]. apply moves_runs.
  apply (runs_after_submission self HL (λ _, True) I (reachable_persistent self)).
  apply (reachable_unique self).
Qed.

(** The row of an intent that is found. *)
Lemma get_intent_reads i : reads (get_intent i).
Proof. intros s. unfold get_intent, mbind, prog_bind, fetch_optional, gets. cbn. by destruct (List.find _ _). Qed.
Lemma get_intent_row s x s' :
  get_intent id s = (Done x, s') → ∃ i, i ∈ intents (db s) ∧ iid i = id ∧ x = intent i.
Proof.
  intros Hg. unfold get_intent in Hg. run_inv. db_inv.
  match goal with H : match ?x with _ => _ end _ = _ |- _ => destruct x as [row|] eqn:E end; [|done].
  run_inv. apply find_Some_elem in E as [Hrow Hid%intent_is_iff]. eauto.
Qed.
Lemma get_intent_found s x s' :
  get_intent id s = (Done x, s') → int_id x = id ∧ intent_at id (λ t, t = int_state x) (db s').
Proof.
  intros Hg. pose proof (get_intent_reads id s) as Hk. rewrite Hg in Hk. cbn in Hk. subst s'.
  apply get_intent_row in Hg as (i & Hi & Hid & ->). split; [done|by exists i].
Qed.
Lemma intent_at_both s P t :
  reachable st s → intent_at id P (db s) → intent_at id (λ t', t' = t) (db s) → P t.
Proof.
  intros Hr (i & Hi & Hid & HP) (row & Hrow & Hid' & <-).
  assert (row = i) as -> by (eapply (nodup_key_eq iid);
    [apply (inv_intents _ (reachable_inv _ _ Hr))|done..|congruence]).
  exact HP.
Qed.

Lemma defer_recovery_done (w : World V) u w' :
  defer_recovery id w = (Done u, w') → id ∈ w_deferred_recovery w'.
Proof.
  unfold defer_recovery. intros ->%modify_done. case_match eqn:E; cbn; [|set_solver].
  by apply existsb_true_elem in E as (id' & Hin & ->%bool_decide_eq_true).
Qed.
(** A step whose outcome says more than was known. *)
Lemma ends_then {A} F (G : A → Sys → Prop) (m : Coord A) (k : A → Coord ()) :
  moves self w_sys m →
  (∀ w a w', reachable st (w_sys w) → F (w_sys w) → m w = (Done a, w') → G a (w_sys w')) →
  (∀ a, ends (G a) (k a)) → ends F (m ≫= k).
Proof.
  intros Hm HG Hk w u w' Hw Hf (a & w1 & Ha & Hr)%bind_done.
  destruct (moves_done self w_sys m w a w1 Hm Hw Ha) as [_ Hw1].
  eapply Hk; [exact Hw1|exact (HG _ _ _ Hw Hf Ha)|exact Hr].
Qed.
Lemma ends_weaken (F G : Sys → Prop) m : (∀ s, G s → F s) → ends F m → ends G m.
Proof. intros HFG Hm w u w' Hw Hg. apply Hm; auto. Qed.
Lemma ends_pure φ F m : (φ → ends F m) → ends (λ s, φ ∧ F s) m.
Proof. intros Hm w u w' Hw [Hφ Hf]. by apply (Hm Hφ). Qed.
Lemma ends_ret (F : Sys → Prop) :
  (∀ s, F s → intent_at id settled (db s)) → ends F (mret tt).
Proof. intros HF w u w' _ Hf [_ ->]%ret_done. left. by apply HF. Qed.

Lemma ends_defer : ends (λ s, intent_at id on_its_way (db s)) (defer_recovery id).
Proof.
  intros w u w' _ Hf Hr. right. split; [|by eapply defer_recovery_done].
  unfold defer_recovery in Hr. apply modify_done in Hr as ->. by case_match.
Qed.
Lemma ends_settled_already (m : Coord ()) :
  moves self w_sys m → ends (λ s, intent_at id settled (db s)) m.
Proof.
  intros Hm w u w' Hw Hf Hr. destruct (moves_done self w_sys m w u w' Hm Hw Hr) as [Hs _].
  left. eapply intent_at_persists; [apply settled_closed|exact Hw|exact Hs|exact Hf].
Qed.
Definition is_done {E A} (r : E + A) : Prop := ∃ a, r = inr a.
Lemma attempt_done {A} (m : Coord A) w a w' :
  attempt m w = (Done (inr a), w') → m w = (Done a, w').
Proof. unfold attempt, try. destruct (m w) as [[]]; congruence. Qed.
Lemma moves_attempt {A} (m : Coord A) : moves self w_sys m → moves self w_sys (attempt m).
Proof. intros Hm w Hw. specialize (Hm w Hw). unfold attempt, try. by destruct (m w) as [[]]. Qed.
Lemma moves_begin o : moves self w_sys (call_store (begin_submission st id o) : Coord _).
Proof. apply moves_call_store; [done|intros; apply Op_begin_submission]. Qed.
Lemma ends_submit_prepared o p r :
  ends (λ s, intent_at id on_its_way (db s)) (submit_prepared self id o p r).
Proof.
  unfold submit_prepared. apply ends_after; [apply kept_at, on_its_way_closed|moving|].
  intros [[state ?] ?]. destruct (negb (state ≟ Ready)).
  - apply (ends_then _ (λ x s, intent_at id on_its_way (db s) ∧
      intent_at id (λ t, t = int_state x) (db s))); [moving| |intros x].
    { intros w x w' Hw Hf Hx. destruct (moves_done self w_sys (call_store (get_intent id)) w x w')
        as [Hs Hw1]; [moving|done..|].
      split; [eapply intent_at_persists; [apply on_its_way_closed|exact Hw|exact Hs|exact Hf]|].
      apply call_store_done in Hx as [s0 Hs0]. apply (get_intent_found _ _ _ Hs0). }
    case_bool_decide as Hp.
    + eapply ends_weaken; [|apply ends_defer]. by intros ? [? _].
    + intros w u w' Hw [Hat Hx] [_ ->]%ret_done. left.
      assert (on_its_way (int_state x)) as [|Hset]; [|done|].
      { eapply intent_at_both; [exact Hw|exact Hat|exact Hx]. }
      eapply intent_at_mono; [|exact Hx]. by intros ? ->.
  - apply (ends_then _ (λ begun s, intent_at id on_its_way (db s) ∧
      (is_done begun → intent_at id settled (db s)))); [by apply moves_attempt, moves_begin| |].
    { intros w begun w' Hw Hf Hb.
      destruct (moves_done self w_sys _ w begun w' (moves_attempt _ (moves_begin o)) Hw Hb) as [Hs _].
      split; [eapply intent_at_persists; [apply on_its_way_closed|exact Hw|exact Hs|exact Hf]|].
      intros [v ->]. apply attempt_done in Hb.
      eapply intent_at_mono; [|eapply call_takes; [apply begin_submission_takes|exact Hb]].
      unfold settled. naive_solver. }
    intros [e|v].
    + destruct e as [[]| | | |]; try apply ends_fail.
      eapply ends_weaken; [|apply ends_defer]. by intros ? [? _].
    + eapply ends_weaken; [|apply (ends_settled_already _ (moves_submit_to_venue o p r))].
      intros s0 [_ Hs]. apply Hs. by exists v.
Qed.

(** ** The other ends of a turn *)

Lemma settles_mono (w : World V) P :
  (∀ s, P s → settled s) → intent_at id P (db (w_sys w)) → intent_at id settled (db (w_sys w)).
Proof. apply intent_at_mono. Qed.
Lemma transition_settles e c (w : World V) a w' :
  call_store (transition_intent st id e IntentState.Rejected c) w = (Done a, w') →
  intent_at id settled (db (w_sys w')).
Proof.
  intros Hr. eapply intent_at_mono; [|eapply call_takes; [apply transition_intent_takes|exact Hr]].
  intros s ->. by left.
Qed.
Lemma reject_received_settles c m (w : World V) a w' :
  reject_received self id c m w = (Done a, w') → intent_at id settled (db (w_sys w')).
Proof.
  unfold reject_received. intros (x & w1 & Hx & Hr)%bind_done. apply ret_done in Hr as [_ ->].
  by eapply transition_settles.
Qed.
Lemma reject_validating_settles c m (w : World V) a w' :
  reject_validating self id c m w = (Done a, w') → intent_at id settled (db (w_sys w')).
Proof.
  unfold reject_validating. intros (y & w0 & _ & (x & w1 & Hx & Hr)%bind_done)%bind_done.
  apply ret_done in Hr as [_ ->]. by eapply transition_settles.
Qed.
Lemma reject_preparation_settles c m (w : World V) a w' :
  call_store (reject_preparation st id c m) w = (Done a, w') → intent_at id settled (db (w_sys w')).
Proof.
  intros Hr. eapply intent_at_mono; [|eapply call_takes; [apply reject_preparation_takes|exact Hr]].
  intros s ->. by left.
Qed.
(** The last step settles the intent. *)
Lemma ends_last F (m : Coord ()) :
  (∀ w u w', m w = (Done u, w') → intent_at id settled (db (w_sys w'))) → ends F m.
Proof. intros Hm w u w' _ _ Hr. left. by eapply Hm. Qed.

Lemma ends_ask {A} F (m : Prog (Sys * V) VenueError A) refuse elapsed k :
  kept F → moves self w_sys (call_venue VENUE_CALL_TIMEOUT m) →
  (∀ e, ends F (refuse e)) → ends F elapsed → (∀ a, ends F (k a)) →
  ends F (ask_venue m refuse elapsed k).
Proof.
  intros HF Hm Hr He Hk. unfold ask_venue. apply ends_after; [done..|].
  intros [[e|a]|]; auto.
Qed.
Ltac venue_moves :=
  apply moves_runs; pose proof (reachable_persistent self) as HP; venue_call.

(** A store operation of which the outcome is known. *)
Lemma ends_call {A} F (m : Prog Sys StoreError A) P (k : A → Coord ()) :
  (∀ d, store_op st d A m) → takes m id P →
  (∀ a, ends (λ s, intent_at id (P a) (db s)) (k a)) → ends F (call_store m ≫= k).
Proof.
  intros Hop Hm Hk. eapply ends_then; [by apply moves_call_store| |exact Hk].
  intros w a w' _ _. by apply call_takes.
Qed.

Lemma moves_halt_for_venue_error e t : moves self w_sys (halt_for_venue_error self e t).
Proof.
  apply moves_runs, runs_halt_for_venue_error; first [done|exact I|apply reachable_persistent|apply reachable_unique].
Qed.
(** The intent's preparation is refused, and what follows. *)
Lemma ends_refused F c m (k : Coord ()) :
  moves self w_sys k → ends F (call_store (reject_preparation st id c m);; k).
Proof.
  intros Hk. apply ends_settled; [moving|by intros|]. intros w a w'. apply reject_preparation_settles.
Qed.
Lemma ends_order_created x r p market :
  int_id x = id →
  ends (λ _, True)
    (order ← call_store (create_prepared_order st x r (normalized_json p)
       (deterministic_order_id p) (signed_payload_json p) (signer_address p) (funder_address p)
       (protocol_version p) (sdk_version p) (version (policy self))
       (dec_max (maker_fee_rate market) (taker_fee_rate market)));
     submit_prepared self id (ord_id order) p r).
Proof.
  intros Hid.
  apply (ends_call _ _ _ _ ltac:(intros; apply Op_prepare)
    (create_prepared_order_takes _ _ _ _ _ _ _ _ _ _ _ _ _ Hid)).
  intros o. eapply ends_weaken; [|apply ends_submit_prepared].
  intros s0. apply intent_at_mono. intros ? ->. by left.
Qed.

Lemma ends_place_order x r market book :
  int_id x = id → ends (λ _, True) (place_order self id x r market book).
Proof.
  intros Hid. unfold place_order.
  apply (ends_call _ _ _ _ ltac:(intros; apply Op_risk) (evaluate_takes _ _ _ _ _ _)).
  intros decision. destruct (approved decision); cbn [negb].
  2: { apply ends_ret. intros s0. apply intent_at_mono. intros ? Hs. left. by apply Hs. }
  apply (ends_weaken (λ _, True)); [done|].
  apply ends_after; [apply kept_true|moving|intros _].
  apply ends_ask; [apply kept_true|venue_moves|intros e| |intros p].
  - apply ends_refused, moves_halt_for_venue_error.
  - apply ends_last. intros w u w'. apply reject_preparation_settles.
  - by apply ends_order_created.
Qed.

Lemma ends_reject F c m : ends F (reject_validating self id c m).
Proof. apply ends_last. intros w u w'. apply reject_validating_settles. Qed.
Lemma ends_rejected F c m (k : Coord ()) :
  moves self w_sys k → ends F (reject_validating self id c m;; k).
Proof.
  intros Hk. apply ends_settled; [|by intros|].
  - apply moves_runs, runs_reject_validating; first [done|exact I|apply reachable_persistent].
  - intros w a w'. apply reject_validating_settles.
Qed.


Lemma ends_check_and_place x r market book :
  int_id x = id → ends (λ _, True) (check_and_place self id x r market book).
Proof.
  intros Hid. unfold check_and_place. apply ends_after; [apply kept_true|by apply moves_still|].
  intros now. destruct (validate_freshness_and_increments _ _ _ _ _) as [|[]|].
  - by apply ends_place_order.
  - apply ends_reject.
  - by apply ends_lift.
Qed.
Lemma ends_validate_and_place x r :
  int_id x = id → ends (λ _, True) (validate_and_place self id x r).
Proof.
  intros Hid. unfold validate_and_place. apply ends_after; [apply kept_true|by apply moves_still|].
  intros now. destruct (validate r now) as [|e|].
  - repeat (apply ends_ask; [apply kept_true|venue_moves|intros ?| |intros ?];
      [apply ends_rejected, moves_halt_for_venue_error|apply ends_reject|]).
    by apply ends_check_and_place.
  - apply ends_after; [apply kept_true|moving|intros _].
    apply ends_settled; [moving|intros; by apply moves_still|]. intros w a w'. apply transition_settles.
  - by apply ends_lift.
Qed.

Lemma ends_process_ready : ends (λ _, True) (process_ready self id).
Proof.
  unfold process_ready.
  apply (ends_then _ (λ x s, int_id x = id ∧ intent_at id (λ t, t = int_state x) (db s)));
    [moving| |].
  { intros w x w' _ _ [s Hs]%call_store_done. by apply get_intent_found in Hs. }
  intros x. case_bool_decide as Hp.
  { unfold resume_prepared.
    apply (ends_weaken (λ s, intent_at id on_its_way (db s))).
    { intros s0 [_ Hat]. eapply intent_at_mono; [|exact Hat]. intros ? ->. by left. }
    apply ends_after; [apply kept_at, on_its_way_closed|moving|intros p].
    apply ends_after; [apply kept_at, on_its_way_closed|by apply moves_still|intros r].
    apply ends_submit_prepared. }
  destruct (negb _); [apply ends_fail|].
  apply ends_pure. intros Hid. apply (ends_weaken (λ _, True)); [done|].
  apply ends_after; [apply kept_true|by apply moves_still|intros r].
  apply ends_after; [apply kept_true|moving|intros _]. by apply ends_validate_and_place.
Qed.

Lemma ends_process_intent : ends (λ _, True) (process_intent self id).
Proof.
  unfold process_intent, process_intent_inner.
  apply ends_after; [apply kept_true|by apply moves_still|intros required].
  apply ends_after; [apply kept_true| |intros _].
  { apply moves_runs. destruct required; [|apply runs_ret].
    apply runs_reconcile_ignored; first [done|exact I|apply reachable_persistent|apply reachable_unique]. }
  apply ends_after; [apply kept_true| |intros [reason|]].
  { apply moves_runs, runs_health; first [done|apply reachable_persistent]. }
  - apply ends_after; [apply kept_true| |intros _].
    { apply moves_runs, runs_halt_inner; first [done|exact I|apply reachable_persistent|apply reachable_unique]. }
    apply ends_last. intros w u w'. apply reject_received_settles.
  - apply ends_after; [apply kept_true|moving|intros [[state ?] ?]].
    destruct (negb (state ≟ Ready)); [|apply ends_process_ready].
    apply ends_last. intros w u w'. apply reject_received_settles.
Qed.
End progress.

(** C4. A turn of the worker that ends without an error takes the intent out of
    the way, whatever the other tasks do meanwhile, wherever deadlines cut the
    calls of the venue and whatever the venue answers: the intent is rejected or
    its submission has begun, or it is PREPARED (or further) and waits among the
    deferred intents that the next resume queues again.  It is never left
    RECEIVED, VALIDATING, APPROVED or PREPARING. *)
Theorem intent_turn_concludes
    `{DL : DecimalLaws} `{Platform} `{Codec} {V} `{Venue : !ExecutionVenue (Sys * V)}
    `{Sched : !Schedule V} (self : ExecutionCoordinator) (id : Uuid) (w w' : World V) u :
  lawful self → reachable (store self) (w_sys w) →
  process_intent self id w = (Done u, w') → concluded id w'.
Proof. intros HL Hw Hr. exact (ends_process_intent self HL id w u w' Hw I Hr). Qed.

(** The queued intent of the fixtures is submitted. *)
#[local] Existing Instance RefOps.
#[local] Existing Instance RefLaws.
#[local] Existing Instance RefPlatform.
#[local] Existing Instance CoordinatorCodec.
#[local] Existing Instance QuietSchedule.
#[local] Existing Instance accepting.
Definition world_concluded : World nat :=
  (process_intent fix_coordinator (admitted_id (Done fake_submission))
     (world_queued (Done fake_submission))).2.
Lemma intent_turn_concludes_witness :
  summary world_concluded = ([IntentState.Submitted], [OrderState.Live], "READY", [CallSubmit 33%N]) ∧
  concluded (admitted_id (Done fake_submission)) world_concluded.
Proof.
  split; [vm_compute; reflexivity|].
  eapply (intent_turn_concludes fix_coordinator _ (world_queued (Done fake_submission)) _ tt).
  - apply (fake_lawful (Done fake_submission) None).
  - apply queued_reachable.
  - vm_compute. reflexivity.
Defined.
