(* ===== verification/Polymarket.v ===== *)
(** * Polymarket: the live venue (venue/polymarket.rs)

    The venue of live mode talks to Polymarket through a client library, which
    is an argument: [PolymarketSdk] says what its calls answer, and [deliveries]
    which messages of the WebSocket streams arrive.  The stream tasks of the
    venue run beside its functions, so the messages that arrive before the
    [n]-th access to something shared - a call of the library, a lock, an atomic
    counter - are handled there.  Metrics and log lines are left out. *)
From S2P Require Import Prelude Text DecimalSpec Json Platform Domain Venue Risk Schema StoreIntents StoreRisk StoreOrders StoreControl StorePaper Config.

(** ** What the client library answers *)

Definition U256 : Type := N.
Definition Address : Type := N.
Definition B256 : Type := N.

(** The kinds of errors the venue tells apart; [downcast_ref::<SdkStatus>()]. *)
Inductive SdkErrorKind : Type := KindGeoblock | KindValidation | KindOther.
Record SdkStatus : Type := mkSdkStatus {
  status_code : Z;
  status_message : string;
  status_text : string;
}.
Record SdkError : Type := mkSdkError {
  err_status : option SdkStatus;
  err_kind : SdkErrorKind;
  err_text : string;
}.

Inductive OrderStatusType : Type :=
| StatusLive | StatusMatched | StatusCanceled | StatusDelayed | StatusUnmatched
| StatusOther (text : string).
Inductive TradeStatusType : Type :=
| TradeMatched | TradeMined | TradeConfirmed | TradeRetrying | TradeFailed
| TradeOther (text : string).
Inductive TraderSide : Type := Taker | Maker | OtherTraderSide.
Inductive SdkSide : Type := SdkBuy | SdkSell | SdkOtherSide.
Inductive SdkOrderType : Type := GTC | GTD | FOK | FAK.
Inductive ChannelType : Type := UserChannel | MarketChannel.
#[export] Instance SdkSide_eq_dec : EqDecision SdkSide.
Proof. solve_decision. Defined.

Record GeoblockResponse : Type := mkGeoblockResponse {
  gb_blocked : bool;
  gb_country : string;
  gb_region : string;
}.
Record CancelOrdersResponse : Type := mkCancelOrdersResponse {
  canceled : list string;
  not_canceled : gmap string string;
}.
Record HeartbeatResponse : Type := mkHeartbeatResponse {
  hb_error : option string;
  hb_heartbeat_id : Uuid;
}.
Record Page (T : Type) : Type := mkPage { page_data : list T; next_cursor : string }.
Arguments mkPage {T}.
Arguments page_data {T}.
Arguments next_cursor {T}.
Record Eip712Domain : Type := mkEip712Domain {
  domain_name : string;
  domain_version : string;
  domain_chain_id : U256;
  verifying_contract : Address;
}.
(** The order as the contracts see it. *)
Record OrderV2 : Type := mkOrderV2 {
  salt : U256;
  maker : Address;
  signer : Address;
  tokenId : U256;
  makerAmount : U256;
  takerAmount : U256;
  order_side : N;
  signatureType : N;
  order_timestamp : U256;
  metadata : B256;
  builder : B256;
}.

Section sdk_data.
Context `{DecimalOps}.

Record MarketResponse : Type := mkMarketResponse {
  mkt_tokens : list U256;
  mkt_active : bool;
  mkt_closed : bool;
  mkt_accepting_orders : bool;
  mkt_minimum_tick_size : Decimal;
  mkt_minimum_order_size : Decimal;
  mkt_neg_risk : bool;
  mkt_maker_base_fee : Decimal;
  mkt_taker_base_fee : Decimal;
}.
Record BookLevel : Type := mkBookLevel { bl_price : Decimal; bl_size : Decimal }.
Record OrderBookSummary : Type := mkOrderBookSummary {
  bs_bids : list BookLevel;
  bs_asks : list BookLevel;
  bs_timestamp : DateTime;
  bs_hash : option string;
}.
(** The messages of the two market streams. *)
Record BookUpdate : Type := mkBookUpdate {
  bu_asset_id : U256;
  bu_bids : list BookLevel;
  bu_asks : list BookLevel;
  bu_timestamp : Z;
  bu_hash : option string;
}.
Record PriceEntry : Type := mkPriceEntry {
  pe_asset_id : U256;
  pe_price : Decimal;
  pe_side : SdkSide;
  pe_size : option Decimal;
  pe_hash : option string;
}.
Record PriceChange : Type := mkPriceChange {
  pc_timestamp : Z;
  price_changes : list PriceEntry;
}.
Record BalanceAllowance : Type := mkBalanceAllowance {
  balance : Decimal;
  allowances : gmap Address string;
}.
Inductive Amount : Type := AmountUsdc (d : Decimal) | AmountShares (d : Decimal).
Inductive OrderBuilder : Type :=
| LimitOrder (token_id : U256) (size price : Decimal) (side : SdkSide)
    (order_type : SdkOrderType) (post_only defer_exec : bool) (expiration : option DateTime)
| MarketOrder (token_id : U256) (amount : Amount) (price : Decimal) (side : SdkSide)
    (order_type : SdkOrderType) (post_only defer_exec : bool).
Record PostOrderResponse : Type := mkPostOrderResponse {
  po_success : bool;
  po_error_msg : option string;
  po_order_id : string;
  po_status : OrderStatusType;
  po_making_amount : Decimal;
  po_taking_amount : Decimal;
  po_trade_ids : list string;
  po_transaction_hashes : list string;
}.
Record OpenOrder : Type := mkOpenOrder {
  oo_id : string;
  oo_status : OrderStatusType;
  oo_original_size : Decimal;
  oo_size_matched : Decimal;
  oo_price : Decimal;
  oo_associate_trades : list string;
  oo_asset_id : U256;
}.
(** Values that are only printed are kept as their text. *)
Record SdkTrade : Type := mkSdkTrade {
  st_id : string;
  st_status : TradeStatusType;
  st_trader_side : TraderSide;
  st_taker_order_id : string;
  st_maker_orders : list string;
  st_market : string;
  st_asset_id : string;
  st_side : string;
  st_size : Decimal;
  st_price : Decimal;
  st_match_time : string;
  st_last_update : string;
  st_transaction_hash : string;
  st_error_msg : option string;
}.
Record SdkPosition : Type := mkSdkPosition {
  sp_condition_id : string;
  sp_asset : string;
  sp_size : Decimal;
  sp_proxy_wallet : string;
  sp_avg_price : Decimal;
  sp_current_value : Decimal;
  sp_redeemable : bool;
  sp_mergeable : bool;
}.

(** A message of a stream task: [None] is an error of the stream.  The market
    streams are those of a token that was subscribed. *)
Inductive Delivery : Type :=
| UserMessage (ok : bool)
| UserEnd
| BookMessage (subscribed_token : string) (m : option BookUpdate)
| PriceMessage (subscribed_token : string) (m : option PriceChange)
| MarketEnd (subscribed_token : string).

(** The library and its world; the answers depend on the number of the access. *)
Class PolymarketSdk : Type := {
  Signable : Type;
  SignedOrder : Type;
  sdk_version : nat → SdkError + N;
  check_geoblock : nat → SdkError + GeoblockResponse;
  closed_only_mode : nat → SdkError + bool;
  (** what [PolymarketVenue::new] makes its clients with *)
  make_client : nat → string + ();
  create_or_derive_api_key : nat → SdkError + ();
  make_ws : nat → SdkError + ();
  authenticate_client : nat → Address → SdkError + ();
  subscribe_user_events : nat → SdkError + ();
  make_data_client : nat → SdkError + ();
  subscribe_orderbook : nat → U256 → SdkError + ();
  subscribe_prices : nat → U256 → SdkError + ();
  is_connected : nat → ChannelType → bool;
  sdk_market : nat → string → SdkError + MarketResponse;
  sdk_order_book : nat → U256 → SdkError + OrderBookSummary;
  amount_error : Amount → option string;
  build_order : nat → OrderBuilder → SdkError + Signable;
  sign : nat → Signable → SdkError + SignedOrder;
  sdk_neg_risk : nat → U256 → SdkError + bool;
  contract_exchange_v2 : Z → bool → option Address;
  (** [None]: the collateral, [Some]: a conditional token *)
  balance_allowance : nat → option U256 → SdkError + BalanceAllowance;
  signed_order : SignedOrder → OrderV2;
  eip712_signing_hash : OrderV2 → Eip712Domain → string;
  jcs_signed : SignedOrder → string + string;
  jcs_order : OrderV2 → string + string;
  build_signed : OrderV2 → U256 → string → SdkOrderType → Uuid → bool → bool → SignedOrder;
  post_order : nat → SignedOrder → SdkError + PostOrderResponse;
  cancel_order : nat → string → SdkError + CancelOrdersResponse;
  lookup_order : nat → string → SdkError + OpenOrder;
  open_orders : nat → option string → SdkError + Page OpenOrder;
  list_venue_trades : nat → option string → SdkError + Page SdkTrade;
  positions_request_error : Z → option string;
  venue_positions : nat → Address → Z → SdkError + list SdkPosition;
  post_heartbeat : nat → option Uuid → SdkError + HeartbeatResponse;
  (** parsers and texts *)
  u256_from_str : string → string + U256;
  address_from_str : string → string + Address;
  b256_from_str : string → string + B256;
  address_text : Address → string;
  order_status_text : OrderStatusType → string;
  trade_status_text : TradeStatusType → string;
  side_code : SdkSide → N;
  exact_decimal_error : string → string;
  json_error : string → string;
  uuid_error : string → string;
  timestamp_millis : Z → option DateTime;
  token_order : gset U256 → list U256;
  (** the clock, and the messages that arrive with the time of their handling *)
  live_clock : nat → DateTime;
  deliveries : nat → list (DateTime * Delivery);
}.
End sdk_data.

Section state.
Context `{PolymarketSdk}.

Record PolymarketState : Type := mkPolymarketState {
  market_subscriptions : gset string;
  books : gmap string OrderBook;
  last_user_event : option DateTime;
  user_event_generation : Z;
  reconciled_user_event_generation : Z;
  stream_gap_generation : Z;
  reconciled_stream_generation : Z;
  heartbeat_id : option Uuid;
  accesses : nat;
  (** the orders posted so far *)
  posted : list SignedOrder;
}.
#[export] Instance PolymarketState_eta : Eta PolymarketState := λ p,
  mkPolymarketState (market_subscriptions p) (books p) (last_user_event p)
    (user_event_generation p) (reconciled_user_event_generation p) (stream_gap_generation p)
    (reconciled_stream_generation p) (heartbeat_id p) (accesses p) (posted p).
End state.

(** ** The book cache and the stream tasks *)
Section streams.
Context `{PolymarketSdk} `{Platform}.

(** [prices.insert(level.price)] is false for a price that is there already. *)
Fixpoint consistent_levels (prices : list Decimal) (levels : list PriceLevel) : bool :=
  match levels with
  | [] => true
  | level :: levels' =>
      dec_gt (price level) dec_ZERO && dec_le (price level) dec_ONE &&
      dec_gt (size level) dec_ZERO && negb (existsb (dec_eq (price level)) prices) &&
      consistent_levels (price level :: prices) levels'
  end.
Definition book_is_consistent (book : OrderBook) : bool :=
  if negb (consistent_levels [] (bids book)) || negb (consistent_levels [] (asks book)) then false
  else if match best_bid book, best_ask book with
          | Some bid, Some ask => dec_ge bid ask
          | _, _ => false
          end then false
  else match ob_hash book with Some hash => negb (trim_is_empty hash) | None => true end.

Definition price_level (level : BookLevel) : PriceLevel :=
  mkPriceLevel (bl_price level) (bl_size level).

(** [fetch_add(1)] on an [AtomicU64] wraps. *)
Definition next_u64 (z : Z) : Z := (z + 1) mod 2 ^ 64.
Definition count_gap (p : PolymarketState) : PolymarketState :=
  p <| stream_gap_generation := next_u64 (stream_gap_generation p) |>.
Definition drop_book (token : string) (p : PolymarketState) : PolymarketState :=
  p <| books := delete token (books p) |>.

Definition apply_book (now : DateTime) (book : BookUpdate) (p : PolymarketState)
    : PolymarketState :=
  let observed_at := default now (timestamp_millis (bu_timestamp book)) in
  let next := mkOrderBook (price_level <$> bu_bids book) (price_level <$> bu_asks book)
    observed_at (bu_hash book) in
  let asset_id := nat_to_string (bu_asset_id book) in
  let regressed := match books p !! asset_id with
    | Some prior => ob_observed_at next <? ob_observed_at prior
    | None => false
    end in
  if regressed || negb (book_is_consistent next) then count_gap (drop_book asset_id p)
  else p <| books := <[asset_id := next]> (books p) |>.

(** [levels.retain(..)], and the new size at the price. *)
Definition change_levels (entry : PriceEntry) (levels : list PriceLevel) : list PriceLevel :=
  List.filter (λ level, negb (dec_eq (price level) (pe_price entry))) levels ++
  match pe_size entry with
  | Some size => if dec_gt size dec_ZERO then [mkPriceLevel (pe_price entry) size] else []
  | None => []
  end.
Definition change_book (observed_at : DateTime) (entry : PriceEntry) (book : OrderBook)
    : OrderBook :=
  let hash := match pe_hash entry with Some hash => Some hash | None => ob_hash book end in
  if pe_side entry ≟ SdkBuy
  then mkOrderBook (change_levels entry (bids book)) (asks book) observed_at hash
  else mkOrderBook (bids book) (change_levels entry (asks book)) observed_at hash.
Definition apply_price (observed_at : DateTime) (p : PolymarketState) (entry : PriceEntry)
    : PolymarketState :=
  let asset_id := nat_to_string (pe_asset_id entry) in
  match books p !! asset_id with
  | None => p
  | Some book =>
      if observed_at <? ob_observed_at book then count_gap (drop_book asset_id p)
      else
        let book := change_book observed_at entry book in
        if negb (book_is_consistent book) then count_gap (drop_book asset_id p)
        else p <| books := <[asset_id := book]> (books p) |>
  end.

(** One message, with [Utc::now] at its handling. *)
Definition deliver (p : PolymarketState) (d : DateTime * Delivery) : PolymarketState :=
  let '(now, message) := d in
  match message with
  | UserMessage true => p <| last_user_event := Some now |>
      <| user_event_generation := next_u64 (user_event_generation p) |>
  | UserMessage false | UserEnd => count_gap p
  | BookMessage _ (Some book) => apply_book now book p
  | PriceMessage _ (Some change) =>
      foldl (apply_price (default now (timestamp_millis (pc_timestamp change)))) p
        (price_changes change)
  | BookMessage token None | PriceMessage token None | MarketEnd token =>
      count_gap (drop_book token p)
  end.
End streams.

(** ** Errors *)
Definition classify_pre_submit_error (error : SdkError) : VenueError :=
  match err_status error with
  | Some status =>
      if status_code status =? 425 then VenueError.MatchingEngineRestart (status_message status)
      else if str_contains "order_version_mismatch" (status_message status)
      then VenueError.ProtocolMismatch (status_message status)
      else VenueError.Rejected (status_text status)
  | None =>
      match err_kind error with
      | KindGeoblock => VenueError.GeographicRestricted (err_text error)
      | KindValidation => VenueError.Rejected (err_text error)
      | KindOther => VenueError.Unavailable (err_text error)
      end
  end.
Definition is_server_error (code : Z) : bool := (500 <=? code) && (code <? 600).
Definition classify_submission_error (error : SdkError) : VenueError :=
  match err_status error with
  | Some status =>
      if status_code status =? 425 then VenueError.MatchingEngineRestart (status_message status)
      else if str_contains "order_version_mismatch" (status_message status)
      then VenueError.ProtocolMismatch (status_message status)
      else if is_server_error (status_code status) then VenueError.Ambiguous (status_text status)
      else VenueError.Rejected (status_text status)
  | None =>
      match err_kind error with
      | KindValidation | KindGeoblock => classify_pre_submit_error error
      | KindOther => VenueError.Ambiguous (err_text error)
      end
  end.
Definition is_not_found (error : SdkError) : bool :=
  match err_status error with Some status => status_code status =? 404 | None => false end.

Definition map_order_status (status : OrderStatusType) : OrderState :=
  match status with
  | StatusLive | StatusUnmatched | StatusDelayed => OrderState.Live
  | StatusMatched => OrderState.Filled
  | StatusCanceled => OrderState.Cancelled
  | StatusOther _ => OrderState.Unknown
  end.
Definition map_trade_status (status : TradeStatusType) : option TradeState :=
  match status with
  | TradeMatched => Some TradeState.Matched
  | TradeMined => Some TradeState.Mined
  | TradeConfirmed => Some TradeState.Confirmed
  | TradeRetrying => Some TradeState.Retrying
  | TradeFailed => Some TradeState.Failed
  | TradeOther _ => None
  end.
Definition sdk_order_type (value : TimeInForce) : SdkOrderType :=
  match value with Gtc => GTC | Gtd => GTD | Fok => FOK | Fak => FAK end.

(** ** The persisted signed order *)
Section signed.
Context `{PolymarketSdk} `{Platform}.

Definition rejected {A} (r : string + A) : outcome VenueError A :=
  match r with inl e => Failed (VenueError.Rejected e) | inr a => Done a end.

Definition value_string (value : Value) (field : string) : outcome VenueError string :=
  value ← ok_or (VenueError.Rejected ("signed order is missing " +:+ field))
    (get_member field value);
  match as_str value with
  | Some raw => mret raw
  | None =>
      if is_number value then mret (json_to_string value)
      else Failed (VenueError.Rejected ("signed order has invalid " +:+ field))
  end.
Definition value_u64 (value : Value) (field : string) : outcome VenueError N :=
  ok_or (VenueError.Rejected ("signed order is missing " +:+ field))
    (get_member field value ≫= as_u64).
Definition parse_u256 (value : Value) (field : string) : outcome VenueError U256 :=
  raw ← value_string value field; rejected (u256_from_str raw).
Definition parse_address (value : Value) (field : string) : outcome VenueError Address :=
  raw ← value_string value field; rejected (address_from_str raw).
Definition parse_b256 (value : Value) (field : string) : outcome VenueError B256 :=
  raw ← value_string value field; rejected (b256_from_str raw).

Definition signed_side (body : Value) : outcome VenueError N :=
  match get_member "side" body ≫= as_str with
  | Some side =>
      if side ≟ "BUY" then mret (side_code SdkBuy)
      else if side ≟ "SELL" then mret (side_code SdkSell)
      else Failed (VenueError.Rejected "signed order contains an invalid side")
  | None => Failed (VenueError.Rejected "signed order contains an invalid side")
  end.
Definition signed_order_type (value : Value) : outcome VenueError SdkOrderType :=
  match get_member "orderType" value ≫= as_str with
  | Some t =>
      if t ≟ "GTC" then mret GTC else if t ≟ "GTD" then mret GTD
      else if t ≟ "FOK" then mret FOK else if t ≟ "FAK" then mret FAK
      else Failed (VenueError.Rejected "signed order contains an invalid order type")
  | None => Failed (VenueError.Rejected "signed order contains an invalid order type")
  end.
(** The fields of the order, in the order the code reads them. *)
Definition signed_body (body : Value) : outcome VenueError OrderV2 :=
  salt ← parse_u256 body "salt";
  maker ← parse_address body "maker";
  signer ← parse_address body "signer";
  token_id ← parse_u256 body "tokenId";
  maker_amount ← parse_u256 body "makerAmount";
  taker_amount ← parse_u256 body "takerAmount";
  side ← signed_side body;
  signature_type ← value_u64 body "signatureType";
  reject_if (255 <? signature_type)%N (VenueError.Rejected "signatureType exceeds u8");;
  timestamp ← parse_u256 body "timestamp";
  metadata ← parse_b256 body "metadata";
  builder ← parse_b256 body "builder";
  mret (mkOrderV2 salt maker signer token_id maker_amount taker_amount side signature_type
    timestamp metadata builder).
Definition flag_or_false (key : string) (value : Value) : bool :=
  default false (get_member key value ≫= as_bool).

Definition reconstruct_signed_order (payload : string) : outcome VenueError SignedOrder :=
  value ← ok_or (VenueError.Rejected (json_error payload)) (json_from_str payload);
  body ← ok_or (VenueError.Rejected "signed order is missing order") (get_member "order" value);
  order ← signed_body body;
  expiration ← parse_u256 body "expiration";
  signature ← ok_or (VenueError.Rejected "signed order is missing signature")
    (get_member "signature" body ≫= as_str);
  order_type ← signed_order_type value;
  raw_owner ← ok_or (VenueError.Rejected "signed order is missing owner")
    (get_member "owner" value ≫= as_str);
  owner ← ok_or (VenueError.Rejected (uuid_error raw_owner)) (uuid_parse_str raw_owner);
  mret (build_signed order expiration signature order_type owner
    (flag_or_false "postOnly" value) (flag_or_false "deferExec" value)).
End signed.

(** ** The key file of the signer *)

Record FileMetadata : Type := mkFileMetadata {
  is_symlink : bool;
  is_file : bool;
  dev : N;
  ino : N;
  mode_bits : Z;
  file_len : Z;
}.
(** What the file system and the key parser answer for a path: the metadata of
    the path before the file is opened, of the opened file, and of the path
    afterwards; the bytes that are read and how many more there are. *)
Class KeyFile : Type := {
  link_metadata : string → option FileMetadata;
  open_succeeds : string → bool;
  opened_metadata : string → option FileMetadata;
  current_path_metadata : string → option FileMetadata;
  read_key : string → Z → option (list N);
  read_more : string → option Z;
  from_utf8 : list N → option string;
  LiveSigner : Type;
  private_key_from_str : string → option LiveSigner;
  live_signer_address : LiveSigner → Address;
}.

Section key.
Context `{DecimalOps} `{Platform} `{PolymarketSdk} `{KeyFile}.

Definition private_key_mode_is_allowed (mode : Z) : bool :=
  let bits := Z.land mode 4095 in (bits =? 256) || (bits =? 384).
Definition same_file (a b : FileMetadata) : bool := (dev a =? dev b)%N && (ino a =? ino b)%N.

Definition unconfigured {A} (m : string) (o : option A) : outcome VenueError A :=
  ok_or (VenueError.LiveNotConfigured m) o.

(** The file, unchanged between the looks at it, with the mode of a secret. *)
Definition open_key (path : string) : outcome VenueError FileMetadata :=
  link ← unconfigured "live key file could not be inspected" (link_metadata path);
  reject_if (is_symlink link || negb (is_file link))
    (VenueError.LiveNotConfigured "live key path must be a regular, non-symlink file");;
  reject_if (negb (open_succeeds path))
    (VenueError.LiveNotConfigured "live key file could not be read");;
  opened ← unconfigured "live key file could not be inspected" (opened_metadata path);
  current ← unconfigured "live key file changed while it was being opened"
    (current_path_metadata path);
  reject_if (is_symlink current || negb (is_file current) || negb (same_file current link) ||
      negb (is_file opened) || negb (same_file opened link))
    (VenueError.LiveNotConfigured "live key file changed while it was being opened");;
  reject_if (negb (private_key_mode_is_allowed (mode_bits opened)))
    (VenueError.LiveNotConfigured "live key file mode must be 0400 or 0600");;
  mret opened.

(** The bytes of the key: exactly as many as the opened file has. *)
Definition read_live_key (path : string) (opened : FileMetadata) : outcome VenueError (list N) :=
  let key_length := file_len opened in
  reject_if (2 ^ 64 <=? key_length + 1)
    (VenueError.LiveNotConfigured "live key file is too large");;
  key ← unconfigured "live key file could not be read" (read_key path key_length);
  more ← unconfigured "live key file could not be read" (read_more path);
  reject_if (negb (more =? 0))
    (VenueError.LiveNotConfigured "live key file changed while it was being read");;
  mret key.

Definition load_live_signer (config : PolymarketConfig) : outcome VenueError LiveSigner :=
  reject_if (negb (chain_id config =? 137))
    (VenueError.LiveNotConfigured "local signing supports only Polygon chain 137");;
  path ← unconfigured "private_key_file is required" (private_key_file config);
  opened ← open_key path;
  key ← read_live_key path opened;
  text ← unconfigured "live key file does not contain a valid private key" (from_utf8 key);
  signer ← unconfigured "live key file does not contain a valid private key"
    (private_key_from_str (trim text));
  raw ← unconfigured "signer_address is required" (cfg_signer_address config);
  configured_signer ← (match address_from_str raw with
    | inl _ => Failed (VenueError.LiveNotConfigured "configured signer_address is invalid")
    | inr a => Done a
    end);
  reject_if (negb (live_signer_address signer =? configured_signer)%N)
    (VenueError.LiveNotConfigured "configured signer_address does not match mounted key");;
  mret signer.
Definition validate_live_signer (config : PolymarketConfig) : outcome VenueError () :=
  load_live_signer config;; mret tt.
End key.

(** ** The venue *)
Section venue.
Context `{PolymarketSdk} `{Platform}.
(** [self.config]. *)
Variable config : PolymarketConfig.
Notation Live := (Prog PolymarketState VenueError).

(** The messages that arrive before an access are handled; the access has a number. *)
Definition access : Live nat := λ p,
  let p := foldl deliver p (deliveries (accesses p)) in
  (Done (accesses p), p <| accesses := S (accesses p) |>).
Definition observe {A} (f : PolymarketState → A) : Live A := access;; gets f.
Definition sdk {A} (classify : SdkError → VenueError) (call : nat → SdkError + A) : Live A :=
  n ← access;
  match call n with inl e => fail (classify e) | inr a => mret a end.
Definition ask {A} (call : nat → SdkError + A) : Live A := sdk classify_pre_submit_error call.
Definition live_now : Live DateTime := n ← access; mret (live_clock n).
Definition connected (channel : ChannelType) : Live bool :=
  n ← access; mret (is_connected n channel).

Definition channel_text (channel : ChannelType) : string :=
  match channel with UserChannel => "User" | MarketChannel => "Market" end.
(** [for _ in 0..100], with a pause of 100 ms in each turn. *)
Fixpoint wait_turns (fuel : nat) (channel : ChannelType) : Live () :=
  match fuel with
  | O => fail (VenueError.Stale
      (channel_text channel +:+ " WebSocket did not connect within 10 seconds"))
  | S fuel =>
      up ← connected channel;
      if up : bool then mret tt else wait_turns fuel channel
  end.
Definition wait_for_ws (channel : ChannelType) : Live () := wait_turns 100 channel.

Definition check_version (version : N) : Live () :=
  ensure (Z.of_N version =? expected_protocol config) (VenueError.ProtocolMismatch
    ("expected " +:+ nat_to_string (Z.to_N (expected_protocol config)) +:+ ", venue reports " +:+
     nat_to_string version)).
Definition check_location (geoblock : GeoblockResponse) : Live () :=
  ensure (negb (gb_blocked geoblock)) (VenueError.GeographicRestricted
    ("blocked from " +:+ gb_country geoblock +:+ "/" +:+ gb_region geoblock)).
Definition check_account (closed_only : bool) : Live () :=
  ensure (negb closed_only)
    (VenueError.GeographicRestricted "account is in close-only mode").

Definition ensure_trading_allowed : Live () :=
  version ← ask sdk_version;
  check_version version;;
  geoblock ← ask check_geoblock;
  check_location geoblock;;
  ban ← ask closed_only_mode;
  check_account ban.

Definition funder_address_of : outcome VenueError Address :=
  raw ← ok_or (VenueError.LiveNotConfigured "funder_address is required")
    (cfg_funder_address config);
  match address_from_str raw with
  | inl e => Failed (VenueError.LiveNotConfigured e)
  | inr a => Done a
  end.
Definition polymarket_new `{KeyFile} : Live () :=
  lift (load_live_signer config);;
  funder ← lift funder_address_of;
  n ← access;
  match make_client n with
  | inl e => fail (VenueError.LiveNotConfigured e)
  | inr _ =>
      version ← ask sdk_version;
      check_version version;;
      geoblock ← ask check_geoblock;
      check_location geoblock;;
      ask create_or_derive_api_key;;
      ask make_ws;;
      ask (λ n, authenticate_client n funder);;
      ban ← ask closed_only_mode;
      check_account ban;;
      modify (λ p, mkPolymarketState ∅ ∅ None 0 0 0 0 None (accesses p) (posted p));;
      ask subscribe_user_events;;
      wait_for_ws UserChannel;;
      ask make_data_client
  end.

Definition market_token (token_id : string) : outcome VenueError U256 :=
  match u256_from_str token_id with
  | inl e => Failed (VenueError.Market e)
  | inr token => Done token
  end.
(** The token is subscribed, its cached book is consistent and the stream is up. *)
Definition cache_is_healthy (token_id : string) : Live bool :=
  subscribed ← observe (λ p, bool_decide (token_id ∈ market_subscriptions p));
  if negb subscribed then mret false
  else
    cached ← observe (λ p,
      match books p !! token_id with Some book => book_is_consistent book | None => false end);
    if negb cached then mret false else connected MarketChannel.
Definition ensure_market_subscription (token_id : string) : Live () :=
  healthy ← cache_is_healthy token_id;
  if healthy : bool then mret tt
  else
    modify (λ p, p <| market_subscriptions := market_subscriptions p ∖ {[token_id]} |>);;
    token ← lift (market_token token_id);
    ask (λ n, subscribe_orderbook n token);;
    ask (λ n, subscribe_prices n token);;
    modify (λ p, p <| market_subscriptions := market_subscriptions p ∪ {[token_id]} |>);;
    wait_for_ws MarketChannel.

(** ** Reading the market *)

Definition polymarket_market_rules (condition_id token_id : string) : Live MarketRules :=
  ensure_trading_allowed;;
  ensure_market_subscription token_id;;
  market ← ask (λ n, sdk_market n condition_id);
  let token_matches := existsb (λ token, nat_to_string token ≟ token_id) (mkt_tokens market) in
  ensure token_matches (VenueError.Market "token does not belong to condition");;
  now ← live_now;
  mret (mkMarketRules condition_id token_id (mkt_active market) (mkt_closed market)
    (mkt_accepting_orders market) (mkt_minimum_tick_size market)
    (mkt_minimum_order_size market) (mkt_neg_risk market) (mkt_maker_base_fee market)
    (mkt_taker_base_fee market) now).

(** The cached book when it is at most two whole seconds old. *)
Definition recent_book (token_id : string) : Live (option OrderBook) :=
  cached ← observe (λ p, books p !! token_id);
  match cached with
  | None => mret None
  | Some book =>
      now ← live_now;
      mret (if Z.quot (now - ob_observed_at book) (seconds 1) <=? 2 then Some book else None)
  end.
Definition rest_book (book : OrderBookSummary) : OrderBook :=
  mkOrderBook (price_level <$> bs_bids book) (price_level <$> bs_asks book) (bs_timestamp book)
    (bs_hash book).
Definition polymarket_order_book (token_id : string) : Live OrderBook :=
  cached ← recent_book token_id;
  match cached with
  | Some book => mret book
  | None =>
      token ← lift (market_token token_id);
      summary ← ask (λ n, sdk_order_book n token);
      let book := rest_book summary in
      ensure (book_is_consistent book)
        (VenueError.Stale "REST order book failed consistency checks");;
      mret book
  end.

(** ** Preparing an order *)

Definition or_rejected {A} (o : outcome DomainError A) : outcome VenueError A :=
  map_err (λ e, VenueError.Rejected (DomainError_to_string e)) o.
Definition sdk_side (side : Side) : SdkSide :=
  match side with Buy => SdkBuy | Sell => SdkSell end.
Definition make_amount (amount : Amount) : outcome VenueError Amount :=
  match amount_error amount with
  | Some e => Failed (VenueError.Rejected e)
  | None => Done amount
  end.
Definition order_builder (request : OrderIntentRequest) (token_id : U256)
    (price quantity : Decimal) : outcome VenueError OrderBuilder :=
  let side := sdk_side (req_side request) in
  let order_type := sdk_order_type (req_time_in_force request) in
  match req_time_in_force request with
  | Gtc => mret (LimitOrder token_id quantity price side order_type (post_only request) false None)
  | Gtd =>
      expiration ← ok_or (VenueError.Rejected "GTD expiration is required") (expires_at request);
      mret (LimitOrder token_id quantity price side order_type (post_only request) false
        (Some expiration))
  | Fok | Fak =>
      amount ← make_amount (match req_side request with
        | Buy => AmountUsdc quantity
        | Sell => AmountShares quantity
        end);
      mret (MarketOrder token_id amount price side order_type false false)
  end.
Definition sign_order (request : OrderIntentRequest) : Live SignedOrder :=
  token_id ← lift (rejected (u256_from_str (req_token_id request)));
  price ← lift (or_rejected (protection_price request));
  quantity ← lift (or_rejected (quantity_decimal request));
  builder ← lift (order_builder request token_id price quantity);
  signable ← ask (λ n, build_order n builder);
  ask (λ n, sign n signable).

(** What the account must hold; the product panics when it overflows. *)
Definition required_balance (request : OrderIntentRequest) (quantity price : Decimal)
    : outcome VenueError Decimal :=
  match req_side request with
  | Sell => mret quantity
  | Buy =>
      if (req_time_in_force request ≟ Fok) || (req_time_in_force request ≟ Fak)
      then mret quantity else or_panic (dec_mul quantity price)
  end.
Definition exchange_allowance (balance : BalanceAllowance) (exchange : Address)
    : outcome VenueError Decimal :=
  raw ← ok_or (VenueError.Rejected
      ("no venue allowance is recorded for exchange " +:+ address_text exchange))
    (allowances balance !! exchange);
  ok_or (VenueError.Rejected ("invalid venue allowance: " +:+ exact_decimal_error raw))
    (dec_from_str_exact raw).
Definition ensure_balance_and_allowance (request : OrderIntentRequest) (exchange : Address)
    : Live () :=
  token_id ← lift (rejected (u256_from_str (req_token_id request)));
  account ← ask (λ n, balance_allowance n
    (match req_side request with Buy => None | Sell => Some token_id end));
  quantity ← lift (or_rejected (quantity_decimal request));
  price ← lift (or_rejected (protection_price request));
  required ← lift (required_balance request quantity price);
  ensure (negb (dec_lt (balance account) required)) (VenueError.Rejected
    ("venue balance " +:+ dec_to_string (balance account) +:+ " is below required " +:+
     dec_to_string required));;
  allowance ← lift (exchange_allowance account exchange);
  ensure (negb (dec_lt allowance required)) (VenueError.Rejected
    ("venue allowance " +:+ dec_to_string allowance +:+ " is below required " +:+
     dec_to_string required)).

Definition bool_text (b : bool) : string := if b then "true" else "false".
Definition exchange_of (neg_risk : bool) : outcome VenueError Address :=
  ok_or (VenueError.ProtocolMismatch
      ("V2 exchange is not configured for chain " +:+ nat_to_string (Z.to_N (chain_id config)) +:+
       " and neg_risk=" +:+ bool_text neg_risk))
    (contract_exchange_v2 (chain_id config) neg_risk).
Definition order_domain (exchange : Address) : Eip712Domain :=
  mkEip712Domain "Polymarket CTF Exchange" "2" (Z.to_N (chain_id config)) exchange.
Definition polymarket_prepare (intent_id : Uuid) (request : OrderIntentRequest)
    : Live PreparedVenueOrder :=
  ensure_trading_allowed;;
  signed ← sign_order request;
  let order := signed_order signed in
  neg_risk ← ask (λ n, sdk_neg_risk n (tokenId order));
  exchange ← lift (exchange_of neg_risk);
  ensure_balance_and_allowance request exchange;;
  let deterministic_order_id := eip712_signing_hash order (order_domain exchange) in
  signed_payload_json ← lift (rejected (jcs_signed signed));
  normalized_json ← lift (rejected (jcs_order order));
  mret (mkPreparedVenueOrder deterministic_order_id normalized_json (Some signed_payload_json)
    (cfg_signer_address config) (cfg_funder_address config) (expected_protocol config) "0.7.0").

(** ** Submitting and cancelling *)

(** The shares and the price per share; the divisions panic when they overflow. *)
Definition submission_fill (side : Side) (response : PostOrderResponse)
    : outcome VenueError (Decimal * option Decimal) :=
  let per_share (quote shares : Decimal) : outcome VenueError (option Decimal) :=
    if dec_gt shares dec_ZERO then p ← or_panic (dec_div quote shares); mret (Some p)
    else mret None in
  match side with
  | Buy => p ← per_share (po_making_amount response) (po_taking_amount response);
      mret (po_taking_amount response, p)
  | Sell => p ← per_share (po_taking_amount response) (po_making_amount response);
      mret (po_making_amount response, p)
  end.
Definition post_evidence (response : PostOrderResponse) : Value :=
  json_obj ["success" ::= po_success response; "order_id" ::= po_order_id response;
    "status" ::= order_status_text (po_status response); "error" ::= po_error_msg response;
    "trade_ids" ::= po_trade_ids response;
    "transaction_hashes" ::= po_transaction_hashes response].
Definition accepted_response (request : OrderIntentRequest) (response : PostOrderResponse)
    : outcome VenueError VenueSubmission :=
  reject_if (negb (po_success response)) (VenueError.Rejected
    (default "venue rejected the order" (po_error_msg response)));;
  let state := map_order_status (po_status response) in
  reject_if (state ≟ OrderState.Unknown) (VenueError.Ambiguous
    ("venue returned unrecognized order status " +:+ order_status_text (po_status response) +:+
     " for " +:+ po_order_id response));;
  '(filled_quantity, filled_price) ← submission_fill (req_side request) response;
  mret (mkVenueSubmission (po_order_id response) state filled_quantity filled_price
    (po_trade_ids response) (post_evidence response)).

(** [self.client.post_order(signed)]: what is posted is kept. *)
Definition post_signed (signed : SignedOrder) : Live (SdkError + PostOrderResponse) :=
  n ← access;
  modify (λ p, p <| posted := posted p ++ [signed] |>);;
  mret (post_order n signed).
Definition polymarket_submit (prepared : PreparedVenueOrder) (request : OrderIntentRequest)
    : Live VenueSubmission :=
  payload ← lift (ok_or (VenueError.Rejected "signed payload is required in live mode")
    (signed_payload_json prepared));
  signed ← lift (reconstruct_signed_order payload);
  response ← post_signed signed;
  match response with
  | inr response => lift (accepted_response request response)
  | inl error => fail (classify_submission_error error)
  end.

Definition map_value (m : gmap string string) : Value :=
  JObject ((λ kv, (kv.1, JString kv.2)) <$> map_to_list m).
Definition polymarket_cancel (venue_order_id : string) : Live VenueCancellation :=
  response ← ask (λ n, cancel_order n venue_order_id);
  ensure (existsb (λ id, id ≟ venue_order_id) (canceled response)) (VenueError.Ambiguous
    (default "venue did not positively acknowledge cancellation"
       (not_canceled response !! venue_order_id)));;
  mret (mkVenueCancellation OrderState.Cancelled
    (json_obj ["canceled" ::= canceled response;
       "not_canceled" ::= map_value (not_canceled response)])).

(** ** Looking at the account *)

Definition observed_open_order (source : string) (order : OpenOrder)
    : outcome VenueError ObservedVenueOrder :=
  remaining ← or_panic (dec_sub (oo_original_size order) (oo_size_matched order));
  mret (mkObservedVenueOrder (oo_id order) (map_order_status (oo_status order))
    (dec_max remaining dec_ZERO) (oo_size_matched order) (Some (oo_price order))
    (oo_associate_trades order)
    (json_obj ["source" ::= source; "venue_order_id" ::= oo_id order;
      "asset_id" ::= nat_to_string (oo_asset_id order);
      "status" ::= order_status_text (oo_status order);
      "original_size" ::= oo_original_size order; "size_matched" ::= oo_size_matched order])).
Definition polymarket_find_order (deterministic_order_id : string)
    : Live (option ObservedVenueOrder) :=
  n ← access;
  match lookup_order n deterministic_order_id with
  | inr order => observed ← lift (observed_open_order "rest_order_lookup" order); mret (Some observed)
  | inl error =>
      if is_not_found error then mret None else fail (classify_pre_submit_error error)
  end.

(** [page.next_cursor] after the last page. *)
Definition last_cursor (cursor : string) : bool := (cursor ≟ "") || (cursor ≟ "LTE=").
Fixpoint observe_orders (orders : list OpenOrder) : outcome VenueError (list ObservedVenueOrder) :=
  match orders with
  | [] => mret []
  | order :: orders =>
      o ← observed_open_order "open_orders_reconciliation" order;
      os ← observe_orders orders;
      mret (o :: os)
  end.
(** [for _ in 0..100]: what the pages that are read hold. *)
Fixpoint order_pages (fuel : nat) (cursor : option string) : Live (list ObservedVenueOrder) :=
  match fuel with
  | O => mret []
  | S fuel =>
      page ← ask (λ n, open_orders n cursor);
      observed ← lift (observe_orders (page_data page));
      if last_cursor (next_cursor page) then mret observed
      else rest ← order_pages fuel (Some (next_cursor page)); mret (observed ++ rest)
  end.

Definition trade_order_ids (trade : SdkTrade) : list string :=
  match st_trader_side trade with
  | Taker => [st_taker_order_id trade]
  | Maker => st_maker_orders trade
  | OtherTraderSide => st_taker_order_id trade :: st_maker_orders trade
  end.
Definition trade_evidence (trade : SdkTrade) : Value :=
  json_obj ["source" ::= "trade_reconciliation"; "market" ::= st_market trade;
    "asset_id" ::= st_asset_id trade; "side" ::= st_side trade; "size" ::= st_size trade;
    "price" ::= st_price trade; "status" ::= trade_status_text (st_status trade);
    "match_time" ::= st_match_time trade; "last_update" ::= st_last_update trade;
    "transaction_hash" ::= st_transaction_hash trade; "error" ::= st_error_msg trade].
(** A trade, or a finding about it. *)
Definition observe_trade (trade : SdkTrade) : string + ObservedVenueTrade :=
  match map_trade_status (st_status trade) with
  | None => inl ("venue trade " +:+ st_id trade +:+ " has an unrecognized status " +:+
      trade_status_text (st_status trade))
  | Some status =>
      inr (mkObservedVenueTrade (st_id trade) (trade_order_ids trade) status (trade_evidence trade))
  end.
Fixpoint trade_pages (fuel : nat) (cursor : option string)
    : Live (list (string + ObservedVenueTrade)) :=
  match fuel with
  | O => mret []
  | S fuel =>
      page ← ask (λ n, list_venue_trades n cursor);
      let observed := observe_trade <$> page_data page in
      if last_cursor (next_cursor page) then mret observed
      else rest ← trade_pages fuel (Some (next_cursor page)); mret (observed ++ rest)
  end.
Definition lefts {A B} (l : list (A + B)) : list A :=
  omap (λ x, match x with inl a => Some a | inr _ => None end) l.
Definition rights {A B} (l : list (A + B)) : list B :=
  omap (λ x, match x with inl _ => None | inr b => Some b end) l.

Definition observed_position (position : SdkPosition) : ObservedVenuePosition :=
  mkObservedVenuePosition (sp_condition_id position) (sp_asset position) (sp_size position)
    (json_obj ["source" ::= "data_api_positions"; "proxy_wallet" ::= sp_proxy_wallet position;
      "average_price" ::= sp_avg_price position; "current_value" ::= sp_current_value position;
      "redeemable" ::= sp_redeemable position; "mergeable" ::= sp_mergeable position]).
Definition positions_request (page_index : Z) : outcome VenueError Z :=
  match positions_request_error (page_index * 500) with
  | Some e => Failed (VenueError.Unavailable e)
  | None => Done (page_index * 500)
  end.
(** [for page_index in 0..=20]: the positions, and whether the bound was reached. *)
Fixpoint position_pages (fuel : nat) (funder : Address) (page_index : Z)
    : Live (list ObservedVenuePosition * list string) :=
  match fuel with
  | O => mret ([], [])
  | S fuel =>
      offset ← lift (positions_request page_index);
      page ← ask (λ n, venue_positions n funder offset);
      let observed := observed_position <$> page in
      if (length page <? 500)%nat then mret (observed, [])
      else
        let bound := if page_index =? 20
          then ["position reconciliation exceeded the Data API pagination bound"] else [] in
        '(rest, findings) ← position_pages fuel funder (page_index + 1);
        mret (observed ++ rest, bound ++ findings)
  end.

Definition token_of (text : string) : option U256 :=
  match u256_from_str text with inl _ => None | inr token => Some token end.
Definition order_token (order : ObservedVenueOrder) : option U256 :=
  raw ← get_member "asset_id" (obs_evidence order); text ← as_str raw; token_of text.
(** The tokens of the orders and the positions, in the order of a [HashSet]. *)
Definition account_tokens (orders : list ObservedVenueOrder)
    (positions : list ObservedVenuePosition) : list U256 :=
  token_order (list_to_set (omap (M := list) order_token orders ++
    omap (M := list) (λ position, token_of (obp_token_id position)) positions)).
Definition no_allowances (account : BalanceAllowance) : bool := bool_decide (allowances account = ∅).
Definition allowance_finding (token_id : U256) : Live (list string) :=
  conditional ← ask (λ n, balance_allowance n (Some token_id));
  mret (if no_allowances conditional
    then ["venue returned no conditional-token allowances for " +:+ nat_to_string token_id]
    else []).

(** The market stream is up, if any token is subscribed. *)
Definition market_stream_up : Live bool :=
  subscribed ← observe (λ p, negb (bool_decide (market_subscriptions p = ∅)));
  if negb subscribed then mret true else connected MarketChannel.
Definition user_stream_up : Live () :=
  up ← connected UserChannel;
  ensure up (VenueError.Stale "authenticated user stream is disconnected").

Definition observe_account : Live ReconciliationResult :=
  ensure_trading_allowed;;
  user_stream_up;;
  orders ← order_pages 100 None;
  trades ← trade_pages 100 None;
  collateral ← ask (λ n, balance_allowance n None);
  let collateral_findings := if no_allowances collateral
    then ["venue returned no collateral allowances for the configured account"] else [] in
  funder ← lift funder_address_of;
  '(positions, position_findings) ← position_pages 21 funder 0;
  token_findings ← for_collect (account_tokens orders positions) allowance_finding;
  up ← market_stream_up;
  ensure up (VenueError.Stale "market stream is disconnected during reconciliation");;
  mret (mkReconciliationResult (Z.of_nat (length orders)) (Z.of_nat (length trades)) orders
    (rights trades) positions
    (lefts trades ++ collateral_findings ++ position_findings ++ concat token_findings)).
(** The generations that were read before anything was looked at are reconciled. *)
Definition polymarket_reconcile : Live ReconciliationResult :=
  user_generation_at_start ← observe user_event_generation;
  gap_generation_at_start ← observe stream_gap_generation;
  result ← observe_account;
  access;;
  modify (λ p, p <| reconciled_stream_generation := gap_generation_at_start |>);;
  access;;
  modify (λ p, p <| reconciled_user_event_generation := user_generation_at_start |>);;
  mret result.

(** ** The heartbeat *)
Definition polymarket_heartbeat : Live () :=
  user_stream_up;;
  up ← market_stream_up;
  ensure up (VenueError.Stale "market stream is disconnected");;
  gap ← observe stream_gap_generation;
  reconciled ← observe reconciled_stream_generation;
  ensure (gap =? reconciled) (VenueError.Stale "a WebSocket gap requires reconciliation");;
  beat ← observe heartbeat_id;
  response ← ask (λ n, post_heartbeat n beat);
  match hb_error response with
  | Some error => fail (VenueError.Unavailable error)
  | None => modify (λ p, p <| heartbeat_id := Some (hb_heartbeat_id response) |>)
  end.

Definition polymarket_reconciliation_required (p : PolymarketState) : bool :=
  negb (user_event_generation p =? reconciled_user_event_generation p).

(** The venue beside the database, which it does not touch. *)
Definition live {A} (m : Live A) : Prog (Sys * PolymarketState) VenueError A := λ sv,
  let '(r, p) := m sv.2 in (r, (sv.1, p)).
Definition PolymarketVenue : ExecutionVenue (Sys * PolymarketState) := {|
  market_rules condition_id token_id := live (polymarket_market_rules condition_id token_id);
  order_book token_id := live (polymarket_order_book token_id);
  prepare intent_id request := live (polymarket_prepare intent_id request);
  submit prepared request := live (polymarket_submit prepared request);
  cancel venue_order_id := live (polymarket_cancel venue_order_id);
  find_order id := live (polymarket_find_order id);
  venue_reconcile := live polymarket_reconcile;
  heartbeat := live polymarket_heartbeat;
  requires_heartbeat := true;
  reconciliation_required := λ sv, polymarket_reconciliation_required sv.2;
|}.
End venue.

(** ** The venue of a binary without the feature [live] *)
Section not_compiled.
Context `{DecimalOps} {V : Type}.
Definition validate_live_signer_not_compiled (config : PolymarketConfig) : outcome VenueError () :=
  Failed VenueError.LiveNotCompiled.
Definition new_not_compiled (config : PolymarketConfig) : outcome VenueError () :=
  Failed VenueError.LiveNotCompiled.
Definition NotCompiledVenue : ExecutionVenue V := {|
  market_rules _ _ := fail VenueError.LiveNotCompiled;
  order_book _ := fail VenueError.LiveNotCompiled;
  prepare _ _ := fail VenueError.LiveNotCompiled;
  submit _ _ := fail VenueError.LiveNotCompiled;
  cancel _ := fail VenueError.LiveNotCompiled;
  find_order _ := fail VenueError.LiveNotCompiled;
  venue_reconcile := fail VenueError.LiveNotCompiled;
  heartbeat := fail VenueError.LiveNotCompiled;
  requires_heartbeat := true;
  reconciliation_required _ := false;
|}.
End not_compiled.
