(* ===== verification/LiveVenue.v ===== *)
(** * LiveVenue: what the live venue guarantees (venue/polymarket.rs)

    The book cache never holds a book that is out of order, a gap in a stream
    stops the heartbeat until a reconciliation that began after it, and a
    submission posts at most the order that was persisted. *)
From S2P Require Import Prelude Text DecimalSpec RefDecimal Json Platform Domain Venue Fixtures Risk Schema StoreIntents StoreRisk StoreOrders StoreControl StorePaper StoreFixtures StoreLogic Lifecycle OrderHistory Coordinator Freshness CoordinatorSteps Config Polymarket.

(** ** Books in order *)
Section order.
Context `{DecimalOps, DL : !DecimalLaws}.

Definition level_in_range (level : PriceLevel) : Prop :=
  (0 < ⟦price level⟧ <= 1)%Q ∧ (0 < ⟦size level⟧)%Q.
(** Each price stands once. *)
Definition prices_distinct (levels : list PriceLevel) : Prop :=
  ForallOrdPairs (λ a b, ¬ ⟦price a⟧ == ⟦price b⟧) levels.
Record book_in_order (book : OrderBook) : Prop := {
  bo_levels level : level ∈ bids book ++ asks book → level_in_range level;
  bo_bids : prices_distinct (bids book);
  bo_asks : prices_distinct (asks book);
  bo_uncrossed bid ask : bid ∈ bids book → ask ∈ asks book → (⟦price bid⟧ < ⟦price ask⟧)%Q;
  bo_hash hash : ob_hash book = Some hash → trim_is_empty hash = false;
}.

Lemma consistent_levels_spec levels : ∀ seen, consistent_levels seen levels = true ↔
  Forall level_in_range levels ∧ prices_distinct levels ∧
  ∀ level p, level ∈ levels → p ∈ seen → ¬ ⟦price level⟧ == ⟦p⟧.
Proof.
  induction levels as [|l levels IH]; intros seen; cbn [consistent_levels].
  { split; [intros _; split_and!; [constructor|constructor|set_solver]|done]. }
  rewrite !andb_true_iff, IH, negb_true_iff, dec_gt_spec, dec_le_spec, dec_gt_spec.
  rewrite dec_ZERO_value, dec_ONE_value. unfold prices_distinct, level_in_range.
  assert (existsb (dec_eq (price l)) seen = false ↔ ∀ p, p ∈ seen → ¬ ⟦price l⟧ == ⟦p⟧) as ->.
  { rewrite <- not_true_iff_false, existsb_exists. split.
    - intros Hn p Hp Heq. apply Hn. exists p. split; [by apply list_elem_of_In|by apply dec_eq_spec].
    - intros Hn (p & Hp%list_elem_of_In & Heq%dec_eq_spec). by eapply Hn. }
  split.
  - intros ((((? & ?) & ?) & Hl) & Hf & Hd & Hs). split_and!.
    + by constructor.
    + constructor; [|done]. apply Forall_forall. intros a Ha Heq.
      apply (Hs a (price l)); [done|by left|by symmetry].
    + intros level p [->|Hin]%elem_of_cons Hp; [by apply Hl|]. apply Hs; [done|by right].
  - intros (Hf & Hd & Hs). inversion Hf as [|? ? [? ?] ?]; subst.
    inversion Hd as [|? ? Hall ?]; subst. split_and!; try tauto.
    + intros p Hp. apply Hs; [by left|done].
    + intros level p Hin [->|Hp]%elem_of_cons; [|apply Hs; [by right|done]].
      rewrite Forall_forall in Hall. intros Heq. apply (Hall level); [done|by symmetry].
Qed.
Lemma book_is_consistent_iff book : book_is_consistent book = true ↔ book_in_order book.
Proof.
  unfold book_is_consistent.
  change (match best_bid book with Some bid => _ | None => false end) with (crossed_book book).
  destruct (negb (consistent_levels [] (bids book)) || negb (consistent_levels [] (asks book))) eqn:El.
  { split; [done|]. intros [Hl Hb Ha _ _]. apply orb_true_iff in El.
    destruct El as [El%negb_true_iff|El%negb_true_iff]; apply not_true_iff_false in El; destruct El;
      apply consistent_levels_spec; (split_and!; [|done|by intros ? ? _ ?%elem_of_nil]);
      apply Forall_forall; intros a Hin; apply Hl; set_solver. }
  apply orb_false_iff in El as [Eb%negb_false_iff Ea%negb_false_iff].
  apply consistent_levels_spec in Eb as (Fb & Db & _). apply consistent_levels_spec in Ea as (Fa & Da & _).
  destruct (crossed_book book) eqn:Ec.
  { split; [done|]. intros B. apply not_false_iff_true in Ec. destruct Ec.
    apply crossed_book_spec. apply B. }
  pose proof (proj1 (crossed_book_spec _) Ec) as Hc. split.
  - intros Hh. split; [|done..|].
    + rewrite Forall_forall in Fb, Fa. intros level [Hin|Hin]%elem_of_app; auto.
    + intros hash Hash. rewrite Hash in Hh. by apply negb_true_iff.
  - intros B. destruct (ob_hash book) eqn:Eh; [|done]. apply negb_true_iff. by eapply bo_hash.
Qed.
End order.

Section live.
Context `{DecimalOps, DL : !DecimalLaws} `{!PolymarketSdk} `{Platform}.
Variable config : PolymarketConfig.
Notation Live := (Prog PolymarketState VenueError).

(** ** Gaps *)

(** How often a message can count a gap at most. *)
Definition weight (d : DateTime * Delivery) : Z :=
  match d.2 with
  | PriceMessage _ (Some change) => Z.of_nat (length (price_changes change))
  | _ => 1
  end.
Definition total_weight (l : list (DateTime * Delivery)) : Z := foldr (λ d n, weight d + n) 0 l.
(** The counter went on from [p] to [p'] by [k], and wrapped. *)
Definition counted (p p' : PolymarketState) (k : Z) : Prop :=
  0 ≤ k ∧ stream_gap_generation p' = (stream_gap_generation p + k) mod 2 ^ 64.
Definition normal (p : PolymarketState) : Prop := 0 ≤ stream_gap_generation p < 2 ^ 64.

Lemma counted_zero p p' : normal p → stream_gap_generation p' = stream_gap_generation p → counted p p' 0.
Proof. intros Hn Hp. split; [lia|]. rewrite Hp, Z.add_0_r. symmetry. by apply Z.mod_small. Qed.
Lemma counted_one p p' :
  stream_gap_generation p' = next_u64 (stream_gap_generation p) → counted p p' 1.
Proof. split; [lia|done]. Qed.
Lemma counted_trans p1 p2 p3 k1 k2 :
  counted p1 p2 k1 → counted p2 p3 k2 → counted p1 p3 (k1 + k2).
Proof.
  intros [L1 E1] [L2 E2]. split; [lia|]. rewrite E2, E1, Zplus_mod_idemp_l. f_equal. lia.
Qed.
Lemma counted_normal p p' k : counted p p' k → normal p'.
Proof. intros [_ Hp]. unfold normal. rewrite Hp. by apply Z.mod_pos_bound. Qed.
(** Less than a full turn of the counter is noticed. *)
Lemma counted_noticed p p' k :
  normal p → counted p p' k → 0 < k < 2 ^ 64 → stream_gap_generation p' ≠ stream_gap_generation p.
Proof.
  intros Hn [_ Hp] Hk Heq. rewrite Heq in Hp. unfold normal in Hn.
  pose proof (Z.mod_small (stream_gap_generation p) (2 ^ 64) Hn) as Hs.
  assert (((stream_gap_generation p + k) - stream_gap_generation p) mod 2 ^ 64 = 0) as Hz.
  { rewrite Zminus_mod, <- Hp, Hs, Z.sub_diag. done. }
  rewrite Z.add_simpl_l, Z.mod_small in Hz; lia.
Qed.

Lemma apply_price_counted t p e :
  normal p → ∃ k, k ≤ 1 ∧ counted p (apply_price t p e) k.
Proof.
  intros Hn. unfold apply_price. cbv zeta. repeat case_match.
  all: try (exists 0; split; [lia|by apply counted_zero]).
  all: exists 1; split; [lia|by apply counted_one].
Qed.
Lemma prices_counted t l : ∀ p, normal p →
  ∃ k, k ≤ Z.of_nat (length l) ∧ counted p (foldl (apply_price t) p l) k.
Proof.
  induction l as [|e l IH]; intros p Hn; cbn [foldl length].
  { exists 0. split; [lia|by apply counted_zero]. }
  destruct (apply_price_counted t p e Hn) as (k1 & Hk1 & C1).
  destruct (IH (apply_price t p e)) as (k2 & Hk2 & C2); [by eapply counted_normal|].
  exists (k1 + k2). split; [lia|by eapply counted_trans].
Qed.
Lemma deliver_counted p d : normal p → ∃ k, k ≤ weight d ∧ counted p (deliver p d) k.
Proof.
  intros Hn. destruct d as [now [[]| |t [b|]|t [c|]|t]]; unfold weight; cbn [snd deliver].
  all: try (exists 1; split; [lia|by apply counted_one]).
  - exists 0. split; [lia|by apply counted_zero].
  - unfold apply_book. cbv zeta. case_match;
      [exists 1; split; [lia|by apply counted_one]|exists 0; split; [lia|by apply counted_zero]].
  - by apply prices_counted.
Qed.
Lemma deliver_all_counted l : ∀ p, normal p →
  ∃ k, k ≤ total_weight l ∧ counted p (foldl deliver p l) k.
Proof.
  induction l as [|d l IH]; intros p Hn; cbn [foldl total_weight foldr].
  { exists 0. split; [lia|by apply counted_zero]. }
  destruct (deliver_counted p d Hn) as (k1 & Hk1 & C1).
  destruct (IH (deliver p d)) as (k2 & Hk2 & C2); [by eapply counted_normal|].
  exists (k1 + k2). split; [unfold total_weight in *; lia|by eapply counted_trans].
Qed.

Lemma weight_nonneg d : 0 ≤ weight d.
Proof. unfold weight. repeat case_match; lia. Qed.
Lemma total_weight_app l l' : total_weight (l ++ l') = total_weight l + total_weight l'.
Proof. unfold total_weight. induction l as [|d l IH]; cbn [app foldr]; lia. Qed.
Lemma total_weight_nonneg l : 0 ≤ total_weight l.
Proof. unfold total_weight. induction l as [|d l IH]; cbn [foldr]; [done|]. pose proof (weight_nonneg d). lia. Qed.

(** An error or the end of a stream. *)
Definition lost (d : Delivery) : Prop :=
  match d with
  | UserMessage true | BookMessage _ (Some _) | PriceMessage _ (Some _) => False
  | _ => True
  end.
(** The book that a snapshot describes, and the one that a price change makes of a
    cached book, cannot follow what is cached. *)
Definition snapshot_of (now : DateTime) (b : BookUpdate) : OrderBook :=
  mkOrderBook (price_level <$> bu_bids b) (price_level <$> bu_asks b)
    (default now (timestamp_millis (bu_timestamp b))) (bu_hash b).
Definition stale_after (cached : option OrderBook) (observed_at : DateTime) : Prop :=
  ∃ book, cached = Some book ∧ observed_at < ob_observed_at book.
Definition breaks_book (observed_at : DateTime) (p : PolymarketState) (entry : PriceEntry) : Prop :=
  ∃ book, books p !! nat_to_string (pe_asset_id entry) = Some book ∧
    (observed_at < ob_observed_at book ∨ ¬ book_in_order (change_book observed_at entry book)).
(** A gap: a stream breaks off; a snapshot is older than the cached book, or out of
    order; a price change, after those before it in its message, is older than the
    cached book or leaves it out of order. *)
Inductive opens_gap (p : PolymarketState) : DateTime * Delivery → Prop :=
| Gap_lost now d : lost d → opens_gap p (now, d)
| Gap_book now token b :
    stale_after (books p !! nat_to_string (bu_asset_id b)) (ob_observed_at (snapshot_of now b)) ∨
      ¬ book_in_order (snapshot_of now b) →
    opens_gap p (now, BookMessage token (Some b))
| Gap_price now token c l1 entry l2 :
    price_changes c = l1 ++ entry :: l2 →
    let observed_at := default now (timestamp_millis (pc_timestamp c)) in
    breaks_book observed_at (foldl (apply_price observed_at) p l1) entry →
    opens_gap p (now, PriceMessage token (Some c)).

Lemma out_of_order book : ¬ book_in_order book → book_is_consistent book = false.
Proof. intros Hb. apply not_true_iff_false. by rewrite book_is_consistent_iff. Qed.
Lemma breaks_counted t p e : breaks_book t p e → counted p (apply_price t p e) 1.
Proof.
  intros (book & Hb & Hbad). unfold apply_price. cbv zeta. rewrite Hb.
  destruct (Z.ltb_spec t (ob_observed_at book)); [by apply counted_one|].
  destruct Hbad as [|Hbad]; [lia|]. rewrite (out_of_order _ Hbad). by apply counted_one.
Qed.
(** Every gap is counted. *)
Lemma gap_counted p d : normal p → opens_gap p d → ∃ k, 0 < k ≤ weight d ∧ counted p (deliver p d) k.
Proof.
  intros Hn [now d' Hd|now token b Hb|now token c l1 e l2 Hl t He].
  - exists 1. destruct d' as [[]| |? [?|]|? [?|]|?]; try done; (split; [done|by apply counted_one]).
  - exists 1. split; [done|]. cbn [deliver]. unfold apply_book. cbv zeta.
    fold (snapshot_of now b). rewrite (proj2 (orb_true_iff _ _)); [by apply counted_one|].
    destruct Hb as [(book & -> & Ht)|Hb]; [left; by apply Z.ltb_lt|right].
    by rewrite (out_of_order _ Hb).
  - unfold weight. cbn [snd deliver]. fold t. rewrite Hl, foldl_app, length_app. cbn [foldl length].
    destruct (prices_counted t l1 p Hn) as (k1 & L1 & C1).
    pose proof (breaks_counted _ _ _ He) as C2.
    destruct (prices_counted t l2 (apply_price t (foldl (apply_price t) p l1) e)) as (k3 & L3 & C3);
      [by eapply counted_normal|].
    exists (k1 + (1 + k3)). split; [|by eapply counted_trans, counted_trans].
    destruct C1, C3. lia.
Qed.
Definition gap_among (p : PolymarketState) (l : list (DateTime * Delivery)) : Prop :=
  ∃ l1 d l2, l = l1 ++ d :: l2 ∧ opens_gap (foldl deliver p l1) d.
Lemma gap_among_counted p l : normal p → gap_among p l →
  ∃ k, 0 < k ≤ total_weight l ∧ counted p (foldl deliver p l) k.
Proof.
  intros Hn (l1 & d & l2 & -> & Hd). rewrite foldl_app. cbn [foldl].
  destruct (deliver_all_counted l1 p Hn) as (k1 & L1 & C1).
  assert (normal (foldl deliver p l1)) as N1 by by eapply counted_normal.
  destruct (gap_counted (foldl deliver p l1) d N1 Hd) as (k2 & L2 & C2).
  destruct (deliver_all_counted l2 (deliver (foldl deliver p l1) d)) as (k3 & L3 & C3);
    [by eapply counted_normal|].
  exists (k1 + (k2 + k3)). split; [|by eapply counted_trans, counted_trans].
  destruct C1, C2, C3. rewrite total_weight_app.
  change (total_weight (d :: l2)) with (weight d + total_weight l2). lia.
Qed.

Lemma gap_among_app p l l' : gap_among p l → gap_among p (l ++ l').
Proof. intros (l1 & d & l2 & -> & Hd). exists l1, d, (l2 ++ l'). split; [by rewrite <- app_assoc|done]. Qed.
(** ** What the functions of the venue hear *)

(** The messages that are handled from access [a] to access [b]. *)
Definition messages (a b : nat) : list (DateTime * Delivery) :=
  concat (deliveries <$> seq a (b - a)).
Lemma messages_refl a : messages a a = [].
Proof. unfold messages. by rewrite Nat.sub_diag. Qed.
Lemma messages_app a b c : (a ≤ b)%nat → (b ≤ c)%nat → messages a c = messages a b ++ messages b c.
Proof.
  intros Hab Hbc. unfold messages. rewrite <- concat_app, <- fmap_app. do 2 f_equal.
  replace (c - a)%nat with ((b - a) + (c - b))%nat by lia. rewrite seq_app. do 2 f_equal. lia.
Qed.

(** The parts of the state the stream tasks work on. *)
Definition same_streams (p q : PolymarketState) : Prop :=
  books p = books q ∧ stream_gap_generation p = stream_gap_generation q.
Lemma apply_price_same t e p q :
  same_streams p q → same_streams (apply_price t p e) (apply_price t q e).
Proof.
  intros [Hb Hg]. unfold apply_price. cbv zeta. rewrite Hb.
  repeat case_match; split; cbn; congruence.
Qed.
Lemma deliver_same p q d : same_streams p q → same_streams (deliver p d) (deliver q d).
Proof.
  intros Hs. destruct d as [now [[]| |t [b|]|t [c|]|t]]; cbn [deliver].
  all: try (destruct Hs; split; cbn; congruence).
  - destruct Hs as [Hb Hg]. unfold apply_book. cbv zeta. rewrite Hb.
    repeat case_match; split; cbn; congruence.
  - revert p q Hs. induction (price_changes c) as [|e l IH]; intros p q Hs; cbn [foldl]; [done|].
    by apply IH, apply_price_same.
Qed.
Lemma deliver_all_same l : ∀ p q,
  same_streams p q → same_streams (foldl deliver p l) (foldl deliver q l).
Proof. induction l as [|d l IH]; intros p q Hs; cbn [foldl]; [done|]. by apply IH, deliver_same. Qed.

(** What no stream task touches. *)
Lemma apply_price_frame t e p :
  reconciled_stream_generation (apply_price t p e) = reconciled_stream_generation p ∧
  accesses (apply_price t p e) = accesses p ∧ posted (apply_price t p e) = posted p.
Proof. unfold apply_price. cbv zeta. by repeat case_match. Qed.
Lemma deliver_frame p d :
  reconciled_stream_generation (deliver p d) = reconciled_stream_generation p ∧
  accesses (deliver p d) = accesses p ∧ posted (deliver p d) = posted p.
Proof.
  destruct d as [now [[]| |t [b|]|t [c|]|t]]; cbn [deliver]; try done.
  - unfold apply_book. cbv zeta. by case_match.
  - revert p. induction (price_changes c) as [|e l IH]; intros p; cbn [foldl]; [done|].
    destruct (IH (apply_price (default now (timestamp_millis (pc_timestamp c))) p e)) as (-> & -> & ->).
    apply apply_price_frame.
Qed.
Lemma deliver_all_frame l : ∀ p,
  reconciled_stream_generation (foldl deliver p l) = reconciled_stream_generation p ∧
  accesses (foldl deliver p l) = accesses p ∧ posted (foldl deliver p l) = posted p.
Proof.
  induction l as [|d l IH]; intros p; cbn [foldl]; [done|].
  destruct (IH (deliver p d)) as (-> & -> & ->). apply deliver_frame.
Qed.

(** From [p] to [p'] the messages of the accesses in between were handled. *)
Record follows (p p' : PolymarketState) : Prop := {
  follows_time : (accesses p ≤ accesses p')%nat;
  follows_streams : same_streams p' (foldl deliver p (messages (accesses p) (accesses p')));
}.
Lemma follows_still p p' : accesses p' = accesses p → same_streams p' p → follows p p'.
Proof. intros Ha Hs. split; [lia|]. by rewrite Ha, messages_refl. Qed.
Lemma follows_trans p1 p2 p3 : follows p1 p2 → follows p2 p3 → follows p1 p3.
Proof.
  intros [L1 S1] [L2 S2]. split; [lia|].
  rewrite (messages_app _ (accesses p2)) by lia. rewrite foldl_app.
  destruct S2 as [B2 G2].
  destruct (deliver_all_same (messages (accesses p2) (accesses p3)) _ _ S1) as [B G].
  split; congruence.
Qed.
#[global] Instance follows_preorder : PreOrder follows.
Proof. split; [intros p; by apply follows_still|exact follows_trans]. Qed.
(** Moreover no reconciliation ended. *)
Definition hears (p p' : PolymarketState) : Prop :=
  follows p p' ∧ reconciled_stream_generation p' = reconciled_stream_generation p.
#[global] Instance hears_preorder : PreOrder hears.
Proof. split; [done|]. intros p1 p2 p3 [F1 R1] [F2 R2]. split; [by etrans|congruence]. Qed.
(** Changes the stream tasks do not see. *)
Lemma hears_still p p' :
  accesses p' = accesses p → same_streams p' p →
  reconciled_stream_generation p' = reconciled_stream_generation p → hears p p'.
Proof. intros Ha Hs Hr. split; [by apply follows_still|done]. Qed.

Definition listens {A} (m : Live A) : Prop := ∀ p, hears p (m p).2.
Lemma listens_access : listens access.
Proof.
  intros p. unfold access. cbv zeta. cbn -[messages].
  destruct (deliver_all_frame (deliveries (accesses p)) p) as (Hr & Ha & _).
  split; [|done]. split; cbn -[messages]; [lia|]. rewrite Ha.
  assert (messages (accesses p) (S (accesses p)) = deliveries (accesses p)) as ->; [|done].
  unfold messages. rewrite Nat.sub_succ_l, Nat.sub_diag by lia. cbn. by rewrite app_nil_r.
Qed.
Lemma listens_bind {A B} (m : Live A) (k : A → Live B) :
  listens m → (∀ a, listens (k a)) → listens (m ≫= k).
Proof.
  intros Hm Hk p. specialize (Hm p). unfold mbind, prog_bind.
  destruct (m p) as [[a|e|] p1]; cbn in *; [|done..]. etrans; [done|apply Hk].
Qed.
Lemma listens_still {A} (m : Live A) : (∀ p, (m p).2 = p) → listens m.
Proof. intros Hm p. by rewrite Hm. Qed.
Lemma listens_modify f :
  (∀ p, hears p (f p)) → listens (modify f).
Proof. intros Hf p. apply Hf. Qed.
Lemma listens_collect {A B} (l : list A) (body : A → Live B) :
  (∀ a, listens (body a)) → listens (for_collect l body).
Proof.
  intros Hb. induction l as [|a l IH]; cbn [for_collect]; [by apply listens_still|].
  apply listens_bind; [done|intros b]. apply listens_bind; [done|intros bs]. by apply listens_still.
Qed.
Lemma listens_ensure b e : listens (ensure b e).
Proof. apply listens_still. by destruct b. Qed.

Create HintDb listens discriminated.
(** What a function of the venue is made of. *)
Ltac listen_step :=
  match goal with
  | |- listens (_ ≫= _) => apply listens_bind; [|intros ?]
  | |- listens access => apply listens_access
  | |- listens (for_collect _ _) => apply listens_collect; intros ?
  | |- listens (ensure _ _) => apply listens_ensure
  | |- listens (mret _) => by apply listens_still
  | |- listens (fail _) => by apply listens_still
  | |- listens (lift _) => by apply listens_still
  | |- listens (gets _) => by apply listens_still
  | |- listens (modify _) => apply listens_modify; intros ?; by apply hears_still
  | |- listens (let _ := _ in _) => cbv zeta
  | |- listens (match ?x with _ => _ end) => destruct x
  | |- listens _ => solve [auto with listens nocore]
  end.
Ltac listen := repeat listen_step.

Lemma listens_ask {A} (call : nat → SdkError + A) : listens (ask call).
Proof. unfold ask, sdk. listen. Qed.
Lemma listens_observe {A} (f : PolymarketState → A) : listens (observe f).
Proof. unfold observe. listen. Qed.
Lemma listens_connected c : listens (connected c).
Proof. unfold connected. listen. Qed.
Lemma listens_now : listens live_now.
Proof. unfold live_now. listen. Qed.
Hint Resolve listens_ask listens_observe listens_connected listens_now : listens.
Lemma listens_wait c : listens (wait_for_ws c).
Proof. unfold wait_for_ws. generalize 100%nat as n. intros n. induction n; cbn [wait_turns]; listen. Qed.
Lemma listens_trading : listens (ensure_trading_allowed config).
Proof. unfold ensure_trading_allowed, check_version, check_location, check_account. listen. Qed.
Hint Resolve listens_wait listens_trading : listens.
Lemma listens_subscription t : listens (ensure_market_subscription t).
Proof. unfold ensure_market_subscription, cache_is_healthy. listen. Qed.
Hint Resolve listens_subscription : listens.
Lemma listens_market_rules c t : listens (polymarket_market_rules config c t).
Proof. unfold polymarket_market_rules. listen. Qed.
Lemma listens_recent_book t : listens (recent_book t).
Proof. unfold recent_book. listen. Qed.
Hint Resolve listens_recent_book : listens.
Lemma listens_order_book t : listens (polymarket_order_book t).
Proof. unfold polymarket_order_book. listen. Qed.
Lemma listens_sign_order r : listens (sign_order r).
Proof. unfold sign_order. listen. Qed.
Lemma listens_balance r e : listens (ensure_balance_and_allowance r e).
Proof. unfold ensure_balance_and_allowance. listen. Qed.
Hint Resolve listens_sign_order listens_balance : listens.
Lemma listens_prepare i r : listens (polymarket_prepare config i r).
Proof. unfold polymarket_prepare. listen. Qed.
Lemma listens_submit o r : listens (polymarket_submit o r).
Proof. unfold polymarket_submit, post_signed. listen. Qed.
Lemma listens_cancel v : listens (polymarket_cancel v).
Proof. unfold polymarket_cancel. listen. Qed.
Lemma listens_find_order d : listens (polymarket_find_order d).
Proof. unfold polymarket_find_order. listen. Qed.
Lemma listens_order_pages n : ∀ c, listens (order_pages n c).
Proof. induction n; intros c; cbn [order_pages]; listen. Qed.
Lemma listens_trade_pages n : ∀ c, listens (trade_pages n c).
Proof. induction n; intros c; cbn [trade_pages]; listen. Qed.
Lemma listens_position_pages n f : ∀ i, listens (position_pages n f i).
Proof. induction n; intros i; cbn [position_pages]; listen. Qed.
Lemma listens_market_up : listens market_stream_up.
Proof. unfold market_stream_up. listen. Qed.
Lemma listens_user_up : listens user_stream_up.
Proof. unfold user_stream_up. listen. Qed.
Hint Resolve listens_order_pages listens_trade_pages listens_position_pages listens_market_up
  listens_user_up : listens.
Lemma listens_observe_account : listens (observe_account config).
Proof. unfold observe_account, allowance_finding. listen. Qed.
Hint Resolve listens_observe_account : listens.
Lemma listens_heartbeat : listens polymarket_heartbeat.
Proof. unfold polymarket_heartbeat. listen. Qed.

(** ** Calls of the venue *)

(** The functions of the venue but [reconcile]. *)
Inductive venue_function : ∀ A, Live A → Prop :=
| Call_market_rules c t : venue_function MarketRules (polymarket_market_rules config c t)
| Call_order_book t : venue_function OrderBook (polymarket_order_book t)
| Call_prepare i r : venue_function PreparedVenueOrder (polymarket_prepare config i r)
| Call_submit o r : venue_function VenueSubmission (polymarket_submit o r)
| Call_cancel v : venue_function VenueCancellation (polymarket_cancel v)
| Call_find_order d : venue_function _ (polymarket_find_order d)
| Call_heartbeat : venue_function () polymarket_heartbeat.
(** A call that reconciles nothing: one of these, or a reconciliation that fails. *)
Inductive venue_call (p : PolymarketState) : PolymarketState → Prop :=
| Call_function A (m : Live A) : venue_function A m → venue_call p (m p).2
| Call_failed_reconcile :
    (∀ result p', polymarket_reconcile config p ≠ (Done result, p')) →
    venue_call p (polymarket_reconcile config p).2.

Lemma venue_function_listens A (m : Live A) : venue_function A m → listens m.
Proof.
  intros []; [apply listens_market_rules|apply listens_order_book|apply listens_prepare
    |apply listens_submit|apply listens_cancel|apply listens_find_order|apply listens_heartbeat].
Qed.

Lemma listens_done {A} (m : Live A) p a p' : listens m → m p = (Done a, p') → hears p p'.
Proof. intros Hm Hr. specialize (Hm p). by rewrite Hr in Hm. Qed.
Lemma access_done p n p' : access p = (Done n, p') → n = accesses p ∧ accesses p' = S (accesses p).
Proof.
  unfold access. cbv zeta. intros [= <- <-]. cbn.
  by destruct (deliver_all_frame (deliveries (accesses p)) p) as (_ & -> & _).
Qed.
Lemma observe_done {A} (f : PolymarketState → A) p a p' :
  observe f p = (Done a, p') → hears p p' ∧ a = f p' ∧ accesses p' = S (accesses p).
Proof.
  intros Hr. split; [by eapply listens_done; [apply listens_observe|]|].
  unfold observe in Hr. apply bind_done in Hr as (n & p1 & Ha & [-> ->]%gets_done).
  split; [done|]. by apply access_done in Ha as [_ Ha].
Qed.

(** A reconciliation that ends reconciles the generation of its start. *)
Lemma reconcile_done p result p' :
  polymarket_reconcile config p = (Done result, p') →
  ∃ q, hears p q ∧ accesses q = S (S (accesses p)) ∧ follows q p' ∧
    reconciled_stream_generation p' = stream_gap_generation q.
Proof.
  unfold polymarket_reconcile.
  intros (u & p1 & [F1 [_ A1]]%observe_done & Hr)%bind_done.
  apply bind_done in Hr as (g & q & [F2 [-> A2]]%observe_done & Hr).
  apply bind_done in Hr as (r & p3 & F3%listens_done & Hr); [|apply listens_observe_account].
  apply bind_done in Hr as (n & p4 & F4%listens_done & Hr); [|apply listens_access].
  apply bind_done in Hr as (? & p5 & ->%modify_done & Hr).
  apply bind_done in Hr as (n' & p6 & F5%listens_done & Hr); [|apply listens_access].
  apply bind_done in Hr as (? & p7 & ->%modify_done & [_ ->]%ret_done).
  exists q. split_and!; [by etrans|congruence| |].
  - etrans; [apply F3|]. etrans; [apply F4|].
    transitivity (p4 <| reconciled_stream_generation := stream_gap_generation q |>);
      [by apply follows_still|].
    etrans; [apply F5|]. by apply follows_still.
  - cbn. destruct F5 as [_ ->]. done.
Qed.
Lemma observe_eq {A} (f : PolymarketState → A) p :
  observe f p = (Done (f (access p).2), (access p).2).
Proof. reflexivity. Qed.
Lemma reconcile_not_done p : (∀ result p', polymarket_reconcile config p ≠ (Done result, p')) →
  hears p (polymarket_reconcile config p).2.
Proof.
  intros Hn. unfold polymarket_reconcile, mbind, prog_bind in *. rewrite !observe_eq in *.
  set (q := (access (access p).2).2) in *.
  assert (hears p q) as Hq by (etrans; apply listens_access).
  pose proof (listens_observe_account q) as Ha.
  destruct (observe_account config q) as [[r|e|] p3]; cbn in *; [|by etrans..].
  by edestruct Hn.
Qed.
Lemma venue_call_hears p p' : venue_call p p' → hears p p'.
Proof.
  intros [A m Hm|Hn]; [by apply venue_function_listens|by apply reconcile_not_done].
Qed.
Lemma venue_calls_hear p p' : rtc venue_call p p' → hears p p'.
Proof. induction 1 as [|p p1 p' Hc _ IH]; [done|]. etrans; [by apply venue_call_hears|done]. Qed.

(** A heartbeat that is answered has read equal generations. *)
Lemma heartbeat_done p u p' :
  polymarket_heartbeat p = (Done u, p') →
  ∃ q, hears p q ∧ hears q p' ∧ stream_gap_generation q = reconciled_stream_generation p.
Proof.
  unfold polymarket_heartbeat.
  intros (? & p1 & F1%listens_done & Hr)%bind_done; [|apply listens_user_up].
  apply bind_done in Hr as (up & p2 & F2%listens_done & Hr); [|apply listens_market_up].
  apply bind_done in Hr as (? & p3 & [_ ->]%ensure_done & Hr).
  apply bind_done in Hr as (gap & q & [F3 [-> _]]%observe_done & Hr).
  apply bind_done in Hr as (rec & p4 & [F4 [-> _]]%observe_done & Hr).
  apply bind_done in Hr as (? & p5 & [Heq%Z.eqb_eq ->]%ensure_done & Hr).
  assert (hears p q) as Hq by (etrans; [exact F1|]; by etrans).
  exists q. split_and!; [done| |].
  - etrans; [exact F4|]. refine (listens_done (beat ← observe heartbeat_id; _) p4 u p' _ Hr).
    listen.
  - rewrite Heq. destruct Hq as [_ <-]. apply F4.
Qed.

(** C27. A gap in a stream stops the heartbeat until it is reconciled.  After a
    reconciliation that succeeded, let any calls of the venue follow but
    reconciliations that succeed.  When any message that was handled since the
    reconciliation had read its generation - during the reconciliation or
    afterwards - opened a gap, the next heartbeat does not succeed: not after an
    error or the end of a stream, nor after a snapshot or a price change that was
    older than the cached book or not [book_in_order].  The messages are fewer
    than the counter can tell apart. *)
Theorem gap_blocks_heartbeat p0 result p1 p2 :
  normal p0 → polymarket_reconcile config p0 = (Done result, p1) → rtc venue_call p1 p2 →
  let start := (accesses p0 + 2)%nat in
  gap_among (foldl deliver p0 (messages (accesses p0) start)) (messages start (accesses p2)) →
  total_weight (messages start (accesses (polymarket_heartbeat p2).2)) < 2 ^ 64 →
  ∀ u p3, polymarket_heartbeat p2 ≠ (Done u, p3).
Proof.
  intros Hn Hrec Hcalls start Hgap Hw u p3 Hbeat. rewrite Hbeat in Hw. cbn [snd] in Hw.
  destruct (reconcile_done _ _ _ Hrec) as (q & [[_ Sq] _] & Aq & Fq & Rq).
  destruct (venue_calls_hear _ _ Hcalls) as [F2 R2].
  destruct (heartbeat_done _ _ _ Hbeat) as (q' & [F3 _] & [F4 _] & Gq).
  replace (S (S (accesses p0))) with start in Aq by (unfold start; lia). rewrite Aq in Sq.
  assert (follows q q') as [Lq [_ Gq']] by (etrans; [exact Fq|]; by etrans).
  rewrite Aq in Lq, Gq'. pose proof (follows_time _ _ F3) as L3. pose proof (follows_time _ _ F4) as L4.
  pose proof (follows_time _ _ Fq) as L1. pose proof (follows_time _ _ F2) as L2. rewrite Aq in L1.
  set (s0 := foldl deliver p0 (messages (accesses p0) start)) in *.
  assert (normal s0) as Ns.
  { destruct (deliver_all_counted (messages (accesses p0) start) p0 Hn) as (k & _ & C).
    by eapply counted_normal. }
  apply (gap_among_app _ _ (messages (accesses p2) (accesses q'))) in Hgap.
  rewrite <- messages_app in Hgap by lia.
  destruct (gap_among_counted _ _ Ns Hgap) as (k & Hk & C).
  rewrite (messages_app start (accesses q')), total_weight_app in Hw by lia.
  pose proof (total_weight_nonneg (messages (accesses q') (accesses p3))) as Hp.
  apply (counted_noticed _ _ _ Ns C); [lia|].
  destruct (deliver_all_same (messages start (accesses q')) _ _ Sq) as [_ Gs].
  destruct Sq as [_ Sq]. congruence.
Qed.
End live.

(** ** The books *)
Section books.
Context `{DecimalOps, DL : !DecimalLaws} `{!PolymarketSdk} `{Platform}.
Variable config : PolymarketConfig.

Definition cache_in_order (p : PolymarketState) : Prop :=
  map_Forall (λ _ book, book_is_consistent book = true) (books p).
Lemma drop_in_order t p : cache_in_order p → cache_in_order (count_gap (drop_book t p)).
Proof. intros Hp. apply map_Forall_delete, Hp. Qed.
Lemma apply_price_in_order t e p : cache_in_order p → cache_in_order (apply_price t p e).
Proof.
  intros Hp. unfold apply_price. cbv zeta. destruct (books p !! _) as [book|]; [|done].
  destruct (t <? _); [by apply drop_in_order|].
  destruct (book_is_consistent _) eqn:E; cbn [negb]; [|by apply drop_in_order].
  by apply map_Forall_insert_2.
Qed.
Lemma deliver_in_order p d : cache_in_order p → cache_in_order (deliver p d).
Proof.
  intros Hp. destruct d as [now [[]| |t [b|]|t [c|]|t]]; cbn [deliver];
    try done; try by apply drop_in_order.
  - unfold apply_book. cbv zeta. case_match eqn:E; [by apply drop_in_order|].
    apply orb_false_iff in E as [_ E%negb_false_iff]. by apply map_Forall_insert_2.
  - revert p Hp. induction (price_changes c) as [|e l IH]; intros p Hp; cbn [foldl]; [done|].
    by apply IH, apply_price_in_order.
Qed.
Lemma follows_in_order p p' : follows p p' → cache_in_order p → cache_in_order p'.
Proof.
  intros [_ [Hb _]] Hp. unfold cache_in_order. rewrite Hb. clear Hb.
  generalize (messages (accesses p) (accesses p')) as l. intros l. clear p'.
  change (cache_in_order (foldl deliver p l)). revert p Hp.
  induction l as [|d l IH]; intros p Hp; cbn [foldl]; [done|]. by apply IH, deliver_in_order.
Qed.

(** A call of the venue that comes to its end, and what it leaves. *)
Definition venue_step (p p' : PolymarketState) : Prop :=
  venue_call config p p' ∨ ∃ result, polymarket_reconcile config p = (Done result, p').
Lemma venue_step_follows p p' : venue_step p p' → follows p p'.
Proof.
  intros [Hc%venue_call_hears|[result (q & [F1 _] & _ & F2 & _)%reconcile_done]]; [apply Hc|].
  by etrans.
Qed.

Lemma venue_steps_follow p p' : rtc venue_step p p' → follows p p'.
Proof. induction 1 as [|p p1 p' Hs _ IH]; [done|]. etrans; [by apply venue_step_follows|done]. Qed.
Lemma recent_book_done token p book p' :
  cache_in_order p → recent_book token p = (Done (Some book), p') →
  book_is_consistent book = true ∧
  ∃ n, (accesses p ≤ n < accesses p')%nat ∧ live_clock n - ob_observed_at book < seconds 3.
Proof.
  intros Hp Hr. unfold recent_book in Hr.
  apply bind_done in Hr as (cached & p1 & [[F1 _] [-> A1]]%observe_done & Hr).
  destruct (books p1 !! token) as [b|] eqn:Eb; [|by apply ret_done in Hr as [? _]].
  apply bind_done in Hr as (now & p2 & Hn & Hr). unfold live_now in Hn.
  apply bind_done in Hn as (n & p3 & Ha & [-> ->]%ret_done). apply ret_done in Hr as [Hb ->].
  apply access_done in Ha as [-> A3].
  destruct (Z.leb_spec (Z.quot (live_clock (accesses p1) - ob_observed_at b) (seconds 1)) 2) as [Ht|];
    [|done].
  injection Hb as ->. split.
  - exact (follows_in_order p p1 F1 Hp token b Eb).
  - exists (accesses p1). split; [lia|]. unfold seconds in *.
    set (age := live_clock (accesses p1) - ob_observed_at b) in *.
    destruct (Z_lt_ge_dec age 0); [lia|]. rewrite Z.quot_div_nonneg in Ht by lia.
    pose proof (Z.mul_succ_div_gt age (1 * 1000000000)). lia.
Qed.

(** C28. The live venue serves no book that is out of order.  Whatever the streams
    delivered since the venue was made - snapshots and price changes of any
    content, in any order - a book that [order_book] returns has each price once
    and within (0, 1], positive sizes, bids below asks and no blank hash; and it
    is the answer of the exchange to this very call, or a cached book less than
    three seconds old. *)
Theorem served_books_in_order p0 p1 token b p2 :
  books p0 = ∅ → rtc venue_step p0 p1 → polymarket_order_book token p1 = (Done b, p2) →
  book_in_order b ∧
  ∃ n, (accesses p1 ≤ n < accesses p2)%nat ∧
    (live_clock n - ob_observed_at b < seconds 3 ∨
     ∃ id summary, market_token token = Done id ∧ sdk_order_book n id = inr summary ∧
       b = rest_book summary).
Proof.
  intros Hempty Hs Hr. assert (cache_in_order p1) as Hc.
  { eapply follows_in_order; [by apply venue_steps_follow|]. unfold cache_in_order. rewrite Hempty.
    apply map_Forall_empty. }
  unfold polymarket_order_book in Hr. apply bind_done in Hr as (cached & p3 & Hrec & Hr).
  destruct cached as [book|].
  - apply ret_done in Hr as [-> ->]. apply recent_book_done in Hrec as (Hin & n & Hn & Ht); [|done].
    split; [by apply book_is_consistent_iff|]. exists n. auto.
  - apply bind_done in Hr as (id & p4 & [Hid ->]%lift_done & Hr).
    apply bind_done in Hr as (summary & p5 & Hask & Hr). cbv zeta in Hr.
    apply bind_done in Hr as (? & p6 & [Hb ->]%ensure_done & [-> ->]%ret_done).
    split; [by apply book_is_consistent_iff|].
    apply listens_done in Hrec as [F13 _]; [|apply listens_recent_book].
    unfold ask, sdk in Hask. apply bind_done in Hask as (n & p7 & Ha & Hask).
    destruct (sdk_order_book n id) as [e|a] eqn:E; [by apply fail_done in Hask|].
    apply ret_done in Hask as [-> ->]. apply access_done in Ha as [-> A7].
    exists (accesses p3). pose proof (follows_time _ _ F13). split; [lia|]. right. by exists id, a.
Qed.
End books.

(** A function that has a value, or fails with an error of one kind. *)
Section done_or.
Context (kind : string → VenueError).
Definition done_or {A} (o : outcome VenueError A) : Prop :=
  (∃ a, o = Done a) ∨ ∃ m, o = Failed (kind m).
Lemma done_or_bind {A B} (o : outcome VenueError A) (k : A → outcome VenueError B) :
  done_or o → (∀ a, done_or (k a)) → done_or (o ≫= k).
Proof. intros [[a ->]|[m ->]] Hk; cbn; [apply Hk|right; by eexists]. Qed.
Lemma done_or_done {A} (a : A) : done_or (Done a).
Proof. left. by eexists. Qed.
Lemma done_or_failed {A} m : done_or (Failed (kind m) : outcome VenueError A).
Proof. right. by eexists. Qed.
End done_or.
Ltac done_or :=
  repeat match goal with
  | |- done_or _ (_ ≫= _) => apply done_or_bind; [|intros ?]
  | |- done_or _ (ok_or _ ?o) => destruct o; cbn
  | |- done_or _ (unconfigured _ ?o) => destruct o; cbn
  | |- done_or _ (reject_if ?b _) => destruct b; cbn
  | |- done_or _ (rejected ?r) => destruct r; cbn
  | |- done_or _ (let _ := _ in _) => cbv zeta
  | |- done_or _ (mret _) => apply done_or_done
  | |- done_or _ (match ?x with _ => _ end) => destruct x
  | |- done_or _ _ => solve [auto using done_or_done, done_or_failed]
  end.

(** ** Submitting *)
Section submit.
Context `{PolymarketSdk} `{Platform}.

(** The exchange refused the order for certain: it said so, or the request was
    rejected before matching - by a status that is no server error, or one the
    code knows, or by the library itself. *)
Definition refused (answer : SdkError + PostOrderResponse) : Prop :=
  match answer with
  | inr response => po_success response = false
  | inl error =>
      match err_status error with
      | Some status => is_server_error (status_code status) = true →
          str_contains "order_version_mismatch" (status_message status) = true
      | None => err_kind error ≠ KindOther
      end
  end.
(** It took the order and said in what state. *)
Definition taken (answer : SdkError + PostOrderResponse) (submission : VenueSubmission) : Prop :=
  ∃ response, answer = inr response ∧ po_success response = true ∧
    sub_venue_order_id submission = po_order_id response ∧
    sub_state submission = map_order_status (po_status response) ∧
    sub_state submission ≠ OrderState.Unknown ∧
    sub_venue_trade_ids submission = po_trade_ids response.

Lemma value_string_reads v f : done_or VenueError.Rejected (value_string v f).
Proof. unfold value_string. done_or. Qed.
Hint Resolve value_string_reads : core.
Lemma reconstruct_reads payload : done_or VenueError.Rejected (reconstruct_signed_order payload).
Proof.
  unfold reconstruct_signed_order, signed_body, signed_side, signed_order_type, parse_u256,
    parse_address, parse_b256, value_u64. done_or.
Qed.

Lemma classify_submission_sound error :
  if VenueError.is_ambiguous (classify_submission_error error)
  then ¬ refused (inl error) ∧ ∀ s, ¬ taken (inl error) s else refused (inl error).
Proof.
  assert (∀ s, ¬ taken (inl error) s) as Ht by (intros ? (? & ? & _); done).
  unfold classify_submission_error, classify_pre_submit_error, refused.
  destruct (err_status error) as [status|].
  2: { destruct (err_kind error); cbn; [done..|]. split; [by intros Hk; apply Hk|done]. }
  destruct (Z.eqb_spec (status_code status) 425) as [->|]; [by intros|].
  destruct (str_contains _ _); [done|]. destruct (is_server_error _); cbn; [|done].
  split; [by intros Hr; discriminate Hr|done].
Qed.
Lemma submission_fill_total side response e : submission_fill side response ≠ Failed e.
Proof.
  unfold submission_fill. destruct side; case_match; cbn; try done;
    by destruct (dec_div _ _).
Qed.
Lemma accepted_response_sound request response :
  match accepted_response request response with
  | Done submission => taken (inr response) submission
  | Failed e => if VenueError.is_ambiguous e
      then ¬ refused (inr response) ∧ ∀ s, ¬ taken (inr response) s else refused (inr response)
  | Panicked => ∃ response', inr response = (inr response' : SdkError + _) ∧ po_success response' = true
  end.
Proof.
  unfold accepted_response. destruct (po_success response) eqn:Es; [|done]. cbn [negb reject_if mbind outcome_bind].
  case_bool_decide as Hu; cbn [reject_if mbind outcome_bind].
  { cbn. rewrite Es. split; [done|]. intros s (r & [= <-] & _ & _ & Hst & Hne & _). congruence. }
  destruct (submission_fill (req_side request) response) as [[q price]|e|] eqn:Ef; cbn.
  - exists response. by rewrite Es.
  - by apply submission_fill_total in Ef.
  - by exists response.
Qed.

(** C29. A submission posts the persisted order once and never mistakes doubt for a
    refusal.  An order whose payload cannot be read is not posted at all.
    Otherwise exactly that order is posted, once, and the result says what is
    known of it: a submission, when the exchange took the order; an error that is
    not ambiguous, only when it refused the order for certain; and an ambiguous
    error exactly when the answer is neither. *)
Theorem submit_posts_once prepared request p :
  let '(r, p') := polymarket_submit prepared request p in
  match signed_payload_json prepared ≫= (λ payload,
    match reconstruct_signed_order payload with Done signed => Some signed | _ => None end) with
  | None => p' = p ∧ ∃ m, r = Failed (VenueError.Rejected m)
  | Some signed =>
      posted p' = posted p ++ [signed] ∧
      ∃ n, let answer := post_order n signed in
      match r with
      | Done submission => taken answer submission
      | Failed e => if VenueError.is_ambiguous e then ¬ refused answer ∧ ∀ s, ¬ taken answer s
                    else refused answer
      | Panicked => ∃ response, answer = inr response ∧ po_success response = true
      end
  end.
Proof.
  destruct (polymarket_submit prepared request p) as [r p'] eqn:Hr.
  unfold polymarket_submit in Hr. destruct (signed_payload_json prepared) as [payload|].
  2: { injection Hr as <- <-. cbn. eauto. }
  unfold mbind at 1, prog_bind at 1, lift, ok_or in Hr. cbn [mbind option_bind].
  destruct (reconstruct_reads payload) as [[signed E]|[m E]]; rewrite E in Hr |- *.
  2: { injection Hr as <- <-. eauto. }
  unfold post_signed, mbind, prog_bind, access in Hr. cbv zeta in Hr. cbn in Hr.
  set (n := accesses (foldl deliver p (deliveries (accesses p)))) in Hr.
  assert (posted p' = posted p ++ [signed]) as Hposted.
  { destruct (deliver_all_frame (deliveries (accesses p)) p) as (_ & _ & <-).
    destruct (post_order n signed); by injection Hr as _ <-. }
  split; [done|]. exists n. destruct (post_order n signed) as [error|response]; injection Hr as <- _.
  - apply classify_submission_sound.
  - pose proof (accepted_response_sound request response) as Hs.
    by destruct (accepted_response request response).
Qed.
End submit.

(** ** The signer's key *)
Section key.
Context `{PolymarketSdk} `{Platform} `{KeyFile}.
Variable config : PolymarketConfig.

(** Of the twelve permission bits, the owner's right to read is set, the owner's
    right to write may be, and no other is. *)
Definition owner_only (mode : Z) : Prop :=
  ∀ i, 0 ≤ i < 12 → i ≠ 7 → Z.testbit mode i = (i =? 8).
Lemma below_twelve (P : Z → Prop) :
  P 0 → P 1 → P 2 → P 3 → P 4 → P 5 → P 6 → P 7 → P 8 → P 9 → P 10 → P 11 →
  ∀ i, 0 ≤ i < 12 → P i.
Proof.
  intros. assert (i = 0 ∨ i = 1 ∨ i = 2 ∨ i = 3 ∨ i = 4 ∨ i = 5 ∨ i = 6 ∨ i = 7 ∨ i = 8 ∨ i = 9 ∨
    i = 10 ∨ i = 11) as Hi by lia.
  by repeat destruct Hi as [->|Hi]; subst.
Qed.
Lemma low_bits mode i : 0 ≤ i < 12 → Z.testbit (Z.land mode 4095) i = Z.testbit mode i.
Proof.
  intros Hi. rewrite Z.land_spec. change 4095 with (Z.ones 12).
  rewrite Z.ones_spec_low by lia. apply andb_true_r.
Qed.
Lemma private_key_mode_iff mode : private_key_mode_is_allowed mode = true ↔ owner_only mode.
Proof.
  unfold private_key_mode_is_allowed, owner_only. cbv zeta.
  rewrite orb_true_iff, !Z.eqb_eq. split.
  - intros Hm i Hi H7. rewrite <- low_bits by done. revert i Hi H7.
    destruct Hm as [-> | ->]; refine (below_twelve _ _ _ _ _ _ _ _ _ _ _ _ _); done.
  - intros Hb. destruct (Z.testbit mode 7) eqn:E7; [right|left]; apply Z.bits_inj'; intros i Hi.
    all: destruct (Z_lt_ge_dec i 12) as [Hlt|Hge]; [|rewrite Z.land_spec;
      change 4095 with (Z.ones 12); rewrite Z.ones_spec_high, andb_false_r by lia; symmetry;
      apply Z.bits_above_log2; [done|cbn; lia]].
    all: rewrite low_bits by lia; destruct (decide (i = 7)) as [->|H7]; [by rewrite E7|].
    all: rewrite Hb by lia; clear -Hi Hlt H7; assert (0 ≤ i < 12) as Hr by lia; revert i Hr H7 Hi Hlt;
      refine (below_twelve _ _ _ _ _ _ _ _ _ _ _ _ _); done.
Qed.

(** The looks at the path saw one regular file, which only its owner can use, and
    all of it was read. *)
Record private_file (path : string) (key : list N) (link opened current : FileMetadata) : Prop := {
  pf_link : link_metadata path = Some link ∧ is_symlink link = false ∧ is_file link = true;
  pf_open : open_succeeds path = true;
  pf_opened : opened_metadata path = Some opened ∧ is_file opened = true;
  pf_current : current_path_metadata path = Some current ∧
    is_symlink current = false ∧ is_file current = true;
  pf_same : dev current = dev link ∧ ino current = ino link ∧
    dev opened = dev link ∧ ino opened = ino link;
  pf_mode : owner_only (mode_bits opened);
  pf_read : file_len opened + 1 < 2 ^ 64 ∧ read_key path (file_len opened) = Some key ∧
    read_more path = Some 0;
}.
Lemma same_file_iff a b : same_file a b = true ↔ dev a = dev b ∧ ino a = ino b.
Proof. unfold same_file. by rewrite andb_true_iff, !N.eqb_eq. Qed.

Lemma unconfigured_done {A} m (o : option A) a : unconfigured m o = Done a ↔ o = Some a.
Proof. apply ok_or_done. Qed.
Ltac out :=
  repeat match goal with
  | H : (_ ≫= _) = Done _ |- _ => apply outcome_bind_done in H as (? & ? & H)
  | H : unconfigured _ _ = Done _ |- _ => apply unconfigured_done in H
  | H : reject_if _ _ = Done _ |- _ => apply reject_if_done in H
  | H : mret _ = Done _ |- _ => injection H as H
  end.
Lemma open_key_done path opened : open_key path = Done opened ↔
  ∃ link current,
    (link_metadata path = Some link ∧ is_symlink link = false ∧ is_file link = true) ∧
    open_succeeds path = true ∧ (opened_metadata path = Some opened ∧ is_file opened = true) ∧
    (current_path_metadata path = Some current ∧ is_symlink current = false ∧ is_file current = true) ∧
    same_file current link = true ∧ same_file opened link = true ∧
    private_key_mode_is_allowed (mode_bits opened) = true.
Proof.
  unfold open_key. split.
  - intros Hr. out. subst.
    repeat match goal with
    | H : _ || _ = false |- _ => apply orb_false_iff in H as [? ?]
    | H : negb _ = false |- _ => apply negb_false_iff in H
    end. eexists _, _. split_and!; eassumption.
  - intros (link & current & (-> & Hs & Hf) & Ho & (-> & Hof) & (-> & Hcs & Hcf) & Hsc & Hso & Hm).
    cbn. by rewrite Hs, Hf, Ho, Hof, Hcs, Hcf, Hsc, Hso, Hm.
Qed.
Lemma read_live_key_done path opened key : read_live_key path opened = Done key ↔
  file_len opened + 1 < 2 ^ 64 ∧ read_key path (file_len opened) = Some key ∧ read_more path = Some 0.
Proof.
  unfold read_live_key. cbv zeta. split.
  - intros Hr. out. subst. match goal with H : negb (_ =? 0) = false |- _ =>
      apply negb_false_iff, Z.eqb_eq in H as -> end.
    match goal with H : (_ <=? _) = false |- _ => apply Z.leb_gt in H end. done.
  - intros (Hl & -> & ->). apply Z.leb_gt in Hl. by rewrite Hl.
Qed.

Lemma load_live_signer_total : done_or VenueError.LiveNotConfigured (load_live_signer config).
Proof. unfold load_live_signer, open_key, read_live_key. done_or. Qed.

(** The signer of live mode is loaded exactly from a private file.  On Polygon
    only, and only when the key file is one regular file from the first look to
    the last, of which no permission bit is set but the owner's rights to read and
    write, that was read to its end and holds the key of the configured signer
    address.  Otherwise live trading is not configured. *)
Theorem live_signer_loaded_iff :
  (∀ signer, load_live_signer config = Done signer ↔
    chain_id config = 137 ∧
    ∃ path key link opened current text raw,
      private_key_file config = Some path ∧ private_file path key link opened current ∧
      from_utf8 key = Some text ∧ private_key_from_str (trim text) = Some signer ∧
      cfg_signer_address config = Some raw ∧
      address_from_str raw = inr (live_signer_address signer)) ∧
  ((∃ signer, load_live_signer config = Done signer) ∨
   ∃ m, load_live_signer config = Failed (VenueError.LiveNotConfigured m)).
Proof.
  split.
  2: { apply load_live_signer_total. }
  intros signer. unfold load_live_signer. split.
  - intros Hr. out. subst.
    repeat match goal with
    | H : negb _ = false |- _ => apply negb_false_iff in H
    | H : (_ =? _) = true |- _ => apply Z.eqb_eq in H
    | H : (_ =? _)%N = true |- _ => apply N.eqb_eq in H
    | H : open_key _ = Done _ |- _ => apply open_key_done in H as (? & ? & ? & ? & ? & ? & ? & ? & ?)
    | H : read_live_key _ _ = Done _ |- _ => apply read_live_key_done in H
    | H : same_file _ _ = true |- _ => apply same_file_iff in H as [? ?]
    | H : private_key_mode_is_allowed _ = true |- _ => apply private_key_mode_iff in H
    | H : match ?x with _ => _ end = Done _ |- _ => destruct x eqn:?; [done|injection H as H]
    end.
    subst. split; [done|]. do 7 eexists. split_and!; [eassumption|by split|eassumption..].
  - intros (-> & path & key & link & opened & current & text & raw & -> & F & Ht & Hk & -> & Ha).
    destruct F as [Hl Ho Hod Hc Hs Hm Hr]. cbn.
    assert (open_key path = Done opened) as ->.
    { apply open_key_done. exists link, current. rewrite !same_file_iff, private_key_mode_iff. tauto. }
    assert (read_live_key path opened = Done key) as Hkey by by apply read_live_key_done.
    cbn. rewrite Hkey. cbn. rewrite Ht. cbn. rewrite Hk. cbn. rewrite Ha. cbn. by rewrite N.eqb_refl.
Qed.
End key.

(** ** The contract of a venue *)

(** The live venue leaves the database alone, so a coordinator over it is
    [lawful], and [calm], as soon as the tasks beside it are. *)
Lemma live_venue_lawful `{DL : DecimalLaws} `{Platform} `{Codec} `{!PolymarketSdk}
    (config : PolymarketConfig) `{!Schedule PolymarketState} (self : ExecutionCoordinator) :
  (∀ n, store_path self (others n)) →
  (∀ n limit cut, deadline n limit = Some cut → store_path self cut) →
  lawful (Venue := PolymarketVenue config) self ∧
  ∀ K, (∀ n, stays K (others n)) →
    (∀ n limit cut, deadline n limit = Some cut → stays K cut) →
    calm (Venue := PolymarketVenue config) K.
Proof.
  assert (∀ A (m : Prog PolymarketState VenueError A) sv, ((live m) sv).2.1 = sv.1) as Hl.
  { intros A m sv. unfold live. by destruct (m sv.2). }
  intros Ho Hd. split; [|intros K Hco Hcd]; split; try done; intros; intros sv; cbn; by rewrite Hl.
Qed.

(** ** Witnesses *)
Section witnesses.
#[local] Existing Instance RefOps.
#[local] Existing Instance RefLaws.
#[local] Existing Instance RefPlatform.

Definition fix_snapshot : BookUpdate :=
  mkBookUpdate 123%N [mkBookLevel (RefDec 49 2) (RefDec 100 0)]
    [mkBookLevel (RefDec 55 2) (RefDec 100 0)] 1000000 None.
(** The best bid rises. *)
Definition fix_price_change : PriceChange :=
  mkPriceChange 1000001 [mkPriceEntry 123%N (RefDec 50 2) SdkBuy (Some (RefDec 5 0)) None].
Definition fix_deliveries (n : nat) : list (DateTime * Delivery) :=
  match n with
  | 0%nat => [(fix_now, UserMessage true); (fix_now, BookMessage "123" (Some fix_snapshot))]
  | 1%nat => [(fix_now, PriceMessage "123" (Some fix_price_change))]
  | 5%nat => [(fix_now, PriceMessage "123" None)]
  | _ => []
  end.
(** An exchange that is up, with an account that holds nothing. *)
Definition FixSdk : PolymarketSdk := {|
  Signable := OrderBuilder;
  SignedOrder := OrderV2;
  sdk_version _ := inr 2%N;
  check_geoblock _ := inr (mkGeoblockResponse false "" "");
  closed_only_mode _ := inr false;
  make_client _ := inr tt;
  create_or_derive_api_key _ := inr tt;
  make_ws _ := inr tt;
  authenticate_client _ _ := inr tt;
  subscribe_user_events _ := inr tt;
  make_data_client _ := inr tt;
  subscribe_orderbook _ _ := inr tt;
  subscribe_prices _ _ := inr tt;
  is_connected _ _ := true;
  sdk_market _ _ := inl (mkSdkError None KindOther "down");
  sdk_order_book _ _ := inl (mkSdkError None KindOther "down");
  amount_error _ := None;
  build_order _ b := inr b;
  sign _ _ := inr (mkOrderV2 0%N 0%N 0%N 0%N 0%N 0%N 0%N 0%N 0%N 0%N 0%N);
  sdk_neg_risk _ _ := inr false;
  contract_exchange_v2 _ _ := Some 1%N;
  balance_allowance _ _ := inr (mkBalanceAllowance dec_ZERO {[1%N := "1"]});
  signed_order o := o;
  eip712_signing_hash _ _ := "hash";
  jcs_signed _ := inr "{}";
  jcs_order _ := inr "{}";
  build_signed o _ _ _ _ _ _ := o;
  post_order _ _ := inl (mkSdkError None KindOther "down");
  cancel_order _ _ := inl (mkSdkError None KindOther "down");
  lookup_order _ _ := inl (mkSdkError None KindOther "down");
  open_orders _ _ := inr (mkPage [] "LTE=");
  list_venue_trades _ _ := inr (mkPage [] "LTE=");
  positions_request_error _ := None;
  venue_positions _ _ _ := inr [];
  post_heartbeat _ _ := inr (mkHeartbeatResponse None 7%N);
  u256_from_str s := match digits_value (list_ascii_of_string s) with
    | Some n => inr n
    | None => inl "not a number"
    end;
  address_from_str _ := inr 9%N;
  b256_from_str _ := inr 0%N;
  address_text _ := "address";
  order_status_text _ := "status";
  trade_status_text _ := "status";
  side_code s := match s with SdkBuy => 0%N | SdkSell => 1%N | SdkOtherSide => 255%N end;
  exact_decimal_error _ := "not a decimal";
  json_error _ := "not json";
  uuid_error _ := "not a uuid";
  timestamp_millis ms := Some (milliseconds ms);
  token_order s := elements s;
  live_clock _ := fix_now + seconds 1;
  deliveries := fix_deliveries;
|}.
#[local] Existing Instance FixSdk.

Definition fix_live_config : PolymarketConfig :=
  mkPolymarketConfig "https://clob" "wss://ws" "https://data" "https://geo" 2 137 (Some "0x9")
    (Some "0x9") (Some "/run/key") 60 300 5.
Definition fix_live : PolymarketState := mkPolymarketState ∅ ∅ None 0 0 0 0 None 0 [].

(** A stream breaks while the account is looked at. *)
Definition live_reconciled : PolymarketState := (polymarket_reconcile fix_live_config fix_live).2.
Definition fix_reconciliation : ReconciliationResult := mkReconciliationResult 0 0 [] [] [] [].
Lemma reconciled_result :
  (polymarket_reconcile fix_live_config fix_live).1 = Done fix_reconciliation.
Proof. vm_cast_no_check (eq_refl (Done fix_reconciliation : outcome VenueError _)). Qed.
Lemma gap_blocks_heartbeat_witness :
  fst (polymarket_reconcile fix_live_config fix_live) = Done fix_reconciliation ∧
  ∀ u p, polymarket_heartbeat live_reconciled ≠ (Done u, p).
Proof.
  split; [exact reconciled_result|].
  eapply (gap_blocks_heartbeat fix_live_config fix_live fix_reconciliation live_reconciled
    live_reconciled).
  - vm_compute. split; [discriminate|reflexivity].
  - rewrite (surjective_pairing (polymarket_reconcile _ _)), reconciled_result.
    unfold live_reconciled. reflexivity.
  - apply rtc_refl.
  - exists [], (fix_now, PriceMessage "123" None), []. split; [vm_compute; reflexivity|].
    by apply Gap_lost.
  - vm_compute. reflexivity.
Defined.

(** The cached book after a snapshot and a price change. *)
Definition live_looked : PolymarketState := (polymarket_find_order "0x1" fix_live).2.
Definition live_book : OrderBook :=
  mkOrderBook [mkPriceLevel (RefDec 49 2) (RefDec 100 0); mkPriceLevel (RefDec 50 2) (RefDec 5 0)]
    [mkPriceLevel (RefDec 55 2) (RefDec 100 0)] (milliseconds 1000001) None.
Lemma served_book : (polymarket_order_book "123" live_looked).1 = Done live_book.
Proof. vm_cast_no_check (eq_refl (Done live_book : outcome VenueError _)). Qed.
Lemma served_books_in_order_witness : book_in_order live_book.
Proof.
  eapply (served_books_in_order fix_live_config fix_live live_looked "123").
  - reflexivity.
  - apply rtc_once. left. apply Call_function, Call_find_order.
  - rewrite (surjective_pairing (polymarket_order_book _ _)), served_book. reflexivity.
Defined.
End witnesses.
