(* ===== verification/OpenApi.v ===== *)
(** * OpenApi: the generated contract of the HTTP API (api.rs, openapi_document)

    The document is built the way the source builds it: a table of operations is
    entered into a map of paths, and bodies and parameters are then put into
    operations that must already be there. *)
From S2P Require Import Prelude Text Json Platform Schema.

(** ** Maps of JSON values

    The order of members is not part of a document: [serde_json] sorts them. *)
Definition Map : Type := list (string * Value).
Fixpoint map_insert (k : string) (v : Value) (m : Map) : Map :=
  match m with
  | [] => [(k, v)]
  | (k', v') :: m' => if k ≟ k' then (k, v) :: m' else (k', v') :: map_insert k v m'
  end.
(** [as_object]. *)
Definition as_object (v : Value) : option Map :=
  match v with JObject m => Some m | _ => None end.
(** [v[key] = x]: a member of an object, and of [null] that becomes one. *)
Definition index_set (key : string) (x : Value) (v : Value) : option Value :=
  match v with
  | JObject m => Some (JObject (map_insert key x m))
  | JNull => Some (JObject [(key, x)])
  | _ => None
  end.
(** [map.get_mut(key)] and what is done with the value. *)
Fixpoint get_mut (key : string) (f : Value → option Value) (m : Map) : option Map :=
  match m with
  | [] => None
  | (k, v) :: m' =>
      if key ≟ k then v' ← f v; Some ((k, v') :: m') else m'' ← get_mut key f m'; Some ((k, v) :: m'')
  end.
Definition on_object (f : Map → option Map) (v : Value) : option Value :=
  m ← as_object v; m' ← f m; Some (JObject m').

(** ** Operations *)
Definition reference (target : string) : Value := JObject ["$ref" ::= target].
Definition error_response : Value := reference "#/components/responses/Error".
Definition operations : list (string * string * string * bool * bool) :=
  [("get", "/health/live", "getLiveness", false, false);
   ("get", "/health/ready", "getReadiness", false, false);
   ("get", "/v1/openapi.json", "getOpenApi", false, false);
   ("post", "/v1/intents", "submitIntent", true, true);
   ("get", "/v1/intents", "listIntents", true, false);
   ("get", "/v1/intents/{intent_id}", "getIntent", true, false);
   ("get", "/v1/orders", "listOrders", true, false);
   ("get", "/v1/orders/{order_id}", "getOrder", true, false);
   ("get", "/v1/trades", "listTrades", true, false);
   ("get", "/v1/positions", "listPositions", true, false);
   ("post", "/v1/cancellations", "createCancellation", true, true);
   ("get", "/v1/cancellations/{cancellation_id}", "getCancellation", true, false);
   ("get", "/v1/control/state", "getControlState", true, false);
   ("post", "/v1/control/halt", "halt", true, true);
   ("post", "/v1/control/resume", "resume", true, true);
   ("post", "/v1/reconciliations", "createReconciliation", true, true);
   ("get", "/v1/reconciliations/{reconciliation_id}", "getReconciliation", true, false);
   ("get", "/v1/events", "streamEvents", true, false);
   ("post", "/v1/backups", "createBackup", true, true);
   ("get", "/v1/backups/{backup_id}", "getBackup", true, false)].

Definition bearer_security : Value := JArray [JObject ["bearerAuth" ::= JArray []]].
Definition key_parameter : Value :=
  JObject ["name" ::= "Idempotency-Key"; "in" ::= "header"; "required" ::= true;
    "schema" ::= JObject ["type" ::= "string"; "minLength" ::= 16; "maxLength" ::= 128]].
Definition operation (operation_id : string) (authenticated mutating : bool) : option Value :=
  let status := if mutating then "202" else "200" in
  let operation := JObject ["operationId" ::= operation_id;
    "responses" ::= JObject [
      status ::= JObject ["description" ::=
        (if mutating then "Durably accepted; venue acceptance is not implied"
         else "Successful response")];
      "400" ::= error_response; "401" ::= error_response; "403" ::= error_response;
      "409" ::= error_response; "429" ::= error_response; "503" ::= error_response]] in
  operation ← (if authenticated : bool then index_set "security" bearer_security operation
               else Some operation);
  if mutating then index_set "parameters" (JArray [key_parameter]) operation else Some operation.

(** [paths.entry(path).or_insert_with(..)], then the operation at its method. *)
Definition enter_operation (paths : Map) (o : string * string * string * bool * bool)
    : option Map :=
  let '(method, path, operation_id, authenticated, mutating) := o in
  operation ← operation operation_id authenticated mutating;
  let paths := match assoc_last path paths with
               | Some _ => paths
               | None => map_insert path (JObject []) paths
               end in
  get_mut path (on_object (λ item, Some (map_insert method operation item))) paths.
Fixpoint enter_operations (paths : Map) (l : list (string * string * string * bool * bool))
    : option Map :=
  match l with
  | [] => Some paths
  | o :: l' => paths ← enter_operation paths o; enter_operations paths l'
  end.

(** [paths.get_mut(path)..get_mut(method).expect(..)[key] = x]. *)
Definition set_in_operation (path method key : string) (x : Value) (paths : Map) : option Map :=
  get_mut path (on_object (get_mut method (index_set key x))) paths.
Fixpoint set_in_operations (method key : string) (l : list (string * Value)) (paths : Map)
    : option Map :=
  match l with
  | [] => Some paths
  | (path, x) :: l' =>
      paths ← set_in_operation path method key x paths; set_in_operations method key l' paths
  end.

Definition request_body (schema : string) : Value :=
  JObject ["required" ::= true; "content" ::= JObject [
    "application/json" ::= JObject ["schema" ::= reference schema]]].
Definition pagination_parameters : Value :=
  JArray [
    JObject ["name" ::= "limit"; "in" ::= "query"; "required" ::= false;
      "schema" ::= JObject ["type" ::= "integer"; "minimum" ::= 1; "maximum" ::= 500;
        "default" ::= 100]];
    JObject ["name" ::= "cursor"; "in" ::= "query"; "required" ::= false;
      "schema" ::= JObject ["type" ::= "string"];
      "description" ::= "Opaque cursor returned by the previous page"]].
Definition id_parameter (parameter : string) : Value :=
  JArray [JObject ["name" ::= parameter; "in" ::= "path"; "required" ::= true;
    "schema" ::= JObject ["type" ::= "string"; "format" ::= "uuid"]]].

Definition with_bodies (paths : Map) : option Map :=
  set_in_operations "post" "requestBody"
    [("/v1/intents", request_body "#/components/schemas/OrderIntentRequest");
     ("/v1/cancellations", request_body "#/components/schemas/CancellationRequest");
     ("/v1/control/halt", request_body "#/components/schemas/ReasonRequest");
     ("/v1/control/resume", request_body "#/components/schemas/ReasonRequest")] paths.
Definition with_pagination (paths : Map) : option Map :=
  set_in_operations "get" "parameters"
    [("/v1/intents", pagination_parameters); ("/v1/orders", pagination_parameters);
     ("/v1/trades", pagination_parameters)] paths.
Definition with_ids (paths : Map) : option Map :=
  set_in_operations "get" "parameters"
    [("/v1/intents/{intent_id}", id_parameter "intent_id");
     ("/v1/orders/{order_id}", id_parameter "order_id");
     ("/v1/cancellations/{cancellation_id}", id_parameter "cancellation_id");
     ("/v1/reconciliations/{reconciliation_id}", id_parameter "reconciliation_id");
     ("/v1/backups/{backup_id}", id_parameter "backup_id")] paths.

(** ** Schemas *)
Definition typed (type : string) : Value := JObject ["type" ::= type].
Definition or_null (format : list (string * Value)) : Value :=
  JObject (("type" ::= ["string"; "null"]) :: format).
Definition enumeration (names : list string) : Value :=
  JObject ["type" ::= "string"; "enum" ::= names].
Definition nullable_decimal : Value :=
  JObject ["oneOf" ::= JArray [reference "#/components/schemas/DecimalString"; typed "null"]].
Definition reason_schema : Value :=
  JObject ["type" ::= "string"; "minLength" ::= 1; "maxLength" ::= 512].
Definition schemas : Value :=
  JObject [
    "DecimalString" ::=
      JObject ["type" ::= "string"; "pattern" ::= "^[0-9]+(?:\.[0-9]{1,6})?$"];
    "Quantity" ::= JObject ["type" ::= "object"; "additionalProperties" ::= false;
      "required" ::= ["unit"; "value"];
      "properties" ::= JObject ["unit" ::= enumeration ["shares"; "quote"];
        "value" ::= reference "#/components/schemas/DecimalString"]];
    "OrderIntentRequest" ::= JObject ["type" ::= "object"; "additionalProperties" ::= false;
      "required" ::= ["condition_id"; "token_id"; "side"; "time_in_force"; "quantity"];
      "properties" ::= JObject [
        "condition_id" ::= JObject ["type" ::= "string"; "maxLength" ::= 128];
        "token_id" ::=
          JObject ["type" ::= "string"; "pattern" ::= "^[0-9]+$"; "maxLength" ::= 128];
        "side" ::= enumeration ["BUY"; "SELL"];
        "time_in_force" ::= enumeration ["GTC"; "GTD"; "FOK"; "FAK"];
        "quantity" ::= reference "#/components/schemas/Quantity";
        "limit_price" ::= nullable_decimal; "worst_price" ::= nullable_decimal;
        "expires_at" ::= or_null ["format" ::= "date-time"];
        "post_only" ::= JObject ["type" ::= "boolean"; "default" ::= false];
        "client_context" ::= reference "#/components/schemas/ClientContext"]];
    "ClientContext" ::= JObject ["type" ::= "object"; "additionalProperties" ::= false;
      "properties" ::= JObject ["strategy" ::= or_null []; "strategy_order_id" ::= or_null [];
        "correlation_id" ::= or_null []]];
    "CancellationRequest" ::= JObject ["type" ::= "object"; "additionalProperties" ::= false;
      "required" ::= ["reason"];
      "properties" ::= JObject [
        "order_id" ::= or_null ["format" ::= "uuid"]; "intent_id" ::= or_null ["format" ::= "uuid"];
        "condition_id" ::= or_null [];
        "all_open_orders" ::= JObject ["type" ::= "boolean"; "default" ::= false];
        "reason" ::= reason_schema]];
    "ReasonRequest" ::= JObject ["type" ::= "object"; "additionalProperties" ::= false;
      "required" ::= ["reason"]; "properties" ::= JObject ["reason" ::= reason_schema]];
    "ErrorEnvelope" ::= JObject ["type" ::= "object"; "required" ::= ["error"];
      "properties" ::= JObject [
        "error" ::= JObject ["type" ::= "object";
          "required" ::= ["code"; "message"; "retryable"; "correlation_id"; "details"];
          "properties" ::= JObject ["code" ::= typed "string"; "message" ::= typed "string";
            "retryable" ::= typed "boolean";
            "correlation_id" ::= JObject ["type" ::= "string"; "format" ::= "uuid"];
            "details" ::= typed "object"]]]]].

(** ** The document *)
Definition openapi_paths : option Map :=
  paths ← enter_operations [] operations;
  paths ← with_bodies paths;
  paths ← with_pagination paths;
  with_ids paths.
Definition openapi_components : Value :=
  JObject [
    "securitySchemes" ::= JObject [
      "bearerAuth" ::= JObject ["type" ::= "http"; "scheme" ::= "bearer"]];
    "responses" ::= JObject ["Error" ::= JObject ["description" ::= "Stable error envelope";
      "content" ::= JObject ["application/json" ::= JObject [
        "schema" ::= reference "#/components/schemas/ErrorEnvelope"]]]];
    "schemas" ::= schemas].
(** An [expect] or an index that finds nothing panics. *)
Definition openapi_document {E} : outcome E Value :=
  paths ← or_panic openapi_paths;
  mret (JObject ["openapi" ::= "3.1.0";
    "info" ::= JObject ["title" ::= "OddsFox Execution API"; "version" ::= "1.0.0";
      "description" ::= "Private, idempotent prediction-market execution control plane"];
    "servers" ::= JArray [JObject ["url" ::= "http://127.0.0.1:8787"]];
    "paths" ::= JObject paths;
    "components" ::= openapi_components]).
