(* ===== verification/Router.v ===== *)
(** * Router: from a request to a handler (api.rs, auth.rs)

    The routes of the API, the authentication in front of the protected ones, and
    the extractors that take a request apart for its handler.  What the HTTP
    library and the derived decoders do with paths, queries and bodies is an
    argument, [Extractors]; its layers - the limit of the body, the deadline, the
    request id - are left out. *)
From Stdlib Require Import Ascii.
From S2P Require Import Prelude Text DecimalSpec Json Platform Domain Venue Risk Schema StoreIntents StoreRisk StoreOrders StoreControl StorePaper StoreQueries StoreFixtures StoreLogic Config Auth Lifecycle OrderHistory History Events Outbox Control Coordinator CoordinatorSteps CoordinatorHistory ApiCore Api Streams Handlers OpenApi.

Module Endpoint.
(** A route with the text of its path parameter. *)
Inductive t : Type :=
| SubmitIntent | ListIntents | GetIntent (raw : string)
| ListOrders | GetOrder (raw : string) | ListTrades | ListPositions
| Cancel | GetCancellation (raw : string)
| ControlState | Halt | Resume
| Reconcile | GetReconciliation (raw : string)
| Events | CreateBackup | GetBackup (raw : string)
| Liveness | Readiness | OpenApi.
End Endpoint.
Abbreviation Endpoint := Endpoint.t.

(** [get(..)] also answers HEAD. *)
Definition is_get (method : string) : bool := (method ≟ "GET") || (method ≟ "HEAD").
Definition on_get (method : string) (e : Endpoint) : option Endpoint :=
  if is_get method then Some e else None.
Definition on_post (method : string) (e : Endpoint) : option Endpoint :=
  if method ≟ "POST" then Some e else None.
(** A path below [prefix] by one segment that is not empty, [{id}]. *)
Definition is_segment (raw : string) : bool :=
  negb (raw ≟ "") && bool_decide ("/"%char ∉ list_ascii_of_string raw).
Definition on_id (method path prefix : string) (e : string → Endpoint) : option Endpoint :=
  match strip_prefix prefix path with
  | Some raw => if is_segment raw then on_get method (e raw) else None
  | None => None
  end.

Definition public_route (method path : string) : option Endpoint :=
  if path ≟ "/health/live" then on_get method Endpoint.Liveness
  else if path ≟ "/health/ready" then on_get method Endpoint.Readiness
  else if path ≟ "/v1/openapi.json" then on_get method Endpoint.OpenApi
  else None.
(** The routes with a path parameter. *)
Definition id_routes (method path : string) : list (option Endpoint) :=
  [on_id method path "/v1/intents/" Endpoint.GetIntent;
   on_id method path "/v1/orders/" Endpoint.GetOrder;
   on_id method path "/v1/cancellations/" Endpoint.GetCancellation;
   on_id method path "/v1/reconciliations/" Endpoint.GetReconciliation;
   on_id method path "/v1/backups/" Endpoint.GetBackup].
Definition protected_route (method path : string) : option Endpoint :=
  if path ≟ "/v1/intents" then
    if method ≟ "POST" then Some Endpoint.SubmitIntent else on_get method Endpoint.ListIntents
  else if path ≟ "/v1/orders" then on_get method Endpoint.ListOrders
  else if path ≟ "/v1/trades" then on_get method Endpoint.ListTrades
  else if path ≟ "/v1/positions" then on_get method Endpoint.ListPositions
  else if path ≟ "/v1/cancellations" then on_post method Endpoint.Cancel
  else if path ≟ "/v1/control/state" then on_get method Endpoint.ControlState
  else if path ≟ "/v1/control/halt" then on_post method Endpoint.Halt
  else if path ≟ "/v1/control/resume" then on_post method Endpoint.Resume
  else if path ≟ "/v1/reconciliations" then on_post method Endpoint.Reconcile
  else if path ≟ "/v1/events" then on_get method Endpoint.Events
  else if path ≟ "/v1/backups" then on_post method Endpoint.CreateBackup
  else head (omap id (id_routes method path)).

(** The parts of a request the extractors read. *)
Record Request : Type := mkRequest {
  rq_method : string;
  rq_path : string;
  rq_query : string;
  rq_authorization : option string;
  rq_idempotency_key : option string;
  rq_last_event_id : option (option string);
  rq_body : RequestBody;
}.
(** The derived [Deserialize] of the bodies and queries, and [Path<Uuid>]. *)
Class Extractors : Type := {
  path_uuid : string → option Uuid;
  decode_intent : Value → string + OrderIntentRequest;
  decode_cancellation : Value → string + CancellationRequest;
  decode_reason : Value → string + ReasonRequest;
  intent_query : string → option IntentListQuery;
  order_query : string → option OrderListQuery;
  trade_query : string → option TradeListQuery;
}.

(** [str::parse::<i64>]: a sign or none, then decimal digits, within the type. *)
Definition decimal_digit (c : ascii) : option Z :=
  let v := Z.of_N (N_of_ascii c) - 48 in if (0 <=? v) && (v <=? 9) then Some v else None.
Definition decimal_value (cs : list ascii) : option Z :=
  foldl (λ acc c, a ← acc; d ← decimal_digit c; Some (a * 10 + d)) (Some 0) cs.
Definition i64_range (z : Z) : option Z :=
  if ((- 2 ^ 63) <=? z) && (z <=? i64_max) then Some z else None.
Definition i64_from_str (text : string) : option Z :=
  match list_ascii_of_string text with
  | [] | ["+"%char] | ["-"%char] => None
  | "+"%char :: cs => decimal_value cs ≫= i64_range
  | "-"%char :: cs => z ← decimal_value cs; i64_range (- z)
  | cs => decimal_value cs ≫= i64_range
  end.

(** What a handler answers with; a refusal of an extractor of the HTTP library. *)
Inductive Answer `{DecimalOps} : Type :=
| AnswerIntent (status : Z) (record : IntentRecord)
| AnswerIntents (p : ListPage IntentRecord)
| AnswerOrder (record : OrderRecord)
| AnswerOrders (p : ListPage OrderRecord)
| AnswerTrades (p : ListPage TradeRecord)
| AnswerPositions (l : list PositionRecord)
| AnswerCancellation (record : CancellationRecord)
| AnswerReconciliation (record : ReconciliationRecord)
| AnswerBackup (record : BackupRecord)
| AnswerStream (r : Replay)
| AnswerResponse (r : Response)
| AnswerRefused (r : AuthResult)
| AnswerBadPath
| AnswerBadQuery
| AnswerNotFound.

Section router.
Context `{DecimalOps} `{Platform} `{Codec} `{CursorCodec} `{Sha256} `{Extractors}.
Context {V : Type} `{Venue : !ExecutionVenue (Sys * V)} `{Sched : !Schedule V}.
Variable coordinator : ExecutionCoordinator.
(** The outcome of creating the backup directory. *)
Variable directory : outcome StoreError ().
Notation Handler := (Prog (ApiWorld V) ApiError).

Definition answer {A} (f : A → Answer) (m : Handler A) : Handler Answer := a ← m; mret (f a).
(** [Path<Uuid>] and [Query<T>]. *)
Definition with_id {A} (raw : string) (f : A → Answer) (m : Uuid → Handler A) : Handler Answer :=
  match path_uuid raw with
  | None => mret AnswerBadPath
  | Some id => answer f (m id)
  end.
Definition with_query {Q A} (q : option Q) (f : A → Answer) (m : Q → Handler A)
    : Handler Answer :=
  match q with
  | None => mret AnswerBadQuery
  | Some q => answer f (m q)
  end.
(** [StrictJson<T>]. *)
Definition with_body {T A} (decode : Value → string + T) (body : RequestBody) (f : A → Answer)
    (m : T → Handler A) : Handler Answer :=
  request ← lift (strict_json decode body); answer f (m request).

Definition run_public (e : Endpoint) : Handler Answer :=
  match e with
  | Endpoint.Liveness => mret (AnswerResponse liveness)
  | Endpoint.Readiness => answer AnswerResponse readiness
  | Endpoint.OpenApi => document ← lift openapi_document; mret (AnswerResponse (response 200 document))
  | _ => mret AnswerNotFound
  end.
Definition run_protected (actor : Actor) (e : Endpoint) (rq : Request) : Handler Answer :=
  let key := rq_idempotency_key rq in
  match e with
  | Endpoint.SubmitIntent =>
      with_body decode_intent (rq_body rq) (λ a, AnswerIntent a.1 a.2)
        (submit_intent coordinator actor key)
  | Endpoint.ListIntents => with_query (intent_query (rq_query rq)) AnswerIntents api_list_intents
  | Endpoint.GetIntent raw => with_id raw (AnswerIntent 200) api_get_intent
  | Endpoint.ListOrders => with_query (order_query (rq_query rq)) AnswerOrders api_list_orders
  | Endpoint.GetOrder raw => with_id raw AnswerOrder api_get_order
  | Endpoint.ListTrades => with_query (trade_query (rq_query rq)) AnswerTrades api_list_trades
  | Endpoint.ListPositions => answer AnswerPositions api_list_positions
  | Endpoint.Cancel =>
      with_body decode_cancellation (rq_body rq) AnswerResponse (api_cancel coordinator actor key)
  | Endpoint.GetCancellation raw => with_id raw AnswerCancellation api_get_cancellation
  | Endpoint.ControlState =>
      answer (λ v, AnswerResponse (response 200 v)) (control_state_response coordinator)
  | Endpoint.Halt =>
      with_body decode_reason (rq_body rq) AnswerResponse (api_halt coordinator actor key)
  | Endpoint.Resume =>
      with_body decode_reason (rq_body rq) AnswerResponse (api_resume coordinator actor key)
  | Endpoint.Reconcile => answer AnswerResponse (api_reconcile coordinator actor key)
  | Endpoint.GetReconciliation raw => with_id raw AnswerReconciliation api_get_reconciliation
  | Endpoint.Events => answer AnswerStream (events i64_from_str (rq_last_event_id rq))
  | Endpoint.CreateBackup =>
      answer AnswerResponse (api_create_backup coordinator directory actor key)
  | Endpoint.GetBackup raw => with_id raw AnswerBackup api_get_backup
  | Endpoint.Liveness | Endpoint.Readiness | Endpoint.OpenApi => mret AnswerNotFound
  end.

(** [router]: the public routes, and the others behind [require_auth].  What the
    HTTP library answers where no route takes the request is [AnswerNotFound]. *)
Definition handle (registry : AuthRegistry) (rq : Request) : Handler Answer :=
  match public_route (rq_method rq) (rq_path rq) with
  | Some e => run_public e
  | None =>
      match protected_route (rq_method rq) (rq_path rq) with
      | None => mret AnswerNotFound
      | Some e =>
          match require_auth registry (rq_method rq) (rq_path rq) (rq_authorization rq) with
          | Allowed actor => run_protected actor e rq
          | refusal => mret (AnswerRefused refusal)
          end
      end
  end.
End router.

(** ** Who may change something *)
Section scopes.
Context `{DL : DecimalLaws} `{Platform} `{Codec} `{CursorCodec} `{Sha256} `{Extractors}.
Context {V : Type} `{Venue : !ExecutionVenue (Sys * V)} `{Sched : !Schedule V}.
Variable coordinator : ExecutionCoordinator.
Variable directory : outcome StoreError ().
Notation Handler := (Prog (ApiWorld V) ApiError).

(** Whatever comes of it, the handler only waits. *)
Definition only_waits {A} (m : Handler A) : Prop := ∀ w, waits w (m w).2.
Lemma only_waits_bind {A B} (m : Handler A) (k : A → Handler B) :
  only_waits m → (∀ a, only_waits (k a)) → only_waits (m ≫= k).
Proof.
  intros Hm Hk w. specialize (Hm w). unfold mbind, prog_bind.
  destruct (m w) as [[a|e|] w1]; cbn in *; [|done..]. etrans; [done|apply Hk].
Qed.
Lemma only_waits_still {A} (m : Handler A) : (∀ w, (m w).2 = w) → only_waits m.
Proof. intros Hm w. by rewrite Hm. Qed.
Lemma only_waits_query {A} (m : Prog Sys StoreError A) : reads m → only_waits (api_store m).
Proof. intros Hm w. by destruct (api_store m w) as [r w'] eqn:E; apply api_query_waits in E as [? _]. Qed.

Create HintDb waiting discriminated.
Ltac waiting_step :=
  match goal with
  | |- only_waits (_ ≫= _) => apply only_waits_bind; [|intros ?]
  | |- only_waits (mret _) => by apply only_waits_still
  | |- only_waits (lift _) => by apply only_waits_still
  | |- only_waits (api_store _) => apply only_waits_query; solve [query | auto with waiting | reading]
  | |- only_waits (if ?b then _ else _) => destruct b
  | |- only_waits (match ?x with _ => _ end) => destruct x
  | |- only_waits _ => solve [auto with waiting nocore]
  end.
Ltac waiting := repeat waiting_step.

Lemma readiness_waits : only_waits readiness.
Proof.
  intros w. unfold readiness. pose proof (only_waits_query service_state ltac:(query) w) as Hw.
  destruct (api_store service_state w) as [[[[[] ?] ?]|e|] w']; exact Hw.
Qed.
Hint Resolve readiness_waits : waiting.
Lemma control_state_waits : only_waits (control_state_response coordinator).
Proof. unfold control_state_response. waiting. Qed.
Lemma reads_positions : reads list_positions.
Proof. unfold list_positions. reading. Qed.
Lemma reads_backup id : reads (get_backup id).
Proof. unfold get_backup. reading. Qed.
Lemma reads_cancellation id : reads (get_cancellation id).
Proof. unfold get_cancellation. reading. Qed.
Lemma reads_intents l st c a k : reads (list_intents_page l st c a k).
Proof. unfold list_intents_page. reading. Qed.
Lemma reads_orders l st c t k : reads (list_orders_page l st c t k).
Proof. unfold list_orders_page. reading. Qed.
Lemma reads_trades l st c t k : reads (list_trades_page l st c t k).
Proof. unfold list_trades_page. reading. Qed.
Lemma reads_bounds : reads event_sequence_bounds.
Proof. unfold event_sequence_bounds. reading. Qed.
Lemma reads_replay a l : reads (replay_events a l).
Proof. unfold replay_events. reading. Qed.
Hint Resolve control_state_waits reads_positions reads_backup reads_cancellation reads_intents
  reads_orders reads_trades reads_bounds reads_replay : waiting.
Lemma events_waits f h : only_waits (events f h).
Proof. unfold events. waiting. Qed.
Hint Resolve events_waits : waiting.

(** The scope of an endpoint that may change something. *)
Definition changing_scope (e : Endpoint) : option string :=
  match e with
  | Endpoint.SubmitIntent => Some "submit"
  | Endpoint.Cancel => Some "cancel"
  | Endpoint.Halt | Endpoint.Resume | Endpoint.Reconcile | Endpoint.CreateBackup => Some "operate"
  | _ => None
  end.
Lemma reading_endpoint_waits actor e rq :
  changing_scope e = None → only_waits (run_protected coordinator directory actor e rq).
Proof.
  destruct e; try discriminate; intros _; cbn [run_protected]; unfold with_id, with_query, answer,
    api_get_intent, api_get_order, api_get_cancellation, api_get_reconciliation, api_get_backup,
    api_list_positions, api_list_intents, api_list_orders, api_list_trades; waiting.
Qed.
Lemma public_endpoint_waits e : only_waits (run_public e).
Proof. destruct e; cbn [run_public]; unfold answer; waiting. Qed.

Lemma on_get_some method e e' : on_get method e = Some e' → e' = e.
Proof. unfold on_get. destruct (is_get method); by intros [= <-]. Qed.
Lemma on_post_some method e e' : on_post method e = Some e' → method = "POST" ∧ e' = e.
Proof. unfold on_post. case_bool_decide; [by intros [= <-]|done]. Qed.
Lemma id_routes_case (P : Endpoint → Prop) method path e :
  (∀ raw, P (Endpoint.GetIntent raw) ∧ P (Endpoint.GetOrder raw) ∧ P (Endpoint.GetCancellation raw) ∧
    P (Endpoint.GetReconciliation raw) ∧ P (Endpoint.GetBackup raw)) →
  head (omap id (id_routes method path)) = Some e → P e.
Proof.
  intros HP He.
  assert (∀ prefix f, (∀ raw, P (f raw)) →
    ∀ e', on_id method path prefix f = Some e' → P e') as Hid.
  { intros prefix f Hf e'. unfold on_id. destruct (strip_prefix prefix path) as [raw|]; [|done].
    destruct (is_segment raw); [|done]. intros ->%on_get_some. apply Hf. }
  assert (Some e ∈ id_routes method path) as Hin.
  { revert He. generalize (id_routes method path) as l. induction l as [|[x|] l IH]; [done|..]; cbn.
    - intros [= ->]. by left.
    - intros He. right. by apply IH. }
  unfold id_routes in Hin.
  repeat (apply elem_of_cons in Hin as [Hin|Hin]; [by eapply Hid; [|done]; apply HP|]).
  by apply elem_of_nil in Hin.
Qed.
Lemma id_routes_read method path e :
  head (omap id (id_routes method path)) = Some e → changing_scope e = None.
Proof. by apply (id_routes_case (λ e, changing_scope e = None)). Qed.
Lemma changing_route method path e scope :
  protected_route method path = Some e → changing_scope e = Some scope →
  method = "POST" ∧ required_scope method path = scope.
Proof.
  intros Hr Hs. unfold protected_route in Hr.
  repeat match type of Hr with
  | (if path ≟ ?p then _ else _) = _ => destruct (bool_decide_reflect (path = p)) as [->|]
  end.
  { destruct (bool_decide_reflect (method = "POST")) as [->|].
    - injection Hr as <-. by injection Hs as <-.
    - apply on_get_some in Hr as ->. discriminate Hs. }
  all: try (apply on_get_some in Hr as ->; discriminate Hs).
  all: try (apply on_post_some in Hr as [-> ->]; injection Hs as <-; by split).
  apply id_routes_read in Hr. congruence.
Qed.

(** C7. Nobody changes anything without the scope for it.  Whatever the request, and
    whatever comes of it, either the service only waited meanwhile - it changed no
    table and queued, spawned and asked nothing - or the request was a POST to an
    endpoint that changes something, it bore the token of an actor that has the
    scope of that endpoint ([submit] for intents, [cancel] for cancellations,
    [operate] for the control of the service), and the result is the handler's. *)
Theorem changes_need_scope registry rq (w : ApiWorld V) :
  let '(r, w') := handle coordinator directory registry rq w in
  waits w w' ∨
  ∃ token actor e scope,
    rq_method rq = "POST" ∧ protected_route (rq_method rq) (rq_path rq) = Some e ∧
    changing_scope e = Some scope ∧
    rq_authorization rq = Some ("Bearer " +:+ token) ∧
    authenticate registry token = Some actor ∧ scope ∈ act_scopes actor ∧
    run_protected coordinator directory actor e rq w = (r, w').
Proof.
  destruct (handle _ _ registry rq w) as [r w'] eqn:Hr. unfold handle in Hr.
  destruct (public_route _ _) as [e|].
  { left. pose proof (public_endpoint_waits e w) as Hw. by rewrite Hr in Hw. }
  destruct (protected_route (rq_method rq) (rq_path rq)) as [e|] eqn:Ee; [|injection Hr as <- <-; by left].
  unfold require_auth in Hr.
  destruct (rq_authorization rq) as [header|]; [|injection Hr as <- <-; by left].
  destruct (strip_prefix "Bearer " header) as [token|] eqn:Eh; [|injection Hr as <- <-; by left].
  destruct (authenticate registry token) as [actor|] eqn:Ea; [|injection Hr as <- <-; by left].
  destruct (has_scope actor _) eqn:Es; cbn [negb] in Hr; [|injection Hr as <- <-; by left].
  destruct (changing_scope e) as [scope|] eqn:Ec.
  - right. destruct (changing_route _ _ _ _ Ee Ec) as [Hm Hscope].
    exists token, actor, e, scope. apply strip_prefix_spec in Eh as ->.
    unfold has_scope in Es. apply bool_decide_eq_true in Es. split_and!; congruence || done.
  - left. pose proof (reading_endpoint_waits actor e rq Ec w) as Hw. by rewrite Hr in Hw.
Qed.
End scopes.
