(* ===== verification/Contract.v ===== *)
(** * Contract: the published contract and the service that answers (api.rs)

    The document that [GET /v1/openapi.json] returns is generated next to the
    router, not from it.  Both are read here: what the document says of a request
    is what the router does with it. *)
From Stdlib Require Import Ascii.
From S2P Require Import Prelude Text DecimalSpec RefDecimal Json Platform Domain Venue Fixtures Risk Schema StoreIntents StoreRisk StoreOrders StoreControl StorePaper StoreQueries StoreFixtures StoreLogic Config Auth Lifecycle Coordinator ApiCore Api CoordinatorSteps CoordinatorHistory CoordinatorFixtures Streams Handlers Repeats OpenApi Router.

(** ** Reading the contract *)

(** A template matches a path: its last segment may be a parameter. *)
Definition template_matches (template path : string) : bool :=
  match split_at "{" template with
  | [prefix; _] => match strip_prefix prefix path with
                   | Some raw => is_segment raw
                   | None => false
                   end
  | _ => path ≟ template
  end.
(** HEAD is answered as GET without a body. *)
Definition contract_method (method : string) : option string :=
  if (method ≟ "GET") || (method ≟ "HEAD") then Some "get"
  else if method ≟ "POST" then Some "post" else None.
Definition contract_operation (document : Value) (method path : string) : option Value :=
  m ← contract_method method;
  paths ← get_member "paths" document ≫= as_object;
  item ← List.find (λ item, template_matches item.1 path) paths;
  get_member m item.2.
Definition operation_id (op : Value) : option string := get_member "operationId" op ≫= as_str.
Definition is_secured (op : Value) : bool := bool_decide (is_Some (get_member "security" op)).
(** The operation has a required Idempotency-Key header. *)
Definition is_keyed (op : Value) : bool :=
  existsb (λ p, bool_decide (get_member "name" p ≫= as_str = Some "Idempotency-Key") &&
                bool_decide (get_member "required" p ≫= as_bool = Some true))
    (default [] (get_member "parameters" op ≫= as_array)).
Definition has_body (op : Value) : bool := bool_decide (is_Some (get_member "requestBody" op)).
Definition status_text (status : Z) : string :=
  string_of_list_ascii ((λ d, ascii_of_N (Z.to_N (48 + status / d mod 10))) <$> [100; 10; 1]).
(** The status is one of those the operation lists. *)
Definition lists_status (op : Value) (status : Z) : bool :=
  bool_decide (is_Some (get_member "responses" op ≫= get_member (status_text status))).

Example contract_read :
  (op ← @openapi_document () ≫= (λ d, or_panic (contract_operation d "GET" "/v1/orders/7"));
   mret (operation_id op, is_secured op, is_keyed op, has_body op, lists_status op 200,
     lists_status op 202)) =
  Done (Some "getOrder", true, false, false, true, false).
Proof. vm_compute. reflexivity. Qed.

(** ** Reading the router *)
Definition route (method path : string) : option Endpoint :=
  match public_route method path with
  | Some e => Some e
  | None => protected_route method path
  end.
Definition is_public (e : Endpoint) : bool :=
  match e with
  | Endpoint.Liveness | Endpoint.Readiness | Endpoint.OpenApi => true
  | _ => false
  end.
Definition operation_name (e : Endpoint) : string :=
  match e with
  | Endpoint.SubmitIntent => "submitIntent"
  | Endpoint.ListIntents => "listIntents"
  | Endpoint.GetIntent _ => "getIntent"
  | Endpoint.ListOrders => "listOrders"
  | Endpoint.GetOrder _ => "getOrder"
  | Endpoint.ListTrades => "listTrades"
  | Endpoint.ListPositions => "listPositions"
  | Endpoint.Cancel => "createCancellation"
  | Endpoint.GetCancellation _ => "getCancellation"
  | Endpoint.ControlState => "getControlState"
  | Endpoint.Halt => "halt"
  | Endpoint.Resume => "resume"
  | Endpoint.Reconcile => "createReconciliation"
  | Endpoint.GetReconciliation _ => "getReconciliation"
  | Endpoint.Events => "streamEvents"
  | Endpoint.CreateBackup => "createBackup"
  | Endpoint.GetBackup _ => "getBackup"
  | Endpoint.Liveness => "getLiveness"
  | Endpoint.Readiness => "getReadiness"
  | Endpoint.OpenApi => "getOpenApi"
  end.
Definition changes (e : Endpoint) : bool := bool_decide (is_Some (changing_scope e)).
Definition takes_body (e : Endpoint) : bool :=
  match e with
  | Endpoint.SubmitIntent | Endpoint.Cancel | Endpoint.Halt | Endpoint.Resume => true
  | _ => false
  end.
Definition answer_status `{DecimalOps} (a : Answer) : Z :=
  match a with
  | AnswerIntent status _ => status
  | AnswerResponse r => resp_status r
  | AnswerRefused Unauthorized => 401
  | AnswerRefused (Forbidden _) => 403
  | AnswerBadPath | AnswerBadQuery => 400
  | AnswerNotFound => 404
  | _ => 200
  end.
(** What the handler of an endpoint answers with when it is not an [ApiError]. *)
Definition statuses (e : Endpoint) : list Z :=
  if changes e then [202]
  else match e with
       | Endpoint.Readiness => [200; 503]
       | Endpoint.GetIntent _ | Endpoint.GetOrder _ | Endpoint.GetCancellation _
       | Endpoint.GetReconciliation _ | Endpoint.GetBackup _
       | Endpoint.ListIntents | Endpoint.ListOrders | Endpoint.ListTrades => [200; 400]
       | _ => [200]
       end.
(** The operation of the contract is the endpoint of the router. *)
Definition describes (op : Value) (e : Endpoint) : bool :=
  bool_decide (operation_id op = Some (operation_name e)) &&
  Bool.eqb (is_secured op) (negb (is_public e)) && Bool.eqb (is_keyed op) (changes e) &&
  Bool.eqb (has_body op) (takes_body e) &&
  forallb (lists_status op) ((if is_public e then [] else [401; 403]) ++ statuses e).

(** ** Every path *)
Definition contract : Value := Eval vm_compute in
  match @openapi_document () with Done document => document | _ => JNull end.
Definition contract_paths : Map := default [] (get_member "paths" contract ≫= as_object).
Definition item_of (template : string) : Value := default JNull (assoc_last template contract_paths).
Definition templates : list string :=
  ["/health/live"; "/health/ready"; "/v1/openapi.json"; "/v1/intents"; "/v1/intents/{intent_id}";
   "/v1/orders"; "/v1/orders/{order_id}"; "/v1/trades"; "/v1/positions"; "/v1/cancellations";
   "/v1/cancellations/{cancellation_id}"; "/v1/control/state"; "/v1/control/halt";
   "/v1/control/resume"; "/v1/reconciliations"; "/v1/reconciliations/{reconciliation_id}";
   "/v1/events"; "/v1/backups"; "/v1/backups/{backup_id}"].
Lemma contract_done {E} : @openapi_document E = Done contract.
Proof. vm_compute. reflexivity. Qed.
Lemma contract_items :
  get_member "paths" contract = Some (JObject ((λ t, (t, item_of t)) <$> templates)).
Proof. vm_compute. reflexivity. Qed.

Lemma template_plain template path :
  split_at "{" template = [template] → template_matches template path = (path ≟ template).
Proof. unfold template_matches. by intros ->. Qed.
Lemma template_id template prefix rest path :
  split_at "{" template = [prefix; rest] →
  template_matches template path =
    match strip_prefix prefix path with Some raw => is_segment raw | None => false end.
Proof. unfold template_matches. by intros ->. Qed.

Lemma method_cases method :
  method = "GET" ∨ method = "HEAD" ∨ method = "POST" ∨
  is_get method = false ∧ (method ≟ "POST") = false.
Proof.
  unfold is_get. destruct (bool_decide_reflect (method = "GET")); [by left|].
  destruct (bool_decide_reflect (method = "HEAD")); [by right; left|].
  destruct (bool_decide_reflect (method = "POST")); [by right; right; left|].
  by right; right; right.
Qed.

Lemma describes_spec op e :
  describes op e = true →
  operation_id op = Some (operation_name e) ∧ is_secured op = negb (is_public e) ∧
  is_keyed op = changes e ∧ has_body op = takes_body e ∧
  ∀ status, status ∈ (if is_public e then [] else [401; 403]) ++ statuses e →
    lists_status op status = true.
Proof.
  unfold describes.
  rewrite !andb_true_iff, bool_decide_eq_true, !eqb_true_iff, forallb_forall.
  intros [[[[? ?] ?] ?] Hl]. split_and!; [done..|].
  intros status Hs. apply Hl. by apply list_elem_of_In.
Qed.
Lemma not_routed method path :
  is_get method = false → (method ≟ "POST") = false → route method path = None.
Proof.
  intros Hg Hp.
  assert (∀ e, on_get method e = None) as Og by (intros e; unfold on_get; by rewrite Hg).
  assert (∀ e, on_post method e = None) as Op by (intros e; unfold on_post; by rewrite Hp).
  assert (∀ prefix e, on_id method path prefix e = None) as Oi.
  { intros prefix e. unfold on_id. destruct (strip_prefix _ _); [|done].
    destruct (is_segment _); [apply Og|done]. }
  unfold route, public_route, protected_route, id_routes. rewrite Hp, !Og, !Op, !Oi.
  by repeat case_bool_decide.
Qed.

(** The contract and the router know the same requests. *)
Definition agree (op : option Value) (e : option Endpoint) : Prop :=
  match op, e with
  | None, None => True
  | Some op, Some e => describes op e = true
  | _, _ => False
  end.
Lemma contract_covers method path :
  agree (contract_operation contract method path) (route method path).
Proof.
  destruct (method_cases method) as [-> |[-> |[-> |[Hg Hp]]]].
  4: { rewrite not_routed by done. unfold contract_operation, contract_method.
       unfold is_get in Hg. by rewrite Hg, Hp. }
  all: unfold contract_operation; rewrite contract_items; cbn [templates fmap list_fmap];
    unfold contract_method, as_object; cbn [mbind option_bind List.find fst];
    repeat match goal with
    | |- context [template_matches ?t ?p] =>
        first [ rewrite (template_plain t p) by reflexivity
              | erewrite (template_id t _ _ p) by reflexivity ]
    end.
  all: unfold route, public_route, protected_route, id_routes, on_id.
  all: repeat match goal with
    | p : string |- context [?p ≟ ?t] =>
        destruct (bool_decide_reflect (p = t)) as [->|]; [vm_compute; constructor|]
    end.
  all: repeat match goal with
    | |- context [strip_prefix ?prefix ?p] =>
        destruct (strip_prefix prefix p) as [raw|] eqn:Ep;
        [apply strip_prefix_spec in Ep as ->; destruct (is_segment raw); vm_compute; constructor|clear Ep]
    end.
  all: vm_compute; constructor.
Qed.

(** ** Every answer *)
Section answers.
Context `{DL : DecimalLaws} `{Platform} `{Codec} `{CursorCodec} `{Sha256} `{Extractors}.
Context {V : Type} `{Venue : !ExecutionVenue (Sys * V)} `{Sched : !Schedule V}.
Variable coordinator : ExecutionCoordinator.
Variable directory : outcome StoreError ().
Notation Handler := (Prog (ApiWorld V) ApiError).
Notation sys w := (w_sys (aw_world w)).

(** What a handler returns, and the world in which it does. *)
Definition yields {A} (P : A → ApiWorld V → Prop) (m : Handler A) : Prop :=
  ∀ w a w', m w = (Done a, w') → P a w'.
Lemma yields_bind {A B} P (m : Handler A) (k : A → Handler B) :
  (∀ a, yields P (k a)) → yields P (m ≫= k).
Proof. intros Hk w b w' (a & w1 & _ & Hr)%bind_done. by eapply Hk. Qed.
Lemma yields_ret {A} (P : A → ApiWorld V → Prop) a : (∀ w, P a w) → yields P (mret a).
Proof. intros Hp w a' w' [= <- <-]. apply Hp. Qed.
Lemma yields_fmap {A B} P (m : Handler A) (f : A → B) :
  yields (λ a, P (f a)) m → yields P (a ← m; mret (f a)).
Proof. intros Hm w b w' (a & w1 & Ha & [= <- <-])%bind_done. by eapply Hm. Qed.

(** A row of the table of idempotency keys gives this status. *)
Definition recorded (status : Z) (w : ApiWorld V) : Prop :=
  ∃ row, row ∈ idempotency_keys (db (sys w)) ∧ ik_response_status row = status.
Definition answers_of (statuses : list Z) (a : Answer) (w : ApiWorld V) : Prop :=
  answer_status a ∈ statuses ∨ recorded (answer_status a) w.
Definition accepted (r : Response) (w : ApiWorld V) : Prop :=
  resp_status r = 202 ∨ recorded (resp_status r) w.

Lemma replay_recorded actor key operation body :
  yields (λ o w, ∀ r, o = Some r → recorded (resp_status r) w)
    (replay_operation actor key operation body).
Proof.
  intros w o w' Hr r ->. unfold replay_operation in Hr.
  apply bind_done in Hr as (replay & w1 & Hq & Hr).
  destruct replay as [replay|]; [|discriminate Hr].
  apply bind_done in Hr as (u & w2 & [_ ->]%ensure_done & [= <- <-]).
  destruct (api_query_waits _ _ _ _ (idempotent_response_reads _ _ _ _) Hq) as (_ & _ & Hd).
  specialize (Hd _ eq_refl). unfold idempotent_response in Hd.
  apply bind_done in Hd as (row & s1 & [Hf ->]%fetch_optional_done & Hd).
  destruct row as [row|]; [|discriminate Hd].
  apply bind_done in Hd as (u1 & s1 & [_ ->]%ensure_done & Hd).
  apply bind_done in Hd as (u2 & s2 & [_ ->]%ensure_done & Hd).
  apply bind_done in Hd as (v & s3 & _ & [= <- _]).
  exists row. split; [|done]. symmetry in Hf. by apply find_Some_elem in Hf as [? _].
Qed.
Lemma yields_unless_replayed actor key operation body run :
  yields accepted run → yields accepted (unless_replayed actor key operation body run).
Proof.
  intros Hrun w r w' (replayed & w1 & Hp & Hr)%bind_done.
  destruct replayed as [r0|]; [|by eapply Hrun].
  injection Hr as <- <-. right. by eapply replay_recorded.
Qed.

Ltac yields :=
  repeat lazymatch goal with
  | |- yields _ (mret _) => apply yields_ret; intros ?; by left
  | |- yields _ (unless_replayed _ _ _ _ _) => apply yields_unless_replayed
  | |- yields _ (_ ≫= _) => apply yields_bind; intros ?
  | |- yields _ (match ?x with _ => _ end) => destruct x
  end.
Lemma submit_accepted actor key request :
  yields (λ a _, a.1 = 202) (submit_intent coordinator actor key request).
Proof.
  unfold submit_intent. repeat first [ by apply yields_ret | apply yields_bind; intros ? | case_match ].
Qed.
Lemma readiness_status : yields (λ r _, resp_status r ∈ [200; 503]) readiness.
Proof.
  intros w r w'. unfold readiness.
  destruct (api_store service_state w) as [[[[[] ?] ?]|e|] w1]; intros [= <- <-]; cbn; set_solver.
Qed.

Lemma answer_yields {A} (f : A → Answer) (m : Handler A) e :
  yields (λ a w, answers_of (statuses e) (f a) w) m → yields (answers_of (statuses e)) (answer f m).
Proof. apply yields_fmap. Qed.
Lemma answer_constant {A} (f : A → Answer) (m : Handler A) e :
  (∀ a, answer_status (f a) ∈ statuses e) → yields (answers_of (statuses e)) (answer f m).
Proof. intros Hf. apply yields_bind. intros a. apply yields_ret. intros w. left. apply Hf. Qed.
Lemma answer_accepted (m : Handler Response) e :
  statuses e = [202] → yields accepted m → yields (answers_of (statuses e)) (answer AnswerResponse m).
Proof.
  intros He Hm. apply answer_yields. intros w r w' Hr. rewrite He.
  destruct (Hm _ _ _ Hr) as [H202|]; [left; cbn; rewrite H202; set_solver|by right].
Qed.
Lemma id_answers {A} raw (f : A → Answer) (m : Uuid → Handler A) e :
  400 ∈ statuses e → (∀ a, answer_status (f a) ∈ statuses e) →
  yields (answers_of (statuses e)) (with_id raw f m).
Proof.
  intros H400 Hf. unfold with_id. destruct (path_uuid raw); [by apply answer_constant|].
  apply yields_ret. intros w. by left.
Qed.
Lemma query_answers {Q A} (q : option Q) (f : A → Answer) (m : Q → Handler A) e :
  400 ∈ statuses e → (∀ a, answer_status (f a) ∈ statuses e) →
  yields (answers_of (statuses e)) (with_query q f m).
Proof.
  intros H400 Hf. unfold with_query. destruct q; [by apply answer_constant|].
  apply yields_ret. intros w. by left.
Qed.

Lemma protected_answers actor e rq :
  is_public e = false →
  yields (answers_of (statuses e)) (run_protected coordinator directory actor e rq).
Proof.
  intros He. destruct e; try discriminate He; cbn [run_protected].
  all: try solve [ apply id_answers; intros; set_solver | apply query_answers; intros; set_solver
                 | apply answer_constant; intros; set_solver ].
  - apply yields_bind. intros request. apply answer_yields. intros w a w' Ha. left.
    rewrite (submit_accepted _ _ _ _ _ _ Ha). set_solver.
  - apply yields_bind. intros request. apply answer_accepted; [done|]. unfold api_cancel. yields.
  - apply yields_bind. intros request. apply answer_accepted; [done|]. unfold api_halt. yields.
  - apply yields_bind. intros request. apply answer_accepted; [done|]. unfold api_resume. yields.
  - apply answer_accepted; [done|]. unfold api_reconcile. yields.
  - apply answer_accepted; [done|]. unfold api_create_backup. yields.
Qed.
Lemma public_answers e :
  is_public e = true → yields (answers_of (statuses e)) (run_public e).
Proof.
  intros He. destruct e; try discriminate He; cbn [run_public].
  - apply yields_ret. intros w. left. cbn. set_solver.
  - apply answer_yields. intros w r w' Hr. left. by apply readiness_status in Hr.
  - apply yields_bind. intros d. apply yields_ret. intros w. left. cbn. set_solver.
Qed.

(** What a request must bring. *)
Definition key_given (rq : Request) : Prop :=
  ∃ key, rq_idempotency_key rq = Some key ∧ (16 <= string_length key <= 128)%nat.
Definition body_given (rq : Request) : Prop := ∃ v, rq_body rq = BodyJson v.
Lemma key_needed {A} rq (k : string → Handler A) :
  yields (λ _ _, key_given rq) (key ← lift (idempotency_key (rq_idempotency_key rq)); k key).
Proof.
  intros w a w' (key & w1 & [Hk _]%lift_done & _)%bind_done. unfold idempotency_key in Hk.
  apply outcome_bind_done in Hk as (key' & Hh%ok_or_done & Hk).
  apply outcome_bind_done in Hk as (u & [Hl _]%reject_if_done%orb_false_elim & [= <-]).
  apply negb_false_iff, andb_true_iff in Hl as [?%Nat.leb_le ?%Nat.leb_le]. by exists key'.
Qed.
Lemma body_needed {T A} (decode : Value → string + T) rq (f : A → Answer) m :
  yields (λ _ _, body_given rq) (with_body decode (rq_body rq) f m : Handler Answer).
Proof.
  intros w a w' (request & w1 & [Hb _]%lift_done & _)%bind_done. unfold strict_json in Hb.
  destruct (rq_body rq) as [| |v] eqn:E; [discriminate Hb..|]. by exists v.
Qed.
Lemma changes_keyed actor e rq :
  changes e = true →
  yields (λ _ _, key_given rq) (run_protected coordinator directory actor e rq).
Proof.
  intros He. destruct e; try discriminate He; cbn [run_protected]; unfold with_body;
    first [ apply (yields_fmap (λ _ _, key_given rq)); apply key_needed
          | apply yields_bind; intros request; apply (yields_fmap (λ _ _, key_given rq)); apply key_needed ].
Qed.
Lemma bodies_read actor e rq :
  takes_body e = true →
  yields (λ _ _, body_given rq) (run_protected coordinator directory actor e rq).
Proof. intros He. destruct e; try discriminate He; cbn [run_protected]; apply body_needed. Qed.

Lemma public_route_public method path e : public_route method path = Some e → is_public e = true.
Proof. unfold public_route, on_get. repeat case_match; by intros [= <-]. Qed.
Lemma protected_route_not_public method path e :
  protected_route method path = Some e → is_public e = false.
Proof.
  unfold protected_route. intros Hr.
  repeat match type of Hr with (if ?b then _ else _) = _ => destruct b end;
    try (by apply on_get_some in Hr as ->); try (by apply on_post_some in Hr as [_ ->]).
  - by injection Hr as <-.
  - revert Hr. by apply (id_routes_case (λ e, is_public e = false)).
Qed.
End answers.

(** C9. The published contract is the service.  The document is generated without
    a panic, and for every request: where it has no operation for the method and
    the path, no route takes the request.  Where it has one, the router runs the
    endpoint of that name; the operation is marked as secured exactly when the
    endpoint is behind [require_auth], has the required header Idempotency-Key
    exactly when the endpoint may change something, and has a body exactly when
    the handler reads one; a request that is answered, and neither refused nor
    an error, did bring what the operation requires; and the status of the answer
    is one the operation lists, or one recorded for an idempotency key. *)
Theorem contract_describes_service `{DL : DecimalLaws} `{Platform} `{Codec} `{CursorCodec} `{Sha256}
    `{Extractors} {V} `{Venue : !ExecutionVenue (Sys * V)} `{Sched : !Schedule V}
    coordinator directory registry rq (w : ApiWorld V) :
  let '(r, w') := handle coordinator directory registry rq w in
  ∃ document, @openapi_document ApiError = Done document ∧
    match contract_operation document (rq_method rq) (rq_path rq) with
    | None => route (rq_method rq) (rq_path rq) = None ∧ r = Done AnswerNotFound ∧ w' = w
    | Some op => ∃ e, route (rq_method rq) (rq_path rq) = Some e ∧
        operation_id op = Some (operation_name e) ∧
        is_secured op = bool_decide (public_route (rq_method rq) (rq_path rq) = None) ∧
        is_keyed op = bool_decide (is_Some (changing_scope e)) ∧
        has_body op = takes_body e ∧
        ∀ a, r = Done a →
          (lists_status op (answer_status a) = true ∨ recorded (answer_status a) w') ∧
          ((∃ refusal, a = AnswerRefused refusal) ∨
           (is_keyed op = true → key_given rq) ∧ (has_body op = true → body_given rq))
    end.
Proof.
  destruct (handle _ _ registry rq w) as [r w'] eqn:Hr. exists contract. split; [apply contract_done|].
  pose proof (contract_covers (rq_method rq) (rq_path rq)) as Hc. unfold handle in Hr. unfold route in *.
  destruct (contract_operation _ _ _) as [op|].
  2: { destruct (public_route _ _); [done|]. destruct (protected_route _ _); [done|].
       by injection Hr as <- <-. }
  destruct (public_route _ _) as [e|] eqn:Hpub; [|destruct (protected_route _ _) as [e|] eqn:Hpro; [|done]];
    exists e; apply describes_spec in Hc as (Hid & Hsec & Hkey & Hbody & Hlist);
    (split_and!; [done..|idtac|exact Hkey|exact Hbody|]).
  - by rewrite Hsec, (public_route_public _ _ _ Hpub).
  - intros a ->. apply public_route_public in Hpub as He. split.
    + destruct (public_answers _ He _ _ _ Hr) as [Hs|]; [|by right]. left. apply Hlist. set_solver.
    + right. rewrite Hkey, Hbody. by destruct e.
  - by rewrite Hsec, (protected_route_not_public _ _ _ Hpro).
  - intros a ->. apply protected_route_not_public in Hpro as He. rewrite He in Hlist.
    destruct (require_auth _ _ _ _) as [actor| |scope].
    2-3: injection Hr as <- <-; split; [left; apply Hlist; cbn; set_solver|by left; eexists].
    split.
    + destruct (protected_answers _ _ _ _ _ He _ _ _ Hr) as [Hs|]; [|by right].
      left. apply Hlist. set_solver.
    + right. rewrite Hkey, Hbody. split; intros Hc.
      * by eapply changes_keyed.
      * by eapply bodies_read.
Qed.

Section witness.
#[local] Existing Instance RefOps.
#[local] Existing Instance RefLaws.
#[local] Existing Instance RefPlatform.
#[local] Existing Instance CoordinatorCodec.
#[local] Existing Instance QuietSchedule.
#[local] Existing Instance accepting.
#[local] Instance ContractSha256 : Sha256 := bytes.
#[local] Instance ContractCursors : CursorCodec := {|
  base64_encode s := s;
  base64_decode := Some;
  cursor_from_json _ := None;
|}.
#[local] Instance ContractExtractors : Extractors := {|
  path_uuid _ := None;
  decode_intent _ := inr fix_request;
  decode_cancellation _ := inl "unknown";
  decode_reason v := from_option inr (inl "unknown") (get_member "reason" v ≫= as_str);
  intent_query _ := None;
  order_query _ := None;
  trade_query _ := None;
|}.
(** A halt whose sender shows no token. *)
Definition halt_unsigned : Request :=
  mkRequest "POST" "/v1/control/halt" "" None (Some "halt-key-0123456789") None
    (BodyJson (JObject ["reason" ::= "stop"])).
Definition contract_world : ApiWorld nat := ApiState_new 0 (new_world (fix_sys "READY")).

Lemma contract_describes_service_witness :
  ∃ document op, @openapi_document ApiError = Done document ∧
    contract_operation document "POST" "/v1/control/halt" = Some op ∧
    operation_id op = Some "halt" ∧ is_secured op = true ∧ is_keyed op = true ∧
    has_body op = true ∧ lists_status op 401 = true.
Proof.
  assert (handle fix_coordinator (Done tt) [] halt_unsigned contract_world =
    (Done (AnswerRefused Unauthorized), contract_world)) as Hr by reflexivity.
  pose proof (contract_describes_service fix_coordinator (Done tt) [] halt_unsigned contract_world) as Hc.
  rewrite Hr in Hc. destruct Hc as (document & Hdoc & Hc). exists document.
  change (rq_method halt_unsigned) with "POST" in Hc.
  change (rq_path halt_unsigned) with "/v1/control/halt" in Hc.
  destruct (contract_operation document "POST" "/v1/control/halt") as [op|]; [|by destruct Hc].
  exists op. destruct Hc as (e & He & Hid & Hsec & Hkey & Hbody & Ha). injection He as <-.
  destruct (Ha _ eq_refl) as [[Hs|(row & Hrow & _)] _]; [by split_and!|].
  by apply not_elem_of_nil in Hrow.
Defined.
End witness.

(** Statuses of errors that the contract does not mention: an unknown resource,
    the deadline, the limit of the body, a body of another shape, the store. *)
Example unlisted_errors :
  err_status (ApiError_new 404 "RESOURCE_NOT_FOUND" "" false) = 404 ∧
  forallb (λ item, forallb (λ op, forallb (λ status, negb (lists_status op.2 status))
    [404; 408; 413; 422; 500]) (default [] (as_object item.2))) contract_paths = true.
Proof. vm_compute. by split. Qed.
