(* ===== verification/Main.v ===== *)
(** * Main: the command line and the start of the service (main.rs)

    The checks before a start, the bearer token file, and the request each
    command of the client sends.  Reading files, printing, and the HTTP client's
    transport are outside of the model: a file is what was read of it, a response
    its status and body. *)
From Stdlib Require Import Ascii.
From S2P Require Import Prelude Text DecimalSpec RefDecimal Json Platform Domain Venue Fixtures Risk Schema StoreIntents StoreRisk StoreOrders StoreControl StorePaper StoreQueries StoreFixtures StoreLogic Config Auth Lifecycle OrderHistory History Events Outbox Control Coordinator CoordinatorSteps CoordinatorHistory CoordinatorFixtures ApiCore Api Streams Handlers Router Polymarket.

(** ** The checks before a start *)

Record Capabilities : Type := mkCapabilities {
  cap_schema_version : string;
  cap_modes : list string;
  cap_signer : option string;
}.
Definition capabilities `{Environment} : Capabilities :=
  if live_feature
  then mkCapabilities "oddsfox.capabilities.v1" ["paper"; "live"] (Some "local_file")
  else mkCapabilities "oddsfox.capabilities.v1" ["paper"] None.

Definition validate_mode_policy (config : Config) (policy : RiskPolicy) : outcome string () :=
  if negb (cfg_mode config ≟ Live) then mret tt
  else
    reject_if (bool_decide (allowed_condition_ids policy = ∅) ||
               bool_decide (allowed_token_ids policy = ∅))
      "live mode requires non-empty condition and token allowlists";;
    reject_if (bool_decide ("*" ∈ allowed_condition_ids policy) ||
               bool_decide ("*" ∈ allowed_token_ids policy))
      "live mode refuses wildcard risk-policy allowlists";;
    reject_if (str_contains "example" (to_ascii_lowercase (version policy)) ||
               str_contains "placeholder" (to_ascii_lowercase (version policy)))
      "live mode refuses placeholder risk-policy versions".

(** [RiskPolicy::load]: [file] is what reading and parsing the file yields. *)
Definition RiskPolicy_load `{DecimalOps} (file : outcome string RiskPolicy)
    : outcome string RiskPolicy :=
  policy ← file;
  RiskPolicy_validate policy;;
  mret policy.

(** The beginning of [serve], before anything is opened; the arguments are what
    reading and parsing the files yields. *)
Definition serve_config `{DecimalOps} `{Environment} (config_file : outcome string Config)
    (policy_file : outcome string RiskPolicy) (mode : option string)
    : outcome string (Config * RiskPolicy * AuthRegistry) :=
  mode_override ← (match mode with
    | None => mret None
    | Some text => mode ← map_err DomainError_to_string (Mode_from_str text); mret (Some mode)
    end);
  parsed ← config_file;
  config ← Config_load parsed mode_override;
  policy ← RiskPolicy_load policy_file;
  validate_mode_policy config policy;;
  registry ← AuthRegistry_new (auth config);
  mret (config, policy, registry).

(** [doctor]: what the venue's public endpoints answer, each with the error of its
    request, its status or its body. *)
Record PublicVenue : Type := mkPublicVenue {
  pv_version : outcome string N;
  pv_time : outcome string Z;
  pv_geoblock : outcome string Value;
}.
Section doctor.
Context `{DecimalOps} `{Environment} `{Platform}.
(** [Utc::now().timestamp_millis()], and [{}] of the skew. *)
Variable local_time_ms : Z.
Definition skew_text (skew : Z) : string := nat_to_string (Z.to_N skew).

Definition doctor_public_venue (config : Config) (venue : PublicVenue) : outcome string Value :=
  version ← pv_version venue;
  reject_if (negb (Z.of_N version =? expected_protocol (polymarket config)))
    ("expected Polymarket protocol " +:+
     nat_to_string (Z.to_N (expected_protocol (polymarket config))) +:+ ", venue reports " +:+
     nat_to_string version);;
  server_time_ms ← pv_time venue;
  let clock_skew_ms := Z.abs (local_time_ms - server_time_ms) in
  reject_if (30000 <? clock_skew_ms)
    ("local clock differs from venue by " +:+ skew_text clock_skew_ms +:+ "ms");;
  geoblock ← pv_geoblock venue;
  blocked ← ok_or "geographic eligibility response is missing boolean blocked"
    (get_member "blocked" geoblock ≫= as_bool);
  reject_if blocked "venue reports this egress location as blocked";;
  mret (json_obj ["protocol" ::= Z.of_N version; "clock_skew_ms" ::= clock_skew_ms;
    "geographic_eligibility" ::= "allowed"]).

(** [backup]: what [verify_backup_offline] says of the manifest, when there is one;
    [parent_exists]: the directory of the database is there; [signer]: what
    [validate_live_signer] says. *)
Definition doctor (backup : option (outcome string Value)) (config_file : outcome string Config)
    (policy_file : outcome string RiskPolicy) (parent_exists : bool) (signer : outcome VenueError ()) (venue : PublicVenue)
    : outcome string Value :=
  match backup with
  | Some verified => verified
  | None =>
  parsed ← config_file;
  config ← Config_load parsed None;
  policy ← RiskPolicy_load policy_file;
  validate_mode_policy config policy;;
  reject_if (negb parent_exists) "database parent does not exist";;
  (if cfg_mode config ≟ Live then map_err VenueError.to_string signer else mret tt);;
  venue_check ← doctor_public_venue config venue;
  mret (json_obj ["status" ::= "ok"; "mode" ::= Mode_to_string (cfg_mode config);
    "database_path" ::= database_path (storage config);
    "clob_url" ::= clob_url (polymarket config); "risk_policy_version" ::= version policy;
    "venue" ::= venue_check])
  end.
End doctor.

(** ** The bearer token *)

Definition CR : ascii := "013"%char.
Definition LF : ascii := "010"%char.
Definition crlf : string := String CR (String LF "").
Definition lf : string := String LF "".
Definition is_newline (c : ascii) : bool := Ascii.eqb c CR || Ascii.eqb c LF.
Definition has_newline (s : string) : bool := existsb is_newline (list_ascii_of_string s).

Definition parse_api_token (contents : string) : outcome string string :=
  let contents := match strip_suffix crlf contents with
    | Some without_terminator => without_terminator
    | None => default contents (strip_suffix lf contents)
    end in
  reject_if (has_newline contents) "bearer token file must contain exactly one line";;
  reject_if (negb (trim contents ≟ contents))
    "bearer token file must not contain surrounding whitespace";;
  reject_if (char_count contents <? 32)%nat
    "bearer token file must contain at least 32 characters";;
  mret contents.

(** [str::from_utf8]: the well-formed byte sequences. *)
Definition tail_byte (b : N) : bool := byte_in 128 191 b.
Fixpoint valid_utf8 (l : list N) : bool :=
  match l with
  | [] => true
  | b1 :: l1 =>
      if byte_in 0 127 b1 then valid_utf8 l1
      else match l1 with
           | [] => false
           | b2 :: l2 =>
               if byte_in 194 223 b1 && tail_byte b2 then valid_utf8 l2
               else match l2 with
                    | [] => false
                    | b3 :: l3 =>
                        if tail_byte b3 &&
                           (((b1 =? 224)%N && byte_in 160 191 b2) ||
                            ((b1 =? 237)%N && byte_in 128 159 b2) ||
                            ((byte_in 225 236 b1 || byte_in 238 239 b1) && tail_byte b2))
                        then valid_utf8 l3
                        else match l3 with
                             | [] => false
                             | b4 :: l4 =>
                                 tail_byte b3 && tail_byte b4 &&
                                 (((b1 =? 240)%N && byte_in 144 191 b2) ||
                                  ((b1 =? 244)%N && byte_in 128 143 b2) ||
                                  (byte_in 241 243 b1 && tail_byte b2)) && valid_utf8 l4
                             end
                    end
           end
  end.

(** An open file: the length its metadata says, and what is read of it. *)
Record TokenFile : Type := mkTokenFile { tf_length : N; tf_bytes : string }.
Definition load_api_token (file : option TokenFile) : outcome string string :=
  file ← ok_or "read bearer token file" file;
  reject_if (2 ^ 64 <=? tf_length file + 1)%N "bearer token file is too large";;
  let read := N.of_nat (string_length (tf_bytes file)) in
  reject_if (read <? tf_length file)%N "read bearer token file";;
  reject_if (tf_length file <? read)%N "bearer token file changed while it was being read";;
  reject_if (negb (valid_utf8 (bytes (tf_bytes file)))) "bearer token file must contain valid UTF-8";;
  parse_api_token (tf_bytes file).

(** [Command::TokenDigest]: what it prints for its input. *)
Fixpoint drop_newlines (l : list ascii) : list ascii :=
  match l with
  | c :: l' => if is_newline c then drop_newlines l' else l
  | [] => []
  end.
Definition trim_newlines (s : string) : string :=
  string_of_list_ascii (reverse (drop_newlines (reverse (list_ascii_of_string s)))).
Definition token_digest_command `{Platform} (input : string) : outcome string string :=
  reject_if (negb (valid_utf8 (bytes input))) "stream did not contain valid UTF-8";;
  let token := trim_newlines input in
  reject_if (string_length token <? 32)%nat
    "bearer token input must contain at least 32 characters";;
  mret (token_digest token).

(** ** The client *)

Record ApiArgs : Type := mkApiArgs {
  api_url : string;
  api_token_file : option TokenFile;
  api_idempotency_key : option string;
}.
(** The commands that send a request; [Submit] with what the file holds. *)
Inductive Command : Type :=
| Submit (request : outcome string OrderIntentRequest)
| Cancel (request : CancellationRequest)
| Halt (reason : string)
| Resume (reason : string)
| Orders
| Trades
| Positions
| Reconcile
| Backup.

Record HttpRequest : Type := mkHttpRequest {
  hr_method : string;
  hr_url : string;
  hr_authorization : string;
  hr_idempotency_key : option string;
  hr_body : option Value;
}.

Section client.
Context `{Platform}.
(** [Uuid::now_v7()]. *)
Variable fresh : Uuid.

Definition api_request (api : ApiArgs) (method path : string) (body : option Value)
    (idempotent : bool) : outcome string HttpRequest :=
  token ← load_api_token (api_token_file api);
  mret (mkHttpRequest method (trim_end_matches "/" (api_url api) +:+ path) ("Bearer " +:+ token)
    (if idempotent
     then Some (default ("cli-" +:+ uuid_to_string fresh) (api_idempotency_key api))
     else None) body).
(** What becomes of the answer: an error unless it is a success with a JSON body. *)
Definition api_response (status : Z) (body : outcome string Value) : outcome string Value :=
  body ← body;
  reject_if (negb ((200 <=? status) && (status <=? 299))) ("API returned " +:+ json_to_string body);;
  mret body.

Definition control_request (api : ApiArgs) (path reason : string) : outcome string HttpRequest :=
  api_request api "POST" path (Some (ReasonRequest_value reason)) true.
Definition command_request (api : ApiArgs) (command : Command) : outcome string HttpRequest :=
  match command with
  | Submit request =>
      request ← request;
      api_request api "POST" "/v1/intents" (Some (to_value request)) true
  | Cancel request =>
      map_err DomainError_to_string (CancellationRequest_validate request);;
      api_request api "POST" "/v1/cancellations" (Some (to_value request)) true
  | Halt reason => control_request api "/v1/control/halt" reason
  | Resume reason => control_request api "/v1/control/resume" reason
  | Orders => api_request api "GET" "/v1/orders" None false
  | Trades => api_request api "GET" "/v1/trades" None false
  | Positions => api_request api "GET" "/v1/positions" None false
  | Reconcile => api_request api "POST" "/v1/reconciliations" None true
  | Backup => api_request api "POST" "/v1/backups" None true
  end.
End client.

(** ** Lemmas *)

Lemma parse_api_token_done contents token :
  parse_api_token contents = Done token →
  has_newline token = false ∧ (32 <= char_count token)%nat ∧
  ∃ terminator, contents = token +:+ terminator ∧ terminator ∈ [""; lf; crlf].
Proof.
  unfold parse_api_token. intros ([] & Hn%reject_if_done & ([] & Ht%reject_if_done & ([] &
    Hl%reject_if_done & [= <-])%outcome_bind_done)%outcome_bind_done)%outcome_bind_done.
  split; [done|]. split; [by apply Nat.ltb_ge in Hl|].
  destruct (strip_suffix crlf contents) as [c|] eqn:Hc.
  { apply strip_suffix_spec in Hc as ->. exists crlf. split; [done|]. set_solver. }
  destruct (strip_suffix lf contents) as [c|] eqn:Hf; cbn [default].
  - apply strip_suffix_spec in Hf as ->. exists lf. split; [done|]. set_solver.
  - exists "". split; [|set_solver]. by rewrite string_app_nil_r.
Qed.

Lemma drop_newlines_app l l' :
  forallb is_newline l = true → drop_newlines (l ++ l') = drop_newlines l'.
Proof. induction l as [|c l IH]; [done|]. cbn. destruct (is_newline c); [done|done]. Qed.
Lemma drop_newlines_none l : existsb is_newline l = false → drop_newlines l = l.
Proof. destruct l as [|c l]; [done|]. cbn. by destruct (is_newline c). Qed.
Lemma trim_newlines_terminated token terminator :
  has_newline token = false → terminator ∈ [""; lf; crlf] →
  trim_newlines (token +:+ terminator) = token.
Proof.
  intros Hn Ht. unfold trim_newlines. rewrite list_ascii_app, reverse_app, drop_newlines_app.
  - rewrite drop_newlines_none, reverse_involutive.
    + apply Stdlib.Strings.String.string_of_list_ascii_of_string.
    + unfold has_newline in Hn. apply not_true_iff_false. apply not_true_iff_false in Hn.
      intros (c & Hc & Hl)%existsb_true_elem. apply Hn, existsb_true_elem. exists c.
      by rewrite elem_of_reverse in Hc.
  - unfold lf, crlf in Ht. set_unfold. by destruct Ht as [->|[->|[->|[]]]].
Qed.
(** The digest of a token file is the digest of the token the client reads in it. *)
Lemma token_file_digest `{Platform} file token :
  load_api_token (Some file) = Done token →
  token_digest_command (tf_bytes file) = Done (token_digest token).
Proof.
  unfold load_api_token. intros (f & [= <-]%ok_or_done & ([] & _ & ([] & _ & ([] & _ & ([] & Hu
    %reject_if_done & (Hn & Hl & terminator & Hc & Ht)%parse_api_token_done)%outcome_bind_done)
    %outcome_bind_done)%outcome_bind_done)%outcome_bind_done)%outcome_bind_done.
  unfold token_digest_command. rewrite Hu, Hc, trim_newlines_terminated by done.
  pose proof (char_count_le token).
  by rewrite (proj2 (Nat.ltb_ge (string_length token) 32)) by lia.
Qed.

(** ** Live mode *)

Lemma serve_config_done `{DecimalOps} `{Environment} config_file policy_file mode config policy
    registry :
  serve_config config_file policy_file mode = Done (config, policy, registry) →
  Config_validate config = Done tt ∧ policy_file = Done policy ∧
  RiskPolicy_validate policy = Done tt ∧ validate_mode_policy config policy = Done tt ∧
  AuthRegistry_new (auth config) = Done registry.
Proof.
  unfold serve_config, Config_load, RiskPolicy_load. intros Hs.
  apply outcome_bind_done in Hs as (m & _ & Hs).
  apply outcome_bind_done in Hs as (parsed & _ & Hs).
  apply outcome_bind_done in Hs as (c & Hc & Hs).
  apply outcome_bind_done in Hs as (p & Hp & Hs).
  apply outcome_bind_done in Hs as ([] & Hv & Hs).
  apply outcome_bind_done in Hs as (r & Hr & [= <- <- <-]).
  apply outcome_bind_done in Hc as ([] & Hc & [= <-]).
  apply outcome_bind_done in Hp as (p' & -> & ([] & Hp & [= <-])%outcome_bind_done). done.
Qed.

(** C39. In live mode every order the policy approves was allowed by name.  When the
    checks of [serve] pass and the service trades live, an approved order is for
    a condition and a token that the policy lists; a policy that leaves a list
    empty, which the evaluation reads as everything, does not start. *)
Theorem live_orders_allowlisted `{DL : DecimalLaws} `{Environment}
    config_file policy_file mode config policy registry request market book snapshot decision :
  serve_config config_file policy_file mode = Done (config, policy, registry) → cfg_mode config = Live →
  evaluate policy request market book snapshot = Some decision → approved decision = true →
  req_condition_id request ∈ allowed_condition_ids policy ∧
  req_token_id request ∈ allowed_token_ids policy.
Proof.
  intros (_ & _ & _ & Hp & _)%serve_config_done Hlive He Ha.
  unfold validate_mode_policy in Hp. rewrite Hlive in Hp. cbn [negb] in Hp.
  rewrite bool_decide_true in Hp by done. cbn [negb] in Hp.
  apply outcome_bind_done in Hp as (u'' & Hne%reject_if_done & _).
  apply orb_false_iff in Hne as [Hc%bool_decide_eq_false Ht%bool_decide_eq_false].
  unfold evaluate in He.
  destruct (evaluate_inner _ _ _ _ _) as [d|d|] eqn:Ei; [|exfalso|done].
  - apply evaluate_inner_done in Ei as ([Hac Hat _ _ _] & _). tauto.
  - apply evaluate_inner_rejects in Ei as [Hr _]. injection He as ->. congruence.
Qed.

(** ** The client and the server *)

(** What a request of the client is when it gets to the server at [base]: the
    URL's path, the headers whose value is text, the body that was sent. *)
Definition received (header_text : string → option string) (base : string) (rq : HttpRequest)
    : option Request :=
  path ← strip_prefix base (hr_url rq);
  Some (mkRequest (hr_method rq) path "" (header_text (hr_authorization rq))
    (hr_idempotency_key rq ≫= header_text) None
    (match hr_body rq with
     | Some v => BodyJson v
     | None => BodyNotJson "EOF while parsing a value"
     end)).

(** The scope a command needs. *)
Definition command_scope (command : Command) : string :=
  match command with
  | Submit _ => "submit"
  | Cancel _ => "cancel"
  | Halt _ | Resume _ | Reconcile | Backup => "operate"
  | Orders | Trades | Positions => "read"
  end.

Section delivery.
Context `{DL : DecimalLaws} `{Platform} `{Codec} `{CursorCodec} `{Environment} `{Sha256} `{Extractors}.
Context {V : Type} `{Venue : !ExecutionVenue (Sys * V)} `{Sched : !Schedule V}.
Variable coordinator : ExecutionCoordinator.
Variable directory : outcome StoreError ().
Notation Handler := (Prog (ApiWorld V) ApiError).

(** What a command is for. *)
Definition command_handler (actor : Actor) (key : option string) (command : Command)
    : Handler Answer :=
  match command with
  | Submit (Done request) =>
      answer (λ a, AnswerIntent a.1 a.2) (submit_intent coordinator actor key request)
  | Submit _ => mret AnswerNotFound
  | Cancel request => answer AnswerResponse (api_cancel coordinator actor key request)
  | Halt reason => answer AnswerResponse (api_halt coordinator actor key reason)
  | Resume reason => answer AnswerResponse (api_resume coordinator actor key reason)
  | Orders => answer AnswerOrders (api_list_orders (mkOrderListQuery default_limit None None None None))
  | Trades => answer AnswerTrades (api_list_trades (mkTradeListQuery default_limit None None None None))
  | Positions => answer AnswerPositions api_list_positions
  | Reconcile => answer AnswerResponse (api_reconcile coordinator actor key)
  | Backup => answer AnswerResponse (api_create_backup coordinator directory actor key)
  end.
(** The derived decoders read what the derived encoders wrote, and a query string
    that is empty. *)
Definition decodes (command : Command) : Prop :=
  match command with
  | Submit (Done request) => decode_intent (to_value request) = inr request
  | Submit _ => True
  | Cancel request => decode_cancellation (to_value request) = inr request
  | Halt reason | Resume reason => decode_reason (ReasonRequest_value reason) = inr reason
  | Orders => order_query "" = Some (mkOrderListQuery default_limit None None None None)
  | Trades => trade_query "" = Some (mkTradeListQuery default_limit None None None None)
  | Positions | Reconcile | Backup => True
  end.

Lemma intent_unique (request : OrderIntentRequest) : unique_json (to_value request) = Done tt.
Proof.
  destruct request as [? ? side tif [u ?] [] [] [] ? [[] [] []]], side, tif, u; vm_compute; reflexivity.
Qed.
Lemma cancellation_unique (request : CancellationRequest) :
  unique_json (to_value request) = Done tt.
Proof. destruct request as [[] [] [] ? ?]; vm_compute; reflexivity. Qed.
Lemma reason_unique reason : unique_json (ReasonRequest_value reason) = Done tt.
Proof. vm_compute. reflexivity. Qed.

Lemma with_body_read {T A} (decode : Value → string + T) v request (f : A → Answer)
    (m : T → Handler A) w :
  unique_json v = Done tt → decode v = inr request →
  with_body decode (BodyJson v) f m w = answer f (m request) w.
Proof.
  intros Hu Hd. unfold with_body, strict_json, lift, mbind at 1, prog_bind at 1. by rewrite Hu, Hd.
Qed.

Section request.
Context (config : Config) (registry : AuthRegistry) (entry : AuthCredential).
Context (api : ApiArgs) (file : TokenFile) (fresh : Uuid) (header_text : string → option string).
Context (Hhex : ∀ text, hex_decode (sha256_hex text) = Some (sha256_digest text)).
Context (Hconfig : Config_validate config = Done tt).
Context (Hregistry : AuthRegistry_new (auth config) = Done registry).
Context (Hentry : entry ∈ auth config).
Context (Hfile : api_token_file api = Some file).
Context (Hdigest : token_digest_command (tf_bytes file) = Done (token_sha256 entry)).
Notation actor := (mkActor (actor_id entry) (list_to_set (scopes entry))).

(** The token of the client is the one of the entry. *)
Lemma client_token token :
  load_api_token (api_token_file api) = Done token → authenticate registry token = Some actor.
Proof.
  rewrite Hfile. intros Hl%token_file_digest. rewrite Hdigest in Hl. injection Hl as Hd.
  apply outcome_bind_done in Hconfig as (u & Hok%validate_auth_done & _).
  apply (authenticate_configured _ _ _ _ Hok Hregistry). exists entry.
  split; [done|]. split; [|done]. rewrite Hd. apply Hhex.
Qed.
Lemma request_delivered method path body idempotent e hr :
  api_request fresh api method path body idempotent = Done hr →
  header_text (hr_authorization hr) = Some (hr_authorization hr) →
  public_route method path = None → protected_route method path = Some e →
  required_scope method path ∈ scopes entry →
  ∃ rq, received header_text (trim_end_matches "/" (api_url api)) hr = Some rq ∧
    rq_query rq = "" ∧ (∀ v, body = Some v → rq_body rq = BodyJson v) ∧
    ∀ w, handle coordinator directory registry rq w =
         run_protected coordinator directory actor e rq w.
Proof.
  unfold api_request. intros (token & Ht & [= <-])%outcome_bind_done Hheader Hpub Hpro Hscope.
  apply client_token in Ht. unfold received. cbn in Hheader |- *.
  rewrite (proj2 (strip_prefix_spec _ _ path)) by done. cbn.
  eexists. split; [done|]. cbn. split; [done|]. split; [by intros v ->|].
  intros w. unfold handle. cbn. rewrite Hpub, Hpro. unfold require_auth. rewrite Hheader.
  rewrite (proj2 (strip_prefix_spec _ _ token)) by done. rewrite Ht.
  by rewrite (proj2 (has_scope_list _ _ _) Hscope).
Qed.
End request.

(** C8. A command does what it is for.  Let the operator put what [token-digest]
    prints for a token file into the configuration, with the scope a command
    needs.  Then a request that the client sends with that file, for a service at
    its URL, is answered by the handler of the command, for the actor of the entry,
    with the client's idempotency key and the request that was given - never by a
    refusal or by another handler. *)
Theorem command_reaches_handler config registry entry api file fresh header_text command hr :
  (∀ text, hex_decode (sha256_hex text) = Some (sha256_digest text)) →
  Config_validate config = Done tt → AuthRegistry_new (auth config) = Done registry →
  entry ∈ auth config → api_token_file api = Some file →
  token_digest_command (tf_bytes file) = Done (token_sha256 entry) →
  command_scope command ∈ scopes entry → decodes command →
  command_request fresh api command = Done hr →
  header_text (hr_authorization hr) = Some (hr_authorization hr) →
  ∃ rq, received header_text (trim_end_matches "/" (api_url api)) hr = Some rq ∧
    ∀ w, handle coordinator directory registry rq w =
      command_handler (mkActor (actor_id entry) (list_to_set (scopes entry)))
        (rq_idempotency_key rq) command w.
Proof.
  intros Hhex Hconfig Hregistry Hentry Hfile Hdigest Hscope Hdecodes Hr Hheader.
  pose proof (λ m p b i e, request_delivered config registry entry api file fresh header_text Hhex
    Hconfig Hregistry Hentry Hfile Hdigest m p b i e hr) as Hdel.
  destruct command as [[request|er|]|request|reason|reason| | | | |]; cbn [command_request] in Hr;
    try discriminate Hr; unfold control_request in Hr;
    try lazymatch type of Hr with
    | api_request _ _ _ _ _ _ = _ => idtac
    | _ => apply outcome_bind_done in Hr as (u & Hu & Hr); try injection Hu as <-
    end; cbn in Hscope;
    (edestruct Hdel as (rq & Hrq & Hq & Hb & Hw);
       [exact Hr|exact Hheader|reflexivity|reflexivity|exact Hscope|]);
    exists rq; (split; [exact Hrq|]); intros w; rewrite Hw; cbn [run_protected command_handler].
  - rewrite (Hb _ eq_refl). apply with_body_read; [apply intent_unique|exact Hdecodes].
  - rewrite (Hb _ eq_refl). apply with_body_read; [apply cancellation_unique|exact Hdecodes].
  - rewrite (Hb _ eq_refl). apply with_body_read; [apply reason_unique|exact Hdecodes].
  - rewrite (Hb _ eq_refl). apply with_body_read; [apply reason_unique|exact Hdecodes].
  - rewrite Hq. cbn in Hdecodes. by rewrite Hdecodes.
  - rewrite Hq. cbn in Hdecodes. by rewrite Hdecodes.
  - done.
  - done.
  - done.
Qed.
End delivery.

Section fixtures.
#[local] Existing Instance RefOps.
#[local] Existing Instance RefLaws.
#[local] Existing Instance RefPlatform.
#[local] Existing Instance CoordinatorCodec.
#[local] Existing Instance QuietSchedule.
#[local] Existing Instance accepting.
(** Digests are the bytes of the text, and hexadecimal text stands for itself. *)
#[local] Instance MainEnvironment : Environment := {|
  live_feature := true;
  enable_live_trading := Some "YES";
  hex_decode s := Some (bytes s);
|}.
#[local] Instance MainSha256 : Sha256 := bytes.
#[local] Instance MainCursors : CursorCodec := {|
  base64_encode s := s;
  base64_decode := Some;
  cursor_from_json _ := None;
|}.
(** Decoders that know the one request. *)
#[local] Instance MainExtractors : Extractors := {|
  path_uuid _ := None;
  decode_intent _ := inr fix_request;
  decode_cancellation _ := inl "unknown";
  decode_reason v := from_option inr (inl "unknown") (get_member "reason" v ≫= as_str);
  intent_query _ := None;
  order_query _ := Some (mkOrderListQuery default_limit None None None None);
  trade_query _ := Some (mkTradeListQuery default_limit None None None None);
|}.

Definition fix_token : string := "0123456789abcdef0123456789abcdef".
Definition fix_entry : AuthCredential :=
  mkAuthCredential "strategy" fix_token ["read"; "submit"].
Definition fix_address : string := "0x00000000000000000000000000000000000000aa".
Definition fix_live_config : Config :=
  mkConfig Live ServerConfig_default (mkStorageConfig "live.sqlite3" "backups" 100)
    PaperConfig_default
    (mkPolymarketConfig default_clob_url default_websocket_url default_data_api_url
      default_geoblock_url default_expected_protocol default_chain_id (Some fix_address)
      (Some fix_address) (Some "key") default_reconcile_seconds default_geoblock_seconds
      default_heartbeat_seconds) [fix_entry].
Definition fix_listed_policy : RiskPolicy :=
  mkRiskPolicy "v1" {["condition"]} {["123"]} default_sides default_time_in_force
    "100" "100" 10 "500" "500" "500" "500" "0.10" "1" 60 60 60 60 true.
Definition fix_registry : AuthRegistry :=
  [mkCredential (mkActor "strategy" (list_to_set ["read"; "submit"])) (bytes fix_token)].
Definition fix_listed_decision : RiskDecision :=
  default (mkRiskDecision false "" "" JNull "")
    (evaluate fix_listed_policy fix_request fix_market fix_book fix_snapshot).

Lemma live_orders_allowlisted_witness :
  approved fix_listed_decision = true ∧
  req_condition_id fix_request ∈ allowed_condition_ids fix_listed_policy ∧
  req_token_id fix_request ∈ allowed_token_ids fix_listed_policy.
Proof.
  split; [vm_compute; reflexivity|].
  apply (live_orders_allowlisted (Done fix_live_config) (Done fix_listed_policy) (Some "live")
    fix_live_config fix_listed_policy fix_registry fix_request fix_market fix_book fix_snapshot fix_listed_decision);
    vm_compute; reflexivity.
Defined.

(** The token file ends with a line feed; the client has no key of its own. *)
Definition fix_file : TokenFile := mkTokenFile 33 (fix_token +:+ lf).
Definition fix_api : ApiArgs := mkApiArgs "http://127.0.0.1:8787/" (Some fix_file) None.
Definition fix_http : HttpRequest :=
  mkHttpRequest "POST" "http://127.0.0.1:8787/v1/intents" ("Bearer " +:+ fix_token)
    (Some "cli-7") (Some (to_value fix_request)).

Lemma command_reaches_handler_witness :
  ∃ rq, received Some "http://127.0.0.1:8787" fix_http = Some rq ∧
    ∀ w, handle fix_coordinator (Done tt) fix_registry rq w =
      command_handler fix_coordinator (Done tt)
        (mkActor "strategy" (list_to_set ["read"; "submit"])) (rq_idempotency_key rq)
        (Submit (Done fix_request)) w.
Proof.
  apply (command_reaches_handler fix_coordinator (Done tt) fix_live_config fix_registry
    fix_entry fix_api fix_file 7%N Some (Submit (Done fix_request)) fix_http);
    try (vm_compute; reflexivity).
  - by left.
  - right. by left.
Defined.
End fixtures.
