(* ===== verification/Backups.v ===== *)
(** * Backups: the files of a backup and their verification (store.rs)

    What [run_backup] writes beside the database, and what [verify_backup] asks
    of it.  The directory is a map from paths to the bytes of files; SQLite's file
    format, the derived form of the manifest and the hash are arguments.  Nobody
    else touches the directory. *)
From Stdlib Require Import Ascii.
From S2P Require Import Prelude Text DecimalSpec RefDecimal Json Platform Domain Venue Fixtures Risk Schema StoreIntents StoreRisk StoreOrders StoreControl StorePaper StoreFixtures StoreLogic Lifecycle History Events Streams.

Record BackupManifest : Type := mkBackupManifest {
  mf_backup_id : Uuid;
  mf_schema_version : Z;
  mf_mode : Mode;
  mf_chain_id : Z;
  mf_protocol_version : Z;
  mf_signer_address : option string;
  mf_funder_address : option string;
  mf_last_event_sequence : Z;
  mf_database_size_bytes : Z;
  mf_checksum_sha256 : string;
  mf_created_at : DateTime;
}.

(** [VACUUM INTO] copies the database with its migrations into a file; a file that
    passes [PRAGMA integrity_check] is read back.  [serde_json] writes and reads
    the manifest; [sha256_file] is the hash in hexadecimal. *)
Class BackupFormats : Type := {
  Bytes : Type;
  vacuum_into : Z → Db → Bytes;
  read_database : Bytes → option (Z * Db);
  manifest_to_json : BackupManifest → Bytes;
  manifest_from_json : Bytes → option BackupManifest;
  sha256_file : Bytes → string;
  file_length : Bytes → Z;
}.
Abbreviation Disk := (gmap string Bytes).

(** ** Paths of the standard library *)

(** [Path::join] with the name of a file. *)
Definition ends_with_slash (dir : string) : bool :=
  match reverse (list_ascii_of_string dir) with c :: _ => Ascii.eqb c "/" | [] => false end.
Definition path_join (dir name : string) : string :=
  if is_empty dir || ends_with_slash dir then dir +:+ name else dir +:+ "/" +:+ name.
(** [Path::with_file_name]: what follows the last slash is replaced. *)
Fixpoint from_slash (l : list ascii) : list ascii :=
  match l with
  | [] => []
  | c :: l' => if Ascii.eqb c "/" then l else from_slash l'
  end.
Definition with_file_name (path name : string) : string :=
  string_of_list_ascii (reverse (from_slash (reverse (list_ascii_of_string path)))) +:+ name.

Section backups.
Context `{DecimalOps} `{Platform} `{Codec} `{BackupFormats}.
Variable self : Store.
(** [self.backup_dir] and [MAX(version)] of the migrations. *)
Variable backup_dir : string.
Variable schema_version : Z.

(** ** Writing the files *)

(** The outcome of the [n]-th access to the directory, and what a write that
    fails leaves in its file. *)
Variable io : nat → outcome StoreError ().
Variable torn : nat → Bytes.

Definition io_step (n : nat) : Prog Disk StoreError () := lift (io n).
Definition write_file (n : nat) (path : string) (content : Bytes) : Prog Disk StoreError () := λ f,
  match io n with
  | Done _ => (Done tt, <[path := content]> f)
  | Failed e => (Failed e, <[path := torn n]> f)
  | Panicked => (Panicked, f)
  end.
Definition read_file (path : string) : Prog Disk StoreError Bytes :=
  content ← gets (λ f : Disk, f !! path); lift (ok_or (StoreError.Io "No such file") content).
Definition rename (n : nat) (source target : string) : Prog Disk StoreError () :=
  io_step n;;
  content ← read_file source;
  modify (λ f : Disk, <[target := content]> (delete source f)).

Definition file_of (id : Uuid) (suffix : string) : string :=
  path_join backup_dir (uuid_to_string id +:+ "." +:+ suffix).
Definition sqlite_integrity_check (data : Bytes) : outcome StoreError () :=
  match read_database data with
  | Some _ => mret tt
  | None => Failed (IdentityMismatch "SQLite integrity check failed")
  end.

(** The part of [create_backup_files] before its transaction. *)
Definition write_backup_files (d : Db) (id : Uuid) (created_at : DateTime)
    : Prog Disk StoreError BackupFiles :=
  let backup_path := file_of id "sqlite3" in
  let partial_backup_path := file_of id "sqlite3.partial" in
  used ← gets (λ f : Disk, bool_decide (is_Some (f !! partial_backup_path)));
  ensure (negb used) (Database (Decode "output file already exists"));;
  write_file 0 partial_backup_path (vacuum_into schema_version d);;
  io_step 1;;
  data ← read_file partial_backup_path;
  lift (sqlite_integrity_check data);;
  let checksum := sha256_file data in
  let size := file_length data in
  let last_sequence := default 0 (list_max (sequence <$> execution_events d)) in
  identity ← lift (ok_or (Database RowNotFound) (instance_metadata d));
  ensure (0 <=? im_chain_id identity) (IdentityMismatch "stored chain ID is negative");;
  ensure ((0 <=? im_protocol_version identity) && (im_protocol_version identity <? 2 ^ 32))
    (IdentityMismatch "stored protocol version is invalid");;
  let manifest := mkBackupManifest id schema_version (st_mode self) (im_chain_id identity)
    (im_protocol_version identity) (im_signer_address identity) (im_funder_address identity)
    last_sequence size checksum created_at in
  let manifest_path := file_of id "manifest.json" in
  let partial_manifest_path := file_of id "manifest.json.partial" in
  write_file 2 partial_manifest_path (manifest_to_json manifest);;
  io_step 3;;
  rename 4 partial_backup_path backup_path;;
  rename 5 partial_manifest_path manifest_path;;
  mret (mkBackupFiles backup_path manifest_path checksum).

(** [run_backup] with its files: the store and the directory change together,
    under the lock of the writers. *)
Definition run_backup_on_disk (id : Uuid) : Prog (Sys * Disk) StoreError () := λ '(s, f),
  match List.find (λ r, backup_is id r && (bk_state r ≟ "RUNNING")) (backups (db s)) with
  | None => (Failed NotFound, (s, f))
  | Some row =>
      let '(files, f') := write_backup_files (db s) id (bk_created_at row) f in
      let '(r, s') := run_backup self files id s in (r, (s', f'))
  end.

(** ** Verification *)

Definition verify_backup_inner (manifest_path : string) (expected_mode : option Mode) (f : Disk)
    : outcome string BackupManifest :=
  contents ← ok_or "No such file" (f !! manifest_path);
  manifest ← ok_or "invalid manifest" (manifest_from_json contents);
  let database_path :=
    with_file_name manifest_path (uuid_to_string (mf_backup_id manifest) +:+ ".sqlite3") in
  data ← ok_or "No such file" (f !! database_path);
  reject_if (negb (sha256_file data ≟ mf_checksum_sha256 manifest)) "backup checksum mismatch";;
  (match expected_mode with
   | Some expected_mode =>
       reject_if (negb (mf_mode manifest ≟ expected_mode))
         ("backup mode " +:+ Mode_to_string (mf_mode manifest) +:+
          " does not match configured mode " +:+ Mode_to_string expected_mode)
   | None => mret tt
   end);;
  '(version, d) ← ok_or "SQLite integrity check failed" (read_database data);
  reject_if (negb (version =? mf_schema_version manifest))
    "backup schema version does not match manifest";;
  row ← ok_or "no rows returned" (instance_metadata d);
  reject_if (negb (im_mode row ≟ Mode_to_string (mf_mode manifest))) "backup database mode mismatch";;
  reject_if (negb (default 0 (list_max (sequence <$> execution_events d)) =?
                   mf_last_event_sequence manifest))
    "backup event sequence does not match manifest";;
  mret manifest.
Definition verify_backup (manifest_path : string) (expected_mode : Mode) :=
  verify_backup_inner manifest_path (Some expected_mode).
Definition verify_backup_offline (manifest_path : string) := verify_backup_inner manifest_path None.
End backups.

(** ** Lemmas *)

(** What the formats promise. *)
Class BackupLaws `{Platform} `{BackupFormats} : Prop := {
  read_vacuum v d : read_database (vacuum_into v d) = Some (v, d);
  manifest_roundtrip m : manifest_from_json (manifest_to_json m) = Some m;
  uuid_text_inj id id' : uuid_to_string id = uuid_to_string id' → id = id';
  uuid_text_plain id : "."%char ∉ list_ascii_of_string (uuid_to_string id) ∧
    "/"%char ∉ list_ascii_of_string (uuid_to_string id);
}.

Lemma path_join_prefix dir : ∃ prefix, (∀ name, path_join dir name = prefix +:+ name) ∧
  from_slash (reverse (list_ascii_of_string prefix)) = reverse (list_ascii_of_string prefix).
Proof.
  unfold path_join. destruct (is_empty dir) eqn:He; cbn [orb].
  { apply bool_decide_eq_true in He as ->. by exists "". }
  unfold ends_with_slash. destruct (reverse (list_ascii_of_string dir)) as [|c l] eqn:Hr.
  - exists (dir +:+ "/"). split; [intros name; by rewrite string_app_assoc|].
    by rewrite list_ascii_app, reverse_app.
  - destruct (Ascii.eqb c "/") eqn:Hc.
    + exists dir. split; [done|]. rewrite Hr. cbn. by rewrite Hc.
    + exists (dir +:+ "/"). split; [intros name; by rewrite string_app_assoc|].
      by rewrite list_ascii_app, reverse_app.
Qed.
Lemma from_slash_app l l' : "/"%char ∉ l → from_slash (l ++ l') = from_slash l'.
Proof.
  induction l as [|c l IH]; [done|]. intros [Hc Hl]%not_elem_of_cons. cbn.
  destruct (Ascii.eqb_spec c "/") as [->|_]; [done|by apply IH].
Qed.
Lemma with_file_name_join dir name name' :
  "/"%char ∉ list_ascii_of_string name →
  with_file_name (path_join dir name) name' = path_join dir name'.
Proof.
  intros Hn. destruct (path_join_prefix dir) as (prefix & Hp & Hs). rewrite !Hp.
  unfold with_file_name. rewrite list_ascii_app, reverse_app, from_slash_app.
  - by rewrite Hs, reverse_involutive, Stdlib.Strings.String.string_of_list_ascii_of_string.
  - by rewrite elem_of_reverse.
Qed.
Lemma app_sep_inj {A} (c : A) l l' r r' :
  c ∉ l → c ∉ l' → l ++ c :: r = l' ++ c :: r' → l = l' ∧ r = r'.
Proof.
  revert l'. induction l as [|x l IH]; intros [|x' l'] Hl Hl' E; cbn in E.
  - by injection E.
  - injection E as -> _. destruct Hl'. by left.
  - injection E as -> _. destruct Hl. by left.
  - injection E as -> E. apply not_elem_of_cons in Hl as [_ Hl].
    apply not_elem_of_cons in Hl' as [_ Hl']. by apply IH in E as [-> ->].
Qed.

Section proofs.
Context `{DL : DecimalLaws} `{Platform} `{Codec} `{BackupFormats} {BL : BackupLaws}.
Variable self : Store.
Variable backup_dir : string.
Variable schema_version : Z.
Notation file_of := (file_of backup_dir).
Notation write_backup_files := (write_backup_files self backup_dir schema_version).
Notation run_backup_on_disk := (run_backup_on_disk self backup_dir schema_version).

Lemma file_of_inj id id' suffix suffix' :
  file_of id suffix = file_of id' suffix' → id = id' ∧ suffix = suffix'.
Proof.
  unfold Backups.file_of. destruct (path_join_prefix backup_dir) as (prefix & Hp & _).
  rewrite !Hp. intros E%(f_equal list_ascii_of_string). rewrite !list_ascii_app in E.
  apply app_inv_head in E. apply app_sep_inj in E as [E1%list_ascii_inj E2%list_ascii_inj].
  - split; [by apply uuid_text_inj|done].
  - apply uuid_text_plain.
  - apply uuid_text_plain.
Qed.
Lemma file_of_ne id id' suffix suffix' :
  id ≠ id' ∨ suffix ≠ suffix' → file_of id suffix ≠ file_of id' suffix'.
Proof. intros Hne [? ?]%file_of_inj. by destruct Hne. Qed.

(** The program leaves the files of another backup alone. *)
Definition leaves {A} (id : Uuid) (m : Prog Disk StoreError A) : Prop :=
  ∀ f suffix, (m f).2 !! file_of id suffix = f !! file_of id suffix.
Lemma leaves_bind {A B} id (m : Prog Disk StoreError A) (k : A → Prog Disk StoreError B) :
  leaves id m → (∀ a, leaves id (k a)) → leaves id (m ≫= k).
Proof.
  intros Hm Hk f suffix. specialize (Hm f suffix). unfold mbind, prog_bind.
  destruct (m f) as [[a|e|] f1]; cbn in *; [|done..]. by rewrite Hk.
Qed.
Lemma leaves_same {A} id (m : Prog Disk StoreError A) : (∀ f, (m f).2 = f) → leaves id m.
Proof. intros Hm f suffix. by rewrite Hm. Qed.
Lemma leaves_ensure id b e : leaves id (ensure b e).
Proof. apply leaves_same. by destruct b. Qed.
Lemma leaves_write id id' suffix io torn n content :
  id ≠ id' → leaves id (write_file io torn n (file_of id' suffix) content).
Proof.
  intros Hne f suffix'. unfold write_file. destruct (io n); cbn [snd]; try done;
    rewrite lookup_insert_ne; try done; apply file_of_ne; by left.
Qed.
Lemma leaves_rename id id' suffix suffix' io n :
  id ≠ id' → leaves id (rename io n (file_of id' suffix) (file_of id' suffix')).
Proof.
  intros Hne. apply leaves_bind; [by apply leaves_same|]. intros _.
  apply leaves_bind; [by apply leaves_same|]. intros content f x. unfold modify. cbn [snd].
  rewrite lookup_insert_ne by (apply file_of_ne; by left).
  rewrite lookup_delete_ne; [done|]. apply file_of_ne. by left.
Qed.
Lemma leaves_others io torn d id id' t : id ≠ id' → leaves id (write_backup_files io torn d id' t).
Proof.
  intros Hne. unfold Backups.write_backup_files.
  repeat first
    [ apply leaves_write; done | apply leaves_rename; done | apply leaves_ensure
    | apply leaves_bind; [|intros ?] | by apply leaves_same ].
Qed.

(** ** What a completed backup holds *)

(** The files of the backup hold a database of that time, and the manifest says so.
    Every event that is still in the log and not newer is in that database. *)
Record saved (f : Disk) (d : Db) (b : BackupRecord) (d0 : Db) (m : BackupManifest) : Prop := {
  sv_paths : bk_database_path b = Some (file_of (bk_id b) "sqlite3") ∧
    bk_manifest_path b = Some (file_of (bk_id b) "manifest.json");
  sv_database : f !! file_of (bk_id b) "sqlite3" = Some (vacuum_into schema_version d0);
  sv_manifest : f !! file_of (bk_id b) "manifest.json" = Some (manifest_to_json m);
  sv_id : mf_backup_id m = bk_id b;
  sv_version : mf_schema_version m = schema_version;
  sv_mode : mf_mode m = st_mode self;
  sv_checksum : mf_checksum_sha256 m = sha256_file (vacuum_into schema_version d0) ∧
    bk_checksum_sha256 b = Some (mf_checksum_sha256 m);
  sv_sequence : mf_last_event_sequence m = default 0 (list_max (sequence <$> execution_events d0)) ∧
    bk_last_event_sequence b = Some (mf_last_event_sequence m);
  sv_identity : ∃ row, instance_metadata d0 = Some row ∧ im_mode row = Mode_to_string (st_mode self);
  sv_bound : mf_last_event_sequence m <= last_sequence d;
  sv_events e : e ∈ execution_events d → sequence e <= mf_last_event_sequence m →
    e ∈ execution_events d0;
}.

Lemma manifest_name_plain id :
  "/"%char ∉ list_ascii_of_string (uuid_to_string id +:+ "." +:+ "manifest.json").
Proof.
  rewrite list_ascii_app. intros [Hin|Hin]%elem_of_app; [by apply uuid_text_plain in Hin|].
  revert Hin. by apply (bool_decide_unpack (_ ∉ _)).
Qed.
Lemma saved_verifies f d b d0 m expected :
  saved f d b d0 m → expected = None ∨ expected = Some (st_mode self) →
  verify_backup_inner (file_of (bk_id b) "manifest.json") expected f = Done m.
Proof.
  intros [Hpaths Hdata Hmanifest Hid Hversion Hmode [Hsum _] [Hseq _] (row & Hrow & Him) _ _] Hexp.
  unfold verify_backup_inner. rewrite Hmanifest. cbn [ok_or mbind outcome_bind].
  rewrite manifest_roundtrip. cbn [ok_or mbind outcome_bind]. cbv zeta.
  rewrite Hid, (with_file_name_join backup_dir _ _ (manifest_name_plain (bk_id b))).
  change (path_join backup_dir (uuid_to_string (bk_id b) +:+ ".sqlite3"))
    with (file_of (bk_id b) "sqlite3").
  rewrite Hdata. cbn [ok_or mbind outcome_bind]. rewrite Hsum, bool_decide_true by done.
  cbn [negb reject_if mbind outcome_bind].
  assert (match expected with
    | Some mode => reject_if (negb (mf_mode m ≟ mode)) ("backup mode " +:+
        Mode_to_string (mf_mode m) +:+ " does not match configured mode " +:+ Mode_to_string mode)
    | None => mret tt end = Done tt) as ->.
  { destruct Hexp as [->| ->]; [done|]. by rewrite Hmode, bool_decide_true. }
  cbn [mbind outcome_bind]. rewrite read_vacuum. cbn [ok_or mbind outcome_bind].
  rewrite Hversion, Z.eqb_refl. cbn [negb reject_if mbind outcome_bind]. rewrite Hrow.
  cbn [ok_or mbind outcome_bind]. rewrite Him, Hmode, bool_decide_true by done.
  cbn [negb reject_if mbind outcome_bind]. by rewrite Hseq, Z.eqb_refl.
Qed.

Lemma fold_max_elem l : ∀ z, fold_left Z.max l z ∈ z :: l.
Proof.
  induction l as [|y l IH]; intros z; cbn; [by left|].
  specialize (IH (Z.max z y)). apply elem_of_cons in IH as [Hz|Hl]; [|by do 2 right].
  rewrite Hz. destruct (Z.max_spec z y) as [[_ ->]|[_ ->]]; [right; by left|by left].
Qed.
Lemma list_max_elem l z : list_max l = Some z → z ∈ l.
Proof. destruct l as [|y l]; [done|]. intros [= <-]. apply fold_max_elem. Qed.
Lemma write_file_done io torn n path content f u f' :
  write_file io torn n path content f = (Done u, f') → f' = <[path := content]> f.
Proof. unfold write_file. by destruct (io n); intros [= _ <-]. Qed.
Lemma io_step_done io n f u f' : io_step io n f = (Done u, f') → f' = f.
Proof. by intros [= _ ->]. Qed.
Lemma read_file_done path f content f' :
  read_file path f = (Done content, f') → f !! path = Some content ∧ f' = f.
Proof.
  intros (c & f1 & [-> ->]%gets_done & [Hc ->]%lift_done)%bind_done. by apply ok_or_done in Hc.
Qed.
Lemma rename_done io n source target f u f' :
  rename io n source target f = (Done u, f') →
  ∃ content, f !! source = Some content ∧ f' = <[target := content]> (delete source f).
Proof.
  intros (u1 & f1 & ->%io_step_done & (c & f2 & [Hc ->]%read_file_done & Hr)%bind_done)%bind_done.
  injection Hr as _ <-. by exists c.
Qed.

Lemma write_backup_done io torn d id t f files f' :
  write_backup_files io torn d id t f = (Done files, f') →
  ∃ row m, instance_metadata d = Some row ∧
    bf_database_path files = file_of id "sqlite3" ∧
    bf_manifest_path files = file_of id "manifest.json" ∧
    bf_checksum files = mf_checksum_sha256 m ∧
    f' !! file_of id "sqlite3" = Some (vacuum_into schema_version d) ∧
    f' !! file_of id "manifest.json" = Some (manifest_to_json m) ∧
    m = mkBackupManifest id schema_version (st_mode self) (im_chain_id row)
      (im_protocol_version row) (im_signer_address row) (im_funder_address row)
      (default 0 (list_max (sequence <$> execution_events d)))
      (file_length (vacuum_into schema_version d))
      (sha256_file (vacuum_into schema_version d)) t.
Proof.
  intros (used & f1 & [-> ->]%gets_done & (u & f2 & [_ ->]%ensure_done & (u1 & f3 &
    ->%write_file_done & (u2 & f4 & ->%io_step_done & (data & f5 & [Hdata ->]%read_file_done &
    Hr)%bind_done)%bind_done)%bind_done)%bind_done)%bind_done.
  rewrite lookup_insert_eq in Hdata. injection Hdata as <-.
  apply bind_done in Hr as (u3 & f6 & [_ ->]%lift_done & Hr).
  apply bind_done in Hr as (row & f7 & [Hrow%ok_or_done ->]%lift_done & Hr).
  apply bind_done in Hr as (u4 & f8 & [_ ->]%ensure_done & Hr).
  apply bind_done in Hr as (u5 & f9 & [_ ->]%ensure_done & Hr).
  apply bind_done in Hr as (u6 & f10 & ->%write_file_done & Hr).
  apply bind_done in Hr as (u7 & f11 & ->%io_step_done & Hr).
  apply bind_done in Hr as (u8 & f12 & (c & Hc & ->)%rename_done & Hr).
  apply bind_done in Hr as (u9 & f13 & (c' & Hc' & ->)%rename_done & Hr). injection Hr as <- <-.
  pose proof (λ a b, file_of_ne id id a b) as Hne.
  rewrite lookup_insert_ne, lookup_insert_eq in Hc by (apply Hne; by right). injection Hc as <-.
  rewrite lookup_insert_ne, lookup_delete_ne, lookup_insert_eq in Hc' by (apply Hne; by right).
  injection Hc' as <-.
  match goal with |- context [manifest_to_json ?m] => exists row, m end.
  do 4 (split; [done|]). split; [|split; [|done]].
  - rewrite lookup_insert_ne, lookup_delete_ne, lookup_insert_eq by (apply Hne; by right). done.
  - rewrite lookup_insert_eq. done.
Qed.

(** *** The invariant *)

Record guarded (f : Disk) (d : Db) : Prop := {
  gd_saved b : b ∈ backups d → bk_state b = "COMPLETE" → ∃ d0 m, saved f d b d0 m;
  gd_ids : NoDup (bk_id <$> backups d);
  gd_identity row : instance_metadata d = Some row → im_mode row = Mode_to_string (st_mode self);
  gd_bound e : e ∈ execution_events d → sequence e <= last_sequence d;
  gd_counter : 0 <= last_sequence d;
}.
(** A later database of which no old event is new. *)
Lemma saved_later f f' d d' b d0 m :
  (∀ suffix, f' !! file_of (bk_id b) suffix = f !! file_of (bk_id b) suffix) →
  last_sequence d <= last_sequence d' →
  (∀ e, e ∈ execution_events d' → e ∈ execution_events d ∨ last_sequence d < sequence e) →
  saved f d b d0 m → saved f' d' b d0 m.
Proof.
  intros Hf Hl He []. split; rewrite ?Hf; try done; [lia|].
  intros e Hin Hle. apply He in Hin as [Hin|Hin]; [by apply sv_events0|]. lia.
Qed.
Lemma guarded_lasting f : lasting self (guarded f).
Proof.
  split.
  - intros d d' [= E1 E2 _ _ _ E3 E4] []. split; rewrite <-?E1, <-?E2, <-?E3, <-?E4; try done.
    intros b Hb Hc. destruct (gd_saved0 b Hb Hc) as (d0 & m & Hs). exists d0, m.
    eapply saved_later; [done|..|exact Hs]; rewrite <-?E1, <-?E2; auto. lia.
  - intros e d He []. split; cbn; try done.
    + intros b Hb Hc. destruct (gd_saved0 b Hb Hc) as (d0 & m & Hs). exists d0, m.
      eapply saved_later; [done|..|exact Hs]; cbn; [lia|].
      intros e' [Hin| ->%list_elem_of_singleton]%elem_of_app; [by left|right; lia].
    + intros e' [Hin%gd_bound0| ->%list_elem_of_singleton]%elem_of_app; lia.
    + lia.
  - intros c d _ []. split; try done. intros b Hb Hc. destruct (gd_saved0 b Hb Hc) as (d0 & m & []).
    by exists d0, m.
  - intros r d _ []. split; try done. intros b Hb Hc. destruct (gd_saved0 b Hb Hc) as (d0 & m & []).
    by exists d0, m.
  - intros r d _ []. split; try done. intros b Hb Hc. destruct (gd_saved0 b Hb Hc) as (d0 & m & []).
    by exists d0, m.
  - intros l d Hl Hnd []. split; try done; [|by apply Hnd].
    intros b Hb Hc. destruct (gd_saved0 b (Hl b Hb Hc) Hc) as (d0 & m & []). by exists d0, m.
  - intros row d _ Hrow []. split; try done.
    + intros b Hb Hc. destruct (gd_saved0 b Hb Hc) as (d0 & m & []). by exists d0, m.
    + by intros row' [= <-].
Qed.

(** A backup that is recorded as complete. *)
Definition completed (files : BackupFiles) (sequence : Z) (now : DateTime) (b : BackupRecord)
    : BackupRecord :=
  b <| bk_state := "COMPLETE" |> <| bk_database_path := Some (bf_database_path files) |>
    <| bk_manifest_path := Some (bf_manifest_path files) |>
    <| bk_checksum_sha256 := Some (bf_checksum files) |>
    <| bk_last_event_sequence := Some sequence |> <| bk_updated_at := now |>.
Lemma create_backup_done files id s :
  ∃ ev now s', create_backup_files self (Done files) id s = (Done tt, s') ∧
    sequence ev = last_sequence (db s) + 1 ∧ db s' = with_event ev (db s <| backups :=
      update_list (backup_is id) (completed files
        (default 0 (list_max (sequence <$> execution_events (db s)))) now) (backups (db s)) |>).
Proof.
  unfold create_backup_files, lift, gets, transaction, mbind, prog_bind, utc_now.
  exists (mkExecutionEvent (last_sequence (db s) + 1) "backup.completed" "backup"
    (uuid_to_string id) (st_mode self) (json_to_string (json_obj ["id" ::= uuid_to_string id;
      "state" ::= "COMPLETE"; "checksum_sha256" ::= bf_checksum files; "last_event_sequence" ::=
      default 0 (list_max (sequence <$> execution_events (db s)));
      "mode" ::= Mode_to_string (st_mode self)])) (utc_clock (S (tick s)))).
  exists (utc_clock (tick s)). eexists. split; [reflexivity|]. split; reflexivity.
Qed.
Lemma run_backup_completes files id s row :
  List.find (λ r, backup_is id r && (bk_state r ≟ "RUNNING")) (backups (db s)) = Some row →
  ∃ ev now, sequence ev = last_sequence (db s) + 1 ∧
    (run_backup self (Done files) id s).1 = Done tt ∧
    db (run_backup self (Done files) id s).2 = with_event ev (db s <| backups :=
      update_list (backup_is id) (completed files
        (default 0 (list_max (sequence <$> execution_events (db s)))) now) (backups (db s)) |>).
Proof.
  intros Hrow. destruct (create_backup_done files id s) as (ev & now & s' & Hc & Hev & Hdb).
  exists ev, now. split; [done|]. rewrite <-Hdb.
  unfold run_backup, fetch_optional, gets, lift, try, mbind, prog_bind.
  cbn [rows backups_table]. rewrite Hrow. cbn [ok_or]. by rewrite Hc.
Qed.
Lemma run_backup_failed f files id :
  (∀ a, files ≠ Done a) → keeps (guarded f) (run_backup self files id).
Proof.
  intros Hfiles. pose proof (guarded_lasting f) as HI. unfold run_backup.
  destruct files as [a|e|]; [by destruct (Hfiles a)|..].
  - change (create_backup_files self (Failed e) id) with (fail e : Prog Sys StoreError ()).
    keep_with ltac:(first [ by apply (keeps_append_event self HI)
      | apply (keeps_update_backups self HI); by intros ?
      | apply (keeps_footprint self HI); frame; fail ]).
  - change (create_backup_files self Panicked id) with (lift Panicked : Prog Sys StoreError ()).
    keep_with ltac:(first [ by apply (keeps_append_event self HI)
      | apply (keeps_update_backups self HI); by intros ?
      | apply (keeps_footprint self HI); frame; fail ]).
Qed.

Lemma run_backup_on_disk_guarded io torn id s f :
  guarded f (db s) →
  let sf := (run_backup_on_disk io torn id (s, f)).2 in guarded sf.2 (db sf.1).
Proof.
  intros Hg. unfold Backups.run_backup_on_disk.
  destruct (List.find _ (backups (db s))) as [row|] eqn:Hrow; [|exact Hg].
  apply find_Some_elem in Hrow as Hspec. destruct Hspec as [Hin [Hid%bool_decide_eq_true
    Hrun%bool_decide_eq_true]%andb_true_iff].
  destruct (write_backup_files io torn (db s) id (bk_created_at row) f) as [files f'] eqn:Hw.
  assert (∀ b, b ∈ backups (db s) → bk_state b = "COMPLETE" → bk_id b ≠ id) as Hother.
  { intros b Hb Hc Hbid. assert (b = row) as -> ; [|congruence].
    eapply (nodup_key_eq bk_id); [apply Hg|done..|congruence]. }
  assert (∀ b d0 m, b ∈ backups (db s) → bk_state b = "COMPLETE" → saved f (db s) b d0 m →
    saved f' (db s) b d0 m) as Hsaved.
  { intros b d0 m Hb Hc. apply saved_later; [|lia|auto]. intros suffix.
    replace f' with (write_backup_files io torn (db s) id (bk_created_at row) f).2 by by rewrite Hw.
    apply leaves_others. by apply Hother. }
  assert (guarded f' (db s)) as Hg'.
  { destruct Hg. split; try done. intros b Hb Hc. destruct (gd_saved0 b Hb Hc) as (d0 & m & Hs).
    exists d0, m. by apply Hsaved. }
  destruct (run_backup self files id s) as [r s'] eqn:Hr. cbn.
  assert (∀ x, x = files → (∀ a, x ≠ Done a) → guarded f' (db s')) as Hfail.
  { intros x -> Hx. pose proof (run_backup_failed f' files id Hx s Hg') as Hk. by rewrite Hr in Hk. }
  destruct files as [bf|e|]; [clear Hfail|by apply (Hfail _ eq_refl)..].
  destruct (run_backup_completes bf id s row Hrow) as (ev & now & Hev & _ & Hdb).
  rewrite Hr in Hdb. cbn in Hdb. rewrite Hdb. apply (lasting_event _ _ (guarded_lasting f')); [done|].
  apply write_backup_done in Hw as (irow & m & Hirow & Hp1 & Hp2 & Hsum & Hd & Hm & ->).
  destruct Hg'. split; try done.
  - intros b (b0 & Hb0 & ->)%elem_of_upd Hc. unfold upd in Hc |- *. destruct (backup_is id b0) eqn:Hb.
    + apply bool_decide_eq_true in Hb. eexists (db s), _.
      split; cbn; rewrite ?Hb, ?Hp1, ?Hp2, ?Hsum; try (split; reflexivity); try done.
      * by exists irow; split; [|apply gd_identity0].
      * destruct (list_max (sequence <$> execution_events (db s))) as [z|] eqn:Hz; [|done].
        apply list_max_elem, list_elem_of_fmap in Hz as (e & -> & He). by apply gd_bound0.
    + destruct (gd_saved0 b0 Hb0 Hc) as (d0 & m' & []). exists d0, m'. done.
  - cbn. by rewrite update_list_fmap.
Qed.

(** *** Histories of the store and its directory *)

Inductive disk_step (sf : Sys * Disk) : Sys * Disk → Prop :=
| Disk_store A (m : Prog Sys StoreError A) :
    store_op self (db sf.1) A m → ¬ is_run_backup self A m → disk_step sf ((m sf.1).2, sf.2)
| Disk_backup io torn id : disk_step sf (run_backup_on_disk io torn id sf).2.

(** A database without events and backups, in the mode of the store if it is bound. *)
Definition new_database (d : Db) : Prop :=
  execution_events d = [] ∧ last_sequence d = 0 ∧ backups d = [] ∧
  ∀ row, instance_metadata d = Some row → im_mode row = Mode_to_string (st_mode self).
Lemma new_guarded f d : new_database d → guarded f d.
Proof.
  intros (He & Hs & Hb & Hi). split; rewrite ?He, ?Hs, ?Hb; try done; [|constructor|];
    intros ? Hin; by apply not_elem_of_nil in Hin.
Qed.
Lemma disk_step_guarded sf sf' : disk_step sf sf' → guarded sf.2 (db sf.1) → guarded sf'.2 (db sf'.1).
Proof.
  intros [A m Hop Hnot|io torn id] Hg.
  - destruct (store_op_lasting self (guarded_lasting sf.2) sf.1 A m Hop) as [[]|[?|Hk]];
      [|done|by apply Hk].
    destruct (prune_events_effect self sf.1) as [E|(_ & _ & E)]; cbn in E |- *; rewrite E; [done|].
    destruct Hg. split; try done.
    + intros b Hb Hc. destruct (gd_saved0 b Hb Hc) as (d0 & m0 & []). exists d0, m0. split; try done.
      intros e [_ He]%elem_of_filter_b. by apply sv_events0.
    + intros e [_ He]%elem_of_filter_b. by apply gd_bound0.
  - destruct sf as [s f]. by apply (run_backup_on_disk_guarded io torn id s f).
Qed.
Lemma disk_steps_guarded sf sf' :
  rtc disk_step sf sf' → guarded sf.2 (db sf.1) → guarded sf'.2 (db sf'.1).
Proof. induction 1 as [|sf sf1 sf2 Hstep _ IH]; [done|]. eauto using disk_step_guarded. Qed.

(** C23. A backup that is COMPLETE can be verified, for good.  Whatever the store did
    since the database was new - operations, backups that failed at any access to
    the directory, backups that came after it - the manifest of a COMPLETE backup
    is accepted by [verify_backup] in the mode of the store and offline, and it
    names the backup, its checksum and its last event as the database does. *)
Theorem complete_backup_verifies s0 f0 s f b :
  new_database (db s0) → rtc disk_step (s0, f0) (s, f) →
  b ∈ backups (db s) → bk_state b = "COMPLETE" →
  ∃ path m, bk_manifest_path b = Some path ∧
    verify_backup path (st_mode self) f = Done m ∧ verify_backup_offline path f = Done m ∧
    mf_backup_id m = bk_id b ∧ bk_checksum_sha256 b = Some (mf_checksum_sha256 m) ∧
    bk_last_event_sequence b = Some (mf_last_event_sequence m).
Proof.
  intros Hnew Hsteps Hb Hc.
  destruct (disk_steps_guarded _ _ Hsteps (new_guarded f0 _ Hnew)) as [Hsaved _ _ _ _].
  destruct (Hsaved b Hb Hc) as (d0 & m & Hs). exists (file_of (bk_id b) "manifest.json"), m.
  split; [apply Hs|]. split; [eapply saved_verifies; [exact Hs|by right]|].
  split; [eapply saved_verifies; [exact Hs|by left]|]. destruct Hs. naive_solver.
Qed.

(** C22. No event of live trading is lost.  When [prune_events] removes an event in
    live mode, a COMPLETE backup that verifies has it: the database in the file
    of that backup can be read, and holds the event. *)
Theorem pruned_events_are_saved s0 f0 s f e :
  new_database (db s0) → rtc disk_step (s0, f0) (s, f) → st_mode self = Live →
  e ∈ execution_events (db s) → e ∉ execution_events (db (prune_events self s).2) →
  ∃ b m manifest path data version d,
    b ∈ backups (db s) ∧ bk_state b = "COMPLETE" ∧ bk_manifest_path b = Some manifest ∧
    verify_backup manifest Live f = Done m ∧ bk_database_path b = Some path ∧
    f !! path = Some data ∧ read_database data = Some (version, d) ∧ e ∈ execution_events d.
Proof.
  intros Hnew Hsteps Hlive He Hgone.
  destruct (disk_steps_guarded _ _ Hsteps (new_guarded f0 _ Hnew)) as [Hsaved _ _ _ _].
  destruct (prune_events_effect self s) as [E|(Hpos & Hcover & E)]; rewrite E in Hgone; [done|].
  specialize (Hcover Hlive). cbn in Hgone. rewrite elem_of_filter_b in Hgone.
  destruct (sequence e <=? _) eqn:Hcut; [apply Z.leb_le in Hcut|naive_solver].
  unfold backed_up_through in Hcover.
  destruct (list_max (omap _ _)) as [z|] eqn:Hz; cbn [from_option id] in Hcover; [|lia].
  apply list_max_elem, list_elem_of_omap in Hz as (b & [Hc Hb]%elem_of_filter_b & Hlast).
  apply bool_decide_eq_true in Hc. destruct (Hsaved b Hb Hc) as (d0 & m & Hs).
  exists b, m, (file_of (bk_id b) "manifest.json"), (file_of (bk_id b) "sqlite3"),
    (vacuum_into schema_version d0), schema_version, d0.
  split; [done|]. split; [done|]. split; [apply Hs|].
  split; [rewrite <-Hlive; eapply saved_verifies; [exact Hs|by right]|].
  split; [apply Hs|]. split; [apply Hs|]. split; [apply read_vacuum|].
  apply Hs; [done|]. destruct (sv_sequence _ _ _ _ _ Hs) as [_ Hl]. rewrite Hlast in Hl.
  injection Hl as Hl. lia.
Qed.
End proofs.

(** ** Witnesses *)
Section witnesses.
#[local] Existing Instance RefOps.
#[local] Existing Instance RefLaws.
#[local] Existing Instance RefPlatform.
#[local] Existing Instance RefCodec.

(** A file is the value that was written. *)
#[local] Instance FixFormats : BackupFormats := {|
  Bytes := (Z * Db) + (BackupManifest + string);
  vacuum_into v d := inl (v, d);
  read_database data := match data with inl vd => Some vd | inr _ => None end;
  manifest_to_json m := inr (inl m);
  manifest_from_json data := match data with inr (inl m) => Some m | _ => None end;
  sha256_file _ := "digest";
  file_length _ := 0;
|}.
Lemma digits_plain n c : c ∈ digits_of n → c ≠ "."%char ∧ c ≠ "/"%char.
Proof.
  unfold digits_of. induction (N.to_uint n); cbn; intros Hc; set_unfold;
    destruct_or?; subst; auto; done.
Qed.
#[local] Instance fix_backup_laws : BackupLaws.
Proof.
  split; [done|done|..].
  - intros id id' E. cbn in E. unfold ref_nat_to_string in E.
    assert (digits_of id = digits_of id') as Ed.
    { apply (f_equal list_ascii_of_string) in E.
      by rewrite !Stdlib.Strings.String.list_ascii_of_string_of_list_ascii in E. }
    pose proof (digits_value_padded 0 id) as H1. pose proof (digits_value_padded 0 id') as H2.
    cbn in H1, H2. congruence.
  - intros id. cbn. unfold ref_nat_to_string.
    rewrite Stdlib.Strings.String.list_ascii_of_string_of_list_ascii.
    split; intros Hin%digits_plain; tauto.
Qed.

(** Live trading, which keeps one event: a request is admitted, and a backup made. *)
Definition live_store : Store := mkStore Live 1.
Definition live_start : Sys :=
  let s := fix_sys "READY" in
  s <| db := db s <| instance_metadata := Some (mkInstanceRow "live" 137 2 None None 0) |> |>.
Definition live_admitted : Sys := (admit_intent live_store "actor" "key" fix_request live_start).2.
Definition live_backing_up : Sys := (start_backup_inner live_store (Done tt) None live_admitted).2.
Definition live_backup_id : Uuid :=
  match backups (db live_backing_up) with b :: _ => bk_id b | [] => 0%N end.
Definition live_saved : Sys * Disk :=
  (run_backup_on_disk live_store "backups" 3 (λ _, Done tt) (λ _, inr (inr "torn")) live_backup_id
    (live_backing_up, ∅)).2.
Definition live_backup : BackupRecord :=
  match backups (db live_saved.1) with
  | b :: _ => b
  | [] => mkBackupRecord 0%N "" None None None None None 0 0
  end.
Definition live_event : ExecutionEvent :=
  match execution_events (db live_saved.1) with
  | e :: _ => e
  | [] => mkExecutionEvent 0 "" "" "" Live "" 0
  end.

Lemma run_backup_unit self A m (a b : A) : is_run_backup self A m → a = b.
Proof. intros Hm. revert a b. destruct Hm. by intros [] []. Qed.
Lemma live_steps :
  rtc (disk_step live_store "backups" 3) (live_start, ∅) (live_saved.1, live_saved.2).
Proof.
  apply (rtc_l _ _ (live_admitted, ∅)).
  { apply (Disk_store _ _ _ (live_start, ∅)); [apply Op_admit|].
    intros Hm. discriminate (run_backup_unit _ _ _ (Created fix_intent) (AlreadyAdmitted fix_intent) Hm). }
  apply (rtc_l _ _ (live_backing_up, ∅)).
  { apply (Disk_store _ _ _ (live_admitted, ∅)); [apply Op_start_backup|].
    intros Hm. discriminate (run_backup_unit _ _ _ live_backup
      (mkBackupRecord 1%N "x" None None None None None 0 0) Hm). }
  apply rtc_once. rewrite <-surjective_pairing.
  apply (Disk_backup live_store "backups" 3 (live_backing_up, ∅)).
Qed.
Lemma live_start_new : new_database live_store (db live_start).
Proof. split_and!; try reflexivity. by intros row [= <-]. Qed.
Lemma live_backup_in : live_backup ∈ backups (db live_saved.1).
Proof. apply (list_elem_of_lookup_2 _ 0). vm_compute. reflexivity. Qed.

Lemma complete_backup_verifies_witness :
  bk_state live_backup = "COMPLETE" ∧
  ∃ path m, bk_manifest_path live_backup = Some path ∧
    verify_backup path Live live_saved.2 = Done m ∧ verify_backup_offline path live_saved.2 = Done m ∧
    mf_backup_id m = bk_id live_backup ∧
    bk_checksum_sha256 live_backup = Some (mf_checksum_sha256 m) ∧
    bk_last_event_sequence live_backup = Some (mf_last_event_sequence m).
Proof.
  split; [vm_compute; reflexivity|].
  apply (complete_backup_verifies live_store "backups" 3 live_start ∅ live_saved.1 live_saved.2).
  - apply live_start_new.
  - apply live_steps.
  - apply live_backup_in.
  - vm_compute. reflexivity.
Defined.

Lemma live_event_in : live_event ∈ execution_events (db live_saved.1).
Proof. apply (list_elem_of_lookup_2 _ 0). vm_compute. reflexivity. Qed.
Lemma live_event_pruned :
  live_event ∉ execution_events (db (prune_events live_store live_saved.1).2).
Proof.
  intros Hin. apply (list_elem_of_fmap_2 sequence) in Hin. revert Hin.
  apply (bool_decide_unpack (_ ∉ _)). vm_compute. exact I.
Qed.
Lemma pruned_events_are_saved_witness :
  ∃ b m manifest path data version d,
    b ∈ backups (db live_saved.1) ∧ bk_state b = "COMPLETE" ∧ bk_manifest_path b = Some manifest ∧
    verify_backup manifest Live live_saved.2 = Done m ∧ bk_database_path b = Some path ∧
    live_saved.2 !! path = Some data ∧ read_database data = Some (version, d) ∧
    live_event ∈ execution_events d.
Proof.
  apply (pruned_events_are_saved live_store "backups" 3 live_start ∅ live_saved.1 live_saved.2).
  - apply live_start_new.
  - apply live_steps.
  - reflexivity.
  - apply live_event_in.
  - apply live_event_pruned.
Defined.
End witnesses.
