(* ===== verification/Service.v ===== *)
(** * Service: opening the database, and a run of [serve] from its start to its end

    [Store::open] (store.rs), [ExecutionCoordinator::start] with the loops of its
    tasks (execution.rs), and [serve] (main.rs), which puts the parts together: the
    checks of the files, the database, the venue of the mode, the startup of the
    coordinator, the service itself, and its end.  What the operating system
    answers to each call is an argument. *)
From Stdlib Require Import Ascii.
From S2P Require Import Prelude Text DecimalSpec RefDecimal Json Platform Domain Venue Fixtures Risk Schema StoreIntents StoreRisk StoreOrders StoreControl StorePaper StoreQueries StoreFixtures StoreLogic PaperVenue Config Auth Lifecycle OrderHistory History Events Outbox Control Coordinator CoordinatorSteps CoordinatorHistory CoordinatorFixtures PaperInterface Polymarket LiveVenue Main.

(** ** Opening the database *)

(** What the calls of [Store::open] answer, in their order: the directory of the
    database, the lock file, its permissions, the lock, the connection, the
    migrations, and the permissions of the database files. *)
Record OpenIO : Type := mkOpenIO {
  io_create_dir : outcome string ();
  io_open_lock : outcome string ();
  io_restrict_lock : outcome string ();
  io_lock_free : bool;
  io_connect : outcome DbError ();
  io_migrated : bool;
  io_harden : outcome string ();
}.
Definition io_done : OpenIO := mkOpenIO (Done tt) (Done tt) (Done tt) true (Done tt) true (Done tt).

(** The fields of the configuration that the database is bound to. *)
Definition identity_of (p : PolymarketConfig) : Identity :=
  mkIdentity (chain_id p) (expected_protocol p) (cfg_signer_address p) (cfg_funder_address p).

Section open.
Context `{DecimalOps} `{Platform} `{Codec}.

Definition try_lock (path : string) (free : bool) : outcome StoreError () :=
  if free then Done tt else Failed (StoreError.AlreadyLocked path).
Definition migrate (migrated : bool) : outcome StoreError () :=
  if migrated then Done tt else Failed StoreError.Migration.

Definition store_open (io : OpenIO) (storage : StorageConfig) (mode : Mode)
    (polymarket : PolymarketConfig) : Prog Sys StoreError Store :=
  lift (map_err StoreError.Io (io_create_dir io));;
  lift (map_err StoreError.Io (io_open_lock io));;
  lift (map_err StoreError.Io (io_restrict_lock io));;
  lift (try_lock (database_path storage +:+ ".lock") (io_lock_free io));;
  lift (map_err StoreError.Database (io_connect io));;
  lift (migrate (io_migrated io));;
  check_legacy_exposure;;
  let store := mkStore mode (cfg_event_retention storage) in
  bind_identity store (identity_of polymarket);;
  lift (map_err StoreError.Io (io_harden io));;
  mret store.
End open.

(** What the row of a database says, and a configuration that fits it: in paper mode the
    addresses are free. *)
Record bound_to (mode : Mode) (p : PolymarketConfig) (row : InstanceRow) : Prop := {
  bound_mode : im_mode row = Mode_to_string mode;
  bound_chain : im_chain_id row = chain_id p;
  bound_width : chain_id p <= i64_max;
  bound_protocol : im_protocol_version row = expected_protocol p;
  bound_addresses : mode = Live →
    im_signer_address row = cfg_signer_address p ∧ im_funder_address row = cfg_funder_address p;
}.
(** Two configurations for the same account. *)
Record same_account (mode : Mode) (p : PolymarketConfig) (mode' : Mode) (p' : PolymarketConfig)
    : Prop := {
  same_mode : mode' = mode;
  same_chain : chain_id p' = chain_id p;
  same_protocol : expected_protocol p' = expected_protocol p;
  same_addresses : mode = Live →
    cfg_signer_address p' = cfg_signer_address p ∧ cfg_funder_address p' = cfg_funder_address p;
}.

(** ** The venue of the mode *)

(** [Arc<dyn ExecutionVenue>]: which venue a configuration gets, and its [new]. *)
Class VenueFactory `{DecimalOps} (V : Type) : Type := {
  venue_of : Store → Config → ExecutionVenue (Sys * V);
  venue_new : Store → Config → Prog (Sys * V) VenueError ();
}.

(** A venue whose state is a part of [W]. *)
Section part.
Context `{DecimalOps} {V W : Type} (part : W → V) (set_part : V → W → W).
Definition on_part {A} (m : Prog (Sys * V) VenueError A) : Prog (Sys * W) VenueError A := λ sw,
  let '(r, sv) := m (sw.1, part sw.2) in (r, (sv.1, set_part sv.2 sw.2)).
Definition part_venue (venue : ExecutionVenue (Sys * V)) : ExecutionVenue (Sys * W) := {|
  market_rules c t := on_part (market_rules c t);
  order_book t := on_part (order_book t);
  prepare i r := on_part (prepare i r);
  submit p r := on_part (submit p r);
  cancel v := on_part (cancel v);
  find_order d := on_part (find_order d);
  venue_reconcile := on_part venue_reconcile;
  heartbeat := on_part heartbeat;
  requires_heartbeat := requires_heartbeat;
  reconciliation_required sw := reconciliation_required (sw.1, part sw.2);
|}.
End part.

(** The two venues of [serve]; a binary without the feature has no live one. *)
Section factory.
Context `{DecimalOps} `{Platform} `{Codec} `{Environment} `{PaperMarket} `{!PolymarketSdk} `{!KeyFile}.
Notation VenueState := (PaperState * PolymarketState)%type.
(** What becomes of the client of the WebSocket URL. *)
Variable ws_client : string → option string.

Definition paper_url (config : Config) : string :=
  trim_end_matches "/" (clob_url (polymarket config)).
Definition serve_venue (st : Store) (config : Config) : ExecutionVenue (Sys * VenueState) :=
  match cfg_mode config with
  | Paper => part_venue fst (λ p v, (p, v.2)) (PaperVenue st (paper_url config))
  | Live =>
      if live_feature then part_venue snd (λ l v, (v.1, l)) (PolymarketVenue (polymarket config))
      else NotCompiledVenue
  end.
Definition serve_venue_new (st : Store) (config : Config) : Prog (Sys * VenueState) VenueError () :=
  match cfg_mode config with
  | Paper => on_part fst (λ p v, (p, v.2))
      (paper_new st (Config.paper config) (ws_client (websocket_url (polymarket config))))
  | Live =>
      if live_feature then on_part snd (λ l v, (v.1, l)) (live (polymarket_new (polymarket config)))
      else lift (new_not_compiled (polymarket config))
  end.
Definition ServeVenues : VenueFactory VenueState :=
  {| venue_of := serve_venue; venue_new := serve_venue_new |}.
End factory.

(** ** The tasks of the coordinator *)

(** Which of the loops that [start] spawns still run. *)
Record CoordinatorTasks : Type := mkCoordinatorTasks {
  worker : bool;
  reconciliation : bool;
  heartbeat_task : option bool;
}.
#[export] Instance CoordinatorTasks_eta : Eta CoordinatorTasks := λ t,
  mkCoordinatorTasks (worker t) (reconciliation t) (heartbeat_task t).
(** [CoordinatorTasks::shutdown] has waited for all of them. *)
Definition joined (t : CoordinatorTasks) : bool :=
  negb (worker t) && negb (reconciliation t) && negb (default false (heartbeat_task t)).

Section coordinator.
Context `{DecimalOps} `{Platform} `{Codec}.
Context {V : Type} `{Venue : !ExecutionVenue (Sys * V)}.

(** [ExecutionCoordinator::start]: the coordinator has nothing in memory. *)
Definition start (store : Store) (policy : RiskPolicy)
    : Prog (World V) string (ExecutionCoordinator * CoordinatorTasks) :=
  modify (λ w, w <| w_queue := [] |> <| w_deferred_recovery := [] |>
    <| w_last_healthy_heartbeat := None |> <| w_spawned := [] |> <| w_stopped := false |>);;
  mret (mkExecutionCoordinator store policy,
        mkCoordinatorTasks true true (if requires_heartbeat then Some true else None)).

(** The loops: each [select!] takes a turn, or sees that the flag is set and ends
    the loop.  Between two turns of a loop the others take theirs. *)
Context `{Sched : !Schedule V}.
Inductive loop_step (self : ExecutionCoordinator)
    : World V * CoordinatorTasks → World V * CoordinatorTasks → Prop :=
| Loop_worker w t :
    worker t = true → w_queue w ≠ [] → loop_step self (w, t) ((worker_turn self w).2, t)
| Loop_worker_ends w t :
    worker t = true → w_stopped w = true → loop_step self (w, t) (w, t <| worker := false |>)
| Loop_reconciliation w t :
    reconciliation t = true → loop_step self (w, t) ((reconciliation_turn self w).2, t)
| Loop_reconciliation_ends w t :
    reconciliation t = true → w_stopped w = true →
    loop_step self (w, t) (w, t <| reconciliation := false |>)
| Loop_heartbeat w t interval :
    heartbeat_task t = Some true → loop_step self (w, t) ((heartbeat_turn self interval w).2, t)
| Loop_heartbeat_ends w t :
    heartbeat_task t = Some true → w_stopped w = true →
    loop_step self (w, t) (w, t <| heartbeat_task := Some false |>)
| Loop_others w t n :
    loop_step self (w, t) (set_world (others n (w_sys w, w_venue w)) w, t).

(** While the service answers requests, their handlers call the coordinator and
    the tasks they spawn run: the tasks of the histories. *)
Inductive serving_step (self : ExecutionCoordinator)
    : World V * CoordinatorTasks → World V * CoordinatorTasks → Prop :=
| Serving_loop wt wt' : loop_step self wt wt' → serving_step self wt wt'
| Serving_request states A (m : Prog (World V) CoordinatorError A) w t :
    task self states A m → serving_step self (w, t) ((m w).2, t).
End coordinator.

(** ** A run of [serve] *)
Section serve.
Context `{DecimalOps} `{Platform} `{Codec} `{Environment}.
Context {V : Type} `{Factory : !VenueFactory V}.

(** The calls of the store, the venue and the coordinator, with [?]. *)
Definition of_store {A} (m : Prog Sys StoreError A) : Prog (World V) string A := λ w,
  let '(r, s) := m (w_sys w) in (map_err StoreError_to_string r, w <| w_sys := s |>).
Definition of_venue {A} (m : Prog (Sys * V) VenueError A) : Prog (World V) string A := λ w,
  let '(r, sv) := m (w_sys w, w_venue w) in (map_err VenueError.to_string r, set_world sv w).
Definition of_coordinator {A} (m : Prog (World V) CoordinatorError A) : Prog (World V) string A :=
  λ w, let '(r, w') := m w in (map_err CoordinatorError_to_string r, w').

(** What reading and parsing the files yields, and [--mode]. *)
Record ServeArgs : Type := mkServeArgs {
  sa_config : outcome string Config;
  sa_risk_policy : outcome string RiskPolicy;
  sa_mode : option string;
}.
Record ServeIO : Type := mkServeIO {
  si_recorder : outcome string ();
  si_bind : outcome string ();
  si_metrics_bind : outcome string ();
  si_open : OpenIO;
}.
(** What [serve] holds while it answers requests. *)
Record Running : Type := mkRunning {
  rn_config : Config;
  rn_registry : AuthRegistry;
  rn_coordinator : ExecutionCoordinator;
  rn_tasks : CoordinatorTasks;
}.

(** Up to the coordinator. *)
Definition serve_prepare (args : ServeArgs) (io : ServeIO) : Prog (World V) string Running :=
  '(config, policy, registry) ← lift (serve_config (sa_config args) (sa_risk_policy args)
    (sa_mode args));
  lift (si_recorder io);;
  lift (si_bind io);;
  lift (si_metrics_bind io);;
  store ← of_store (store_open (si_open io) (storage config) (cfg_mode config)
    (polymarket config));
  of_venue (venue_new store config);;
  '(coordinator, tasks) ← start (Venue := venue_of store config) store policy;
  mret (mkRunning config registry coordinator tasks).

Section scheduled.
Context `{Sched : !Schedule V}.
Definition running_venue (r : Running) : ExecutionVenue (Sys * V) :=
  venue_of (store (rn_coordinator r)) (rn_config r).

(** Up to the first request. *)
Definition serve_start (args : ServeArgs) (io : ServeIO) : Prog (World V) string Running :=
  running ← serve_prepare args io;
  of_coordinator (startup (Venue := running_venue running) (rn_coordinator running));;
  mret running.

(** After the last one, until the loops are waited for. *)
Definition serve_stop (running : Running) : Prog (World V) string () :=
  of_coordinator (shutdown (Venue := running_venue running) (rn_coordinator running)
    (cancel_on_halt (policy (rn_coordinator running)))).
End scheduled.
End serve.

(** ** What a process does with [serve] *)
Section runs.
Context `{DecimalOps} `{Platform} `{Codec} `{Environment}.
Context {V : Type} `{Factory : !VenueFactory V}.

Definition store_of (config : Config) : Store :=
  mkStore (cfg_mode config) (cfg_event_retention (storage config)).
(** What may go on beside the coordinator of these files: it uses the store, and does
    not take the service out of the states [K]. *)
Definition fair (K : string → Prop) (sched : Schedule V) (args : ServeArgs) : Prop :=
  ∀ config policy registry,
    serve_config (sa_config args) (sa_risk_policy args) (sa_mode args) =
      Done (config, policy, registry) →
    let self := mkExecutionCoordinator (store_of config) policy in
    lawful (Venue := venue_of (store_of config) config) self ∧
    calm (Venue := venue_of (store_of config) config) K.

(** A new process, in the world the last one has left: [serve] fails before it
    answers a request, or the process ends while it does, or while it ends, or
    [serve] returns.  The flag says that it returned [Ok]. *)
Inductive run (K : string → Prop) (w : World V) : bool → World V → Prop :=
| Run_not_started sched args io r w' :
    fair K sched args → serve_start (Sched := sched) args io (restarted w) = (r, w') →
    (∀ running, r ≠ Done running) → run K w false w'
| Run_killed sched args io running w1 w2 t :
    fair K sched args →
    serve_start (Sched := sched) args io (restarted w) = (Done running, w1) →
    rtc (serving_step (Venue := running_venue running) (rn_coordinator running))
      (w1, rn_tasks running) (w2, t) →
    run K w false w2
| Run_ended sched args io running w1 w2 t r w3 w4 t' :
    fair K sched args →
    serve_start (Sched := sched) args io (restarted w) = (Done running, w1) →
    rtc (serving_step (Venue := running_venue running) (rn_coordinator running))
      (w1, rn_tasks running) (w2, t) →
    serve_stop (Sched := sched) running w2 = (r, w3) →
    rtc (loop_step (Venue := running_venue running) (rn_coordinator running)) (w3, t) (w4, t') →
    run K w (match r with Done _ => joined t' | _ => false end) w4.
Definition runs_of (K : string → Prop) : World V → World V → Prop :=
  rtc (λ w w', ∃ returned, run K w returned w').

(** What a venue promises about its [new]: it may write its own tables. *)
Definition core (d : Db) := (view d, control_state d).
Definition bound_core (d : Db) := (core d, instance_metadata d).
Class FactoryLaws : Prop := {
  new_core st config sv :
    bound_core (db (venue_new st config sv).2.1) = bound_core (db sv.1);
}.
End runs.

(** * Theorems *)

(** ** A database has one account *)
Section identity.
Context `{DL : DecimalLaws} `{Platform} `{Codec}.

Lemma Mode_to_string_inj m m' : Mode_to_string m = Mode_to_string m' → m = m'.
Proof. by destruct m, m'. Qed.
Lemma bound_same mode p row mode' p' :
  bound_to mode p row → (bound_to mode' p' row ↔ same_account mode p mode' p').
Proof.
  intros [Hm Hc Hw Hp Ha]. split.
  - intros [Hm' Hc' Hw' Hp' Ha']. assert (mode' = mode) as -> by (apply Mode_to_string_inj; congruence).
    split; [done|congruence|congruence|]. intros Hl.
    destruct (Ha Hl), (Ha' Hl). split; congruence.
  - intros [-> Hc' Hp' Ha']. split; [done|congruence|lia|congruence|]. intros Hl.
    destruct (Ha Hl), (Ha' Hl). split; congruence.
Qed.

(** [bind_identity] of a database that is bound, and of one that is not. *)
Lemma bind_identity_again st p s row :
  instance_metadata (db s) = Some row →
  (bind_identity st (identity_of p) s).2 = s ∧
  ((bind_identity st (identity_of p) s).1 = Done tt ↔ bound_to (st_mode st) p row).
Proof.
  intros Hrow. unfold bind_identity, gets, ensure, lift, mbind, prog_bind.
  cbn [id_chain_id id_expected_protocol id_signer_address id_funder_address identity_of].
  rewrite Hrow. cbv beta iota zeta.
  destruct (bool_decide_reflect (im_mode row = Mode_to_string (st_mode st))) as [Hm|Hm]; cbn.
  2: { split; [done|]. split; [done|]. by intros []. }
  destruct (Z.leb_spec (chain_id p) i64_max) as [Hw|Hw]; cbn.
  2: { split; [done|]. split; [done|]. intros []. lia. }
  destruct (Z.eqb_spec (im_chain_id row) (chain_id p)) as [Hc|Hc]; cbn.
  2: { split; [done|]. split; [done|]. by intros []. }
  destruct (Z.eqb_spec (im_protocol_version row) (expected_protocol p)) as [Hp|Hp]; cbn.
  2: { split; [done|]. split; [done|]. by intros []. }
  destruct (bool_decide_reflect (st_mode st = Live)) as [Hl|Hl]; cbn.
  2: { split; [done|]. split; [|done]. intros _. by split. }
  destruct (bool_decide_reflect (im_signer_address row = cfg_signer_address p)) as [Hs|Hs]; cbn.
  2: { split; [done|]. split; [done|]. intros []. by destruct bound_addresses0. }
  destruct (bool_decide_reflect (im_funder_address row = cfg_funder_address p)) as [Hf|Hf]; cbn.
  2: { split; [done|]. split; [done|]. intros []. by destruct bound_addresses0. }
  split; [done|]. split; [|done]. intros _. by split.
Qed.
Lemma bind_identity_done st p s u s' :
  bind_identity st (identity_of p) s = (Done u, s') →
  ∃ row, instance_metadata (db s') = Some row ∧ bound_to (st_mode st) p row.
Proof.
  destruct (instance_metadata (db s)) as [row|] eqn:Hrow.
  - destruct (bind_identity_again st p s row Hrow) as [Es Eb]. intros E. rewrite E in Es, Eb.
    cbn in Es, Eb. subst s'. exists row. split; [done|]. apply Eb. by destruct u.
  - unfold bind_identity. intros Hb. apply bind_done in Hb as (e & s1 & He & Hb).
    apply gets_done in He as [-> ->]. rewrite Hrow in Hb. cbv zeta in Hb.
    apply bind_done in Hb as (c & s1 & Hc & Hb). apply lift_done in Hc as [Hc ->].
    apply ok_or_done in Hc. cbn in Hc.
    destruct (Z.leb_spec (chain_id p) i64_max); [|done]. injection Hc as <-.
    apply bind_done in Hb as (now & s1 & Ht & Hb). apply utc_now_done in Ht as [-> ->].
    apply modify_done in Hb as ->. eexists. split; [reflexivity|]. by split.
Qed.

(** A part of [open] that changes nothing. *)
Definition passes {A} (m : Prog Sys StoreError A) (P : Prop) s : Prop :=
  (m s).2 = s ∧ ((∃ a, (m s).1 = Done a) ↔ P).
Lemma passes_bind {A B} (m : Prog Sys StoreError A) (k : A → Prog Sys StoreError B) P Q s :
  passes m P s → (∀ a, passes (k a) Q s) → passes (m ≫= k) (P ∧ Q) s.
Proof.
  intros [Em [Dm Pm]] Hk. unfold passes, mbind, prog_bind.
  destruct (m s) as [[a|e|] s1]; cbn in *; subst s1.
  - destruct (Hk a) as [Ek [Dk Pk]]. split; [done|]. split; [|tauto]. intros Hd. split; [eauto|by apply Dk].
  - split; [done|]. split; [by intros []|]. intros [[]%Pm _]. done.
  - split; [done|]. split; [by intros []|]. intros [[]%Pm _]. done.
Qed.
Lemma passes_lift {E} (f : E → StoreError) (o : outcome E ()) s :
  passes (lift (map_err f o)) (o = Done tt) s.
Proof. split; [done|]. cbn. destruct o as [[]|e|]; cbn; split; try done; [by exists tt|by intros []..]. Qed.
Lemma passes_lock path free s : passes (lift (try_lock path free)) (free = true) s.
Proof. split; [done|]. destruct free; cbn; split; try done; [by exists tt|by intros []]. Qed.
Lemma passes_migrate migrated s : passes (lift (migrate migrated)) (migrated = true) s.
Proof. split; [done|]. destruct migrated; cbn; split; try done; [by exists tt|by intros []]. Qed.
Lemma passes_legacy s : passes check_legacy_exposure (legacy_active_exposure (db s) = 0%nat) s.
Proof.
  unfold passes, check_legacy_exposure, gets, ensure, mbind, prog_bind.
  destruct (legacy_active_exposure (db s)); cbn; (split; [done|]).
  - split; [done|by exists tt].
  - split; [intros [a Ha]|]; done.
Qed.
Lemma passes_bind_identity st p s row :
  instance_metadata (db s) = Some row →
  passes (bind_identity st (identity_of p)) (bound_to (st_mode st) p row) s.
Proof.
  intros Hrow. destruct (bind_identity_again st p s row Hrow) as [E D]. split; [exact E|].
  rewrite <-D. split; [by intros [[] ->]|by exists tt].
Qed.
Lemma passes_ret {A} (a : A) s : passes (mret a) True s.
Proof. split; [done|]. cbn. split; [done|by exists a]. Qed.

Definition io_ok (io : OpenIO) : Prop := io = io_done.
(** [Store::open] of a database that is bound. *)
Lemma store_open_again io storage mode p s row :
  instance_metadata (db s) = Some row →
  passes (store_open io storage mode p)
    (io_ok io ∧ legacy_active_exposure (db s) = 0%nat ∧ bound_to mode p row) s.
Proof.
  intros Hrow. unfold store_open.
  match goal with |- passes ?m _ _ => enough (passes m
    (io_create_dir io = Done tt ∧ io_open_lock io = Done tt ∧ io_restrict_lock io = Done tt ∧
     io_lock_free io = true ∧ io_connect io = Done tt ∧ io_migrated io = true ∧
     legacy_active_exposure (db s) = 0%nat ∧ bound_to mode p row ∧ io_harden io = Done tt ∧ True) s)
    as [E D] end.
  { split; [exact E|]. rewrite D. unfold io_ok, io_done. destruct io as [? ? ? ? ? ? ?]; cbn.
    split; [intros (-> & -> & -> & -> & -> & -> & ? & ? & -> & _)|intros ([=] & ? & ?); subst];
      split_and!; done. }
  do 4 (apply passes_bind; [apply passes_lift || apply passes_lock|intros _]).
  apply passes_bind; [apply passes_lift|intros _].
  apply passes_bind; [apply passes_migrate|intros _].
  apply passes_bind; [apply passes_legacy|intros _]. cbv zeta.
  apply passes_bind; [by apply passes_bind_identity|intros _].
  apply passes_bind; [apply passes_lift|intros _]. apply passes_ret.
Qed.
Lemma lift_bind_done {E A B} (o : outcome E A) (k : A → Prog Sys E B) s b s' :
  (lift o ≫= k) s = (Done b, s') → ∃ a, o = Done a ∧ k a s = (Done b, s').
Proof. intros (a & s1 & [Ho ->]%lift_done & Hk)%bind_done. eauto. Qed.
Lemma store_open_done io storage mode p s st s' :
  store_open io storage mode p s = (Done st, s') →
  st = mkStore mode (cfg_event_retention storage) ∧
  ∃ row, instance_metadata (db s') = Some row ∧ bound_to mode p row.
Proof.
  unfold store_open. intros Hr. do 6 apply lift_bind_done in Hr as ([] & _ & Hr).
  apply bind_done in Hr as (u & s1 & _ & Hr). cbv zeta in Hr.
  apply bind_done in Hr as (u' & s2 & Hb & Hr). apply bind_identity_done in Hb.
  apply lift_bind_done in Hr as ([] & _ & Hr). apply ret_done in Hr as [<- <-]. done.
Qed.

(** Whoever works on the database: operations of any store, and other starts. *)
Inductive database_step (s : Sys) : Sys → Prop :=
| Database_work st s' : store_step st s s' → database_step s s'
| Database_open io storage mode p : database_step s (store_open io storage mode p s).2.

Notation row_is row := (λ d, instance_metadata d = Some row).
Lemma row_lasting st row : lasting st (row_is row).
Proof. split; try done; [by intros d d' [= ? ? ? ? ? ? <-]|by intros r d ->]. Qed.
Lemma database_step_row row s s' :
  database_step s s' → instance_metadata (db s) = Some row → instance_metadata (db s') = Some row.
Proof.
  intros [st s1 [A m Hop]|io storage mode p] Hs.
  - pose proof (row_lasting st row) as HL.
    destruct (store_op_lasting st HL s A m Hop) as [[]|[[f i]|Hk]]; [..|by apply Hk].
    + assert (frames instance_metadata (prune_events st)) as -> by
        (unfold prune_events, delete_events; frame; by intros ?). done.
    + assert (frames instance_metadata (run_backup st f i)) as -> by
        (unfold run_backup, create_backup_files; frame). done.
  - by destruct (store_open_again io storage mode p s row Hs) as [-> _].
Qed.

(** C19. A database belongs to one account for good.  After [Store::open] has
    succeeded once, whatever operations and other starts follow, it changes
    nothing any more, and succeeds exactly when the calls of the system do, no
    active risk is without its quote, and the configuration has the mode, the
    chain and the protocol of the first one - in live mode the signer and the
    funder too.  So orders of paper trading never meet a live venue. *)
Theorem database_keeps_account io storage mode p s st s1 s2 io' storage' mode' p' :
  store_open io storage mode p s = (Done st, s1) → rtc database_step s1 s2 →
  let '(r, s3) := store_open io' storage' mode' p' s2 in
  s3 = s2 ∧
  ((∃ st', r = Done st') ↔
    io_ok io' ∧ legacy_active_exposure (db s2) = 0%nat ∧ same_account mode p mode' p').
Proof.
  intros (_ & row & Hrow & Hb)%store_open_done Hs.
  assert (instance_metadata (db s2) = Some row) as Hrow2.
  { clear Hb. induction Hs as [|sa sb sc Hstep _ IH]; [done|]. by apply IH, (database_step_row row sa). }
  destruct (store_open_again io' storage' mode' p' s2 row Hrow2) as [E D].
  rewrite (bound_same _ _ _ _ _ Hb) in D. by destruct (store_open io' storage' mode' p' s2).
Qed.
End identity.

(** ** A run of the service *)
Section runs.
Context `{DL : DecimalLaws} `{Platform} `{Codec} `{Environment}.
Context {V : Type} `{Factory : !VenueFactory V} `{Laws : !FactoryLaws}.

Lemma store_open_core io storage mode p : frames core (store_open io storage mode p).
Proof. unfold store_open, bind_identity, check_legacy_exposure. frame. Qed.

(** The files of a run passed, and the database is theirs. *)
Record checked (args : ServeArgs) (running : Running) (d : Db) : Prop := {
  checked_files : ∃ policy,
    serve_config (sa_config args) (sa_risk_policy args) (sa_mode args) =
      Done (rn_config running, policy, rn_registry running) ∧
    rn_coordinator running = mkExecutionCoordinator (store_of (rn_config running)) policy;
  checked_identity : ∃ row, instance_metadata d = Some row ∧
    bound_to (cfg_mode (rn_config running)) (polymarket (rn_config running)) row;
}.
(** Nothing of the business has changed. *)
Record untouched (w w' : World V) : Prop := {
  untouched_core : core (db (w_sys w')) = core (db (w_sys w));
  untouched_calls : w_calls w' = w_calls w;
}.
#[local] Instance untouched_preorder : PreOrder untouched.
Proof. split; [by split|]. intros w1 w2 w3 [] []. split; congruence. Qed.

Lemma of_store_untouched {A} (m : Prog Sys StoreError A) w :
  frames core m → untouched w (of_store m w).2.
Proof.
  intros Hm. specialize (Hm (w_sys w)). unfold of_store. destruct (m (w_sys w)). by split.
Qed.
Lemma venue_new_untouched st config w : untouched w (of_venue (venue_new st config) w).2.
Proof.
  pose proof (new_core st config (w_sys w, w_venue w)) as Hm. unfold of_venue.
  destruct (venue_new _ _ _) as [r sv]. split; [|done]. by apply (f_equal fst) in Hm.
Qed.
(** A sequence whose first part leaves the business alone. *)
Lemma untouched_bind {A B} (m : Prog (World V) string A) (k : A → Prog (World V) string B)
    (P : outcome string B → World V → Prop) w :
  untouched w (m w).2 →
  (∀ a w1, m w = (Done a, w1) → untouched w1 (k a w1).2 ∧
    ∀ r w', k a w1 = (r, w') → (∃ b, r = Done b) → P r w') →
  untouched w ((m ≫= k) w).2 ∧
  ∀ r w', (m ≫= k) w = (r, w') → (∃ b, r = Done b) → P r w'.
Proof.
  intros Hm Hk. unfold mbind, prog_bind. destruct (m w) as [[a|e|] w1]; cbn in *.
  - destruct (Hk a w1 eq_refl) as [Hu HP]. split; [by etrans|done].
  - split; [done|]. by intros r w' [= <- _] [].
  - split; [done|]. by intros r w' [= <- _] [].
Qed.
Lemma lift_untouched {A} (o : outcome string A) w : untouched w (lift o w).2.
Proof. by destruct o. Qed.

(** [serve] up to its coordinator. *)
Lemma serve_prepare_spec args io w :
  untouched w (serve_prepare args io w).2 ∧
  ∀ r w', serve_prepare args io w = (r, w') → (∃ running, r = Done running) →
    ∃ running, r = Done running ∧ checked args running (db (w_sys w')).
Proof.
  unfold serve_prepare. apply untouched_bind; [apply lift_untouched|].
  intros [[config policy] registry] w1 [Hfiles ->]%lift_done.
  do 3 (apply untouched_bind; [apply lift_untouched|]; intros ? ? [_ ->]%lift_done).
  apply untouched_bind; [apply of_store_untouched, store_open_core|].
  intros st w2 Hopen. unfold of_store in Hopen.
  destruct (store_open _ _ _ _ _) as [o s] eqn:Eo. injection Hopen as Hr <-.
  apply map_err_done in Hr. subst o. apply store_open_done in Eo as (-> & row & Hrow & Hb).
  apply untouched_bind; [apply venue_new_untouched|]. intros ? w3 Hnew.
  split; [by split|]. intros r w' [= <- <-] _. eexists. split; [reflexivity|].
  split; [by exists policy|]. exists row. split; [|done].
  pose proof (new_core (store_of config) config
    (w_sys (w <| w_sys := s |>), w_venue (w <| w_sys := s |>))) as Hm.
  unfold of_venue in Hnew. unfold store_of in Hm. destruct (venue_new _ _ _) as [r sv].
  injection Hnew as _ <-. apply (f_equal snd) in Hm. cbn in *. by rewrite Hm.
Qed.
End runs.

(** *** The start and the end of the coordinator *)
Section ends.
Context `{DL : DecimalLaws} `{Platform} `{Codec}.
Context {V : Type} `{Venue : !ExecutionVenue (Sys * V)} `{Sched : !Schedule V}.
Variable self : ExecutionCoordinator.
Hypothesis HL : lawful self.

Lemma read_halted w reason now w' :
  call_store service_state w = (Done (Halted, reason, now), w') → control_text (w_sys w') = "HALTED".
Proof.
  intros Hr. apply call_store_query in Hr; [|query].
  unfold service_state, service_state_with_revision in Hr. run_inv. cbn in *. simplify_eq.
  match goal with Hp : parse_service_state _ = Done _ |- _ => revert Hp end.
  unfold parse_service_state, control_text. by repeat case_bool_decide; simplify_eq.
Qed.
Lemma sound_after {A} K (m : Prog (World V) CoordinatorError A) w a w' :
  runs self K sound m → m w = (Done a, w') → sound (w_sys w) → sound (w_sys w').
Proof.
  intros Hm Hd Hw. eapply (kept_persistent self _ (sound_kept self)); [|exact Hw].
  apply (done_advance self K m w a w'); done.
Qed.

Notation armed := (λ t, t = "READY" ∨ t = "HALTED").
(** A startup that succeeds leaves the service READY or HALTED. *)
Lemma startup_done_state w u w' :
  calm armed → sound (w_sys w) → startup self w = (Done u, w') → armed (control_text (w_sys w')).
Proof.
  intros Hcalm Hw Hr. destruct (sound_kept self) as [HP HU]. unfold startup in Hr.
  set (K0 := λ _ : string, True). assert (K0 "HALTED") by done. assert (K0 "RECONCILING") by done.
  assert (K0 "READY") by done. assert (armed "HALTED") by by right.
  apply bind_done in Hr as (prior & w1 & E1 & Hr).
  apply bind_done in Hr as (recoverable & w2 & E2 & Hr).
  apply bind_done in Hr as ([] & w3 & E3 & Hr).
  apply (sound_after K0) in E1; [|run|done]. apply (sound_after K0) in E2; [|run|done].
  apply (sound_after K0) in E3; [|run|done].
  apply bind_done in Hr as ([[state reason] now] & w4 & E4 & Hr).
  pose proof E4 as Hw4. apply (sound_after K0) in Hw4; [|run|done].
  destruct (bool_decide_reflect (state = Halted)) as [->|Hn].
  - apply modify_done in Hr as ->. right. by apply read_halted in E4.
  - apply bind_done in Hr as ([] & w5 & E5 & Hr). pose proof E5 as Hw5.
    apply (sound_after K0) in Hw5; [|run|done]. apply set_state_done in E5.
    eapply (advance_held self armed w5 w'); [done| |split; [done|by left]].
    eapply done_advance; [|exact Hw5|exact Hr]. run.
Qed.

Notation latched := (λ t, t = "HALTED").
Lemma shutdown_done_halted c w u w' :
  calm latched → sound (w_sys w) → shutdown self c w = (Done u, w') →
  sound (w_sys w') ∧ control_text (w_sys w') = "HALTED".
Proof.
  intros Hcalm Hw Hr. destruct (sound_kept self) as [HP HU]. pose proof Hr as Hs.
  set (K0 := λ _ : string, True). assert (K0 "HALTED") by done.
  assert (K0 "SHUTTING_DOWN") by done. assert (latched "HALTED") by done.
  apply (sound_after K0) in Hs; [|run|done]. split; [done|]. unfold shutdown, reconcile in Hr.
  apply bind_done in Hr as ([] & w1 & E1 & Hr). apply bind_done in Hr as ([] & w2 & E2 & Hr).
  apply bind_done in Hr as (id & w3 & E3 & Hr). apply bind_done in Hr as ([] & w4 & E4 & Hr).
  apply (sound_after K0) in E1; [|run|done].
  apply (sound_after K0) in E2; [|unfold coordinator_cancel; run|done].
  apply (sound_after K0) in E3; [|run|done].
  pose proof E4 as Hw4. apply (sound_after K0) in Hw4; [|run|done]. apply set_state_done in E4.
  apply bind_done in Hr as ([] & w5 & E5 & Hr). apply modify_done in Hr as ->. cbn.
  eapply (advance_held self latched w4 w5); [done| |by split].
  eapply done_advance; [|exact Hw4|exact E5]. run.
Qed.

(** The loops and the requests run the tasks of the histories. *)
Lemma task_advance K states A (m : Prog (World V) CoordinatorError A) w :
  task self states A m → (∀ state, state ∈ states → K (service_state_text state)) →
  sound (w_sys w) → advance self K w (m w).2.
Proof. intros Hm HK. by apply (task_runs self (sound_kept self) HL K states A m). Qed.
Lemma loop_advance K wt wt' :
  loop_step self wt wt' → K "HALTED" → sound (w_sys wt.1) → advance self K wt.1 wt'.1.
Proof.
  intros Hstep HK Hw. destruct Hstep; cbn in *; try done.
  1-3: eapply (task_advance K [Halted]); [constructor|by intros state ->%list_elem_of_singleton|done].
  apply (world_step_advance self (sound_kept self) HL K w _ (Step_others self K w n) Hw).
Qed.
Lemma loops_advance K wt wt' :
  rtc (loop_step self) wt wt' → K "HALTED" → sound (w_sys wt.1) → advance self K wt.1 wt'.1.
Proof.
  induction 1 as [|wt wt1 wt2 Hstep _ IH]; [done|]. intros HK Hw.
  pose proof (loop_advance K _ _ Hstep HK Hw) as Hadv. etrans; [exact Hadv|]. apply IH; [done|].
  eapply (kept_persistent self _ (sound_kept self)); [apply Hadv|done].
Qed.
Lemma serving_advance wt wt' :
  rtc (serving_step self) wt wt' → sound (w_sys wt.1) → advance self (λ _, True) wt.1 wt'.1.
Proof.
  induction 1 as [|wt wt1 wt2 Hstep _ IH]; [done|]. intros Hw.
  assert (advance self (λ _, True) wt.1 wt1.1) as Hadv.
  { destruct Hstep as [wt wt' Hloop|states A m w t Htask]; [by apply loop_advance|].
    by apply (task_advance _ states A m). }
  etrans; [exact Hadv|]. apply IH.
  eapply (kept_persistent self _ (sound_kept self)); [apply Hadv|done].
Qed.
End ends.

(** *** Whole runs *)
Section whole.
Context `{DL : DecimalLaws} `{Platform} `{Codec} `{Environment}.
Context {V : Type} `{Factory : !VenueFactory V} `{Laws : !FactoryLaws}.

(** What a stretch of the life of a database does about submissions. *)
Definition follows (w w' : World V) : Prop :=
  sound (w_sys w) → sound (w_sys w') ∧ ∃ new, w_calls w' = w_calls w ++ new ∧
    ∀ id, (submits id new + journal (db (w_sys w)) id ≤ journal (db (w_sys w')) id)%nat.
#[local] Instance follows_preorder : PreOrder follows.
Proof.
  split.
  - intros w Hw. split; [done|]. exists []. by rewrite app_nil_r.
  - intros w1 w2 w3 H12 H23 Hw. destruct (H12 Hw) as (Hw2 & n12 & E12 & J12).
    destruct (H23 Hw2) as (Hw3 & n23 & E23 & J23). split; [done|]. exists (n12 ++ n23).
    split; [by rewrite E23, E12, app_assoc|]. intros id. specialize (J12 id). specialize (J23 id).
    unfold submits in *. rewrite List.filter_app, length_app. lia.
Qed.
Lemma advance_follows `{Sched : !Schedule V} (venue : ExecutionVenue (Sys * V)) self K w w' :
  (sound (w_sys w) → advance (Venue := venue) self K w w') → follows w w'.
Proof.
  intros Hadv Hw. destruct (Hadv Hw) as [Hs (new & E & J & _)]. split; [|by exists new].
  by eapply (kept_persistent self _ (sound_kept self)).
Qed.
Lemma untouched_follows w w' : untouched w w' → follows w w'.
Proof.
  intros [Hc E] Hw. split; [|exists []].
  - unfold sound in *. eapply Inv_view; [|exact Hw]. by apply (f_equal fst) in Hc.
  - rewrite app_nil_r. split; [done|]. intros id. unfold journal, submits. cbn.
    apply (f_equal (λ c, c.1.2)) in Hc. cbn in Hc. by rewrite Hc.
Qed.
Lemma restarted_untouched (w : World V) : untouched w (restarted w).
Proof. by split. Qed.

(** The coordinator of a run is the one its files name. *)
Definition fits (K : string → Prop) (sched : Schedule V) (running : Running) : Prop :=
  lawful (Venue := running_venue running) (rn_coordinator running) ∧
  calm (Venue := running_venue running) K.
Lemma checked_fits K sched args running d :
  fair K sched args → checked args running d → fits K sched running.
Proof.
  intros Hfair [(policy & Hfiles & Hself) _]. unfold fits, running_venue. rewrite Hself.
  by apply (Hfair (rn_config running) policy (rn_registry running)).
Qed.

(** C18. Nothing trades before everything is checked.  Either [serve] fails before its
    coordinator starts, and then no intent, order, reservation or service state has
    changed; or its files passed - the configuration, the policy, the two
    together, the tokens - and the database is bound to this mode and account
    when [startup] begins.  When that succeeds, the service is READY or HALTED. *)
Theorem serve_starts_checked sched args io w :
  fair (λ t, t = "READY" ∨ t = "HALTED") sched args → sound (w_sys w) →
  let '(r, w') := serve_start (Sched := sched) args io w in
  ((∀ running, r ≠ Done running) ∧ untouched w w') ∨
  ∃ running w1 started, untouched w w1 ∧ checked args running (db (w_sys w1)) ∧
    startup (Venue := running_venue running) (Sched := sched) (rn_coordinator running) w1 =
      (started, w') ∧
    ((∀ running', r ≠ Done running') ∨
     r = Done running ∧
     (control_text (w_sys w') = "READY" ∨ control_text (w_sys w') = "HALTED")).
Proof.
  intros Hfair Hw. unfold serve_start. destruct (serve_prepare_spec args io w) as [Hu Hspec].
  unfold mbind, prog_bind. destruct (serve_prepare args io w) as [[running|e|] w1]; cbn in Hu.
  2-3: by left.
  destruct (Hspec _ _ eq_refl) as (running' & [= <-] & Hchecked); [by exists running|].
  unfold of_coordinator.
  destruct (startup (Venue := running_venue running) (rn_coordinator running) w1)
    as [started w'] eqn:Hstart.
  assert (fits (λ t, t = "READY" ∨ t = "HALTED") sched running) as [HL Hcalm] by by eapply checked_fits.
  destruct started as [[]|e|]; cbn; right; exists running, w1; eexists;
    (split; [done|]; split; [done|]; split; [exact Hstart|]); [right|by left..].
  split; [done|]. eapply (startup_done_state (Venue := running_venue running)); [done..| |done].
  by apply (untouched_follows w w1).
Qed.

Lemma start_follows K sched args io w r w' :
  fair K sched args → serve_start (Sched := sched) args io w = (r, w') → follows w w'.
Proof.
  intros Hfair. unfold serve_start. destruct (serve_prepare_spec args io w) as [Hu Hspec].
  unfold mbind, prog_bind. destruct (serve_prepare args io w) as [[running|e|] w1]; cbn in Hu.
  2-3: intros [= _ <-]; by apply untouched_follows.
  destruct (Hspec _ _ eq_refl) as (running' & [= <-] & Hchecked); [by exists running|].
  assert (fits K sched running) as [HL _] by by eapply checked_fits.
  intros Hr. etrans; [by apply untouched_follows|].
  replace w' with (startup (Venue := running_venue running) (rn_coordinator running) w1).2.
  - apply (advance_follows (running_venue running) (rn_coordinator running) (λ _, True)).
    intros Hw1. apply (task_advance (Venue := running_venue running) _ HL _ _ _ _ _
      (Task_startup _)); done.
  - unfold of_coordinator in Hr. destruct (startup _ _) as [[]]; simplify_eq/=; [|done..].
    by injection Hr.
Qed.
Lemma start_fits K sched args io w running w' :
  fair K sched args → serve_start (Sched := sched) args io w = (Done running, w') →
  fits K sched running.
Proof.
  intros Hfair (running' & w1 & Hp & Hr)%bind_done.
  apply bind_done in Hr as (u & w2 & _ & Hr). apply ret_done in Hr as [-> _].
  destruct (serve_prepare_spec args io w) as [_ Hspec].
  destruct (Hspec _ _ Hp) as (? & [= <-] & Hchecked); [by eexists|]. by eapply checked_fits.
Qed.
Lemma serving_follows K sched running w t w' t' :
  fits K sched running →
  rtc (serving_step (Venue := running_venue running) (rn_coordinator running)) (w, t) (w', t') →
  follows w w'.
Proof.
  intros [HL _] Hs. apply (advance_follows (running_venue running) (rn_coordinator running)
    (λ _, True)). intros Hw. by apply (serving_advance (Venue := running_venue running) _ HL _ _ Hs).
Qed.
Lemma stop_follows K sched running w r w' :
  fits K sched running → serve_stop (Sched := sched) running w = (r, w') → follows w w'.
Proof.
  intros [HL _] Hr. unfold serve_stop, of_coordinator in Hr.
  destruct (shutdown _ _ w) as [o w1] eqn:Es. injection Hr as _ <-.
  apply (advance_follows (running_venue running) (rn_coordinator running) (λ _, True)).
  intros Hw. replace w1 with (w1) by done. rewrite <-(f_equal snd Es : _ = w1).
  by apply (task_advance (Venue := running_venue running) _ HL _ _ _ _ _ (Task_shutdown _ _)).
Qed.
Lemma loops_follow K sched running w t w' t' :
  fits K sched running →
  rtc (loop_step (Venue := running_venue running) (rn_coordinator running)) (w, t) (w', t') →
  follows w w'.
Proof.
  intros [HL _] Hs. apply (advance_follows (running_venue running) (rn_coordinator running)
    (λ _, True)). intros Hw. by apply (loops_advance (Venue := running_venue running) _ HL _ _ _ Hs).
Qed.

Lemma run_follows K w returned w' : run K w returned w' → follows w w'.
Proof.
  assert (follows w (restarted w)) as H0w by (apply untouched_follows, restarted_untouched).
  intros Hrun. destruct Hrun as [sched args io r w' Hf Hs _|sched args io rn w1 w2 t Hf Hs Hr
    |sched args io rn w1 w2 t r w3 w4 t' Hf Hs Hr He Hl].
  - etrans; [exact H0w|]. by eapply start_follows.
  - pose proof (start_fits _ _ _ _ _ _ _ Hf Hs) as Hfit. etrans; [exact H0w|].
    etrans; [by eapply start_follows|]. by eapply serving_follows.
  - pose proof (start_fits _ _ _ _ _ _ _ Hf Hs) as Hfit. etrans; [exact H0w|].
    etrans; [by eapply start_follows|]. etrans; [by eapply serving_follows|].
    etrans; [by eapply stop_follows|by eapply loops_follow].
Qed.

(** C1. Over all the runs of [serve] on a database, the venue is asked to place an
    order at most once: whatever the configuration, the policy and the schedule
    of each run, whichever calls of the system fail, and wherever a run is
    killed - before its first request, between two requests, in its shutdown. *)
Theorem serve_submits_at_most_once w w' id :
  fresh (w_sys w) → w_calls w = [] → runs_of (λ _, True) w w' →
  (submits id (w_calls w') ≤ 1)%nat.
Proof.
  intros Hf Hc Hs. assert (follows w w') as Hall.
  { clear Hf Hc. induction Hs as [|w1 w2 w3 [b Hrun] _ IH]; [done|].
    etrans; [by eapply run_follows|exact IH]. }
  destruct (Hall (fresh_inv _ Hf)) as (Hw' & new & E & J). rewrite Hc in E. cbn in E. subst new.
  pose proof (journal_at_most_once (w_sys w') id Hw'). specialize (J id). lia.
Qed.

Lemma run_returned K w w' :
  run K w true w' → ∃ sched args io running w1 w2 t u w3 t', fair K sched args ∧
    serve_start (Sched := sched) args io (restarted w) = (Done running, w1) ∧
    rtc (serving_step (Venue := running_venue running) (rn_coordinator running))
      (w1, rn_tasks running) (w2, t) ∧
    serve_stop (Sched := sched) running w2 = (Done u, w3) ∧
    rtc (loop_step (Venue := running_venue running) (rn_coordinator running)) (w3, t) (w', t') ∧
    joined t' = true.
Proof.
  remember true as returned eqn:E. intros Hrun. revert E. destruct Hrun as [| |sched args io running w1 w2 t r w3 w4 t' Hf Hs Hr He Hl];
    [done..|]. destruct r as [u|e|]; [|done..]. intros E.
  by exists sched, args, io, running, w1, w2, t, u, w3, t'.
Qed.

(** C17. A service that has ended in order waits for an operator.  When [serve]
    returns without an error, the loops have ended and the service is HALTED;
    and the next start of [serve], whatever its configuration, and whether or not
    it succeeds, leaves it HALTED and submits nothing. *)
Theorem serve_returns_halted w w1 sched args io :
  run (λ t, t = "HALTED") w true w1 → sound (w_sys w) → fair (λ t, t = "HALTED") sched args →
  let '(r, w2) := serve_start (Sched := sched) args io (restarted w1) in
  control_text (w_sys w1) = "HALTED" ∧ control_text (w_sys w2) = "HALTED" ∧
  ∀ id, submits id (w_calls w2) = submits id (w_calls w1).
Proof.
  intros Hrun Hw Hfair. assert (sound (w_sys w1)) as Hw1 by (by apply (run_follows _ _ _ _ Hrun)).
  assert (control_text (w_sys w1) = "HALTED") as Hh.
  { apply run_returned in Hrun as (sched' & args' & io' & rn & wa & wb & t & u & wc & t' & Hf & Hs
      & Hr & He & Hl & _).
    pose proof (start_fits _ _ _ _ _ _ _ Hf Hs) as [HL Hcalm].
    unfold serve_stop, of_coordinator in He. destruct (shutdown _ _ _) as [o wc'] eqn:Es.
    injection He as Ho ->. apply map_err_done in Ho as ->.
    assert (sound (w_sys wb)) as Hwb.
    { eapply serving_follows; [by split|exact Hr|]. eapply start_follows; [exact Hf|exact Hs|done]. }
    apply (shutdown_done_halted (Venue := running_venue rn) _ HL _ _ _ _ Hcalm Hwb) in Es
      as [Hwc Hhc].
    apply (loops_advance (Venue := running_venue rn) _ HL (λ t, t = "HALTED")) in Hl; [|done..].
    by apply (latched_advance (Venue := running_venue rn) (rn_coordinator rn)) in Hl as [? _]. }
  unfold serve_start. destruct (serve_prepare_spec args io (restarted w1)) as [Hu Hspec].
  unfold mbind, prog_bind.
  destruct (serve_prepare args io (restarted w1)) as [[running|e|] w2]; cbn in Hu.
  2-3: destruct Hu as [Huc ->]; split; [done|]; split; [|done];
    apply (f_equal snd) in Huc; unfold control_text; cbn in Huc; by rewrite Huc.
  destruct (Hspec _ _ eq_refl) as (running' & [= <-] & Hchecked); [by exists running|].
  assert (fits (λ t, t = "HALTED") sched running) as [HL Hcalm] by by eapply checked_fits.
  assert (control_text (w_sys w2) = "HALTED") as Hh2.
  { destruct Hu as [Huc _]. apply (f_equal snd) in Huc. unfold control_text. cbn in Huc.
    by rewrite Huc. }
  assert (sound (w_sys w2)) as Hw2 by (by apply (untouched_follows _ _ Hu)).
  pose proof (startup_halted (Venue := running_venue running) (rn_coordinator running) w2 HL Hcalm
    (conj Hw2 Hh2)) as Hadv.
  apply (latched_advance (Venue := running_venue running)) in Hadv as [Hh3 Hn]; [|done..].
  destruct Hu as [_ Huc]. unfold of_coordinator. cbn in Huc. revert Hh3 Hn.
  destruct (startup _ _) as [[[]|e|] w3]; cbn; intros Hh3 Hn; (split; [done|]; split; [done|]);
    intros id; by rewrite Hn, Huc.
Qed.
End whole.

(** ** The venues of [serve] keep the contract *)
Section venues.
Context `{DL : DecimalLaws} `{Platform} `{Codec} `{Environment} `{PaperMarket} `{!PolymarketSdk} `{!KeyFile}.
Variable ws_client : string → option string.
Notation VenueState := (PaperState * PolymarketState)%type.

Lemma paper_new_core st config e sv :
  bound_core (db (paper_new st config e sv).2.1) = bound_core (db sv.1).
Proof.
  unfold paper_new, mbind at 1, prog_bind at 1, ledger at 1.
  assert (frames bound_core (initialize_paper_account st config)) as Hf.
  { unfold initialize_paper_account, paper_only, set_account, insert_starting_position. frame. }
  specialize (Hf sv.1). destruct (initialize_paper_account st config sv.1) as [[u|er|] s]; cbn in *;
    [|done..]. destruct e; cbn; [done|]. unfold mbind, prog_bind. cbn.
  by rewrite subscribe_active_silent.
Qed.
Lemma on_part_sys {U W A} (part : W → U) set_part (m : Prog (Sys * U) VenueError A) sw :
  (on_part part set_part m sw).2.1 = (m (sw.1, part sw.2)).2.1.
Proof. unfold on_part. by destruct (m _). Qed.
Lemma live_sys {A} (m : Prog PolymarketState VenueError A) sv : (live m sv).2.1 = sv.1.
Proof. unfold live. by destruct (m sv.2). Qed.

#[export] Instance ServeVenues_laws : FactoryLaws (Factory := ServeVenues ws_client).
Proof.
  split. intros st config sv. cbn. unfold serve_venue_new. destruct (cfg_mode config).
  - rewrite on_part_sys. apply paper_new_core.
  - destruct live_feature; [|done]. by rewrite on_part_sys, live_sys.
Qed.

(** A venue does what its part does. *)
Definition venue_paths {U} (venue : ExecutionVenue (Sys * U)) (R : Sys → Sys → Prop) : Prop :=
  (∀ c t sv, R sv.1 (market_rules c t sv).2.1) ∧ (∀ t sv, R sv.1 (order_book t sv).2.1) ∧
  (∀ i r sv, R sv.1 (prepare i r sv).2.1) ∧ (∀ p r sv, R sv.1 (submit p r sv).2.1) ∧
  (∀ v sv, R sv.1 (cancel v sv).2.1) ∧ (∀ d sv, R sv.1 (find_order d sv).2.1) ∧
  (∀ sv, R sv.1 (venue_reconcile sv).2.1) ∧ (∀ sv, R sv.1 (heartbeat sv).2.1).
Lemma part_paths {U W} (part : W → U) set_part venue R :
  venue_paths venue R → venue_paths (part_venue part set_part venue) R.
Proof.
  intros (? & ? & ? & ? & ? & ? & ? & ?). unfold venue_paths.
  split_and!; intros; cbn; rewrite on_part_sys;
    match goal with |- R ?s (?m (?s, ?u)).2.1 => change s with ((s, u).1) at 1 end; eauto.
Qed.
Lemma still_paths {U} (venue : ExecutionVenue (Sys * U)) (R : Sys → Sys → Prop) :
  (∀ s, R s s) → venue_paths venue (λ s s', s' = s) → venue_paths venue R.
Proof.
  intros HR (E1 & E2 & E3 & E4 & E5 & E6 & E7 & E8). unfold venue_paths.
  split_and!; intros; rewrite ?E1, ?E2, ?E3, ?E4, ?E5, ?E6, ?E7, ?E8; apply HR.
Qed.
Lemma paper_paths st url :
  venue_paths (PaperVenue st url) (λ s s', rtc (store_step st) s s' ∧
    control_state (db s') = control_state (db s)).
Proof.
  unfold venue_paths. split_and!.
  - intros c t. apply market_rules_tame.
  - intros t. apply order_book_tame.
  - intros i r. by apply tame_ret.
  - intros p r. apply submit_tame.
  - intros v. apply cancel_tame.
  - intros d. apply find_order_tame.
  - apply reconcile_tame.
  - apply heartbeat_tame.
Qed.
Lemma serve_venue_paths st config :
  venue_paths (serve_venue st config) (λ s s', rtc (store_step st) s s' ∧
    control_state (db s') = control_state (db s)).
Proof.
  unfold serve_venue. destruct (cfg_mode config); [apply part_paths, paper_paths|].
  destruct live_feature; [apply part_paths|]; (apply still_paths; [done|]).
  - unfold venue_paths. split_and!; intros; apply live_sys.
  - unfold venue_paths. by split_and!; intros.
Qed.

(** The venue that [serve] picks for a configuration is one the coordinator can rely
    on: a run is [fair] as soon as what goes on beside the coordinator is. *)
Lemma serve_venue_fair K (sched : Schedule VenueState) args :
  (∀ config policy registry,
    serve_config (sa_config args) (sa_risk_policy args) (sa_mode args) =
      Done (config, policy, registry) →
    let self := mkExecutionCoordinator (store_of config) policy in
    (∀ n, store_path self (others n)) ∧
    (∀ n limit cut, deadline n limit = Some cut → store_path self cut)) →
  (∀ n, stays K (others n)) →
  (∀ n limit cut, deadline n limit = Some cut → stays K cut) →
  fair (Factory := ServeVenues ws_client) K sched args.
Proof.
  intros Hp Hk Hkd config policy registry Hfiles. cbv zeta.
  destruct (Hp _ _ _ Hfiles) as [Ho Hd].
  destruct (serve_venue_paths (store_of config) config) as (E1 & E2 & E3 & E4 & E5 & E6 & E7 & E8).
  split; split; try done; intros; intros sv; cbn;
    try (intros HK; unfold control_text in *;
         match goal with |- K (ct_state (control_state (db ?s))) =>
           enough (control_state (db s) = control_state (db sv.1)) as -> by done end);
    first [apply E1|apply E2|apply E3|apply E4|apply E5|apply E6|apply E7|apply E8].
Qed.
End venues.

(** ** Witnesses: a run with the paper venue *)
Section witnesses.
#[local] Existing Instance RefOps.
#[local] Existing Instance RefLaws.
#[local] Existing Instance RefPlatform.
#[local] Existing Instance CoordinatorCodec.
#[local] Existing Instance MainEnvironment.
#[local] Existing Instance FixMarket.
#[local] Existing Instance FixSdk.
#[local] Instance NoKey : KeyFile := {|
  link_metadata _ := None;
  open_succeeds _ := false;
  opened_metadata _ := None;
  current_path_metadata _ := None;
  read_key _ _ := None;
  read_more _ := None;
  from_utf8 _ := None;
  LiveSigner := ();
  private_key_from_str _ := None;
  live_signer_address _ := 0%N;
|}.
Notation VenueState := (PaperState * PolymarketState)%type.
#[local] Instance FixVenues : VenueFactory VenueState := ServeVenues (λ _, None).

Definition fix_paper_config : Config :=
  mkConfig Paper ServerConfig_default (storage fix_live_config) (mkPaperConfig "100" [])
    (mkPolymarketConfig "http://clob/" default_websocket_url default_data_api_url
      default_geoblock_url default_expected_protocol default_chain_id None None None
      default_reconcile_seconds default_geoblock_seconds default_heartbeat_seconds) [fix_entry].
Definition fix_args : ServeArgs :=
  mkServeArgs (Done fix_paper_config) (Done fix_listed_policy) None.
Definition fix_io : ServeIO := mkServeIO (Done tt) (Done tt) (Done tt) io_done.
(** At the step 1000 a client's request is admitted. *)
#[local] Instance FixServing : Schedule VenueState := {|
  stops _ := false;
  others n sv := if (n =? 1000)%nat
    then ((admit_intent fix_store "actor" "key" fix_request sv.1).2, sv.2) else sv;
  deadline _ _ := None;
  wall_clock _ := fix_now;
  instant_clock _ := 0;
|}.

Definition fix_files : outcome string (Config * RiskPolicy * AuthRegistry) :=
  serve_config (sa_config fix_args) (sa_risk_policy fix_args) (sa_mode fix_args).
Lemma fix_files_done : fix_files = Done (fix_paper_config, fix_listed_policy, fix_registry).
Proof. vm_compute. reflexivity. Qed.
Lemma fix_fair K : fair K FixServing fix_args.
Proof.
  apply serve_venue_fair.
  - intros config policy registry Hfiles. change (fix_files = Done (config, policy, registry)) in Hfiles.
    rewrite fix_files_done in Hfiles. injection Hfiles as <- <- <-. split; [|done].
    intros n sv. cbn [others FixServing]. destruct (n =? 1000)%nat; [|done].
    apply rtc_once, Store_step, Op_admit.
  - intros n sv Hk. cbn [others FixServing]. destruct (n =? 1000)%nat; [|done].
    apply (keeps_control K (admit_intent fix_store "actor" "key" fix_request)); [|exact Hk].
    unfold_op. frame.
  - done.
Qed.

(** A new database; a service starts, trades, and stops in order. *)
Definition new_service : World VenueState :=
  mkWorld (fix_sys "STARTING")
    (mkPaperState ∅ ∅ 0, mkPolymarketState ∅ ∅ None 0 0 0 0 None 0 []) [] [] None [] false [] 0.
Notation service_started := (serve_start fix_args fix_io (restarted new_service)).
Definition fix_running : Running :=
  mkRunning fix_paper_config fix_registry (mkExecutionCoordinator fix_store fix_listed_policy)
    (mkCoordinatorTasks true true (Some true)).
Lemma service_started_done : service_started.1 = Done fix_running.
Proof. vm_cast_no_check (eq_refl (Done fix_running : outcome string Running)). Qed.
#[local] Instance fix_venue : ExecutionVenue (Sys * VenueState) := running_venue fix_running.
Notation fix_self := (rn_coordinator fix_running).

Definition service_admitted : World VenueState :=
  set_world (others 1000 (w_sys service_started.2, w_venue service_started.2)) service_started.2.
Definition service_id : Uuid :=
  match intents (db (w_sys service_admitted)) with r :: _ => int_id r | [] => 0%N end.
Definition service_queued : World VenueState := (enqueue service_id service_admitted).2.
Definition service_traded : World VenueState := (worker_turn fix_self service_queued).2.
Notation service_stopped := (serve_stop fix_running service_traded).
Definition service_end : World VenueState := service_stopped.2.
Example service_trades :
  ((λ i : IntentRow, int_state i) <$> intents (db (w_sys service_traded)),
   (λ o : OrderRow, ord_state o) <$> orders (db (w_sys service_end)),
   control_text (w_sys service_traded), control_text (w_sys service_end)) =
  ([IntentState.Submitted], [OrderState.Cancelled], "READY", "HALTED").
Proof. vm_compute. reflexivity. Qed.

Notation at_work := (rn_tasks fix_running).
Lemma service_admits : serving_step fix_self (service_started.2, at_work) (service_admitted, at_work).
Proof. apply Serving_loop, Loop_others. Qed.
Lemma service_queues : serving_step fix_self (service_admitted, at_work) (service_queued, at_work).
Proof. exact (Serving_request fix_self _ _ _ service_admitted _ (Task_enqueue fix_self service_id)). Qed.
Lemma service_works : serving_step fix_self (service_queued, at_work) (service_traded, at_work).
Proof.
  assert (w_queue service_queued ≠ []) as Hq by (vm_compute; discriminate).
  exact (Serving_loop fix_self _ _ (Loop_worker fix_self service_queued at_work eq_refl Hq)).
Qed.
Lemma service_serves :
  rtc (serving_step fix_self) (service_started.2, at_work) (service_traded, at_work).
Proof.
  eapply rtc_l; [exact service_admits|]. eapply rtc_l; [exact service_queues|].
  apply rtc_once, service_works.
Qed.
Lemma service_joins :
  rtc (loop_step fix_self) (service_end, rn_tasks fix_running)
    (service_end, mkCoordinatorTasks false false (Some false)).
Proof.
  assert (w_stopped service_end = true) as Hs by (vm_compute; reflexivity).
  eapply rtc_l; [by apply Loop_worker_ends|]. eapply rtc_l; [by apply Loop_reconciliation_ends|].
  apply rtc_once. by apply Loop_heartbeat_ends.
Qed.
Lemma service_stopped_done : service_stopped.1 = Done tt.
Proof. vm_compute. reflexivity. Qed.
Lemma fst_is {A B} (p : A * B) a : p.1 = a → p = (a, p.2).
Proof. by destruct p; intros <-. Qed.
Lemma service_runs K : run K new_service true service_end.
Proof.
  apply (Run_ended K new_service FixServing fix_args fix_io fix_running service_started.2
    service_traded (rn_tasks fix_running) (Done tt) service_end service_end
    (mkCoordinatorTasks false false (Some false))).
  - apply fix_fair.
  - exact (fst_is service_started _ service_started_done).
  - apply service_serves.
  - exact (fst_is service_stopped _ service_stopped_done).
  - apply service_joins.
Qed.

Lemma serve_submits_at_most_once_witness :
  submits 36%N (w_calls service_end) = 1%nat ∧ (submits 36%N (w_calls service_end) ≤ 1)%nat.
Proof.
  split; [vm_compute; reflexivity|].
  apply (serve_submits_at_most_once new_service service_end).
  - vm_compute. reflexivity.
  - reflexivity.
  - apply rtc_once. exists true. apply service_runs.
Defined.

Lemma serve_returns_halted_witness :
  let '(r, w2) := serve_start fix_args fix_io (restarted service_end) in
  control_text (w_sys service_end) = "HALTED" ∧ control_text (w_sys w2) = "HALTED" ∧
  ∀ id, submits id (w_calls w2) = submits id (w_calls service_end).
Proof.
  apply (serve_returns_halted new_service service_end FixServing fix_args fix_io).
  - apply service_runs.
  - apply fresh_inv. vm_compute. reflexivity.
  - apply fix_fair.
Defined.

Lemma serve_starts_checked_witness :
  (serve_start fix_args fix_io (restarted new_service)).1 = Done fix_running ∧
  let '(r, w') := serve_start fix_args fix_io (restarted new_service) in
  ((∀ running, r ≠ Done running) ∧ untouched (restarted new_service) w') ∨
  ∃ running w1 started, untouched (restarted new_service) w1 ∧
    checked fix_args running (db (w_sys w1)) ∧
    startup (Venue := running_venue running) (rn_coordinator running) w1 = (started, w') ∧
    ((∀ running', r ≠ Done running') ∨
     r = Done running ∧
     (control_text (w_sys w') = "READY" ∨ control_text (w_sys w') = "HALTED")).
Proof.
  split; [exact service_started_done|].
  apply (serve_starts_checked FixServing fix_args fix_io (restarted new_service)).
  - apply fix_fair.
  - apply fresh_inv. vm_compute. reflexivity.
Defined.

(** The database of the paper service, halted meanwhile, and a live configuration. *)
Definition opened : Sys :=
  final (store_open io_done (storage fix_paper_config) Paper (polymarket fix_paper_config))
    (fix_sys "STARTING").
Definition opened_halted : Sys := final (set_service_state fix_store "operator" Halted "pause") opened.
Lemma database_keeps_account_witness :
  let '(r, s3) := store_open io_done (storage fix_live_config) Live (polymarket fix_live_config)
    opened_halted in
  s3 = opened_halted ∧
  ((∃ st', r = Done st') ↔
    io_ok io_done ∧ legacy_active_exposure (db opened_halted) = 0%nat ∧
    same_account Paper (polymarket fix_paper_config) Live (polymarket fix_live_config)).
Proof.
  apply (database_keeps_account io_done (storage fix_paper_config) Paper
    (polymarket fix_paper_config) (fix_sys "STARTING") fix_store opened opened_halted).
  - vm_compute. reflexivity.
  - apply rtc_once. apply (Database_work opened fix_store). apply Store_step, Op_service_state.
Defined.
End witnesses.
