(* ===== verification/PaperAccount.v ===== *)
(** * PaperAccount: the account of paper trading never goes below zero

    The decimals of the account are texts in the database, the arithmetic rounds,
    and orders, fills and cancellations of many tasks meet in it.  In every
    history of the store, what is owned and what is reserved stay numbers that
    are not negative, whatever is rounded on the way. *)
From S2P Require Import Prelude Text DecimalSpec RefDecimal Json Platform Domain Venue Fixtures Risk Schema StoreIntents StoreRisk StoreOrders StoreControl StorePaper StoreFixtures StoreLogic PaperVenue Lifecycle PaperFills PaperLedger OrderHistory Coordinator CoordinatorSteps CoordinatorFixtures PaperInterface.

(** What the crate says of results that are not exact: they are rounded to a
    decimal next to the exact one, so never past a number that is a decimal. *)
Class RoundingLaws `{DecimalOps} : Prop := {
  add_grows a b c : dec_add a b = Some c → (0 <= ⟦b⟧)%Q → (⟦a⟧ <= ⟦c⟧)%Q;
  add_swap a b : dec_add a b = dec_add b a;
  add_mono a b c a' b' c' :
    dec_add a b = Some c → dec_add a' b' = Some c' → (⟦a⟧ <= ⟦a'⟧)%Q → (⟦b⟧ <= ⟦b'⟧)%Q →
    (⟦c⟧ <= ⟦c'⟧)%Q;
  sub_shrinks a b c : dec_sub a b = Some c → (0 <= ⟦b⟧)%Q → (⟦c⟧ <= ⟦a⟧)%Q;
  sub_covered a b c : dec_sub a b = Some c → (⟦b⟧ <= ⟦a⟧)%Q → (0 <= ⟦c⟧)%Q;
  mul_positive a b c : dec_mul a b = Some c → (0 <= ⟦a⟧)%Q → (0 <= ⟦b⟧)%Q → (0 <= ⟦c⟧)%Q;
  mul_part a b c : dec_mul a b = Some c → (0 <= ⟦a⟧)%Q → (⟦b⟧ <= 1)%Q → (⟦c⟧ <= ⟦a⟧)%Q;
  div_positive a b c : dec_div a b = Some c → (0 <= ⟦a⟧)%Q → (0 <= ⟦b⟧)%Q → (0 <= ⟦c⟧)%Q;
  zero_text : ∃ z, dec_from_str "0" = Some z ∧ ⟦z⟧ == 0;
}.

(** ** The account *)
Section account.
Context `{DL : DecimalLaws} `{RL : !RoundingLaws} `{Platform} `{Codec}.
Variable self : Store.

(** A text that is a number, and not a negative one. *)
Definition amount (text : string) : Prop := ∃ v, dec_from_str text = Some v ∧ (0 <= ⟦v⟧)%Q.
Record account_ok (d : Db) : Prop := {
  ok_account a : paper_account d = Some a →
    amount (pa_quote_balance a) ∧ amount (pa_reserved_quote a);
  ok_inventory r : r ∈ paper_inventory d → amount (iv_shares r) ∧ amount (iv_reserved_shares r);
}.
Definition ledger_tables (d : Db) := (paper_account d, paper_inventory d).

Lemma amount_text v : (0 <= ⟦v⟧)%Q → amount (dec_text v).
Proof.
  intros Hv. destruct (dec_to_string_from_str (dec_normalize v)) as (v' & Hp & Ev).
  exists v'. split; [exact Hp|]. by rewrite Ev, dec_normalize_value.
Qed.
Lemma amount_zero : amount "0".
Proof. destruct zero_text as (z & Hz & Ez). exists z. split; [done|]. by rewrite Ez. Qed.
Lemma amount_parsed text v : amount text → parse_stored_decimal text = Done v → (0 <= ⟦v⟧)%Q.
Proof. intros (v' & Hv & Hn) Hp. apply ok_or_done in Hp. rewrite Hv in Hp. by injection Hp as <-. Qed.
Lemma max_zero v : (0 <= ⟦dec_max v dec_ZERO⟧)%Q.
Proof. pose proof (dec_max_ge_r v dec_ZERO) as Hm. by rewrite dec_ZERO_value in Hm. Qed.

Lemma account_tables d d' : ledger_tables d = ledger_tables d' → account_ok d → account_ok d'.
Proof. intros [= Ha Hi] []. split; [by rewrite <-Ha|by rewrite <-Hi]. Qed.
Lemma keeps_tables {A} (m : Prog Sys StoreError A) : frames ledger_tables m → keeps account_ok m.
Proof. apply keeps_frames, account_tables. Qed.

(** *** The balances *)
Record balances_ok (b : Balances) : Prop := {
  ok_quote : (0 <= ⟦quote_balance b⟧)%Q;
  ok_reserved_quote : (0 <= ⟦reserved_quote b⟧)%Q;
  ok_shares : (0 <= ⟦shares b⟧)%Q;
  ok_reserved_shares : (0 <= ⟦reserved_shares b⟧)%Q;
}.

(** Booking an order: what is free covers what is taken. *)
Lemma settle_ok b o b' : balances_ok b → amounts_ok o → settle b o = Done b' → balances_ok b'.
Proof.
  intros [Hq Hrq Hs Hrs] [Hf [Hfee Hfq] Hpq Hps] Hr. unfold settle in Hr.
  destruct (pc_side o); run_inv; dec_prop;
    match goal with Hb : mret _ = Done b' |- _ => injection Hb as <- end.
  - match goal with
    | Hd : dec_add (pc_quote_amount o) _ = Some ?debit, Ha : dec_sub (quote_balance b) _ = Some ?free,
      Hn : dec_add ?debit _ = Some ?needed, Hq' : dec_sub (quote_balance b) ?debit = Some _,
      Hr' : dec_add (reserved_quote b) _ = Some _, Hs' : dec_add (shares b) _ = Some _ |- _ =>
        pose proof (sub_shrinks _ _ _ Ha Hrq); pose proof (add_grows _ _ _ Hn Hpq);
        pose proof (sub_covered _ _ _ Hq' ltac:(lra)); pose proof (add_grows _ _ _ Hr' Hpq);
        pose proof (add_grows _ _ _ Hs' Hf)
    end. split; cbn; lra.
  - match goal with
    | Ha : dec_sub (shares b) (reserved_shares b) = Some ?free,
      Hn : dec_add (pc_filled_quantity o) _ = Some ?needed,
      Hs' : dec_sub (shares b) (pc_filled_quantity o) = Some _,
      Hr' : dec_add (reserved_shares b) _ = Some _, Hd : dec_sub (pc_quote_amount o) _ = Some ?net,
      Hq' : dec_add (quote_balance b) ?net = Some _ |- _ =>
        pose proof (sub_shrinks _ _ _ Ha Hrs); pose proof (add_grows _ _ _ Hn Hps);
        pose proof (sub_covered _ _ _ Hs' ltac:(lra)); pose proof (add_grows _ _ _ Hr' Hps);
        pose proof (sub_covered _ _ _ Hd Hfq) as Hnet; pose proof (add_grows _ _ _ Hq' Hnet)
    end. split; cbn; lra.
Qed.
(** A fill is checked after it is computed, and a reservation stops at zero. *)
Lemma settle_fill_ok b side limit a fill quote fee b' rq rs :
  balances_ok b → settle_fill b side limit a fill quote fee = Done (b', rq, rs) →
  dec_lt (quote_balance b') dec_ZERO || dec_lt (StorePaper.shares b') dec_ZERO = false →
  balances_ok b'.
Proof.
  intros [Hq Hrq Hs Hrs] Hr [Hcq Hcs]%orb_false_iff. unfold settle_fill in Hr.
  dec_prop. rewrite dec_ZERO_value in Hcq, Hcs.
  destruct side; run_inv; match goal with Hb : mret _ = Done _ |- _ => injection Hb as <- _ _ end;
    split; cbn in *; first [done|apply max_zero].
Qed.

(** *** The rows *)
Lemma load_balances_ok token s b s' :
  account_ok (db s) → load_balances token s = (Done b, s') → balances_ok b ∧ s' = s.
Proof.
  intros [Ha Hi] Hr. unfold load_balances in Hr.
  apply bind_done in Hr as (account & s1 & [-> ->]%gets_done & Hr).
  apply bind_done in Hr as (a & s1 & [Hrow%ok_or_done ->]%lift_done & Hr).
  apply bind_done in Hr as (quote & s1 & [Hq ->]%lift_done & Hr).
  apply bind_done in Hr as (reserved & s1 & [Hrq ->]%lift_done & Hr).
  apply bind_done in Hr as (row & s1 & [-> ->]%fetch_optional_done & Hr).
  destruct (Ha a Hrow) as [Hqa Hra].
  apply (amount_parsed _ _ Hqa) in Hq. apply (amount_parsed _ _ Hra) in Hrq.
  destruct (List.find _ _) as [r|] eqn:Hf.
  - apply List.find_some in Hf as [Hin%list_elem_of_In _]. destruct (Hi r Hin) as [Hsa Hha].
    apply bind_done in Hr as (owned & s1 & [Ho ->]%lift_done & Hr).
    apply bind_done in Hr as (held & s1 & [Hh ->]%lift_done & [= <- <-]).
    apply (amount_parsed _ _ Hsa) in Ho. apply (amount_parsed _ _ Hha) in Hh. done.
  - injection Hr as <- <-. split; [|done]. split; cbn; rewrite ?dec_ZERO_value; done.
Qed.
Lemma store_balances_ok token b now s u s' :
  balances_ok b → account_ok (db s) → store_balances token b now s = (Done u, s') →
  account_ok (db s').
Proof.
  intros Hb [Ha Hi] Hr. unfold store_balances in Hr.
  apply bind_done in Hr as ([] & s1 & ->%modify_done & [_ ->]%upsert_done). split.
  - intros a. cbn. destruct (paper_account (db s)); [|done]. intros [= <-].
    split; apply amount_text, Hb.
  - assert (∀ r, r ∈ paper_inventory (db s) ++ [mkInventoryRow token (dec_text (shares b))
      (dec_text (reserved_shares b)) now] → amount (iv_shares r) ∧ amount (iv_reserved_shares r)) as Hall.
    { intros r [Hr| ->%list_elem_of_singleton]%elem_of_app; [by apply Hi|].
      split; apply amount_text, Hb. }
    intros r. cbn. destruct (existsb _ _); [|by apply Hall]. unfold update_list.
    intros (r0 & -> & Hr0)%list_elem_of_fmap. case_match; apply Hall; set_solver.
Qed.

Lemma load_paper_order_reads v s r s' : load_paper_order v s = (Done r, s') → s' = s.
Proof.
  unfold load_paper_order. intros Hr.
  apply bind_done in Hr as (row & s1 & [_ ->]%fetch_optional_done & Hr).
  destruct row; [|by injection Hr]. 
  do 5 (apply bind_done in Hr as (? & ? & [_ ->]%lift_done & Hr)). by injection Hr.
Qed.
Lemma tables_kept {A} (m : Prog Sys StoreError A) s a s' :
  frames ledger_tables m → account_ok (db s) → m s = (Done a, s') → account_ok (db s').
Proof. intros Hf Hs Hr. pose proof (keeps_tables m Hf s Hs) as Hk. by rewrite Hr in Hk. Qed.

Lemma commit_ok o : amounts_ok o → keeps account_ok (commit_paper_order self o).
Proof.
  intros Ho. unfold commit_paper_order, paper_only. apply keeps_bind; [apply keeps_tables; frame|].
  intros _. apply keeps_transaction. intros s [snapshot ev] s' Hs Hr.
  apply bind_done in Hr as (existing & s1 & ->%load_paper_order_reads & Hr).
  destruct existing; [by apply (tables_kept _ s _ s') in Hr; [|frame|]|].
  apply bind_done in Hr as (b & s1 & [Hb ->]%load_balances_ok & Hr); [|done].
  apply bind_done in Hr as (b' & s1 & [Hsettle ->]%lift_done & Hr).
  apply (settle_ok b o b') in Hsettle; [|done..].
  apply bind_done in Hr as (now & s1 & [-> ->]%utc_now_done & Hr).
  apply bind_done in Hr as (u & s1 & Hstore & Hr).
  apply (store_balances_ok _ _ _ _ _ _ Hsettle) in Hstore; [|exact Hs].
  apply (tables_kept _ s1 _ s') in Hr; [done| |exact Hstore].
  unfold load_paper_order. frame.
Qed.

(** The loop over the resting orders. *)
Lemma fill_resting_ok e tp ts ob t row q limit rest s t' ev s' :
  balances_ok (ts_balances t) →
  fill_resting self e tp ts ob t row q limit rest s = (Done (t', ev), s') →
  balances_ok (ts_balances t').
Proof.
  intros Hb Hr. unfold fill_resting in Hr.
  do 8 (apply bind_done in Hr as (? & ? & [_ ->]%lift_done & Hr)).
  apply bind_done in Hr as ([[b' rq] rs] & s1 & [Hfill ->]%lift_done & Hr).
  apply bind_done in Hr as ([] & s1 & [Hc%negb_true_iff ->]%ensure_done & Hr).
  apply (settle_fill_ok _ _ _ _ _ _ _ _ _ _ Hb) in Hfill; [|exact Hc]. cbv zeta in Hr.
  do 6 (apply bind_done in Hr as (? & ? & _ & Hr)). by injection Hr as <- _ _.
Qed.
Lemma matched_fill_tables o v q p ids now :
  frames ledger_tables (apply_matched_fill self o v q p ids now).
Proof.
  unfold apply_matched_fill. frame. intros s. cbv beta. destruct (existsb _ _); [done|].
  revert s. apply frames_bind; [|intros ?]; frame.
Qed.
Hint Resolve matched_fill_tables : frames.
Lemma fill_resting_tables e tp ts ob t row q limit rest :
  frames ledger_tables (fill_resting self e tp ts ob t row q limit rest).
Proof. unfold fill_resting, fill_core_order, insert_transition. frame. Qed.
Hint Resolve fill_resting_tables : frames.
Lemma through_loop_tables e tp ts ob rows :
  ∀ t, frames ledger_tables (through_loop self e tp ts ob t rows).
Proof. induction rows as [|row rows IH]; intros t; cbn [through_loop]; frame. Qed.
Lemma through_loop_ok e tp ts ob rows : ∀ t s t' ev s',
  balances_ok (ts_balances t) →
  through_loop self e tp ts ob t rows s = (Done (t', ev), s') → balances_ok (ts_balances t').
Proof.
  induction rows as [|row rows IH]; intros t s t' ev s' Hb Hr; cbn [through_loop] in Hr.
  { by injection Hr as <- _ _. }
  destruct (dec_le _ _); [by injection Hr as <- _ _|].
  apply bind_done in Hr as (limit & s1 & [_ ->]%lift_done & Hr).
  destruct (negb _); [by eapply IH|].
  apply bind_done in Hr as (rest & s1 & [_ ->]%lift_done & Hr). cbv zeta in Hr.
  destruct (dec_le _ _); [by eapply IH|].
  apply bind_done in Hr as ([t1 ev1] & s1 & Hfill & Hr). apply fill_resting_ok in Hfill; [|done].
  apply bind_done in Hr as ([t2 ev2] & s2 & Hloop & Hr). apply IH in Hloop; [|done].
  by injection Hr as <- _ _.
Qed.
Lemma trade_through_ok e t p q ob : keeps account_ok (apply_paper_trade_through self e t p q ob).
Proof.
  unfold apply_paper_trade_through, paper_only.
  apply keeps_bind; [apply keeps_tables; frame|]. intros _.
  apply keeps_bind; [apply keeps_tables; frame|]. intros _.
  apply keeps_transaction. intros s [n ev] s' Hs Hr.
  apply bind_done in Hr as (created & s1 & [-> ->]%utc_now_done & Hr).
  apply bind_done in Hr as (k & s1 & Hi & Hr).
  apply (tables_kept _ _ _ s1) in Hi; [|frame|exact Hs].
  destruct (bool_decide _); [by injection Hr as _ _ <-|].
  apply bind_done in Hr as (b & s2 & [Hb ->]%load_balances_ok & Hr); [|done].
  apply bind_done in Hr as (rows & s2 & [-> ->]%gets_done & Hr).
  apply bind_done in Hr as ([t' ev'] & s2 & Hloop & Hr).
  pose proof Hloop as Hs2. apply (tables_kept _ s1 _ s2) in Hs2; [|apply through_loop_tables|exact Hi].
  apply through_loop_ok in Hloop; [|exact Hb].
  apply bind_done in Hr as (now & s3 & [-> ->]%utc_now_done & Hr).
  apply bind_done in Hr as (u & s3 & Hstore & Hr).
  apply (store_balances_ok _ _ _ _ _ _ Hloop) in Hstore; [|exact Hs2].
  by apply (tables_kept _ s3 _ s') in Hr; [|frame|].
Qed.

(** Cancelling gives back what is reserved, down to nothing. *)
Lemma set_account_ok row s u s' :
  amount (pa_quote_balance row) ∧ amount (pa_reserved_quote row) → account_ok (db s) →
  set_account (Some row) s = (Done u, s') → account_ok (db s').
Proof. intros Hrow [_ Hi] ->%modify_done. split; [by intros a [= <-]|exact Hi]. Qed.
Lemma update_inventory_ok p f s n s' :
  (∀ r, amount (iv_shares r) → amount (iv_shares (f r)) ∧ amount (iv_reserved_shares (f r))) →
  account_ok (db s) →
  update_where (R := InventoryRow) p f s = (Done n, s') → account_ok (db s').
Proof.
  intros Hf [Ha Hi] [_ ->]%update_where_done. split; [exact Ha|].
  intros r. cbn. intros (r0 & -> & Hr0)%list_elem_of_fmap.
  case_match; [apply Hf|]; by apply Hi.
Qed.
Lemma release_ok row s u s' :
  account_ok (db s) → release_reservations row s = (Done u, s') → account_ok (db s').
Proof.
  intros Hs Hr. unfold release_reservations in Hr.
  do 2 (apply bind_done in Hr as (? & ? & [_ ->]%lift_done & Hr)).
  apply bind_done in Hr as (now & s1 & [-> ->]%utc_now_done & Hr).
  apply bind_done in Hr as (account & s1 & [-> ->]%gets_done & Hr).
  apply bind_done in Hr as (a & s1 & [Ha%ok_or_done ->]%lift_done & Hr).
  do 2 (apply bind_done in Hr as (? & ? & [_ ->]%lift_done & Hr)).
  apply bind_done in Hr as (u1 & s1 & Hset & Hr).
  apply set_account_ok in Hset; [| |exact Hs].
  2: { split; [exact (proj1 (ok_account _ Hs _ Ha))|]. apply amount_text, max_zero. }
  apply bind_done in Hr as (inventory & s2 & [-> ->]%fetch_optional_done & Hr).
  apply bind_done in Hr as (n & s2 & Hu & Hr).
  apply (tables_kept _ s2 _ s') in Hr; [done|frame|].
  destruct (List.find _ _); [|by injection Hu as _ <-].
  do 2 (apply bind_done in Hu as (? & ? & [_ ->]%lift_done & Hu)).
  apply update_inventory_ok in Hu; [done| |done]. intros r Hr0. split; [done|].
  apply amount_text, max_zero.
Qed.
Lemma cancel_ok v : keeps account_ok (cancel_paper_order self v).
Proof.
  unfold cancel_paper_order, paper_only. apply keeps_bind; [apply keeps_tables; frame|].
  intros _. apply keeps_transaction. intros s [snapshot ev] s' Hs Hr.
  apply bind_done in Hr as (row & s1 & [_ ->]%fetch_optional_done & Hr).
  apply bind_done in Hr as (r & s1 & [_ ->]%lift_done & Hr).
  apply bind_done in Hr as (u & s1 & Hrel & Hr).
  assert (account_ok (db s1)) as Hs1.
  { destruct (is_terminal _); [by injection Hrel as _ <-|by eapply release_ok]. }
  apply (tables_kept _ s1 _ s') in Hr; [done| |done]. unfold load_paper_order. frame.
Qed.

(** The start of the account. *)
Lemma starting_ok raw v : parse_starting raw = Done v → (0 <= ⟦v⟧)%Q.
Proof.
  unfold parse_starting. intros (w & _ & ([] & Hw%reject_if_done & [= <-])%outcome_bind_done)
    %outcome_bind_done. dec_prop. by rewrite dec_ZERO_value in Hw.
Qed.
Lemma starting_position_ok now p s u s' :
  account_ok (db s) → insert_starting_position self now p s = (Done u, s') → account_ok (db s').
Proof.
  intros Hs Hr. unfold insert_starting_position in Hr.
  apply bind_done in Hr as (v & s1 & [Hv%starting_ok ->]%lift_done & Hr).
  apply bind_done in Hr as (inserted & s1 & Hins & Hr).
  apply (tables_kept _ s1 _ s') in Hr; [done|frame; destruct inserted as [[[]| | | | | | | | |]|]; frame|].
  unfold try in Hins. unfold insert in Hins.
  destruct (existsb _ _); [by injection Hins as _ <-|].
  destruct (refs _ _); [|by injection Hins as _ <-]. injection Hins as _ <-.
  destruct Hs as [Ha Hi]. split; [exact Ha|]. intros r. cbn.
  intros [Hr0| ->%list_elem_of_singleton]%elem_of_app; [by apply Hi|].
  split; [by apply amount_text|apply amount_zero].
Qed.
Lemma initialize_ok c : keeps account_ok (initialize_paper_account self c).
Proof.
  unfold initialize_paper_account, paper_only. apply keeps_bind; [apply keeps_tables; frame|].
  intros _. cbv zeta. intros s Hs. unfold mbind at 1, prog_bind at 1, lift at 1.
  destruct (parse_starting _) as [q| |] eqn:Hq; [|done..]. apply starting_ok in Hq.
  revert s Hs. apply keeps_transaction. intros s [u ev] s' Hs Hr.
  apply bind_done in Hr as (existing & s1 & [-> ->]%gets_done & Hr).
  destruct (pa_configuration_sha256 <$> _).
  { by apply (tables_kept _ s _ s') in Hr; [|frame|]. }
  apply bind_done in Hr as (now & s1 & [-> ->]%utc_now_done & Hr).
  apply bind_done in Hr as (u1 & s1 & Hset & Hr).
  apply set_account_ok in Hset; [| |exact Hs].
  2: { split; [by apply amount_text|apply amount_zero]. }
  apply bind_done in Hr as (u2 & s2 & Hall & Hr).
  apply (tables_kept _ s2 _ s') in Hr; [done|frame|]. clear Hr. revert s1 Hset Hall.
  induction (starting_positions c) as [|p l IH]; intros s1 Hset Hall; cbn [for_each] in Hall.
  - by injection Hall as _ <-.
  - apply bind_done in Hall as (u3 & s3 & Hp & Hall). apply starting_position_ok in Hp; [|done].
    by eapply IH.
Qed.

(** *** The operations of the store *)
(** The operations that write the account; the others leave its tables alone. *)
Inductive ledger_op : ∀ A, Prog Sys StoreError A → Prop :=
| Ledger_initialize c : ledger_op _ (initialize_paper_account self c)
| Ledger_commit o : ledger_op _ (commit_paper_order self o)
| Ledger_trade e t p q ob : ledger_op _ (apply_paper_trade_through self e t p q ob)
| Ledger_cancel v : ledger_op _ (cancel_paper_order self v).

Lemma attempts_tables i st f : frames ledger_tables (update_attempts i st f).
Proof. intros s. reflexivity. Qed.
Lemma snapshot_tables c t : frames ledger_tables (risk_snapshot c t).
Proof. intros s. reflexivity. Qed.
Lemma delete_tables c : frames ledger_tables (delete_events c).
Proof. intros s. reflexivity. Qed.
Lemma observe_tables current seen l : frames ledger_tables (observe_positions self current seen l).
Proof. apply frames_observe_positions; intros; reflexivity. Qed.
Hint Resolve attempts_tables snapshot_tables delete_tables observe_tables : frames.
Lemma store_op_tables d A (m : Prog Sys StoreError A) :
  store_op self d A m → frames ledger_tables m ∨ ledger_op A m.
Proof.
  intros Hop. destruct Hop; try solve [right; constructor]; left;
    solve [unfold_op; frame | unfold prune_events; frame].
Qed.

(** *** The orders that the paper venue books *)
(** Levels that are offers, and the rate of a fee. *)
Definition level_ok (level : PriceLevel) : Prop := (0 <= ⟦price level⟧ ∧ 0 <= ⟦size level⟧)%Q.
Definition rate_ok (rate : Decimal) : Prop := (0 <= ⟦rate⟧ <= 1)%Q.
Record paper_fill_ok (f : PaperFill) : Prop := {
  fill_shares_ok : (0 <= ⟦pf_shares f⟧)%Q;
  fill_quote_ok : (0 <= ⟦pf_quote f⟧)%Q;
  fill_fee_ok : (0 <= ⟦pf_fee f⟧ <= ⟦pf_quote f⟧)%Q;
}.
Lemma add_grows_r a b c : dec_add a b = Some c → (0 <= ⟦a⟧)%Q → (⟦b⟧ <= ⟦c⟧)%Q.
Proof. rewrite add_swap. apply add_grows. Qed.

(** One level: a fill of some shares of it at its price, with the fee on it. *)
Lemma add_fill_ok fill shares quote fee fill' :
  paper_fill_ok fill → (0 <= ⟦shares⟧)%Q → (0 <= ⟦quote⟧)%Q → (0 <= ⟦fee⟧ <= ⟦quote⟧)%Q →
  add_fill fill shares quote fee = Some fill' → paper_fill_ok fill'.
Proof.
  intros [Hs Hq [Hf Hfq]] Hs' Hq' [Hf' Hfq'] Ha. unfold add_fill in Ha.
  apply bind_Some in Ha as (s1 & Es & Ha). apply bind_Some in Ha as (q1 & Eq & Ha).
  apply bind_Some in Ha as (f1 & Ef & [= <-]).
  pose proof (add_grows _ _ _ Es Hs'). pose proof (add_grows _ _ _ Eq Hq').
  pose proof (add_grows _ _ _ Ef Hf'). pose proof (add_mono _ _ _ _ _ _ Ef Eq Hfq Hfq').
  split; cbn; lra.
Qed.
Lemma level_fill_ok rate level shares quote fee :
  rate_ok rate → level_ok level → (0 <= ⟦shares⟧)%Q → dec_mul shares (price level) = Some quote →
  dec_mul quote rate = Some fee → (0 <= ⟦quote⟧)%Q ∧ (0 <= ⟦fee⟧ <= ⟦quote⟧)%Q.
Proof.
  intros [Hr Hr1] [Hp _] Hs Eq Ef. pose proof (mul_positive _ _ _ Eq Hs Hp) as Hq.
  pose proof (mul_positive _ _ _ Ef Hq Hr). pose proof (mul_part _ _ _ Ef Hq Hr1). done.
Qed.
Lemma dec_min_positive a b : (0 <= ⟦a⟧)%Q → (0 <= ⟦b⟧)%Q → (0 <= ⟦dec_min a b⟧)%Q.
Proof. by destruct (dec_min_case a b) as [->| ->]. Qed.
Lemma dust_positive rest : dec_le rest dust = false → (0 <= ⟦rest⟧)%Q.
Proof.
  intros Hr. apply dec_le_false in Hr. unfold dust in Hr.
  rewrite dec_new_value in Hr by done. assert (0 <= 1 # pow10 6)%Q by done. lra.
Qed.
Lemma walk_asks_ok rate levels : ∀ fill rest fill',
  rate_ok rate → Forall level_ok levels → paper_fill_ok fill → (0 <= ⟦rest⟧)%Q →
  walk_asks rate fill rest levels = Some fill' → paper_fill_ok fill'.
Proof.
  induction levels as [|level levels IH]; intros fill rest fill' Hrate Hl Hfill Hrest Hw;
    cbn [walk_asks] in Hw; [by injection Hw as <-|].
  apply Forall_cons in Hl as [Hlevel Hl].
  apply bind_Some in Hw as (factor & Efa & Hw). apply bind_Some in Hw as (per & Epe & Hw).
  apply bind_Some in Hw as (aff & Eaf & Hw). cbv zeta in Hw.
  apply bind_Some in Hw as (quote & Eq & Hw). apply bind_Some in Hw as (fee & Ef & Hw).
  apply bind_Some in Hw as (fill1 & Ea & Hw). apply bind_Some in Hw as (cost & _ & Hw).
  apply bind_Some in Hw as (rest1 & _ & Hw).
  pose proof (add_grows _ _ _ Efa (proj1 Hrate)) as Hfactor. rewrite dec_ONE_value in Hfactor.
  pose proof (mul_positive _ _ _ Epe (proj1 Hlevel) ltac:(lra)) as Hper.
  pose proof (div_positive _ _ _ Eaf Hrest Hper) as Haff.
  pose proof (dec_min_positive _ _ (proj2 Hlevel) Haff) as Hsh.
  destruct (level_fill_ok _ _ _ _ _ Hrate Hlevel Hsh Eq Ef) as [Hq Hfe].
  pose proof (add_fill_ok _ _ _ _ _ Hfill Hsh Hq Hfe Ea) as Hfill1.
  destruct (dec_le rest1 dust) eqn:Hd; [by injection Hw as <-; destruct Hfill1; split|].
  eapply IH; [done..| |exact Hw]. by apply dust_positive.
Qed.
Lemma walk_bids_ok rate levels : ∀ fill rest fill',
  rate_ok rate → Forall level_ok levels → paper_fill_ok fill → (0 <= ⟦rest⟧)%Q →
  walk_bids rate fill rest levels = Some fill' → paper_fill_ok fill'.
Proof.
  induction levels as [|level levels IH]; intros fill rest fill' Hrate Hl Hfill Hrest Hw;
    cbn [walk_bids] in Hw; [by injection Hw as <-|].
  apply Forall_cons in Hl as [Hlevel Hl]. cbv zeta in Hw.
  apply bind_Some in Hw as (quote & Eq & Hw). apply bind_Some in Hw as (fee & Ef & Hw).
  apply bind_Some in Hw as (fill1 & Ea & Hw). apply bind_Some in Hw as (rest1 & _ & Hw).
  pose proof (dec_min_positive _ _ (proj2 Hlevel) Hrest) as Hsh.
  destruct (level_fill_ok _ _ _ _ _ Hrate Hlevel Hsh Eq Ef) as [Hq Hfe].
  pose proof (add_fill_ok _ _ _ _ _ Hfill Hsh Hq Hfe Ea) as Hfill1.
  destruct (dec_le rest1 dust) eqn:Hd; [by injection Hw as <-; destruct Hfill1; split|].
  eapply IH; [done..| |exact Hw]. by apply dust_positive.
Qed.
Lemma no_fill_ok : paper_fill_ok PaperFill_default.
Proof. split; cbn; rewrite ?dec_ZERO_value; done. Qed.
Lemma walk_book_ok book side requested worst rate fill :
  rate_ok rate → Forall level_ok (bids book) → Forall level_ok (asks book) →
  (0 <= ⟦requested⟧)%Q → walk_book book side requested worst rate = Some fill → paper_fill_ok fill.
Proof.
  intros Hrate Hbids Hasks Hreq. unfold walk_book, reachable_levels.
  assert (∀ (le : PriceLevel → PriceLevel → bool) p l, Forall level_ok l →
    Forall level_ok (List.filter p (stable_sort le l))) as Hsub.
  { intros le p l Hl. apply Forall_forall. intros x Hx%list_elem_of_In%filter_In.
    destruct Hx as [Hx%list_elem_of_In _]. rewrite stable_sort_perm in Hx.
    by eapply Forall_forall in Hl. }
  destruct side; [apply walk_asks_ok|apply walk_bids_ok]; auto using no_fill_ok.
Qed.

(** An order of a valid request has sound amounts. *)
Lemma order_commit_ok prepared request tick rate p q fill o :
  rate_ok rate → (0 <= ⟦p⟧)%Q → (0 <= ⟦q⟧)%Q → paper_fill_ok fill →
  order_commit prepared request tick rate p q fill = Done o → amounts_ok o.
Proof.
  intros [Hr Hr1] Hp Hq Hfill Ho. unfold order_commit in Ho. cbv zeta in Ho.
  apply outcome_bind_done in Ho as (reserved & Hres & Ho).
  apply outcome_bind_done in Ho as (original & _ & Ho).
  apply outcome_bind_done in Ho as (fp & _ & [= <-]).
  set (applied := if _ && _ then PaperFill_default else fill).
  assert (paper_fill_ok applied) as [Hs Hqu Hfe].
  { subst applied. destruct ((_ ≟ Fok) && _); [apply no_fill_ok|done]. }
  split; cbn; [exact Hs|exact Hfe| |].
  - destruct (_ && _) in Hres; [|injection Hres as <-; by rewrite dec_ZERO_value].
    apply outcome_bind_done in Hres as (a & Ha%or_panic_done & Hres).
    apply outcome_bind_done in Hres as (f & Hf%or_panic_done & Hres%or_panic_done).
    pose proof (mul_positive _ _ _ Ha Hq Hp). pose proof (add_grows _ _ _ Hf Hr) as Hf1.
    rewrite dec_ONE_value in Hf1. eapply mul_positive; [exact Hres|done|lra].
  - destruct (_ && (_ ≟ Sell)); [done|by rewrite dec_ZERO_value].
Qed.
End account.

(** *** Histories of paper trading *)
Section venue.
Context `{DL : DecimalLaws} `{RL : !RoundingLaws} `{Platform} `{Codec} `{PaperMarket}.
Variable self : Store.
Variable clob_url : string.

(** The exchange publishes offers and fees in their ranges. *)
Record sane_exchange : Prop := {
  sane_book token sv book sv' : paper_order_book clob_url token sv = (Done book, sv') →
    Forall level_ok (bids book) ∧ Forall level_ok (asks book);
  sane_rates c t sv market sv' : paper_market_rules clob_url c t sv = (Done market, sv') →
    rate_ok (dec_max (maker_fee_rate market) (taker_fee_rate market));
}.

(** A submission books an order of sound amounts, or changes nothing. *)
Definition books (s s' : Sys) : Prop :=
  s' = s ∨ ∃ o, amounts_ok o ∧ s' = (commit_paper_order self o s).2.
Lemma books_bind {A B} (m : Prog (Sys * PaperState) VenueError A)
    (k : A → Prog (Sys * PaperState) VenueError B) sv :
  silent m → (∀ a sv', m sv = (Done a, sv') → books sv'.1 (k a sv').2.1) →
  books sv.1 ((m ≫= k) sv).2.1.
Proof.
  intros Hm Hk. specialize (Hm sv). unfold mbind, prog_bind.
  destruct (m sv) as [[a|e|] sv1]; cbn in *; [|by left..].
  rewrite <-Hm. by apply Hk.
Qed.
Lemma submit_books prepared request sv :
  sane_exchange → books sv.1 (paper_submit self clob_url prepared request sv).2.1.
Proof.
  intros [Hbook Hrates]. unfold paper_submit.
  apply books_bind; [apply order_book_silent|]. intros book sv1 [Hbids Hasks]%Hbook.
  apply books_bind; [apply market_rules_silent|]. intros market sv2 Hrate%Hrates.
  apply books_bind; [by intros ?|]. intros p sv3 [Hp%map_err_done ->]%lift_done.
  apply protection_price_done in Hp as (raw & _ & (_ & Hp & _) & _).
  apply books_bind; [by intros ?|]. intros q sv4 [Hq%map_err_done ->]%lift_done.
  apply quantity_decimal_done in Hq as (_ & Hq & _). cbv zeta.
  apply books_bind.
  { destruct (is_immediate request); [by intros ?|].
    apply silent_then; [apply ensure_subscription_silent|by intros ? ?]. }
  intros fill sv5 Hfill.
  assert (paper_fill_ok fill) as Hok.
  { destruct (is_immediate request).
    - apply lift_done in Hfill as [Hw%or_panic_done _].
      apply walk_book_ok in Hw; [done..|]. lra.
    - apply bind_done in Hfill as (u & sv6 & _ & Hret). injection Hret as <- _. apply no_fill_ok. }
  apply books_bind; [by intros ?|]. intros o sv6 [Ho ->]%lift_done.
  apply order_commit_ok in Ho; [|done|lra|lra|done].
  right. exists o. split; [done|]. unfold mbind, prog_bind, ledger.
  by destruct (commit_paper_order self o sv5.1) as [[]].
Qed.

(** What happens to the database of a paper service: the operations of the store that
    leave the account alone, its opening, the fills of the trade streams, the
    cancellations, and the submissions of the venue, which alone book orders;
    by [store_op_tables] there are no others. *)
Inductive paper_step (s : Sys) : Sys → Prop :=
| Paper_operation A (m : Prog Sys StoreError A) :
    store_op self (db s) A m → frames ledger_tables m → paper_step s (m s).2
| Paper_opened c : paper_step s (initialize_paper_account self c s).2
| Paper_trade e t p q ob : paper_step s (apply_paper_trade_through self e t p q ob s).2
| Paper_cancelled v : paper_step s (cancel_paper_order self v s).2
| Paper_submission prepared request p :
    paper_step s (paper_submit self clob_url prepared request (s, p)).2.1.

(** C33. The account of paper trading never goes below zero.  Start from a database
    whose account is sound - a new one is - and let any operations of the store
    and any submissions to the paper venue follow, while the exchange publishes
    offers and fees in their ranges: the quote, the shares, and what is
    reserved of them, stay numbers that are not negative.  Nothing is asked of
    the arithmetic but that it rounds to a decimal next to the exact result. *)
Theorem paper_account_never_negative s s' :
  sane_exchange → account_ok (db s) → rtc paper_step s s' → account_ok (db s').
Proof.
  intros Hsane Hs Hsteps. induction Hsteps as [|s s1 s2 Hstep _ IH]; [done|]. apply IH.
  destruct Hstep as [A m _ Hm|c|e t p q ob|v|prepared request p].
  - by apply keeps_tables.
  - by apply initialize_ok.
  - by apply trade_through_ok.
  - by apply cancel_ok.
  - destruct (submit_books prepared request (s, p) Hsane) as [->|(o & Ho & ->)]; [done|].
    by apply (commit_ok self o Ho).
Qed.
End venue.

(** ** Witnesses *)
Section reference.
(** The reference decimals keep every sum and product exactly. *)
Lemma rcheck_same d c : rcheck d = Some c → c = d.
Proof. unfold rcheck. destruct (_ <=? _); [done|]. by intros [= <-]. Qed.
Lemma radd_sum a b c : radd a b = Some c → rvalue c == rvalue a + rvalue b.
Proof. intros ->%rcheck_same. apply radd_value. Qed.
Lemma rsub_difference a b c : rsub a b = Some c → rvalue c == rvalue a - rvalue b.
Proof. intros ->%rcheck_same. apply rsub_value. Qed.
Lemma rmul_product a b c : rmul a b = Some c → rvalue c == rvalue a * rvalue b.
Proof. intros ->%rcheck_same. apply rmul_value. Qed.
Lemma rvalue_positive d : (0 <= rvalue d)%Q ↔ 0 <= rmant d.
Proof. unfold rvalue, Qle. cbn. lia. Qed.

Lemma RefRounding : @RoundingLaws RefOps.
Proof.
  split; cbn.
  - intros a b c Hc%radd_sum Hb. rewrite Hc. lra.
  - intros a b. unfold radd. rewrite N.max_comm. by rewrite Z.add_comm.
  - intros a b c a' b' c' ->%radd_sum ->%radd_sum Ha Hb. lra.
  - intros a b c ->%rsub_difference Hb. lra.
  - intros a b c ->%rsub_difference Hb. lra.
  - intros a b c ->%rmul_product Ha Hb. by apply Qmult_le_0_compat.
  - intros a b c ->%rmul_product Ha Hb. nra.
  - intros a b c Hc Ha%rvalue_positive Hb%rvalue_positive. unfold rdiv in Hc.
    destruct (Z.eqb_spec (rmant b) 0) as [|Hn]; [done|]. apply rcheck_same in Hc as ->.
    apply rvalue_positive. cbn. pose proof (pow10_pos (rscale a)).
    apply Z.quot_pos; [|nia]. apply Z.mul_nonneg_nonneg; [done|]. apply Z.pow_nonneg. lia.
  - by exists (RefDec 0 0).
Qed.
End reference.

Section witnesses.
#[local] Existing Instance RefOps.
#[local] Existing Instance RefLaws.
#[local] Existing Instance RefRounding.
#[local] Existing Instance RefPlatform.
#[local] Existing Instance CoordinatorCodec.
#[local] Existing Instance FixMarket.

Definition fix_offer : PriceLevel := mkPriceLevel (RefDec 55 2) (RefDec 100 0).
Lemma book_reply n token (s s' : Sys * PaperState) v :
  (match http_get n ("http://clob" +:+ "/book") [("token_id", token)] return Prog (Sys * PaperState) VenueError Value with
  | SendError e | StatusError e | BodyError e => fail (VenueError.Unavailable e)
  | Body v => mret v
  end) s = (Done v, s') → v = fix_book_json.
Proof. cbn. by intros [= <- _]. Qed.
Lemma book_bids : parse_levels fix_book_json "bids" = Done [].
Proof. vm_compute. reflexivity. Qed.
Lemma book_asks : parse_levels fix_book_json "asks" = Done [fix_offer].
Proof. vm_compute. reflexivity. Qed.
Lemma fix_sane : sane_exchange "http://clob".
Proof.
  split.
  - intros token sv book sv' Hb.
    assert (bids book = [] ∧ asks book = [fix_offer]) as [-> ->].
    { unfold paper_order_book in Hb. apply bind_done in Hb as (n & s1 & _ & Hb).
      apply bind_done in Hb as (v & s2 & Hv & Hb). apply book_reply in Hv as ->.
      apply bind_done in Hb as (lb & s3 & [Hlb _]%lift_done & Hb).
      apply bind_done in Hb as (la & s4 & [Hla _]%lift_done & Hb).
      apply bind_done in Hb as (now & s5 & _ & Hb). injection Hb as <- _.
      rewrite book_bids in Hlb. rewrite book_asks in Hla. by simplify_eq. }
    split; [done|]. apply Forall_singleton. split; vm_compute; discriminate.
  - intros c t sv market sv' Hm.
    assert (maker_fee_rate market = RefDec 0 0 ∧ taker_fee_rate market = RefDec 0 0) as [-> ->].
    { unfold paper_market_rules in Hm. apply bind_done in Hm as (v & s1 & Hv & Hm).
      vm_compute in Hv. injection Hv as <- _.
      do 3 (apply bind_done in Hm as (? & ? & _ & Hm)).
      apply bind_done in Hm as (now & s2 & _ & [= <- _]). split; vm_compute; reflexivity. }
    split; vm_compute; discriminate.
Qed.

(** A new account of 100, an order of ten shares, and a trade through its limit. *)
Definition account_new : Sys := fix_sys "READY".
Definition account_opened : Sys :=
  (initialize_paper_account fix_store (mkPaperConfig "100" []) account_new).2.
Definition account_booked : Sys :=
  (paper_submit fix_store "http://clob" fake_prepared fix_request
    (account_opened, mkPaperState ∅ ∅ 0)).2.1.
Definition account_filled : Sys :=
  (apply_paper_trade_through fix_store "event" "123" (RefDec 4 1) (RefDec 4 0) (fix_now + seconds 9)
    account_booked).2.
Definition account_cancelled : Sys := (cancel_paper_order fix_store "fake-1" account_filled).2.
Definition account_texts (s : Sys) : option (string * string) :=
  (λ a, (pa_quote_balance a, pa_reserved_quote a)) <$> paper_account (db s).
Example account_run :
  account_texts <$> [account_opened; account_booked; account_filled; account_cancelled] =
  [Some ("100", "0"); Some ("100", "5.00"); Some ("98.4", "3.00"); Some ("98.4", "0.00")].
Proof. vm_compute. reflexivity. Qed.

Notation step := (paper_step fix_store "http://clob").
Lemma account_steps : rtc step account_new account_cancelled.
Proof.
  assert (step account_new account_opened) as H1 by exact (Paper_opened _ _ _ _).
  assert (step account_opened account_booked) as H2 by exact (Paper_submission _ _ _ _ _ _).
  assert (step account_booked account_filled) as H3 by exact (Paper_trade _ _ _ _ _ _ _ _).
  assert (step account_filled account_cancelled) as H4 by exact (Paper_cancelled _ _ _ _).
  eapply rtc_l; [exact H1|]. eapply rtc_l; [exact H2|]. eapply rtc_l; [exact H3|].
  by apply rtc_once.
Qed.
Lemma paper_account_never_negative_witness :
  account_texts account_cancelled = Some ("98.4", "0.00") ∧ account_ok (db account_cancelled).
Proof.
  split; [vm_compute; reflexivity|].
  apply (paper_account_never_negative fix_store "http://clob" account_new account_cancelled).
  - apply fix_sane.
  - split; [discriminate|]. intros r Hr. by apply not_elem_of_nil in Hr.
  - apply account_steps.
Defined.
End witnesses.
